(* ===== verification/_CoqProject ===== *)
-Q . S2P
Prelude.v
Descriptors.v
Machine.v
Io.v
Serial.v
Print.v
Console.v
Cpu.v
Report.v
LibString.v
Pmm.v
PmmInv.v
PmmInit.v
PmmBoot.v
PmmSpec.v
Paging.v
Mmu.v
Vmm.v
Boot.v
TypeSafety.v
VmmInv.v
VmmSteps.v
VmmMap.v
VmmRange.v
KernelSpace.v
Linker.v
Screen.v
BootLog.v
BootRun.v
Sample.v
PmmTheorems.v
VmmTheorems.v
VmmSpec.v
Exhaustion.v
KernelTheorems.v
ConsoleTheorems.v
Packed.v
CpuTheorems.v
Isr.v
BootTheorems.v
Runner.v
HostTests.v
