(* ===== verification/Prelude.v ===== *)
(** * A verification of the WaterBuffalo kernel

    WaterBuffalo is an x86_64 kernel in C++.  Limine loads it and calls
    [kmain] (src/src/main.cpp), which installs a GDT and an IDT, starts the
    serial port, checks what the boot loader delivered, starts the frame
    allocator on the memory map, builds an address space of its own out of
    frames of that allocator, loads it, draws the framebuffer and ends with a
    write through a null pointer that the exception handler reports.

    ** The parts and how they interact

    All the parts share one machine: the frame allocator keeps its bitmap in
    the memory it manages, the page tables live in frames the allocator handed
    out, and every part prints through one sink.  So there is one state,
    [Machine.machine]: 64-bit words at 8-byte aligned addresses, which
    addresses can be read and which can be written, the 32-bit words of video
    memory, the descriptor tables, the static variables of pmm.cpp, print.cpp, serial.cpp, gdt.cpp and idt.cpp,
    the registers the code loads and the state of the devices behind the I/O
    ports.  A C++ function with effects is a computation of the monad
    [Machine.M]: it returns a value, stops the processor for ever, or faults
    where C++ or the processor gives the code no meaning.  Unsigned integers
    are [Z] with the reduction of their width written at each operation; a C
    string is the [string] of the characters before its terminator, and a pointer
    to one that may be null is an [option].  The output sink is null or
    [serial::putc], the one function the kernel passes to [set_sink].

    The files, with the code each models:

    - [Prelude]: fixed-width arithmetic, its tactics and the shared lemmas.
    - [Descriptors] ([Gdt], [Idt]): [make_descriptor] and [make_entry] of
      arch/x86_64/gdt.hpp and idt.hpp.
    - [Machine]: the state, the monad, the [for] loops on a wrapping counter,
      and the weakest precondition [wp] with its rules; [halts] is its
      counterpart for a computation that stops the processor, and [keeps] the
      judgement for a computation that ends, and an invariant that holds however
      it does.
    - [Io]: the class template [Port] of io.hpp, for its three widths.
    - [Serial]: the driver in serial.cpp.
    - [Print]: lib/print.cpp, with [render], an independent definition of the
      text a format denotes.
    - [Console]: the interfaces [Transmitter] and [Registers] between the
      driver and a UART, the second a description of the 16550's registers one by
      one, and [Uart], a concrete UART that meets them; and
      [Console], what code that prints relies on, with the judgements [tells]
      and [ends] that carry the text said.  Every device is a [Console] of
      which nothing is known, a working UART one whose bytes are, so a run is
      followed once for both.
    - [Cpu] ([Cpu], [Interrupts]): [gdt::init], [idt::init], the stack isr.S
      builds, as a list of words, and [isr_handler] of interrupts.cpp.
    - [Packed]: the bytes of a gate and of the operands of [lgdt] and [lidt],
      and how the processor decodes them.
    - [Isr]: arch/x86_64/isr.S instruction by instruction, the delivery of an
      exception and [iretq], on the registers and the memory of one processor.
    - [Report]: the text of an exception report.
    - [LibString]: lib/string.cpp on a byte memory.
    - [Pmm]: mm/pmm.cpp.  [PmmInv] has the invariant, the memory the managers
      may write ([held], [touches]) and a lemma for each operation, [PmmInit] the phases of the initialisation, [PmmBoot] the whole
      of it with what it prints, [PmmSpec] the abstract allocator, a set of
      free frames.
    - [Paging]: entries, flags, virtual addresses and [align_up], of
      mm/vmm.hpp.
    - [Mmu]: the processor's own page walk, [hw_access]: the physical address
      and the rights of a virtual address.  It is the reference the paging
      code is judged by, and models the processor, not the program.
    - [Vmm]: mm/vmm.cpp and the MSR accessors of arch/x86_64/msr.hpp.
      [VmmInv] has the invariant of the page tables, [VmmSteps] the table
      operations, [VmmMap] [map_page] and [map_page_large], [VmmRange] the
      range operations, proved for any [PageMapper] and used at both page
      sizes, and [KernelSpace] [build_kernel_address_space] as a list of
      segments.  [VmmSpec] is the abstract address space, a finite map of
      pages, which the operations refine; [Exhaustion] follows the mapping code
      when no frame is left.
    - [Boot]: main.cpp; [kmain] is cut at its own headings, the checks of the
      boot loader's answers ([verify_base]), the construction of the address
      space ([build_space]) and what runs in it ([run_kernel]).  [Screen] has the framebuffer, [BootLog] the text of a
      boot and of a refusal, [BootRun] the run of [kmain] on any [Console].
    - [TypeSafety]: the width of every object, and that every operation ends and
      keeps to it.
    - [Linker]: the layout of linker.lds, as the symbols [kmain] reads.
    - [Sample]: a concrete machine and memory map the theorems with hypotheses
      are applied to.
    - [PmmTheorems], [VmmTheorems], [KernelTheorems], [ConsoleTheorems],
      [CpuTheorems], [BootTheorems], and the ends of [LibString], [VmmSpec],
      [Isr] and [Exhaustion]: the theorems.
    - [Runner]: the test framework, tests/test.hpp and tests/runner.cpp.
    - [HostTests]: the tests under tests/, run on the model.

    ** What the theorems show

    - The frame allocator.  [init] leaves free exactly the frames that lie wholly
      inside a usable region and are no part of its bitmap, and stops on a map
      with no usable memory or no room for the bitmap; every sequence
      of requests, invalid frees among them, behaves as a set of frames;
      live frames are distinct; an allocation never returns a frame that a
      client holds.
    - Page tables.  [translate] agrees with the processor's walk; a successful
      [map_page] or [map_page_large] adds that page with those rights and
      changes no other address; the range operations map each address of the
      range and nothing else, and refuse a bad range before they write; the
      frames they need are exactly those of the tables the range lacks; no
      sequence of page mappings that finds frames for its tables changes an
      address that is mapped ([mappings_stable]).
      [address_space_refines]: every sequence of requests, refused ones and
      ranges that stop half-way among them, with any 64-bit arguments and any
      flags, behaves as a map from pages to physical pages, on the condition that
      there are free frames for all the tables the requests may need.
    - The kernel's address space.  [build_kernel_address_space] gives exactly
      the direct map and the four parts of the image, each with its rights; no
      address of it is both writable and executable; every byte of every
      region of the memory map is reachable through the direct map, and the
      addresses below it are not mapped.  For an image the linker script lays
      out each section gets its rights, and the number of frames that is
      enough is given in terms of the span of the direct map and of the image.
      That span is [direct_size], the end of the memory map rounded up, defined
      without the scan of the code.
    - Output.  [kprintf_exact]: on every format and every argument list
      [kprintf] sends exactly the rendered text, or faults where an argument is
      missing or of another type or the format ends in %l; the bytes sent for a
      number read back as that number; the driver brings a 16550 up at the rate
      asked for, its probe of any device ends, and
      [getc] returns a byte that arrives within its polls and nothing otherwise.
    - Exceptions.  The bytes of the tables decode, on the processor's side, to
      the intended segments and gates.  From the delivery of any vector through
      its stub to the call, the code in isr.S hands the handler the frame
      [InterruptFrame] describes; with a handler that keeps the ABI the
      interrupted registers, flags and stack come back; and the two together
      with the handler give the report of the values at the exception.
    - The boot sequence.  On what a correct boot loader delivers [kmain] ends
      in the intended page fault, in its own address space with every pixel
      drawn, whatever the serial device does; on anything it checks for, it
      stops before it writes memory.  On a working UART the bytes sent are
      exactly the log, that of a refusal (the lines up to the first failed check
      and its message) and of a failed construction of the address space too ([sample_log] is one in full).  [kmain_no_frames]
      follows a boot whose bitmap takes the last frame down to that message.
    - Memory.  [kmain_confined]: such a boot writes usable memory and pixels, and
      no other word; [init_exact], [map_page_correct], [address_space_refines]
      and [build_exact] say the same of the managers, down to the bitmap and the
      frames the allocator has.
    - Termination.  [kmain_ends]: on every input and every device [kmain] stops
      or faults, no loop runs for ever; [TypeSafety] carries the widths the
      bounds of the loops depend on.
    - Where the code departs from its comments.  [map_page_exhausted] (with no
      frame left a mapping reports success, takes frame 0 for its three tables
      and maps nothing), [alloc_frame_zero] (0 stands for exhaustion and for frame
      0), [kprintf_exact] (a format that ends in %l) and
      [build_maps_frame_zero] prove what it does there, and
      [vmm_tests_bitmap_outside] that the tests of the paging code put the
      allocator's bitmap outside their memory.
    - The model itself.  Every check of the repository's tests holds when they
      are run on it; [Runner.exit_status]: the runner executes them all and its
      exit status is 0 exactly when they all hold.

    ** Loops and fuel

    A [for] loop has the number of its iterations as fuel
    ([Machine.for_range]); [Machine.wp_loop] shows it is enough when the bound
    is reached without wrapping, and every use discharges that condition; by
    [Machine.keeps_for_range] the condition holds for the loops of the kernel on
    every input, the guards on sizes included.  The digit
    loops of print.cpp have fuel 64, one step for each bit of a 64-bit value; the
    recursion of [Serial.putc] is one level deep.  Running out is a result of
    its own, which [wp] and [halts] exclude, so that a theorem stated with them
    says that the code gets there.

    ** Parameters

    The device behind the I/O ports ([Machine.PortDevice]); the responses of
    the boot loader, the sizes and alignments of the linked sections, the
    addresses the linker gave the tables and the stubs, and the registers at an
    exception, which are arguments.  In [Isr] the compiled handler, the flags an
    addition leaves and the return address of a call are arguments too; what is
    assumed of the handler is the System V ABI, [Isr.returns].  The theorems about text on the wire assume
    [Transmitter], those about a whole boot also [Registers].

    ** What is not modelled

    - The boot loader's header third_party/limine, the Makefile and the
      configuration of the boot loader: not code of the kernel.
    - Caches, the TLB and hardware interrupts: the kernel is a single thread
      that never enables interrupts, and no entry loses a right once it is
      present.
    - Instruction fetches and the stack: a load of CR3 restricts the data the
      code can read and write, [Vmm.load_address_space], while the code that runs
      is the model's; that the image is mapped executable is [build_exact].
    - An overlap of the framebuffer with memory: the pixels are words of the
      device, kept in a map of their own ([Machine.video]), as the boot loader's
      map keeps the framebuffer apart from usable memory.  The descriptor tables
      and the other static variables are fields of the state, not words of the
      memory either: the allocator's frames are usable memory, the image is not.
    - The byte memory of [LibString] is apart from the machine's word memory:
      no code of the kernel calls these functions by name.
    - What a kernel whose frames run out part of the way through its address
      space goes on to do with tables that overwrite each other in frame 0:
      [Exhaustion] follows the mapping code when no frame is left, and
      [kmain_no_frames] a boot that has none; in between, the outcome depends on
      what the words of frame 0 happen to be taken for.

    ** State

    Every implementation file of the kernel is modelled, with isr.S and the
    packed tables at the level the processor sees, the linker script, the host
    tests and their runner; the allocator and the address space have abstract
    specifications they refine; the frame accounting of the mapping code is
    exact; and a boot is followed to its end, with its text, its memory and its
    termination. *)

From Stdlib Require Import ZArith Lia.
From stdpp Require Import base numbers list gmap sets.
Local Open Scope Z_scope.

(** ** Fixed-width unsigned integers

    A w-bit unsigned integer of the program is a [Z] in [0, 2^w).  The
    arithmetic of the program wraps, so every operation that can leave that
    interval is followed by the reduction of its width. *)

Definition two64 : Z := 18446744073709551616.
Definition UINT64_MAX : Z := 18446744073709551615.

Definition u64 (x : Z) : Z := x mod 18446744073709551616.
Definition u32 (x : Z) : Z := x mod 4294967296.
Definition u16 (x : Z) : Z := x mod 65536.
Definition u8 (x : Z) : Z := x mod 256.

(** The value of a two's-complement integer held in the low bits of a slot. *)
Definition s32 (x : Z) : Z :=
  let y := u32 x in if y <? 2147483648 then y else y - 4294967296.
Definition s64 (x : Z) : Z :=
  let y := u64 x in if y <? 9223372036854775808 then y else y - 18446744073709551616.

Lemma s32_range x : -2147483648 <= s32 x < 2147483648.
Proof.
  unfold s32, u32. pose proof (Z.mod_pos_bound x 4294967296).
  destruct (Z.ltb_spec (x mod 4294967296) 2147483648); lia.
Qed.

Definition is_u64 (x : Z) : Prop := 0 <= x < 18446744073709551616.

Declare Scope u64_scope.
Delimit Scope u64_scope with u64.
Notation "x + y" := (u64 (Z.add x%u64 y%u64)) : u64_scope.
Notation "x - y" := (u64 (Z.sub x%u64 y%u64)) : u64_scope.
Notation "x * y" := (u64 (Z.mul x%u64 y%u64)) : u64_scope.
Notation "x / y" := (Z.div x%u64 y%u64) (only parsing) : u64_scope.
Notation "x 'mod' y" := (Z.modulo x%u64 y%u64) (only parsing) : u64_scope.
Notation "x .& y" := (Z.land x%u64 y%u64) (at level 34, left associativity) : u64_scope.
Notation "x .| y" := (Z.lor x%u64 y%u64) (at level 36, left associativity) : u64_scope.
Notation ".~ x" := (u64 (Z.lnot x%u64)) (at level 30, right associativity) : u64_scope.
Notation "x << n" := (u64 (Z.shiftl x%u64 n%u64)) (at level 32, left associativity) : u64_scope.
Notation "x >> n" := (Z.shiftr x%u64 n%u64) (at level 32, left associativity) : u64_scope.

(** ** Arithmetic automation *)

Ltac dlia := Z.div_mod_to_equations; lia.
Ltac dnia := Z.div_mod_to_equations; nia.

Create HintDb u64.
Create Rewrite HintDb u64.

Lemma u64_small x : is_u64 x → u64 x = x.
Proof. unfold u64, is_u64. apply Z.mod_small. Qed.

Lemma u64_range x : is_u64 (u64 x).
Proof. unfold u64, is_u64. apply Z.mod_pos_bound. lia. Qed.

Lemma u64_add_l x y : u64 (u64 x + y) = u64 (x + y).
Proof. unfold u64. by rewrite Zplus_mod_idemp_l. Qed.

Lemma u64_add_r x y : u64 (x + u64 y) = u64 (x + y).
Proof. unfold u64. by rewrite Zplus_mod_idemp_r. Qed.

Lemma u64_sub_l x y : u64 (u64 x - y) = u64 (x - y).
Proof. unfold u64. by rewrite Zminus_mod_idemp_l. Qed.

Lemma u64_idemp x : u64 (u64 x) = u64 x.
Proof. unfold u64. by rewrite Zmod_mod. Qed.

#[export] Hint Rewrite u64_add_l u64_add_r u64_sub_l u64_idemp : u64.
#[export] Hint Resolve u64_range : u64.

(** Removes the reductions whose operand is already in range. *)
Ltac u64_simpl :=
  repeat match goal with
  | |- context [u64 ?e] => rewrite (u64_small e) by (unfold is_u64 in *; lia)
  end.
Ltac u64_simpl_in H :=
  repeat match type of H with
  | context [u64 ?e] => rewrite (u64_small e) in H by (unfold is_u64 in *; lia)
  end.

(** ** Bits *)

Lemma is_u64_testbit_high x n : is_u64 x → 64 <= n → Z.testbit x n = false.
Proof.
  intros Hx Hn. unfold is_u64 in Hx.
  rewrite <- (Z.mod_small x (2 ^ 64)) by (change (2 ^ 64) with two64; unfold two64; lia).
  apply Z.mod_pow2_bits_high. lia.
Qed.

Lemma is_u64_of_bits x : 0 <= x → (∀ n, 64 <= n → Z.testbit x n = false) → is_u64 x.
Proof.
  intros Hx Hbits. split; [done |].
  change 18446744073709551616 with (2 ^ 64).
  destruct (decide (x = 0)) as [-> | Hne]; [reflexivity |].
  apply Z.log2_lt_pow2; [lia |].
  destruct (Z_lt_le_dec (Z.log2 x) 64) as [| Hge]; [done |].
  specialize (Hbits _ Hge). rewrite Z.bit_log2 in Hbits by lia. done.
Qed.

Lemma u64_testbit x n : 0 <= n → Z.testbit (u64 x) n = (n <? 64) && Z.testbit x n.
Proof.
  intros Hn. unfold u64. change 18446744073709551616 with (2 ^ 64).
  destruct (Z.ltb_spec n 64).
  - by rewrite Z.mod_pow2_bits_low by lia.
  - by rewrite Z.mod_pow2_bits_high by lia.
Qed.

Lemma testbit_bit b n : 0 <= b → Z.testbit (Z.shiftl 1 b) n = (n =? b).
Proof.
  intros Hb. destruct (Z.eqb_spec n b) as [-> | Hne].
  - rewrite Z.shiftl_spec by lia. by rewrite Z.sub_diag.
  - rewrite Z.shiftl_1_l. by apply Z.pow2_bits_false.
Qed.

Lemma bit_is_u64 b : 0 <= b < 64 → is_u64 (Z.shiftl 1 b).
Proof.
  intros Hb. rewrite Z.shiftl_1_l. split; [lia |].
  change 18446744073709551616 with (2 ^ 64). apply Z.pow_lt_mono_r; lia.
Qed.

Lemma lor_is_u64 x y : is_u64 x → is_u64 y → is_u64 (Z.lor x y).
Proof.
  intros Hx Hy. apply is_u64_of_bits.
  - apply Z.lor_nonneg. unfold is_u64 in *. lia.
  - intros n Hn. rewrite Z.lor_spec, !is_u64_testbit_high; done.
Qed.

Lemma land_is_u64_l x y : is_u64 x → is_u64 (Z.land x y).
Proof.
  intros Hx. apply is_u64_of_bits.
  - apply Z.land_nonneg. unfold is_u64 in *. lia.
  - intros n Hn. rewrite Z.land_spec, is_u64_testbit_high; done.
Qed.

#[export] Hint Resolve lor_is_u64 land_is_u64_l bit_is_u64 : u64.

(** Testing one bit with a mask, the way the code does. *)
Lemma land_bit_eqb x b : 0 <= b → (Z.land x (Z.shiftl 1 b) =? 0) = negb (Z.testbit x b).
Proof.
  intros Hb. destruct (Z.testbit x b) eqn:Hx; simpl.
  - apply Z.eqb_neq. intros H0.
    assert (Z.testbit (Z.land x (Z.shiftl 1 b)) b = true) as Hc
      by (rewrite Z.land_spec, testbit_bit, Hx, Z.eqb_refl by lia; done).
    rewrite H0, Z.testbit_0_l in Hc. done.
  - apply Z.eqb_eq, Z.bits_inj'. intros n Hn.
    rewrite Z.land_spec, testbit_bit, Z.testbit_0_l by lia.
    destruct (Z.eqb_spec n b) as [-> |]; [by rewrite Hx | by rewrite andb_false_r].
Qed.

(** Setting and clearing one bit of a 64-bit word. *)
Lemma set_bit_spec x b n : 0 <= b →
  Z.testbit (Z.lor x (Z.shiftl 1 b)) n = Z.testbit x n || (n =? b).
Proof. intros. by rewrite Z.lor_spec, testbit_bit. Qed.

Lemma clear_bit_spec x b n : is_u64 x → 0 <= b < 64 → 0 <= n →
  Z.testbit (Z.land x (u64 (Z.lnot (Z.shiftl 1 b)))) n = Z.testbit x n && negb (n =? b).
Proof.
  intros Hx Hb Hn. rewrite Z.land_spec, u64_testbit, Z.lnot_spec, testbit_bit by lia.
  destruct (Z.ltb_spec n 64); [done |].
  rewrite is_u64_testbit_high by done. done.
Qed.

(** Masking with [2^n - 1] is reduction modulo [2^n], and the complementary
    mask rounds down. *)
Lemma land_low_mask x n : 0 <= n → Z.land x (2 ^ n - 1) = x mod 2 ^ n.
Proof. intros. rewrite <- Z.land_ones, Z.ones_equiv by lia. done. Qed.

Lemma land_high_mask x n : 0 <= n → Z.land x (- 2 ^ n) = x - x mod 2 ^ n.
Proof.
  intros. replace (- 2 ^ n) with (Z.lnot (Z.ones n))
    by (rewrite Z.ones_equiv; pose proof (Z.add_lnot_diag (Z.pred (2 ^ n))); lia).
  rewrite <- Z.ldiff_land, Z.ldiff_ones_r, Z.shiftl_mul_pow2, Z.shiftr_div_pow2 by lia.
  assert (0 < 2 ^ n) by lia. pose proof (Z.div_mod x (2 ^ n)). lia.
Qed.

(** The or of two numbers with no common bit is their sum. *)
Lemma lor_disjoint_add x y n : 0 <= n → x mod 2 ^ n = 0 → 0 <= y < 2 ^ n →
  Z.lor x y = x + y.
Proof.
  intros Hn Hx Hy. assert (Z.land x y = 0) as Hl.
  { apply Z.bits_inj'. intros k Hk. rewrite Z.land_spec, Z.testbit_0_l.
    destruct (Z_lt_le_dec k n).
    - rewrite <- (Z.mod_pow2_bits_low x n), Hx, Z.testbit_0_l by lia. done.
    - rewrite <- (Z.mod_small y (2 ^ n)), (Z.mod_pow2_bits_high y n) by lia.
      apply andb_false_r. }
  by rewrite Z.add_nocarry_lxor, Z.lxor_lor.
Qed.

Lemma lor_low_add x y n : 0 <= n → 0 <= x < 2 ^ n → y mod 2 ^ n = 0 → Z.lor x y = x + y.
Proof. intros. rewrite Z.lor_comm, (lor_disjoint_add y x n) by done. lia. Qed.

(** The masks the code uses, as remainders. *)
Lemma land_0x1 x : Z.land x 0x1 = x mod 2.
Proof. exact (land_low_mask x 1 ltac:(lia)). Qed.
Lemma land_0x7 x : Z.land x 0x7 = x mod 8.
Proof. exact (land_low_mask x 3 ltac:(lia)). Qed.
Lemma land_0xF x : Z.land x 0xF = x mod 16.
Proof. exact (land_low_mask x 4 ltac:(lia)). Qed.
Lemma land_0xFF x : Z.land x 0xFF = x mod 256.
Proof. exact (land_low_mask x 8 ltac:(lia)). Qed.
Lemma land_0x1FF x : Z.land x 0x1FF = x mod 512.
Proof. exact (land_low_mask x 9 ltac:(lia)). Qed.
Lemma land_0xFFF x : Z.land x 0xFFF = x mod 4096.
Proof. exact (land_low_mask x 12 ltac:(lia)). Qed.
Lemma land_0xFFFF x : Z.land x 0xFFFF = x mod 65536.
Proof. exact (land_low_mask x 16 ltac:(lia)). Qed.
Lemma land_0x1FFFFF x : Z.land x 0x1FFFFF = x mod 2097152.
Proof. exact (land_low_mask x 21 ltac:(lia)). Qed.
Lemma land_0xFFFFFF x : Z.land x 0xFFFFFF = x mod 16777216.
Proof. exact (land_low_mask x 24 ltac:(lia)). Qed.
Lemma land_0x3FFFFFFF x : Z.land x 0x3FFFFFFF = x mod 1073741824.
Proof. exact (land_low_mask x 30 ltac:(lia)). Qed.
Lemma land_0xFFFFFFFF x : Z.land x 0xFFFFFFFF = x mod 4294967296.
Proof. exact (land_low_mask x 32 ltac:(lia)). Qed.

Create Rewrite HintDb masks.
#[export] Hint Rewrite land_0x1 land_0x7 land_0xF land_0xFF land_0x1FF land_0xFFF
  land_0xFFFF land_0x1FFFFF land_0xFFFFFF land_0x3FFFFFFF land_0xFFFFFFFF : masks.
