(* ===== verification/Descriptors.v ===== *)
(** The descriptor encodings of the CPU tables: [arch::gdt::make_descriptor]
    with the five descriptors and selectors built from it, and
    [arch::idt::make_entry] with the packed 16-byte gate layout. *)

From Stdlib Require Import ZArith Lia.
From stdpp Require Import base numbers list.
From S2P Require Import Prelude.
Local Open Scope Z_scope.

Module Gdt.

(** The 64-bit value of a legacy segment descriptor.  [base] and [limit] are
    uint32_t, [access] and [flags] uint8_t. *)
Definition make_descriptor (base limit access flags : Z) : Z :=
  (let descriptor := 0 in
   let descriptor := descriptor .| (limit .& 0xFFFF) in
   let descriptor := descriptor .| ((base .& 0xFFFFFF) << 16) in
   let descriptor := descriptor .| (access << 40) in
   let descriptor := descriptor .| (((limit >> 16) .& 0xF) << 48) in
   let descriptor := descriptor .| ((flags .& 0xF) << 52) in
   descriptor .| (((base >> 24) .& 0xFF) << 56))%u64.

Definition null_descriptor : Z := make_descriptor 0 0 0x00 0x0.
Definition kernel_code : Z := make_descriptor 0 0xFFFFF 0x9A 0xA.
Definition kernel_data : Z := make_descriptor 0 0xFFFFF 0x92 0xC.
Definition user_data : Z := make_descriptor 0 0xFFFFF 0xF2 0xC.
Definition user_code : Z := make_descriptor 0 0xFFFFF 0xFA 0xA.

Definition kNullSelector : Z := 0x00.
Definition kKernelCodeSelector : Z := 0x08.
Definition kKernelDataSelector : Z := 0x10.
Definition kUserDataSelector : Z := 0x18.
Definition kUserCodeSelector : Z := 0x20.

(** The table of gdt.cpp, in its fixed order, as the image holds it: the
    processor sets the Accessed bit of a descriptor, bit 40, when its selector
    is loaded. *)
Definition gdt : list Z :=
  [null_descriptor; kernel_code; kernel_data; user_data; user_code].

Definition set_accessed (sel : Z) (t : list Z) : list Z :=
  alter (λ d, Z.setbit d 40) (Z.to_nat (sel / 8)) t.

(** The operand of lgdt: the offset of the last byte and the table's address. *)
Record GdtPointer := mk_pointer { gp_limit : Z; gp_base : Z }.

Definition gdt_pointer (address_of_gdt : Z) : GdtPointer :=
  {| gp_limit := u16 (8 * Z.of_nat (length gdt) - 1); gp_base := address_of_gdt |}.

End Gdt.

Module Idt.

(** A long-mode gate, field by field. *)
Record Entry := mk_entry {
  offset_low : Z;
  selector : Z;
  ist : Z;
  type_attr : Z;
  offset_mid : Z;
  offset_high : Z;
  zero : Z
}.

(** Value initialisation, [idt[i] = {}]. *)
Definition empty_entry : Entry := mk_entry 0 0 0 0 0 0 0.

Definition make_entry (handler selector ist type_attr : Z) : Entry :=
  (mk_entry
     (u16 (handler .& 0xFFFF))
     selector
     (u8 (ist .& 0x07))
     type_attr
     (u16 ((handler >> 16) .& 0xFFFF))
     (u32 ((handler >> 32) .& 0xFFFFFFFF))
     0)%u64.

Record Pointer := mk_pointer { limit : Z; base : Z }.

End Idt.
