(* ===== verification/Machine.v ===== *)
(** The machine the kernel runs on and the monad its code is written in.

    [machine] gathers the memory the code reads and writes through pointers,
    the video memory behind the framebuffer, the static variables of every module, the CPU registers the code loads and
    the devices behind the I/O ports.  A C++ function with effects is a
    computation [M A]: it returns ([Ok]), stops the CPU for ever ([Halt], the
    [for (;;) hlt] loops), or does something C++ gives no meaning to
    ([Fault]: an access the page tables do not allow, a misaligned word, a
    read past the end of a string).  [OutOfFuel] marks a loop whose bound was
    too small; every total-correctness statement excludes it. *)

From Stdlib Require Import ZArith Lia.
From stdpp Require Import base numbers list gmap option.
From S2P Require Import Prelude Descriptors.
Local Open Scope Z_scope.

(** The sizes of the operand of an [in] or [out] instruction. *)
Inductive Width := W8 | W16 | W32.

(** The devices on the I/O ports, which are hardware and so a parameter: a
    state with the effect of an [in] and of an [out] of each size. *)
Class PortDevice := {
  pdev : Type;
  dev_in : Width → Z → pdev → Z * pdev;
  dev_out : Width → Z → Z → pdev → pdev
}.
Abbreviation port_in := (dev_in W8).
Abbreviation port_out := (dev_out W8).

(** The static variables of src/mm/pmm.cpp. *)
Record pmm_state := mk_pmm {
  bitmap : Z;
  bitmap_phys : Z;
  bitmap_words : Z;
  bitmap_bytes : Z;
  frame_count : Z;
  free_frame_count : Z;
  g_hhdm_offset : Z
}.

(** The CPU registers the kernel loads. *)
Record cpu_state := mk_cpu {
  cr2 : Z;
  cr3 : Z;
  msrs : gmap Z Z;
  gdtr : Gdt.GdtPointer;
  idtr : Idt.Pointer;
  seg_cs : Z;
  seg_ds : Z;
  seg_es : Z;
  seg_fs : Z;
  seg_gs : Z;
  seg_ss : Z
}.

(** The functions installed as [print::output_sink]: the kernel has one. *)
Inductive Sink := serial_putc.

Section WithDevice.
Context {PD : PortDevice}.

Record machine := mk_machine {
  access : Z → option bool;
  cells : gmap Z Z;
  pmm : pmm_state;
  cpu : cpu_state;
  gdt_table : list Z;
  idt_table : list Idt.Entry;
  output_sink : option Sink;
  initialized : bool;
  video : gmap Z Z;
  device : pdev
}.

Definition with_access (f : Z → option bool) (s : machine) : machine :=
  mk_machine f (cells s) (pmm s) (cpu s) (gdt_table s) (idt_table s) (output_sink s)
    (initialized s) (video s) (device s).
Definition with_cells (c : gmap Z Z) (s : machine) : machine :=
  mk_machine (access s) c (pmm s) (cpu s) (gdt_table s) (idt_table s) (output_sink s)
    (initialized s) (video s) (device s).
Definition with_pmm (p : pmm_state) (s : machine) : machine :=
  mk_machine (access s) (cells s) p (cpu s) (gdt_table s) (idt_table s) (output_sink s)
    (initialized s) (video s) (device s).
Definition with_cpu (c : cpu_state) (s : machine) : machine :=
  mk_machine (access s) (cells s) (pmm s) c (gdt_table s) (idt_table s) (output_sink s)
    (initialized s) (video s) (device s).
Definition with_gdt_table (t : list Z) (s : machine) : machine :=
  mk_machine (access s) (cells s) (pmm s) (cpu s) t (idt_table s) (output_sink s)
    (initialized s) (video s) (device s).
Definition with_idt_table (t : list Idt.Entry) (s : machine) : machine :=
  mk_machine (access s) (cells s) (pmm s) (cpu s) (gdt_table s) t (output_sink s)
    (initialized s) (video s) (device s).
Definition with_output_sink (o : option Sink) (s : machine) : machine :=
  mk_machine (access s) (cells s) (pmm s) (cpu s) (gdt_table s) (idt_table s) o
    (initialized s) (video s) (device s).
Definition with_initialized (b : bool) (s : machine) : machine :=
  mk_machine (access s) (cells s) (pmm s) (cpu s) (gdt_table s) (idt_table s) (output_sink s)
    b (video s) (device s).
Definition with_device (d : pdev) (s : machine) : machine :=
  mk_machine (access s) (cells s) (pmm s) (cpu s) (gdt_table s) (idt_table s) (output_sink s)
    (initialized s) (video s) d.
Definition with_video (v : gmap Z Z) (s : machine) : machine :=
  mk_machine (access s) (cells s) (pmm s) (cpu s) (gdt_table s) (idt_table s) (output_sink s)
    (initialized s) v (device s).

(** ** The monad *)

Inductive outcome (A : Type) :=
| Ok (a : A) (s : machine)
| Halt (s : machine)
| Fault (s : machine)
| OutOfFuel (s : machine).
Arguments Ok {A}.
Arguments Halt {A}.
Arguments Fault {A}.
Arguments OutOfFuel {A}.

Definition M (A : Type) : Type := machine → outcome A.

Definition ret {A} (a : A) : M A := λ s, Ok a s.
Definition bind {A B} (m : M A) (k : A → M B) : M B := λ s,
  match m s with
  | Ok a s' => k a s'
  | Halt s' => Halt s'
  | Fault s' => Fault s'
  | OutOfFuel s' => OutOfFuel s'
  end.
Definition halt {A} : M A := λ s, Halt s.
Definition fault {A} : M A := λ s, Fault s.
Definition out_of_fuel {A} : M A := λ s, OutOfFuel s.
Definition gets {A} (f : machine → A) : M A := λ s, Ok (f s) s.
Definition modify (f : machine → machine) : M unit := λ s, Ok tt (f s).

End WithDevice.

Arguments Ok {PD A}.
Arguments Halt {PD A}.
Arguments Fault {PD A}.
Arguments OutOfFuel {PD A}.

Declare Scope kernel_scope.
Delimit Scope kernel_scope with kernel.
Notation "'let!' x := m 'in' k" := (bind m (λ x, k))
  (at level 10, x pattern, m at level 100, k at level 200,
   format "'let!'  x  :=  m  'in' '//' k") : kernel_scope.
Notation "m ;; k" := (bind m (λ _, k))
  (at level 100, k at level 200, right associativity,
   format "m ;; '//' k") : kernel_scope.
Open Scope kernel_scope.

Section WithDevice.
Context {PD : PortDevice}.

(** [for (uint64_t i = lo; i < hi; i += step) body]: the body returns [None]
    to go on and [Some r] to leave the loop with [r] (a [return] or a
    [break]).  The counter is a wrapping uint64_t. *)
Fixpoint loop {R} (fuel : nat) (i hi step : Z) (body : Z → M (option R)) : M (option R) :=
  if i <? hi then
    match fuel with
    | O => out_of_fuel
    | S fuel' =>
        let! r := body i in
        match r with
        | Some v => ret (Some v)
        | None => loop fuel' (i + step)%u64 hi step body
        end
    end
  else ret None.

Definition for_range {R} (lo hi step : Z) (body : Z → M (option R)) : M (option R) :=
  loop (Z.to_nat ((hi - lo + (step - 1)) / step)) lo hi step body.

(** A loop with no early exit. *)
Definition for_each (lo hi step : Z) (body : Z → M unit) : M unit :=
  for_range (R := unit) lo hi step (λ i, body i ;; ret None) ;; ret tt.

(** ** Memory

    64-bit words reached through pointers.  [access] is what the page tables
    in force say of an address: [None] when they do not translate it, and
    otherwise whether it may be written (CR0.WP is set, so the kernel's own
    stores are checked too).  A load needs a translation, a store a writable
    one; anything else faults.  The contents of a word never written is
    whatever [cells] gives it, 0 by default.  The pixels of the framebuffer
    are 32-bit words of the device, which the memory map keeps apart from the
    usable memory the allocator hands out, and are kept in [video]. *)

Definition cell (s : machine) (a : Z) : Z := default 0 (cells s !! a).
Definition accessible (s : machine) (a : Z) : bool :=
  match access s a with Some _ => true | None => false end.
Definition writable (s : machine) (a : Z) : bool :=
  match access s a with Some w => w | None => false end.
Definition addr_ok (s : machine) (a : Z) : bool := writable s a && (a mod 8 =? 0).
Definition set_cell (a v : Z) (s : machine) : machine := with_cells (<[a := v]> (cells s)) s.

Definition load64 (a : Z) : M Z := λ s,
  if accessible s a && (a mod 8 =? 0) then Ok (cell s a) s else Fault s.
Definition store64 (a v : Z) : M unit := λ s,
  if addr_ok s a then Ok tt (set_cell a v s) else Fault s.
Definition store32 (a v : Z) : M unit := λ s,
  if writable s a && (a mod 4 =? 0) then Ok tt (with_video (<[a := v]> (video s)) s) else Fault s.

(** ** Total correctness

    [wp m Q s]: run from [s], [m] returns, with a value and a state that
    satisfy [Q]. *)

Definition wp {A} (m : M A) (Q : A → machine → Prop) (s : machine) : Prop :=
  match m s with Ok a s' => Q a s' | _ => False end.

Lemma wp_ret {A} (a : A) (Q : A → machine → Prop) s : Q a s → wp (ret a) Q s.
Proof. done. Qed.

Lemma wp_bind {A B} (m : M A) (k : A → M B) (Q : B → machine → Prop) s :
  wp m (λ a s', wp (k a) Q s') s → wp (bind m k) Q s.
Proof. unfold wp, bind. by destruct (m s). Qed.

Lemma wp_mono {A} (m : M A) (P Q : A → machine → Prop) s :
  wp m P s → (∀ a s', P a s' → Q a s') → wp m Q s.
Proof. unfold wp. destruct (m s); auto. Qed.

Lemma wp_gets {A} (f : machine → A) (Q : A → machine → Prop) s : Q (f s) s → wp (gets f) Q s.
Proof. done. Qed.

Lemma wp_modify f (Q : unit → machine → Prop) s : Q tt (f s) → wp (modify f) Q s.
Proof. done. Qed.

Lemma wp_ok {A} (m : M A) (Q : A → machine → Prop) s a s' :
  m s = Ok a s' → Q a s' → wp m Q s.
Proof. unfold wp. by intros ->. Qed.

Lemma wp_inv {A} (m : M A) (Q : A → machine → Prop) s :
  wp m Q s → ∃ a s', m s = Ok a s' ∧ Q a s'.
Proof. unfold wp. destruct (m s); [eauto | done..]. Qed.

Lemma wp_run {A} (m : M A) (Q : A → machine → Prop) s a s' : wp m Q s → m s = Ok a s' → Q a s'.
Proof. unfold wp. by intros H E; rewrite E in H. Qed.

Lemma wp_exec {A} (m : M A) (Q : A → machine → Prop) s a s' : m s = Ok a s' → Q a s' → wp m Q s.
Proof. unfold wp. by intros ->. Qed.

Lemma writable_accessible s a : writable s a = true → accessible s a = true.
Proof. unfold writable, accessible. by destruct (access s a). Qed.

Lemma wp_load64 a (Q : Z → machine → Prop) s :
  addr_ok s a = true → Q (cell s a) s → wp (load64 a) Q s.
Proof. unfold wp, load64. by intros [->%writable_accessible ->]%andb_prop. Qed.

Lemma wp_store64 a v (Q : unit → machine → Prop) s :
  addr_ok s a = true → Q tt (set_cell a v s) → wp (store64 a v) Q s.
Proof. unfold wp, store64. by intros ->. Qed.

Lemma wp_store32 a v (Q : unit → machine → Prop) s :
  writable s a = true → a mod 4 = 0 → Q tt (with_video (<[a := v]> (video s)) s) →
  wp (store32 a v) Q s.
Proof. unfold wp, store32. by intros -> ->. Qed.

Lemma cell_set_cell a v b s : cell (set_cell a v s) b = if decide (a = b) then v else cell s b.
Proof. unfold cell, set_cell. simpl. rewrite lookup_insert. by case_decide. Qed.

Lemma cell_set_cell_eq a v s : cell (set_cell a v s) a = v.
Proof. rewrite cell_set_cell. by case_decide. Qed.

Lemma cell_set_cell_ne a v b s : a ≠ b → cell (set_cell a v s) b = cell s b.
Proof. intros. rewrite cell_set_cell. by case_decide. Qed.

(** A computation that ends with the CPU stopped, in a state that satisfies
    [Q]. *)
Definition halts {A} (m : M A) (Q : machine → Prop) (s : machine) : Prop :=
  ∃ s', m s = Halt s' ∧ Q s'.

Lemma halts_bind {A B} (m : M A) (k : A → M B) (Q : machine → Prop) s :
  wp m (λ a s', halts (k a) Q s') s → halts (bind m k) Q s.
Proof. unfold wp, halts, bind. destruct (m s); done. Qed.

Lemma halts_bind_l {A B} (m : M A) (k : A → M B) (Q : machine → Prop) s :
  halts m Q s → halts (bind m k) Q s.
Proof. unfold halts, bind. intros (s' & -> & HQ). eauto. Qed.

Lemma halts_halt {A} (Q : machine → Prop) s : Q s → halts (A := A) halt Q s.
Proof. by exists s. Qed.

(** ** What holds however a computation ends

    [keeps I m T]: from a state that satisfies [I], [m] ends, and leaves one
    that does whether it returns, stops or faults; a result satisfies [T]. *)

Definition keeps {A} (I : machine → Prop) (m : M A) (T : A → Prop) : Prop :=
  ∀ s, I s → match m s with
             | Ok a s' => I s' ∧ T a
             | Halt s' | Fault s' => I s'
             | OutOfFuel _ => False
             end.

Section Keeps.
Context (I : machine → Prop).

Lemma keeps_ret {A} (a : A) (T : A → Prop) : T a → keeps I (ret a) T.
Proof. by intros Ha s Hs. Qed.

Lemma keeps_bind {A B} (m : M A) (k : A → M B) (T : A → Prop) (U : B → Prop) :
  keeps I m T → (∀ a, T a → keeps I (k a) U) → keeps I (bind m k) U.
Proof.
  intros Hm Hk s Hs. specialize (Hm s Hs). unfold bind. destruct (m s); [| done..].
  destruct Hm. by apply Hk.
Qed.

Lemma keeps_weaken {A} (m : M A) (T U : A → Prop) : keeps I m T → (∀ a, T a → U a) → keeps I m U.
Proof. intros Hm HU s Hs. specialize (Hm s Hs). destruct (m s); [| done..]. destruct Hm. eauto. Qed.

Lemma keeps_halt {A} (T : A → Prop) : keeps I halt T.
Proof. by intros s Hs. Qed.
Lemma keeps_fault {A} (T : A → Prop) : keeps I fault T.
Proof. by intros s Hs. Qed.

Lemma keeps_gets {A} (f : machine → A) (T : A → Prop) : (∀ s, I s → T (f s)) → keeps I (gets f) T.
Proof. intros Hf s Hs. split; auto. Qed.

Lemma keeps_modify f (T : unit → Prop) : (∀ s, I s → I (f s)) → T tt → keeps I (modify f) T.
Proof. intros Hf HT s Hs. split; auto. Qed.

Lemma keeps_load64 a (T : Z → Prop) : (∀ s, I s → T (cell s a)) → keeps I (load64 a) T.
Proof. intros Hf s Hs. unfold load64. destruct (accessible s a && (a mod 8 =? 0)); auto. Qed.

Lemma keeps_store64 a v (T : unit → Prop) : (∀ s, I s → I (set_cell a v s)) → T tt →
  keeps I (store64 a v) T.
Proof. intros Hf HT s Hs. unfold store64. destruct (addr_ok s a); auto. Qed.

Lemma keeps_store32 a v (T : unit → Prop) :
  (∀ s, I s → I (with_video (<[a := v]> (video s)) s)) → T tt → keeps I (store32 a v) T.
Proof. intros Hf HT s Hs. unfold store32. destruct (writable s a && (a mod 4 =? 0)); auto. Qed.

(** A loop whose steps meet its bound ends: the counter cannot wrap past it. *)
Lemma keeps_loop {R} (T : R → Prop) hi step (body : Z → M (option R)) fuel :
  0 < step → is_u64 hi →
  (∀ i, is_u64 i → keeps I (body i) (λ r, ∀ v, r = Some v → T v)) →
  ∀ i, is_u64 i → (hi - i) mod step = 0 → Z.of_nat fuel * step >= hi - i →
  keeps I (loop fuel i hi step body) (λ r, ∀ v, r = Some v → T v).
Proof.
  unfold is_u64 at 1. intros Hstep Hhi Hb.
  induction fuel as [| fuel IH]; intros i Hi Hmod Hfuel; cbn [loop];
    destruct (Z.ltb_spec i hi); try (by apply keeps_ret); [lia |].
  eapply keeps_bind; [by apply Hb |]. intros [v |] Hv; [by apply keeps_ret |].
  assert (i + step <= hi).
  { apply Z.mod_divide in Hmod as [k Hk]; [| lia]. assert (0 < k) by nia. nia. }
  unfold is_u64 in Hi. rewrite u64_small by (unfold is_u64; lia). apply IH; [unfold is_u64; lia | | lia].
  replace (hi - (i + step)) with (hi - i + (-1) * step) by lia. by rewrite Z_mod_plus_full.
Qed.

Lemma keeps_for_range {R} (T : R → Prop) lo hi step (body : Z → M (option R)) :
  0 < step → is_u64 lo → is_u64 hi → (hi - lo) mod step = 0 →
  (∀ i, is_u64 i → keeps I (body i) (λ r, ∀ v, r = Some v → T v)) →
  keeps I (for_range lo hi step body) (λ r, ∀ v, r = Some v → T v).
Proof.
  intros Hstep Hlo Hhi Hmod Hb. apply keeps_loop; [done.. |].
  apply Z.mod_divide in Hmod as [k Hk]; [| lia].
  assert ((hi - lo + (step - 1)) / step = k) as ->.
  { rewrite Hk, Z.div_add_l, Z.div_small by lia. lia. }
  nia.
Qed.

(** The counter of [for (i = lo; i < hi; ++i)] meets every bound. *)
Lemma keeps_for_each lo hi (body : Z → M unit) (T : unit → Prop) : is_u64 lo → is_u64 hi → T tt →
  (∀ i, is_u64 i → keeps I (body i) (λ _, True)) → keeps I (for_each lo hi 1 body) T.
Proof.
  intros Hlo Hhi HT Hb. eapply keeps_bind.
  - apply (keeps_for_range (λ _, True)); [done | done | done | apply Z.mod_1_r |].
    intros i Hi. eapply keeps_bind; [by apply Hb |]. intros _ _. by apply keeps_ret.
  - intros _ _. by apply keeps_ret.
Qed.

End Keeps.

(** *** Loops

    The counter runs over [lo, lo + step, ..., hi]; an invariant indexed by
    the counter carries the proof and the loop always ends. *)

Lemma wp_loop {R} (I : Z → machine → Prop) (Q : option R → machine → Prop)
    step hi body fuel i s :
  0 < step → 0 <= i <= hi → hi < two64 → (hi - i) mod step = 0 →
  (Z.of_nat fuel * step >= hi - i) →
  I i s →
  (∀ j s', i <= j < hi → I j s' → wp (body j)
     (λ r s'', match r with Some v => Q (Some v) s'' | None => I (j + step) s'' end) s') →
  (∀ s', I hi s' → Q None s') →
  wp (loop fuel i hi step body) Q s.
Proof.
  unfold two64. intros Hstep. revert i s.
  induction fuel as [| fuel IH]; intros i s Hi Hhi Hmod Hfuel HI Hbody Hend; simpl.
  all: destruct (Z.ltb_spec i hi) as [Hlt | Hge];
    [| assert (i = hi) as -> by lia; by apply Hend].
  - lia.
  - apply wp_bind. eapply wp_mono; [apply Hbody; [lia | done] |].
    intros [v |] s' Hr; [done |].
    assert (i + step <= hi).
    { apply Z.mod_divide in Hmod as [k Hk]; [| lia]. assert (0 < k) by nia. nia. }
    rewrite u64_small by (unfold is_u64; lia).
    apply IH; try done; try lia.
    + replace (hi - (i + step)) with (hi - i + (-1) * step) by lia.
      by rewrite Z_mod_plus_full.
    + intros j s'' Hj. apply Hbody. lia.
Qed.

Lemma wp_for_range {R} (I : Z → machine → Prop) (Q : option R → machine → Prop) lo hi step body s :
  0 < step → 0 <= lo <= hi → hi < two64 → (hi - lo) mod step = 0 →
  I lo s →
  (∀ j s', lo <= j < hi → I j s' → wp (body j)
     (λ r s'', match r with Some v => Q (Some v) s'' | None => I (j + step) s'' end) s') →
  (∀ s', I hi s' → Q None s') →
  wp (for_range lo hi step body) Q s.
Proof.
  intros. eapply wp_loop; try done.
  apply Z.mod_divide in H2 as [k Hk]; [| lia].
  assert ((hi - lo + (step - 1)) / step = k) as ->.
  { rewrite Hk, Z.div_add_l, Z.div_small by lia. lia. }
  rewrite Z2Nat.id by nia. lia.
Qed.

Lemma wp_for_range_empty {R} (Q : option R → machine → Prop) a step body s :
  Q None s → wp (for_range a a step body) Q s.
Proof. intros HQ. unfold for_range. destruct (Z.to_nat _); cbn [loop]; by rewrite Z.ltb_irrefl. Qed.

(** A loop in two parts. *)
Lemma wp_loop_split {R} (Q : option R → machine → Prop) step mid hi body k2 k1 : ∀ lo s,
  0 < step → 0 <= lo → mid = lo + Z.of_nat k1 * step → mid <= hi → hi < two64 →
  wp (loop k1 lo mid step body) (λ r s',
    match r with Some v => Q (Some v) s' | None => wp (loop k2 mid hi step body) Q s' end) s →
  wp (loop (k1 + k2) lo hi step body) Q s.
Proof.
  unfold two64. induction k1 as [| k1 IH]; intros lo s Hst Hlo Hmid Hle Hhi Hwp; cbn [Nat.add].
  - replace mid with lo in * by lia. cbn [loop] in Hwp. rewrite Z.ltb_irrefl in Hwp. exact Hwp.
  - cbn [loop] in *. destruct (Z.ltb_spec lo mid); [| lia]. destruct (Z.ltb_spec lo hi); [| lia].
    revert Hwp. unfold wp, bind. destruct (body lo s) as [[v |] s1 | | |]; try done. intros Hwp.
    rewrite u64_small in Hwp |- * by (unfold is_u64; lia). apply IH; try done; lia.
Qed.

Lemma wp_for_range_split {R} (Q : option R → machine → Prop) mid hi step body s :
  0 < step → 0 <= mid <= hi → hi < two64 → mid mod step = 0 → hi mod step = 0 →
  wp (for_range 0 mid step body) (λ r s',
    match r with Some v => Q (Some v) s' | None => wp (for_range mid hi step body) Q s' end) s →
  wp (for_range 0 hi step body) Q s.
Proof.
  intros Hst Hm Hhi [a ->]%Z.mod_divide [b ->]%Z.mod_divide Hwp; [| lia..]. unfold for_range in *.
  assert (∀ x, 0 <= x → (x * step + (step - 1)) / step = x) as Hdiv
    by (intros x Hx; rewrite Z.div_add_l, Z.div_small; lia).
  assert (0 <= a <= b) as Hab by nia.
  replace (b * step - a * step) with ((b - a) * step) in Hwp by lia. rewrite !Z.sub_0_r in *.
  rewrite !Hdiv in * by lia. replace (Z.to_nat b) with (Z.to_nat a + Z.to_nat (b - a))%nat by lia.
  apply wp_loop_split with (mid := a * step); try done; lia.
Qed.

Lemma wp_for_each (I : Z → machine → Prop) (Q : unit → machine → Prop) lo hi step body s :
  0 < step → 0 <= lo <= hi → hi < two64 → (hi - lo) mod step = 0 →
  I lo s →
  (∀ j s', lo <= j < hi → I j s' → wp (body j) (λ _ s'', I (j + step) s'') s') →
  (∀ s', I hi s' → Q tt s') →
  wp (for_each lo hi step body) Q s.
Proof.
  intros ????? Hbody Hend. apply wp_bind.
  eapply (wp_for_range I); try done.
  intros j s' Hj HI. apply wp_bind. eapply wp_mono; [by apply Hbody |]. done.
Qed.

Lemma wp_for_each_empty (Q : unit → machine → Prop) lo hi step body s :
  hi <= lo → Q tt s → wp (for_each lo hi step body) Q s.
Proof.
  intros Hlo HQ. apply wp_bind. unfold for_range.
  destruct (Z.to_nat _); simpl; destruct (Z.ltb_spec lo hi); try lia; done.
Qed.

(** ** Computations that behave alike

    Two computations are equivalent when they agree from every state;
    [bind] respects that, so laws of the monad are used by rewriting. *)

Definition meq {A} (m m' : M A) : Prop := ∀ s, m s = m' s.

#[export] Instance meq_equivalence A : Equivalence (@meq A).
Proof.
  split.
  - by intros m s.
  - intros m m' H s. by rewrite H.
  - intros m1 m2 m3 H1 H2 s. by rewrite H1, H2.
Qed.

#[export] Instance bind_proper A B :
  Proper (meq ==> pointwise_relation A meq ==> meq) (@bind _ A B).
Proof. intros m m' Hm k k' Hk s. unfold bind. rewrite Hm. destruct (m' s); [apply Hk | done..]. Qed.

#[export] Instance wp_proper A :
  Proper (meq ==> eq ==> eq ==> iff) (@wp A).
Proof. intros m m' Hm Q ? <- s ? <-. unfold wp. by rewrite Hm. Qed.

Lemma bind_assoc {A B C} (m : M A) (f : A → M B) (g : B → M C) :
  meq (bind (bind m f) g) (bind m (λ a, bind (f a) g)).
Proof. intros s. unfold bind. by destruct (m s). Qed.

Lemma bind_ret_l {A B} (a : A) (f : A → M B) : meq (bind (ret a) f) (f a).
Proof. by intros s. Qed.

Lemma bind_ret_r (m : M unit) : meq (m ;; ret tt) m.
Proof. intros s. unfold bind. destruct (m s) as [[] |  |  |]; done. Qed.

(** ** States that differ only in the contents of memory *)

Definition only_cells (s s' : machine) : Prop := s' = with_cells (cells s') s.

#[export] Instance only_cells_preorder : PreOrder only_cells.
Proof.
  split.
  - by intros [].
  - unfold only_cells. intros x y z -> ->. done.
Qed.

Lemma only_cells_set_cell a v s : only_cells s (set_cell a v s).
Proof. done. Qed.

Lemma only_cells_addr_ok s s' a : only_cells s s' → addr_ok s' a = addr_ok s a.
Proof. by intros ->. Qed.

End WithDevice.

Infix "≡ₘ" := meq (at level 70) : kernel_scope.

Create HintDb wp.
#[export] Hint Resolve wp_ret wp_gets wp_modify : wp.

(** One step of a [wp] goal: structural rules only. *)
Ltac wp_step :=
  lazymatch goal with
  | |- wp (bind _ _) _ _ => apply wp_bind
  | |- wp (ret _) _ _ => apply wp_ret
  | |- wp (gets _) _ _ => apply wp_gets
  | |- wp (modify _) _ _ => apply wp_modify
  end.
Ltac wp_steps := repeat (wp_step; cbv beta).
