(* ===== verification/Io.v ===== *)
(** The port accessors, src/src/arch/x86_64/io.hpp: the class template [Port],
    an I/O port accessed with operands of one, two or four bytes.

    An [in] or [out] is a step of the device behind the ports; the operand size
    is that of the template's argument [T]. *)

From Stdlib Require Import ZArith Lia.
From stdpp Require Import base numbers.
From S2P Require Import Prelude Descriptors Machine.
Local Open Scope Z_scope.

(** [sizeof(T)], in bytes. *)
Definition sizeof (w : Width) : Z :=
  match w with W8 => 1 | W16 => 2 | W32 => 4 end.

(** The value of an operand of that size. *)
Definition operand (w : Width) (v : Z) : Z :=
  match w with W8 => u8 v | W16 => u16 v | W32 => u32 v end.

Lemma operand_range w v : 0 <= operand w v < 2 ^ (8 * sizeof w).
Proof. destruct w; by apply Z.mod_pos_bound. Qed.

Lemma operand_small w v : 0 <= v < 2 ^ (8 * sizeof w) → operand w v = v.
Proof. destruct w; apply Z.mod_small. Qed.

(** [Port<T>], with the width that stands for [T]. *)
Record Port := mk_port {
  port_width : Width;
  port_ : Z
}.

(** The constructor.  [Port<T>] exists for the sizes the assertion on [T]
    admits, and for no other. *)
Definition make_port (size_T port : Z) : option Port :=
  if size_T =? 1 then Some (mk_port W8 (u16 port))
  else if size_T =? 2 then Some (mk_port W16 (u16 port))
  else if size_T =? 4 then Some (mk_port W32 (u16 port))
  else None.

Lemma make_port_Some size_T port p : make_port size_T port = Some p ↔
  sizeof (port_width p) = size_T ∧ port_ p = u16 port.
Proof.
  unfold make_port. split.
  - repeat case_match; intros; simplify_eq; simpl; split; done || lia.
  - destruct p as [[] q]; simpl; intros [<- ->]; done.
Qed.

Section WithDevice.
Context {PD : PortDevice}.

(** The instructions [outb], [outw], [outl] and [inb], [inw], [inl]. *)
Definition out_instr (w : Width) (port value : Z) : M unit := modify (λ s,
  with_device (dev_out w port value (device s)) s).

Definition in_instr (w : Width) (port : Z) : M Z := λ s,
  let '(v, d) := dev_in w port (device s) in Ok (operand w v) (with_device d s).

(** [Port<T>::write] and [Port<T>::read]: the size of [T] selects the
    instruction. *)
Definition port_write (p : Port) (value : Z) : M unit :=
  if sizeof (port_width p) =? 1 then out_instr W8 (port_ p) value
  else if sizeof (port_width p) =? 2 then out_instr W16 (port_ p) value
  else out_instr W32 (port_ p) value.

Definition port_read (p : Port) : M Z :=
  if sizeof (port_width p) =? 1 then in_instr W8 (port_ p)
  else if sizeof (port_width p) =? 2 then in_instr W16 (port_ p)
  else in_instr W32 (port_ p).

(** The instruction selected has the width of [T], and what is read is a value
    of [T]. *)
Lemma port_write_instr p value : port_write p value = out_instr (port_width p) (port_ p) value.
Proof. by destruct p as [[] ?]. Qed.

Lemma port_read_instr p : port_read p = in_instr (port_width p) (port_ p).
Proof. by destruct p as [[] ?]. Qed.

Lemma wp_port_read p (Q : Z → machine → Prop) s :
  (∀ v d, 0 <= v < 2 ^ (8 * sizeof (port_width p)) → Q v (with_device d s)) → wp (port_read p) Q s.
Proof.
  intros HQ. rewrite port_read_instr. unfold wp, in_instr.
  destruct (dev_in _ _ _) as [v d]. apply HQ, operand_range.
Qed.

(** The 8-bit ports of the serial driver. *)
Definition outb (port value : Z) : M unit := port_write (mk_port W8 port) value.
Definition inb (port : Z) : M Z := port_read (mk_port W8 port).

End WithDevice.
