(* ===== verification/Serial.v ===== *)
(** The 16550 UART driver, src/src/arch/x86_64/serial.cpp over the port
    accessors of io.hpp.  The device behind the ports is the [PortDevice]
    parameter; the lemmas here hold for every device. *)

From Stdlib Require Import ZArith Lia Ascii String.
From stdpp Require Import base numbers list gmap.
From S2P Require Import Prelude Descriptors Machine Io.
Local Open Scope Z_scope.

(** The value of a [char] as the byte the UART is given. *)
Definition byte_of (c : ascii) : Z := Z.of_N (N_of_ascii c).

Definition char_nl : ascii := ascii_of_nat 10.
Definition char_cr : ascii := ascii_of_nat 13.

Module Serial.

Definition UART_BASE : Z := 0x3F8.

(** [Reg], by the offsets of its enumerators. *)
Definition Data : Z := 0.
Definition InterruptEnable : Z := 1.
Definition FifoControl : Z := 2.
Definition InterruptID : Z := 2.
Definition LineControl : Z := 3.
Definition ModemControl : Z := 4.
Definition LineStatus : Z := 5.
Definition ModemStatus : Z := 6.
Definition Scratch : Z := 7.
Definition DivisorLow : Z := 0.
Definition DivisorHigh : Z := 1.

Definition LCR_DLAB : Z := 0x80.
Definition LSR_DR : Z := 0x01.
Definition LSR_THRE : Z := 0x20.
Definition LOOPBACK_TEST_BYTE : Z := 0xAE.
Definition LOOPBACK_TIMEOUT : Z := 100000.
Definition TX_TIMEOUT : Z := 100000.
Definition RX_TIMEOUT : Z := 100000.

Definition reg (r : Z) : Z := u16 (UART_BASE + r).

Section WithDevice.
Context {PD : PortDevice}.

Definition wait_for (mask timeout : Z) : M bool :=
  let! r := for_range 0 timeout 1 (λ _,
    let! v := inb (reg LineStatus) in
    if negb (Z.land v mask =? 0) then ret (Some tt) else ret None) in
  match r with
  | Some _ => ret true
  | None => ret false
  end.

Definition init (baud : Z) : M bool :=
  if baud =? 0 then ret false else
  let divisor := 115200 / baud in
  if (divisor =? 0) || (0xFFFF <? divisor) then ret false else
  modify (with_initialized false) ;;
  outb (reg InterruptEnable) 0x00 ;;
  outb (reg LineControl) LCR_DLAB ;;
  outb (reg DivisorLow) (u8 (Z.land divisor 0xFF)) ;;
  outb (reg DivisorHigh) (u8 (Z.land (Z.shiftr divisor 8) 0xFF)) ;;
  outb (reg LineControl) 0x03 ;;
  outb (reg FifoControl) 0xC7 ;;
  outb (reg ModemControl) 0x03 ;;
  outb (reg ModemControl) 0x1E ;;
  outb (reg Data) LOOPBACK_TEST_BYTE ;;
  let! ready := wait_for LSR_DR LOOPBACK_TIMEOUT in
  if negb ready then
    outb (reg ModemControl) 0x00 ;;
    ret false
  else
    let! echo := inb (reg Data) in
    if negb (echo =? LOOPBACK_TEST_BYTE) then
      outb (reg ModemControl) 0x00 ;;
      ret false
    else
      outb (reg ModemControl) 0x0F ;;
      modify (with_initialized true) ;;
      ret true.

(** [putc] calls itself with a carriage return before a newline, so its
    recursion is one level deep. *)
Fixpoint putc_rec (depth : nat) (c : ascii) : M unit :=
  let! up := gets initialized in
  if negb up then ret tt else
  (if Ascii.eqb c char_nl then
     match depth with
     | O => out_of_fuel
     | S depth' => putc_rec depth' char_cr
     end
   else ret tt) ;;
  let! ready := wait_for LSR_THRE TX_TIMEOUT in
  if negb ready then ret tt else
  outb (reg Data) (byte_of c).

Definition putc (c : ascii) : M unit := putc_rec 1 c.

Definition getc : M Z :=
  let! up := gets initialized in
  if negb up then ret (-1) else
  let! ready := wait_for LSR_DR RX_TIMEOUT in
  if negb ready then ret (-1) else
  inb (reg Data).

Fixpoint write_chars (s : string) : M unit :=
  match s with
  | EmptyString => ret tt
  | String c s' => putc c ;; write_chars s'
  end.

(** The argument is a pointer: [None] is the null pointer. *)
Definition write (s : option string) : M unit :=
  match s with
  | None => ret tt
  | Some s => write_chars s
  end.

(** ** Effects: the driver touches nothing but the device *)

Definition only_device (s s' : machine) : Prop := s' = with_device (device s') s.

#[global] Instance only_device_preorder : PreOrder only_device.
Proof.
  split.
  - by intros [].
  - unfold only_device. intros x y z -> ->. done.
Qed.

Lemma only_device_ex s s' : only_device s s' → ∃ d, s' = with_device d s.
Proof. unfold only_device. eauto. Qed.

Lemma wp_inb port (Q : Z → machine → Prop) s :
  (∀ v d, port_in port (device s) = (v, d) → Q (u8 v) (with_device d s)) →
  wp (inb port) Q s.
Proof.
  intros HQ. unfold wp, inb, port_read, in_instr. cbn [port_width port_ sizeof Z.eqb Pos.eqb].
  destruct (port_in port (device s)). by apply HQ.
Qed.

Lemma wp_outb port v (Q : unit → machine → Prop) s :
  Q tt (with_device (port_out port v (device s)) s) → wp (outb port v) Q s.
Proof. done. Qed.

(** Polling reads the status register a bounded number of times and returns. *)
Lemma wp_wait_for mask timeout (Q : bool → machine → Prop) s :
  0 <= timeout < two64 →
  (∀ b s', only_device s s' → Q b s') → wp (wait_for mask timeout) Q s.
Proof.
  intros Ht HQ. apply wp_bind.
  eapply (wp_for_range (λ _ s', only_device s s')); try done; try lia.
  - apply Z.mod_1_r.
  - intros j s' Hj Hs. apply wp_bind, wp_inb. intros v d Hd.
    destruct (negb _); apply wp_ret; [apply HQ |]; etrans; eauto; done.
  - intros s' Hs. apply HQ; auto.
Qed.

Lemma wp_putc_rec depth c (Q : unit → machine → Prop) s :
  (c = char_nl → depth ≠ 0%nat) →
  (∀ s', only_device s s' → Q tt s') → wp (putc_rec depth c) Q s.
Proof.
  revert c s Q. induction depth as [| depth IH]; intros c s Q Hc HQ; simpl;
    wp_steps; (destruct (initialized s); simpl; [| by apply wp_ret, HQ]).
  all: assert (∀ s1, only_device s s1 →
    wp (let! ready := wait_for LSR_THRE TX_TIMEOUT in
        if negb ready then ret tt else outb (reg Data) (byte_of c)) Q s1) as Htail
    by (intros s1 Hs1; apply wp_bind, wp_wait_for;
        [unfold TX_TIMEOUT, two64; lia | intros b s2 Hs2];
        destruct b; simpl; [apply wp_outb | apply wp_ret]; apply HQ;
        [etrans; [etrans; [done | exact Hs2] | done] | by etrans]).
  all: apply wp_bind; destruct (Ascii.eqb_spec c char_nl) as [-> |];
    [| by apply wp_ret, Htail].
  - by destruct Hc.
  - apply IH; [done |]. intros s' Hs'. apply Htail. done.
Qed.

Lemma wp_putc c (Q : unit → machine → Prop) s :
  (∀ s', only_device s s' → Q tt s') → wp (putc c) Q s.
Proof. apply wp_putc_rec. done. Qed.

Lemma wp_write str (Q : unit → machine → Prop) s :
  (∀ s', only_device s s' → Q tt s') → wp (write str) Q s.
Proof.
  destruct str as [str |]; [| intros HQ; by apply wp_ret, HQ].
  revert s. induction str as [| c str IH]; intros s HQ; simpl.
  - by apply wp_ret, HQ.
  - apply wp_bind, wp_putc. intros s1 Hs1. apply IH.
    intros s2 Hs2. apply HQ. by etrans.
Qed.

(** ** Initialisation *)

(** The device and the driver's flag are all that [init] may change. *)
Definition only_serial (s s' : machine) : Prop := ∃ b d, s' = with_initialized b (with_device d s).

Lemma wp_outb_k {B} port v (k : unit → M B) (Q : B → machine → Prop) s :
  wp (k tt) Q (with_device (port_out port v (device s)) s) → wp (bind (outb port v) k) Q s.
Proof. done. Qed.

Lemma divisor_ok baud : 2 <= baud <= 115200 →
  (baud =? 0) = false ∧ ((115200 / baud =? 0) || (65535 <? 115200 / baud)) = false.
Proof.
  intros Hb. assert (1 <= 115200 / baud <= 57600).
  { split; [apply Z.div_le_lower_bound; lia |]. apply Z.div_le_upper_bound; lia. }
  lia.
Qed.

(** A write of [init] to the device. *)
Lemma wp_outb_serial {B} port v (k : M B) (Q : B → machine → Prop) s s0 :
  only_serial s s0 → initialized s0 = false →
  (∀ s', only_serial s s' → initialized s' = false → wp k Q s') → wp (outb port v ;; k) Q s0.
Proof. intros (b & d & ->) Hi HQ. apply wp_outb_k, HQ; [| done]. by eexists _, _. Qed.

Lemma only_serial_device s s0 s' : only_serial s s0 → initialized s0 = false →
  only_device s0 s' → only_serial s s' ∧ initialized s' = false.
Proof. intros (b & d & ->) Hi ->. split; [by eexists _, _ | done]. Qed.

Lemma wp_init s baud : 2 <= baud <= 115200 →
  wp (init baud) (λ ok s', initialized s' = ok ∧ only_serial s s') s.
Proof.
  intros Hb. destruct (divisor_ok baud Hb) as [E1 E2]. unfold init. rewrite E1. cbv zeta.
  rewrite E2. wp_step. apply wp_modify.
  assert (only_serial s (with_initialized false s)) as Hs0 by (exists false, (device s); by destruct s).
  assert (initialized (with_initialized false s) = false) as Hi0 by done.
  generalize dependent (with_initialized false s). intros s0 Hs0 Hi0.
  do 9 (apply (wp_outb_serial _ _ _ _ s _ Hs0 Hi0); clear s0 Hs0 Hi0; intros s0 Hs0 Hi0).
  apply wp_bind, wp_wait_for; [unfold LOOPBACK_TIMEOUT, two64; lia |].
  intros ready s1 Hd1. destruct (only_serial_device _ _ _ Hs0 Hi0 Hd1) as [Hs1 Hi1].
  destruct ready; cbn [negb];
    [| by apply (wp_outb_serial _ _ _ _ s _ Hs1 Hi1); intros s2 Hs2 Hi2; apply wp_ret].
  apply wp_bind, wp_inb. intros v d _.
  destruct (only_serial_device s s1 (with_device d s1) Hs1 Hi1) as [Hs2 Hi2]; [done |].
  destruct (u8 v =? LOOPBACK_TEST_BYTE); cbn [negb];
    apply (wp_outb_serial _ _ _ _ s _ Hs2 Hi2); intros s3 Hs3 Hi3; [| by apply wp_ret].
  apply wp_bind, wp_modify, wp_ret. split; [done |].
  destruct Hs3 as (b & d' & ->). by eexists _, _.
Qed.

End WithDevice.
End Serial.
