(* ===== verification/Print.v ===== *)
(** Formatted output, src/src/lib/print.cpp.

    The operations are translated character by character, with the digit
    buffers and the variadic argument list; [render] is the independent
    specification of what a format prints, and [kprintf] is proved to emit
    exactly that text. *)

From Stdlib Require Import ZArith Lia Ascii String.
From stdpp Require Import base numbers list gmap.
From Stdlib Require Import Wf_nat.
From S2P Require Import Prelude Descriptors Machine Serial.
Local Open Scope Z_scope.

Definition char_nul : ascii := ascii_of_nat 0.

(** One variadic argument.  Integers and pointers travel in one 64-bit slot
    each (System V ABI), of which [va_arg] reads the low bits its type has; a
    [const char*] is the string it points to, or null. *)
Inductive VaArg :=
| va_int (slot : Z)
| va_str (p : option string).

Module Print.

(** The characters of a numeral, as the [digits] array. *)
Definition digit (d : Z) : ascii :=
  match String.get (Z.to_nat d) "0123456789abcdef"%string with
  | Some c => c
  | None => char_nul
  end.

Section WithDevice.
Context {PD : PortDevice}.

Definition emit (c : ascii) : M unit :=
  let! sink := gets output_sink in
  match sink with
  | None => ret tt
  | Some serial_putc => Serial.putc c
  end.

(** The loop over a NUL-terminated string. *)
Fixpoint emit_chars (s : string) : M unit :=
  match s with
  | EmptyString => ret tt
  | String c s' => emit c ;; emit_chars s'
  end.

Definition emit_string (str : option string) : M unit :=
  match str with
  | None =>
      emit "(" ;; emit "n" ;; emit "u" ;; emit "l" ;; emit "l" ;; emit ")"
  | Some s => emit_chars s
  end.

(** [while (value != 0) { buffer[length++] = digits[value % base]; value /= base; }]
    into a buffer of [size] characters. *)
Fixpoint fill_buffer (fuel : nat) (size : nat) (value base : Z) (buffer : list ascii)
    : M (list ascii) :=
  if value =? 0 then ret buffer else
  match fuel with
  | O => out_of_fuel
  | S fuel' =>
      if (size <=? length buffer)%nat then fault else
      fill_buffer fuel' size (value / base) base (buffer ++ [digit (value mod base)])
  end.

(** [while (length > 0) emit(buffer[--length])]. *)
Fixpoint emit_list (l : list ascii) : M unit :=
  match l with
  | [] => ret tt
  | c :: l' => emit c ;; emit_list l'
  end.

Definition emit_backwards (buffer : list ascii) : M unit := emit_list (rev buffer).

Definition emit_unsigned (value base : Z) : M unit :=
  if value =? 0 then emit "0" else
  let! buffer := fill_buffer 64 24 value base [] in
  emit_backwards buffer.

Fixpoint fill_buffer_hex (fuel : nat) (size : nat) (value : Z) (buffer : list ascii)
    : M (list ascii) :=
  if value =? 0 then ret buffer else
  match fuel with
  | O => out_of_fuel
  | S fuel' =>
      if (size <=? length buffer)%nat then fault else
      fill_buffer_hex fuel' size (Z.shiftr value 4) (buffer ++ [digit (Z.land value 0xF)])
  end.

Definition emit_hex (value : Z) : M unit :=
  if value =? 0 then emit "0" else
  let! buffer := fill_buffer_hex 64 16 value [] in
  emit_backwards buffer.

Definition emit_signed (value : Z) : M unit :=
  if value <? 0 then
    emit "-" ;;
    let magnitude := u32 (u32 (- (value + 1)) + 1) in
    emit_unsigned magnitude 10
  else emit_unsigned (u32 value) 10.

Definition set_sink (sink : option Sink) : M unit := modify (with_output_sink sink).
Definition putc (c : ascii) : M unit := emit c.
Definition write (str : option string) : M unit := emit_string str.

(** [va_arg]: the next slot, read as an integer or as a string pointer. *)
Definition va_arg_slot (ap : list VaArg) : M (Z * list VaArg) :=
  match ap with
  | va_int v :: ap' => ret (v, ap')
  | _ => fault
  end.
Definition va_arg_string (ap : list VaArg) : M (option string * list VaArg) :=
  match ap with
  | va_str p :: ap' => ret (p, ap')
  | _ => fault
  end.

(** The sixteen digits of [%p], from nibble 15 down to nibble [0]. *)
Fixpoint emit_nibbles (n : nat) (value : Z) : M unit :=
  match n with
  | O => ret tt
  | S i =>
      emit (digit (Z.land (Z.shiftr value (Z.of_nat i * 4)) 0xF)) ;;
      emit_nibbles i value
  end.

(** The [switch] on the conversion character. *)
Definition directive (long_modifier : bool) (d : ascii) (ap : list VaArg) : M (list VaArg) :=
  if Ascii.eqb d "%" then emit "%" ;; ret ap
  else if Ascii.eqb d "c" then
    let! (v, ap') := va_arg_slot ap in
    emit (ascii_of_N (Z.to_N (u8 (s32 v)))) ;; ret ap'
  else if Ascii.eqb d "s" then
    let! (p, ap') := va_arg_string ap in
    emit_string p ;; ret ap'
  else if Ascii.eqb d "d" then
    let! (v, ap') := va_arg_slot ap in
    (if long_modifier then
       let value := s64 v in
       if value <? 0 then
         emit "-" ;;
         let magnitude := u64 (u64 (- (value + 1)) + 1) in
         emit_unsigned magnitude 10
       else emit_unsigned (u64 value) 10
     else emit_signed (s32 v)) ;; ret ap'
  else if Ascii.eqb d "u" then
    let! (v, ap') := va_arg_slot ap in
    (if long_modifier then emit_unsigned (u64 v) 10 else emit_unsigned (u32 v) 10) ;; ret ap'
  else if Ascii.eqb d "x" then
    let! (v, ap') := va_arg_slot ap in
    (if long_modifier then emit_hex (u64 v) else emit_hex (u32 v)) ;; ret ap'
  else if Ascii.eqb d "p" then
    let! (v, ap') := va_arg_slot ap in
    let value := u64 v in
    emit "0" ;; emit "x" ;; emit_nibbles 16 value ;; ret ap'
  else
    emit "%" ;;
    (if long_modifier then emit "l" else ret tt) ;;
    emit d ;; ret ap.

(** The loop over the format.  A format ending in [%l] makes the [switch] see
    the terminator, after which [++format] steps over it and the loop reads
    past the end of the string. *)
Fixpoint kprintf_loop (format : string) (ap : list VaArg) : M unit :=
  match format with
  | EmptyString => ret tt
  | String c rest =>
      if negb (Ascii.eqb c "%") then emit c ;; kprintf_loop rest ap
      else
        match rest with
        | EmptyString => ret tt
        | String c1 rest1 =>
            if Ascii.eqb c1 "l" then
              match rest1 with
              | EmptyString => let! _ := directive true char_nul ap in fault
              | String d after =>
                  let! ap' := directive true d ap in kprintf_loop after ap'
              end
            else
              let! ap' := directive false c1 ap in kprintf_loop rest1 ap'
        end
  end.

Definition kprintf (format : option string) (ap : list VaArg) : M unit :=
  match format with
  | None => ret tt
  | Some f => kprintf_loop f ap
  end.

End WithDevice.

(** ** Specification: the text a format denotes *)

(** The digits of [v], least significant first. *)
Fixpoint digits_lsf (fuel : nat) (base v : Z) : list Z :=
  match fuel with
  | O => []
  | S fuel' => if v =? 0 then [] else (v mod base) :: digits_lsf fuel' base (v / base)
  end.

Definition numeral (base v : Z) : list ascii :=
  if v =? 0 then ["0"%char] else map digit (rev (digits_lsf 64 base v)).

(** The number a most-significant-first digit list denotes. *)
Definition value_of (base : Z) (ds : list Z) : Z :=
  fold_left (λ acc d, acc * base + d) ds 0.

Definition signed_numeral (v : Z) : list ascii :=
  if v <? 0 then "-"%char :: numeral 10 (- v) else numeral 10 v.

Definition pointer_text (v : Z) : list ascii :=
  "0"%char :: "x"%char ::
  map (λ i, digit ((v / 16 ^ Z.of_nat i) mod 16)) (rev (seq 0 16)).

Definition string_text (p : option string) : list ascii :=
  list_ascii_of_string (default "(null)"%string p).

(** One conversion: its text and the arguments left, or [None] when the
    arguments do not fit it. *)
Definition render_directive (long : bool) (d : ascii) (ap : list VaArg)
    : option (list ascii * list VaArg) :=
  if Ascii.eqb d "%" then Some (["%"%char], ap)
  else if Ascii.eqb d "c" then
    match ap with
    | va_int v :: ap' => Some ([ascii_of_N (Z.to_N (v mod 256))], ap')
    | _ => None
    end
  else if Ascii.eqb d "s" then
    match ap with va_str p :: ap' => Some (string_text p, ap') | _ => None end
  else if Ascii.eqb d "d" then
    match ap with
    | va_int v :: ap' => Some (signed_numeral (if long then s64 v else s32 v), ap')
    | _ => None
    end
  else if Ascii.eqb d "u" then
    match ap with
    | va_int v :: ap' => Some (numeral 10 (if long then u64 v else u32 v), ap')
    | _ => None
    end
  else if Ascii.eqb d "x" then
    match ap with
    | va_int v :: ap' => Some (numeral 16 (if long then u64 v else u32 v), ap')
    | _ => None
    end
  else if Ascii.eqb d "p" then
    match ap with va_int v :: ap' => Some (pointer_text (u64 v), ap') | _ => None end
  else Some (("%"%char :: (if long then ["l"%char] else [])) ++ [d], ap).

Fixpoint render (format : string) (ap : list VaArg) : option (list ascii) :=
  match format with
  | EmptyString => Some []
  | String c rest =>
      if negb (Ascii.eqb c "%") then cons c <$> render rest ap
      else
        match rest with
        | EmptyString => Some []
        | String c1 rest1 =>
            if Ascii.eqb c1 "l" then
              match rest1 with
              | EmptyString => None
              | String d after =>
                  '(t, ap') ← render_directive true d ap; app t <$> render after ap'
              end
            else '(t, ap') ← render_directive false c1 ap; app t <$> render rest1 ap'
        end
  end.

(** What any format prints with any arguments, and whether [kprintf] returns:
    it stops where an argument is missing or of the wrong kind, and past a
    format that ends in [%l]. *)
Fixpoint transcript (format : string) (ap : list VaArg) : list ascii * bool :=
  match format with
  | EmptyString => ([], true)
  | String c rest =>
      if negb (Ascii.eqb c "%") then let '(t, ok) := transcript rest ap in (c :: t, ok)
      else
        match rest with
        | EmptyString => ([], true)
        | String c1 rest1 =>
            let long := Ascii.eqb c1 "l" in
            if long then
              match rest1 with
              | EmptyString => (["%"; "l"; char_nul]%char, false)
              | String d after =>
                  match render_directive true d ap with
                  | Some (t1, ap') => let '(t, ok) := transcript after ap' in (t1 ++ t, ok)
                  | None => ([], false)
                  end
              end
            else
              match render_directive false c1 ap with
              | Some (t1, ap') => let '(t, ok) := transcript rest1 ap' in (t1 ++ t, ok)
              | None => ([], false)
              end
        end
  end.

(** ** Numerals *)

Lemma digits_lsf_length base k : ∀ fuel v, 2 <= base → 0 <= v < base ^ Z.of_nat k →
  (length (digits_lsf fuel base v) ≤ k)%nat.
Proof.
  induction k as [| k IH]; intros [| fuel] v Hb Hv; simpl; try lia;
    destruct (Z.eqb_spec v 0); simpl; try lia.
  rewrite Nat2Z.inj_succ, Z.pow_succ_r in Hv by lia.
  apply le_n_S, IH; [done |]. split; [apply Z.div_pos; lia |].
  apply Z.div_lt_upper_bound; lia.
Qed.

Lemma digits_lsf_range base fuel : ∀ v, 2 <= base → 0 <= v →
  Forall (λ d, 0 <= d < base) (digits_lsf fuel base v).
Proof.
  induction fuel as [| fuel IH]; intros v Hb Hv; simpl; [constructor |].
  destruct (Z.eqb_spec v 0); constructor.
  - apply Z.mod_pos_bound. lia.
  - apply IH; [done |]. apply Z.div_pos; lia.
Qed.

Lemma value_of_app base l d : value_of base (l ++ [d]) = value_of base l * base + d.
Proof. unfold value_of. by rewrite fold_left_app. Qed.

Lemma value_of_digits base fuel : ∀ v, 2 <= base → 0 <= v < base ^ Z.of_nat fuel →
  value_of base (rev (digits_lsf fuel base v)) = v.
Proof.
  induction fuel as [| fuel IH]; intros v Hb Hv; simpl.
  - simpl in Hv. unfold value_of. simpl. lia.
  - destruct (Z.eqb_spec v 0) as [-> |]; [done |]. simpl.
    rewrite Nat2Z.inj_succ, Z.pow_succ_r in Hv by lia.
    rewrite value_of_app, IH; [| done |].
    + pose proof (Z.div_mod v base). lia.
    + split; [apply Z.div_pos; lia |]. apply Z.div_lt_upper_bound; lia.
Qed.

Lemma digits_lsf_last base fuel : ∀ v, 2 <= base → 0 < v < base ^ Z.of_nat fuel →
  ∃ d, head (rev (digits_lsf fuel base v)) = Some d ∧ d ≠ 0.
Proof.
  induction fuel as [| fuel IH]; intros v Hb Hv; [simpl in Hv; lia |]. simpl.
  destruct (Z.eqb_spec v 0); [lia |]. simpl.
  rewrite Nat2Z.inj_succ, Z.pow_succ_r in Hv by lia.
  destruct (decide (v / base = 0)) as [Hz | Hz].
  - rewrite Hz. replace (digits_lsf fuel base 0) with (@nil Z) by (destruct fuel; done).
    simpl. exists (v mod base). split; [done |].
    pose proof (Z.div_mod v base). lia.
  - destruct (IH (v / base)) as (d & Hd & Hne); [done | |].
    + split; [pose proof (Z.div_pos v base); lia |]. apply Z.div_lt_upper_bound; lia.
    + exists d. split; [| done].
      destruct (rev (digits_lsf fuel base (v / base))); done.
Qed.

Lemma u64_lt_pow base : 2 <= base → ∀ v, is_u64 v → 0 <= v < base ^ Z.of_nat 64.
Proof.
  intros Hb v Hv. unfold is_u64 in Hv. split; [lia |].
  apply Z.lt_le_trans with (2 ^ 64); [lia |]. apply Z.pow_le_mono_l. lia.
Qed.

(** A numeral denotes its number, in digits of its base, with no leading zero:
    together with the injectivity of [digit] this determines the text. *)
Lemma numeral_spec base v : 2 <= base <= 16 → is_u64 v →
  ∃ ds, numeral base v = map digit ds ∧ value_of base ds = v ∧
        Forall (λ d, 0 <= d < base) ds ∧ (v ≠ 0 → head ds ≠ Some 0).
Proof.
  intros Hb Hv. unfold numeral. destruct (Z.eqb_spec v 0) as [-> | Hne].
  - exists [0]. repeat split; try done. by repeat constructor; lia.
  - pose proof (u64_lt_pow base ltac:(lia) v Hv).
    exists (rev (digits_lsf 64 base v)). split; [done |]. split; [| split].
    + apply value_of_digits; lia.
    + apply Forall_rev, digits_lsf_range; unfold is_u64 in Hv; lia.
    + intros _. destruct (digits_lsf_last base 64 v) as (d & -> & Hd); [lia.. |]. congruence.
Qed.

Lemma digit_inj d e : 0 <= d < 16 → 0 <= e < 16 → digit d = digit e → d = e.
Proof.
  intros Hd He Heq.
  assert (∀ x, 0 <= x < 16 → index 0 (String (digit x) EmptyString)
            "0123456789abcdef"%string = Some (Z.to_nat x)) as Hix.
  { intros x Hx.
    assert (x = 0 ∨ x = 1 ∨ x = 2 ∨ x = 3 ∨ x = 4 ∨ x = 5 ∨ x = 6 ∨ x = 7 ∨ x = 8 ∨
            x = 9 ∨ x = 10 ∨ x = 11 ∨ x = 12 ∨ x = 13 ∨ x = 14 ∨ x = 15) as Hc by lia.
    repeat (destruct Hc as [-> | Hc]; [reflexivity |]). by subst x. }
  pose proof (Hix d Hd) as H1. rewrite Heq, (Hix e He) in H1. injection H1. lia.
Qed.

Section Emission.
Context {PD : PortDevice}.
#[local] Opaque emit.

Lemma emit_list_app l1 l2 : emit_list (l1 ++ l2) ≡ₘ (emit_list l1 ;; emit_list l2).
Proof.
  induction l1 as [| c l1 IH]; simpl.
  - by rewrite bind_ret_l.
  - rewrite bind_assoc. by setoid_rewrite IH.
Qed.

Lemma emit_list_one c : emit_list [c] ≡ₘ emit c.
Proof. apply bind_ret_r. Qed.

Lemma emit_chars_list s : emit_chars s ≡ₘ emit_list (list_ascii_of_string s).
Proof. induction s as [| c s IH]; simpl; [done |]. by setoid_rewrite IH. Qed.

Lemma emit_string_text p : emit_string p ≡ₘ emit_list (string_text p).
Proof.
  destruct p as [s |]; simpl; [apply emit_chars_list |].
  by setoid_rewrite bind_ret_r.
Qed.

(** The digit loop: with room for every digit it fills the buffer and ends. *)
Lemma fill_buffer_digits base size fuel : ∀ v buf s, 2 <= base →
  0 <= v < base ^ Z.of_nat fuel →
  (length buf + length (digits_lsf fuel base v) ≤ size)%nat →
  fill_buffer fuel size v base buf s = Ok (buf ++ map digit (digits_lsf fuel base v)) s.
Proof.
  induction fuel as [| fuel IH]; intros v buf s Hb Hv Hsz; simpl in *.
  - destruct (Z.eqb_spec v 0); [by rewrite app_nil_r | lia].
  - destruct (Z.eqb_spec v 0); simpl in *; [by rewrite app_nil_r |].
    destruct (Nat.leb_spec size (length buf)); [lia |].
    rewrite Nat2Z.inj_succ, Z.pow_succ_r in Hv by lia.
    rewrite IH; [by rewrite <- app_assoc | done | | rewrite length_app; simpl; lia].
    split; [apply Z.div_pos; lia |]. apply Z.div_lt_upper_bound; lia.
Qed.

Lemma fill_buffer_hex_eq size fuel : ∀ v buf,
  fill_buffer_hex fuel size v buf ≡ₘ fill_buffer fuel size v 16 buf.
Proof.
  induction fuel as [| fuel IH]; intros v buf s; simpl; [done |].
  rewrite Z.shiftr_div_pow2, land_0xF by lia.
  destruct (v =? 0); [done |]. destruct (_ <=? _)%nat; [done | apply IH].
Qed.

Lemma emit_unsigned_numeral v : is_u64 v → emit_unsigned v 10 ≡ₘ emit_list (numeral 10 v).
Proof.
  intros Hv s. unfold emit_unsigned, numeral. destruct (v =? 0).
  - by rewrite emit_list_one.
  - unfold bind. rewrite fill_buffer_digits; [| lia | apply u64_lt_pow; [lia | done] |].
    + unfold emit_backwards. by rewrite app_nil_l, map_rev.
    + assert (length (digits_lsf 64 10 v) ≤ 20)%nat; [| rewrite length_nil; lia].
      apply digits_lsf_length; [lia |]. unfold is_u64 in Hv. lia.
Qed.

Lemma emit_hex_numeral v : is_u64 v → emit_hex v ≡ₘ emit_list (numeral 16 v).
Proof.
  intros Hv s. unfold emit_hex, numeral. destruct (v =? 0).
  - by rewrite emit_list_one.
  - rewrite (bind_proper _ _ _ _ (fill_buffer_hex_eq 16 64 v []) _ _ (λ _ _, eq_refl)).
    unfold bind. rewrite fill_buffer_digits; [| lia | apply u64_lt_pow; [lia | done] |].
    + unfold emit_backwards. by rewrite app_nil_l, map_rev.
    + assert (length (digits_lsf 64 16 v) ≤ 16)%nat; [| rewrite length_nil; lia].
      apply digits_lsf_length; [lia |]. unfold is_u64 in Hv. lia.
Qed.

Lemma emit_nibbles_text n v : emit_nibbles n v ≡ₘ
  emit_list (map (λ i, digit ((v / 16 ^ Z.of_nat i) mod 16)) (rev (seq 0 n))).
Proof.
  induction n as [| n IH]; [done |].
  rewrite seq_S, rev_app_distr. cbn [rev app map emit_list emit_nibbles].
  rewrite Z.shiftr_div_pow2, land_0xF by lia.
  replace (2 ^ (Z.of_nat n * 4)) with (16 ^ Z.of_nat n)
    by (change 16 with (2 ^ 4); rewrite <- Z.pow_mul_r by lia; f_equal; lia).
  by setoid_rewrite IH.
Qed.

Lemma u32_is_u64 x : is_u64 (u32 x).
Proof. unfold is_u64, u32. pose proof (Z.mod_pos_bound x 4294967296). lia. Qed.

(** The magnitude of a negative number is computed without overflow, the
    most negative value included. *)
Lemma emit_signed_numeral v : emit_signed (s32 v) ≡ₘ emit_list (signed_numeral (s32 v)).
Proof.
  unfold emit_signed, signed_numeral.
  pose proof (s32_range v) as Hv.
  generalize dependent (s32 v). clear v. intros v Hv.
  destruct (Z.ltb_spec v 0).
  - cbn [emit_list].
    replace (u32 (u32 (- (v + 1)) + 1)) with (- v) by (unfold u32; dlia).
    by setoid_rewrite emit_unsigned_numeral; [| unfold is_u64; lia].
  - replace (u32 v) with v by (unfold u32; dlia).
    apply emit_unsigned_numeral. unfold is_u64. lia.
Qed.

Lemma emit_signed64_numeral v :
  (if s64 v <? 0 then emit "-" ;; emit_unsigned (u64 (u64 (- (s64 v + 1)) + 1)) 10
   else emit_unsigned (u64 (s64 v)) 10) ≡ₘ emit_list (signed_numeral (s64 v)).
Proof.
  unfold signed_numeral.
  assert (-9223372036854775808 <= s64 v < 9223372036854775808) as Hv.
  { unfold s64. pose proof (u64_range v). unfold is_u64 in *.
    destruct (Z.ltb_spec (u64 v) 9223372036854775808); lia. }
  generalize dependent (s64 v). clear v. intros v Hv.
  destruct (Z.ltb_spec v 0).
  - cbn [emit_list].
    replace (u64 (u64 (- (v + 1)) + 1)) with (- v) by (u64_simpl; lia).
    by setoid_rewrite emit_unsigned_numeral; [| unfold is_u64; lia].
  - rewrite u64_small by (unfold is_u64; lia).
    apply emit_unsigned_numeral. unfold is_u64. lia.
Qed.

Lemma u8_s32 v : u8 (s32 v) = v mod 256.
Proof. unfold u8, s32, u32. destruct (_ <? _); dlia. Qed.

Lemma directive_render long d ap t ap' : render_directive long d ap = Some (t, ap') →
  directive long d ap ≡ₘ (emit_list t ;; ret ap').
Proof.
  unfold render_directive, directive, va_arg_slot, va_arg_string. intros H.
  destruct (Ascii.eqb d "%"); [simplify_eq; by rewrite emit_list_one |].
  destruct (Ascii.eqb d "c").
  { destruct ap as [| [v | p] ap]; simplify_eq. rewrite bind_ret_l. cbv beta iota.
    by rewrite u8_s32, emit_list_one. }
  destruct (Ascii.eqb d "s").
  { destruct ap as [| [v | p] ap]; simplify_eq. rewrite bind_ret_l. cbv beta iota.
    by rewrite emit_string_text. }
  destruct (Ascii.eqb d "d").
  { destruct ap as [| [v | p] ap]; simplify_eq. rewrite bind_ret_l. cbv beta iota.
    destruct long; [by rewrite emit_signed64_numeral | by rewrite emit_signed_numeral]. }
  destruct (Ascii.eqb d "u").
  { destruct ap as [| [v | p] ap]; simplify_eq. rewrite bind_ret_l. cbv beta iota.
    destruct long; by rewrite emit_unsigned_numeral by auto using u64_range, u32_is_u64. }
  destruct (Ascii.eqb d "x").
  { destruct ap as [| [v | p] ap]; simplify_eq. rewrite bind_ret_l. cbv beta iota.
    destruct long; by rewrite emit_hex_numeral by auto using u64_range, u32_is_u64. }
  destruct (Ascii.eqb d "p").
  { destruct ap as [| [v | p] ap]; simplify_eq. rewrite bind_ret_l. cbv beta iota zeta.
    setoid_rewrite emit_nibbles_text. unfold pointer_text.
    generalize (map (λ i, digit ((u64 v / 16 ^ Z.of_nat i) mod 16)) (rev (seq 0 16))).
    intros l. cbn [emit_list]. by repeat setoid_rewrite bind_assoc. }
  simplify_eq. destruct long; cbn [emit_list app]; repeat setoid_rewrite bind_assoc.
  - by setoid_rewrite bind_ret_l.
  - by repeat setoid_rewrite bind_ret_l.
Qed.

(** The loop over the format prints what the format denotes. *)
Lemma kprintf_loop_render : ∀ format ap t, render format ap = Some t →
  kprintf_loop format ap ≡ₘ emit_list t.
Proof.
  intros format. induction format as [format IH] using (induction_ltof1 _ String.length).
  unfold ltof in IH. intros ap t H. destruct format as [| c rest]; simpl in *.
  { by simplify_eq. }
  destruct (negb (Ascii.eqb c "%")).
  { apply fmap_Some in H as (t' & Ht & ->). cbn [emit_list].
    apply bind_proper; [done | intros []; apply IH; [lia | done]]. }
  destruct rest as [| c1 rest1]; [by simplify_eq |]. simpl in *.
  destruct (Ascii.eqb c1 "l"); [destruct rest1 as [| d after]; [done |] |].
  all: apply bind_Some in H as ([t1 ap1] & H1 & (t2 & H2 & ->)%fmap_Some).
  all: rewrite (directive_render _ _ _ _ _ H1), bind_assoc, emit_list_app.
  all: apply bind_proper; [done | intros []; rewrite bind_ret_l; apply IH; simpl; [lia | done]].
Qed.

(** A conversion without its argument stops at once. *)
Lemma directive_None long d ap : render_directive long d ap = None → directive long d ap ≡ₘ fault.
Proof.
  unfold render_directive, directive, va_arg_slot, va_arg_string. intros H s.
  repeat match type of H with context [Ascii.eqb d ?c] => destruct (Ascii.eqb d c); [by destruct ap as [| [] ap] |] end.
  done.
Qed.

(** A conversion and what follows it. *)
Definition then_transcript (r : option (list ascii * list VaArg)) (after : list VaArg → list ascii * bool) :=
  match r with
  | Some (t1, ap') => let '(t, ok) := after ap' in (t1 ++ t, ok)
  | None => ([], false)
  end.

Lemma directive_transcript long d ap (k : list VaArg → M unit) (after : list VaArg → list ascii * bool) :
  (∀ ap', k ap' ≡ₘ (emit_list (after ap').1 ;; if (after ap').2 then ret tt else fault)) →
  (let! ap' := directive long d ap in k ap') ≡ₘ
    (let r := then_transcript (render_directive long d ap) after in
     emit_list r.1 ;; if r.2 then ret tt else fault).
Proof.
  intros Hk. destruct (render_directive long d ap) as [[t1 ap1] |] eqn:H1; cbn [then_transcript];
    [| rewrite (directive_None _ _ _ H1); by intros s].
  rewrite (directive_render _ _ _ _ _ H1), bind_assoc. specialize (Hk ap1).
  destruct (after ap1) as [t ok]. cbn [fst snd] in *. cbv zeta. rewrite emit_list_app, bind_assoc.
  apply bind_proper; [done | intros []; rewrite bind_ret_l; apply Hk].
Qed.

(** The loop over any format: its transcript, then the end or the fault. *)
Lemma kprintf_loop_transcript : ∀ format ap, kprintf_loop format ap ≡ₘ
  (emit_list (transcript format ap).1 ;; if (transcript format ap).2 then ret tt else fault).
Proof.
  intros format. induction format as [format IH] using (induction_ltof1 _ String.length).
  unfold ltof in IH. intros ap. destruct format as [| c rest]; cbn [transcript kprintf_loop String.length] in *; [by intros s |].
  destruct (negb (Ascii.eqb c "%")).
  { specialize (IH rest ltac:(lia) ap). destruct (transcript rest ap) as [t ok]. cbn [fst snd emit_list] in *.
    rewrite bind_assoc. by setoid_rewrite IH. }
  destruct rest as [| c1 rest1]; [by intros s |]. cbn [transcript kprintf_loop String.length] in *.
  destruct (Ascii.eqb c1 "l"); [destruct rest1 as [| d after] |]; cbn [transcript kprintf_loop String.length] in *.
  { rewrite (directive_render true char_nul ap ["%"; "l"; char_nul]%char ap) by done.
    rewrite bind_assoc. apply bind_proper; [done | intros []; by rewrite bind_ret_l]. }
  - apply (directive_transcript true d ap _ (transcript after)). intros ap'. apply IH. lia.
  - apply (directive_transcript false c1 ap _ (transcript rest1)). intros ap'. apply IH. lia.
Qed.

(** A format that fits its arguments is one whose transcript is complete. *)
Lemma render_transcript : ∀ format ap,
  render format ap = if (transcript format ap).2 then Some (transcript format ap).1 else None.
Proof.
  intros format. induction format as [format IH] using (induction_ltof1 _ String.length).
  unfold ltof in IH. intros ap. destruct format as [| c rest]; cbn [transcript render String.length] in *; [done |].
  destruct (negb (Ascii.eqb c "%")).
  { rewrite (IH rest) by lia. by destruct (transcript rest ap) as [t []]. }
  destruct rest as [| c1 rest1]; [done |]. cbn [transcript render String.length] in *.
  destruct (Ascii.eqb c1 "l"); [destruct rest1 as [| d after]; [done |] |]; cbn [transcript render String.length] in *.
  - destruct (render_directive true d ap) as [[t1 ap1] |]; [| done]. cbn [mbind option_bind].
    rewrite IH by lia. by destruct (transcript after ap1) as [t []].
  - destruct (render_directive false c1 ap) as [[t1 ap1] |]; [| done]. cbn [mbind option_bind].
    rewrite IH by lia. by destruct (transcript rest1 ap1) as [t []].
Qed.

(** ** Effects of printing *)

#[local] Transparent emit.

Lemma wp_emit c (Q : unit → machine → Prop) s :
  (∀ s', Serial.only_device s s' → Q tt s') → wp (emit c) Q s.
Proof.
  intros HQ. apply wp_bind, wp_gets. destruct (output_sink s) as [[] |].
  - by apply Serial.wp_putc.
  - by apply wp_ret, HQ.
Qed.

Lemma wp_emit_list l (Q : unit → machine → Prop) s :
  (∀ s', Serial.only_device s s' → Q tt s') → wp (emit_list l) Q s.
Proof.
  revert s. induction l as [| c l IH]; intros s HQ; [by apply wp_ret, HQ |].
  apply wp_bind, wp_emit. intros s1 Hs1. apply IH.
  intros s2 Hs2. apply HQ. by etrans.
Qed.

(** The arguments fit the format: decidable from their kinds alone. *)
Definition format_ok (format : string) (ap : list VaArg) : bool :=
  match render format ap with Some _ => true | None => false end.

(** The rule clients use: a format that fits its arguments prints and
    changes only the device. *)
Lemma wp_kprintf format ap (Q : unit → machine → Prop) s :
  format_ok format ap = true →
  (∀ s', Serial.only_device s s' → Q tt s') → wp (kprintf (Some format) ap) Q s.
Proof.
  unfold format_ok. destruct (render format ap) as [t |] eqn:Ht; [| done]. intros _ HQ.
  unfold kprintf. rewrite (kprintf_loop_render _ _ _ Ht). by apply wp_emit_list.
Qed.

End Emission.

#[global] Arguments kprintf : simpl never.
#[global] Arguments kprintf_loop : simpl never.
#[global] Arguments emit : simpl never.

End Print.
