(* ===== verification/Console.v ===== *)
(** The console, end to end: [kprintf] over the serial driver over the UART.

    [Transmitter] and [Registers] state what the driver relies on about the
    device, register by register; the theorems about the text that leaves the
    UART are proved against them, and [Uart], a 16550 reduced to the registers
    the driver uses, meets both.  [Console] is what the code that prints relies on in turn. *)

From Stdlib Require Import ZArith Lia Ascii String.
From stdpp Require Import base numbers list gmap.
From S2P Require Import Prelude Descriptors Machine Io Serial Print.
Local Open Scope Z_scope.

(** ** The transmitter of a UART *)

Section Polling.
Context {PD : PortDevice}.

(** The device after [n] reads of the line status register. *)
Fixpoint polls (n : nat) (d : pdev) : pdev :=
  match n with
  | O => d
  | S n' => (port_in (Serial.reg Serial.LineStatus) (polls n' d)).2
  end.

(** The bit the driver waits for, in the next read of the status. *)
Definition status_bit (mask : Z) (d : pdev) : bool :=
  negb (Z.land (u8 (port_in (Serial.reg Serial.LineStatus) d).1) mask =? 0).

End Polling.

(** [online d]: the line is configured and out of loopback; [sent d]: the
    bytes that have left the UART.  The holding register empties before the
    driver gives up, and a byte written when it is empty is sent. *)
Class Transmitter `{PD : PortDevice} := {
  online : pdev → Prop;
  sent : pdev → list Z;
  tx_poll d : online d →
    let d' := (port_in (Serial.reg Serial.LineStatus) d).2 in online d' ∧ sent d' = sent d;
  tx_ready d : online d → ∃ n, Z.of_nat n < Serial.TX_TIMEOUT ∧
    status_bit Serial.LSR_THRE (polls n d) = true;
  tx_send d b : online d → status_bit Serial.LSR_THRE d = true →
    let d' := port_out (Serial.reg Serial.Data) b
                (port_in (Serial.reg Serial.LineStatus) d).2 in
    online d' ∧ sent d' = sent d ++ [b]
}.

(** What a newline becomes on the wire. *)
Definition wire (l : list ascii) : list Z :=
  l ≫= λ c, if Ascii.eqb c char_nl then [byte_of char_cr; byte_of char_nl] else [byte_of c].

Lemma wire_app l1 l2 : wire (l1 ++ l2) = wire l1 ++ wire l2.
Proof. apply bind_app. Qed.

Lemma wire_cons c l : wire (c :: l) = wire [c] ++ wire l.
Proof. apply (wire_app [c]). Qed.

Section Transmission.
Context `{TX : Transmitter}.
Implicit Types s : machine.

Lemma polls_online n d : online d → online (polls n d) ∧ sent (polls n d) = sent d.
Proof.
  intros Hd. induction n as [| n [Ho Hs]]; simpl; [done |].
  destruct (tx_poll _ Ho) as [Ho' Hs']. split; [done | congruence].
Qed.

(** Waiting succeeds, at a read that showed the bit. *)
Lemma wp_wait_ready s mask timeout (Q : bool → machine → Prop) :
  0 <= timeout < two64 → (∃ n, Z.of_nat n < timeout ∧ status_bit mask (polls n (device s)) = true) →
  (∀ n, status_bit mask (polls n (device s)) = true → Q true (with_device (polls (S n) (device s)) s)) →
  wp (Serial.wait_for mask timeout) Q s.
Proof.
  intros Ht (n & Hn & Hbit) HQ. apply wp_bind.
  apply (wp_for_range (λ j s', j <= Z.of_nat n ∧ s' = with_device (polls (Z.to_nat j) (device s)) s));
    [lia | lia | lia | apply Z.mod_1_r | | | intros s' [? _]; lia].
  { split; [lia |]. by destruct s. }
  intros j s' Hj [Hjn ->]. apply wp_bind, Serial.wp_inb. simpl. intros v d Hv.
  assert (status_bit mask (polls (Z.to_nat j) (device s)) = negb (Z.land (u8 v) mask =? 0)) as Hsb
    by (unfold status_bit; by rewrite Hv).
  assert (d = polls (S (Z.to_nat j)) (device s)) as -> by (simpl; by rewrite Hv).
  destruct (negb (Z.land (u8 v) mask =? 0)); apply wp_ret.
  - apply wp_ret. by apply (HQ (Z.to_nat j)).
  - assert (j ≠ Z.of_nat n) by (intros ->; rewrite Nat2Z.id in Hsb; congruence).
    split; [lia |]. by replace (Z.to_nat (j + 1)) with (S (Z.to_nat j)) by lia.
Qed.

(** A console in use: the driver is up and the line is configured. *)
Definition up s : Prop := initialized s = true ∧ online (device s).

(** [s'] is [s] after the bytes [bs] have been sent. *)
Definition transmitted s (bs : list Z) s' : Prop :=
  Serial.only_device s s' ∧ online (device s') ∧ sent (device s') = sent (device s) ++ bs.

Lemma transmitted_nil s : up s → transmitted s [] s.
Proof. intros [_ Ho]. split_and!; [done | done | by rewrite app_nil_r]. Qed.

Lemma transmitted_app s bs1 s1 bs2 s2 : transmitted s bs1 s1 → transmitted s1 bs2 s2 →
  transmitted s (bs1 ++ bs2) s2.
Proof.
  intros (D1 & O1 & S1) (D2 & O2 & S2). split_and!; [by etrans | done |].
  by rewrite S2, S1, app_assoc.
Qed.

Lemma transmitted_up s bs s' : up s → transmitted s bs s' → up s'.
Proof. intros [Hi _] (Hd & Ho & _). split; [by rewrite Hd | done]. Qed.

Lemma transmitted_sink s bs s' : transmitted s bs s' → output_sink s' = output_sink s.
Proof. by intros (-> & _). Qed.

(** One byte through the holding register. *)
Lemma wp_send_byte s b (Q : unit → machine → Prop) : up s →
  (∀ s', transmitted s [b] s' → Q tt s') →
  wp (let! ready := Serial.wait_for Serial.LSR_THRE Serial.TX_TIMEOUT in
      if negb ready then ret tt else outb (Serial.reg Serial.Data) b) Q s.
Proof.
  intros [Hi Ho] HQ. apply wp_bind, wp_wait_ready;
    [unfold Serial.TX_TIMEOUT, two64; lia | by apply tx_ready |].
  intros n Hn. cbn [negb]. apply Serial.wp_outb, HQ. cbn [device with_device polls].
  destruct (polls_online n _ Ho) as [Hon Hsn]. destruct (tx_send _ b Hon Hn) as [Ho' Hs'].
  split_and!; [done | done |]. simpl. rewrite Hs'. by rewrite Hsn.
Qed.

Lemma wp_putc_rec_sent depth c s (Q : unit → machine → Prop) : up s →
  (c = char_nl → depth ≠ 0%nat) →
  (∀ s', transmitted s (wire [c]) s' → Q tt s') → wp (Serial.putc_rec depth c) Q s.
Proof.
  revert c s Q. induction depth as [| depth IH]; intros c s Q Hup Hc HQ; simpl;
    wp_step; apply wp_gets; rewrite (proj1 Hup); cbn [negb]; apply wp_bind;
    destruct (Ascii.eqb_spec c char_nl) as [-> | Hne].
  - by destruct Hc.
  - apply wp_ret, wp_send_byte; [done |]. intros s' Hs'. apply HQ.
    unfold wire. simpl. by rewrite (proj2 (Ascii.eqb_neq _ _) Hne).
  - apply IH; [done | done |]. intros s1 Hs1. apply wp_send_byte; [by eapply transmitted_up |].
    intros s2 Hs2. apply HQ. exact (transmitted_app _ _ _ _ _ Hs1 Hs2).
  - apply wp_ret, wp_send_byte; [done |]. intros s' Hs'. apply HQ.
    unfold wire. simpl. by rewrite (proj2 (Ascii.eqb_neq _ _) Hne).
Qed.

Lemma wp_putc_sent c s (Q : unit → machine → Prop) : up s →
  (∀ s', transmitted s (wire [c]) s' → Q tt s') → wp (Serial.putc c) Q s.
Proof. intros Hup. by apply wp_putc_rec_sent. Qed.

Lemma wp_write_chars_sent str : ∀ s (Q : unit → machine → Prop), up s →
  (∀ s', transmitted s (wire (list_ascii_of_string str)) s' → Q tt s') →
  wp (Serial.write_chars str) Q s.
Proof.
  induction str as [| c str IH]; intros s Q Hup HQ; cbn [Serial.write_chars].
  - by apply wp_ret, HQ, transmitted_nil.
  - apply wp_bind, wp_putc_sent; [done |]. intros s1 Hs1.
    apply IH; [by eapply transmitted_up |]. intros s2 Hs2. apply HQ.
    cbn [list_ascii_of_string]. rewrite wire_cons. by eapply transmitted_app.
Qed.

Lemma wp_emit_list_sent l : ∀ s (Q : unit → machine → Prop), up s →
  output_sink s = Some serial_putc →
  (∀ s', transmitted s (wire l) s' → Q tt s') → wp (Print.emit_list l) Q s.
Proof.
  induction l as [| c l IH]; intros s Q Hup Hk HQ; cbn [Print.emit_list].
  - by apply wp_ret, HQ, transmitted_nil.
  - apply wp_bind. unfold Print.emit. wp_step. apply wp_gets. rewrite Hk.
    apply wp_putc_sent; [done |]. intros s1 Hs1.
    apply IH; [by eapply transmitted_up | by rewrite (transmitted_sink _ _ _ Hs1) |].
    intros s2 Hs2. apply HQ. rewrite wire_cons. by eapply transmitted_app.
Qed.

Lemma wp_kprintf_sent s format ap t (Q : unit → machine → Prop) : up s →
  output_sink s = Some serial_putc → Print.render format ap = Some t →
  (∀ s', transmitted s (wire t) s' → Q tt s') → wp (Print.kprintf (Some format) ap) Q s.
Proof.
  intros Hup Hk Ht HQ. unfold Print.kprintf.
  rewrite (Print.kprintf_loop_render _ _ _ Ht). by apply wp_emit_list_sent.
Qed.

End Transmission.

(** ** The registers *)

(** What the registers of a 16550 hold: the line and modem control bytes, the
    divisor of the 115200 baud clock, and the received bytes not yet read, the
    oldest first. *)
Record line_state := mk_line {
  line_control : Z;
  modem_control : Z;
  divisor : Z;
  incoming : list Z
}.

Definition latched (l : line_state) : bool := Z.testbit (line_control l) 7.
Definition looped (l : line_state) : bool := Z.testbit (modem_control l) 4.

(** The effect of writing [v] to register [r], as the data sheet has it.  The
    divisor latch bit turns the first two registers into the divisor; a byte
    written in loopback is received; the FIFO control byte clears the receiver
    when its enable and clear bits are set.  [None]: not described here. *)
Definition line_write (r v : Z) (l : line_state) : option line_state :=
  if r =? Serial.LineControl then
    Some (mk_line v (modem_control l) (divisor l) (incoming l))
  else if r =? Serial.ModemControl then
    Some (mk_line (line_control l) v (divisor l) (incoming l))
  else if r =? Serial.FifoControl then
    if Z.testbit v 0 && Z.testbit v 1 then
      Some (mk_line (line_control l) (modem_control l) (divisor l) [])
    else None
  else if r =? Serial.InterruptEnable then
    if latched l then
      Some (mk_line (line_control l) (modem_control l) (256 * v + divisor l mod 256) (incoming l))
    else Some l
  else if r =? Serial.Data then
    if latched l then
      Some (mk_line (line_control l) (modem_control l) (256 * (divisor l / 256) + v) (incoming l))
    else if looped l then
      Some (mk_line (line_control l) (modem_control l) (divisor l) (incoming l ++ [v]))
    else None
  else None.

(** A device with these registers.  [line_of] is what they hold.  A write the
    table above describes has that effect and sends nothing (no byte arrives
    from the other end at that moment); in loopback, polling changes nothing,
    a received byte shows in the line status within one character time, which
    is proportional to the divisor, and is then what the data register gives.
    With a divisor, out of loopback and with the latch closed, the transmitter
    is on line.  [character_polls] is how many reads of the status fit in a
    character time at divisor 1: fewer than the driver makes. *)
Class Registers `{TX : Transmitter} := {
  line_of : pdev → line_state;
  character_polls : Z;
  rg_write d r v l : line_write r v (line_of d) = Some l →
    let d' := port_out (Serial.reg r) v d in line_of d' = l ∧ sent d' = sent d;
  rg_poll d : looped (line_of d) = true →
    let d' := (port_in (Serial.reg Serial.LineStatus) d).2 in
    line_of d' = line_of d ∧ sent d' = sent d;
  rg_ready d : looped (line_of d) = true → incoming (line_of d) ≠ [] →
    ∃ n, Z.of_nat n <= character_polls * divisor (line_of d) ∧
      status_bit Serial.LSR_DR (polls n d) = true;
  rg_read d b rest : looped (line_of d) = true → latched (line_of d) = false →
    incoming (line_of d) = b :: rest → status_bit Serial.LSR_DR d = true →
    let '(v, d') := port_in (Serial.reg Serial.Data) (port_in (Serial.reg Serial.LineStatus) d).2 in
    u8 v = u8 b ∧ sent d' = sent d ∧
    line_of d' = mk_line (line_control (line_of d)) (modem_control (line_of d)) (divisor (line_of d)) rest;
  rg_online d : latched (line_of d) = false → looped (line_of d) = false →
    divisor (line_of d) ≠ 0 → online d;
  rg_fast : character_polls < Serial.LOOPBACK_TIMEOUT
}.

Section SelfTest.
Context `{RG : Registers}.
Implicit Types s : machine.

Lemma wp_outb_line {B} r v (k : unit → M B) (Q : B → machine → Prop) s d l :
  line_write r v (line_of d) = Some l →
  (∀ d', line_of d' = l → sent d' = sent d → wp (k tt) Q (with_device d' s)) →
  wp (bind (outb (Serial.reg r) v) k) Q (with_device d s).
Proof. intros [Hl Hs]%rg_write HQ. by apply Serial.wp_outb_k, (HQ (port_out (Serial.reg r) v d)). Qed.

Lemma polls_looped n d : looped (line_of d) = true →
  line_of (polls n d) = line_of d ∧ sent (polls n d) = sent d.
Proof.
  intros Hd. induction n as [| n [Hl Hs]]; simpl; [done |].
  destruct (rg_poll (polls n d)) as [-> ->]; [by rewrite Hl | done].
Qed.

(** A byte written in loopback is read back. *)
Lemma wp_loopback {B} s lc mc q b (k : bool → Z → M B) (fail : M B) (Q : B → machine → Prop) :
  line_of (device s) = mk_line lc mc q [b] → Z.testbit lc 7 = false → Z.testbit mc 4 = true →
  character_polls * q < Serial.LOOPBACK_TIMEOUT →
  (∀ d, line_of d = mk_line lc mc q [] → sent d = sent (device s) → wp (k true (u8 b)) Q (with_device d s)) →
  wp (let! ready := Serial.wait_for Serial.LSR_DR Serial.LOOPBACK_TIMEOUT in
      if negb ready then fail else
      let! echo := inb (Serial.reg Serial.Data) in k ready echo) Q s.
Proof.
  intros Hl Hlc Hmc Hq HQ. assert (looped (line_of (device s)) = true) as Hlp by (by rewrite Hl).
  apply wp_bind, wp_wait_ready; [unfold Serial.LOOPBACK_TIMEOUT, two64; lia | |].
  - destruct (rg_ready (device s) Hlp) as (n & Hn & Hbit); rewrite Hl in *; [done |].
    exists n. split; [simpl in Hn; lia | done].
  - intros n Hn. cbn [negb]. destruct (polls_looped n _ Hlp) as [Hpl Hps].
    pose proof (rg_read (polls n (device s)) b []) as Hr. rewrite Hpl, Hps, Hl in Hr.
    specialize (Hr Hmc Hlc eq_refl Hn). apply wp_bind, Serial.wp_inb. cbn [device with_device polls].
    intros v d Hv. rewrite Hv in Hr. destruct Hr as (-> & Hs & Hd). by apply (HQ d).
Qed.

Lemma divisor_bytes q v : 0 <= v <= 65535 →
  256 * u8 (Z.land (Z.shiftr v 8) 0xFF) + (256 * (q / 256) + u8 (Z.land v 0xFF)) mod 256 = v.
Proof.
  intros Hv. autorewrite with masks. rewrite Z.shiftr_div_pow2 by lia. unfold u8. dlia.
Qed.

Lemma divisor_range baud : 2 <= baud <= 115200 → 1 <= 115200 / baud <= 57600.
Proof. intros Hb. split; [apply Z.div_le_lower_bound; lia | apply Z.div_le_upper_bound; lia]. Qed.

(** The line is configured whatever its registers held. *)
Lemma wp_init_up s baud : 2 <= baud <= 115200 →
  character_polls * (115200 / baud) < Serial.LOOPBACK_TIMEOUT →
  wp (Serial.init baud) (λ ok s', ok = true ∧ Serial.only_serial s s' ∧ up s' ∧
    sent (device s') = sent (device s) ∧
    line_of (device s') = mk_line 0x03 0x0F (115200 / baud) []) s.
Proof.
  intros Hb Hq. destruct (Serial.divisor_ok baud Hb) as [E1 E2]. pose proof (divisor_range baud Hb) as Hv.
  unfold Serial.init. rewrite E1. cbv zeta. rewrite E2. clear E1 E2.
  generalize dependent (115200 / baud). intros q Hq Hv. wp_step. apply wp_modify.
  change (with_initialized false s) with (with_device (device s) (with_initialized false s)).
  assert (∃ l, line_write Serial.InterruptEnable 0 (line_of (device s)) = Some l)
    as [l0 W0] by (cbn -[latched]; case_match; by eexists).
  apply (wp_outb_line _ _ _ _ _ _ _ W0). clear W0. intros d1 L1 S1.
  do 8 (eapply wp_outb_line; [rewrite L1; reflexivity |];
        let d := fresh "d" in let L := fresh "L" in let S := fresh "S" in
        intros d L S; rewrite S1 in S; clear L1 S1; clear d1; rename d into d1, L into L1, S into S1).
  cbn [line_control modem_control divisor incoming app] in L1. rewrite divisor_bytes in L1 by lia.
  apply (wp_loopback _ 0x03 0x1E q Serial.LOOPBACK_TEST_BYTE (λ _ echo, if negb (echo =? Serial.LOOPBACK_TEST_BYTE)
    then outb (Serial.reg Serial.ModemControl) 0x00 ;; ret false
    else outb (Serial.reg Serial.ModemControl) 0x0F ;; modify (with_initialized true) ;; ret true));
    [done | done | done | done |].
  cbn [device with_device]. intros d2 L2 S2. rewrite S1 in S2.
  change (u8 Serial.LOOPBACK_TEST_BYTE =? Serial.LOOPBACK_TEST_BYTE) with true. cbn [negb].
  eapply wp_outb_line; [rewrite L2; reflexivity |]. intros d3 L3 S3. rewrite S2 in S3.
  apply wp_bind, wp_modify, wp_ret. split_and!; [done | by eexists _, _ | | done | done].
  split; [done |]. apply rg_online; cbn; rewrite L3; [done | done | simpl; lia].
Qed.

End SelfTest.

(** ** A concrete device *)

(** A 16550 with an instant transmitter: the divisor latch hides the data
    register, loopback returns what is written to the receive side, and the
    FIFO control register can clear the receiver. *)
Module Uart.

Record uart := mk_uart {
  lcr : Z;
  mcr : Z;
  clock : Z;
  received : list Z;
  transmitted : list Z
}.

Definition dlab (u : uart) : bool := Z.testbit (lcr u) 7.
Definition loopback (u : uart) : bool := Z.testbit (mcr u) 4.

Definition read (port : Z) (u : uart) : Z * uart :=
  if port =? Serial.reg Serial.LineStatus then
    (Z.lor Serial.LSR_THRE (match received u with [] => 0 | _ => Serial.LSR_DR end), u)
  else if (port =? Serial.reg Serial.Data) && negb (dlab u) then
    match received u with
    | [] => (0, u)
    | b :: rest => (b, mk_uart (lcr u) (mcr u) (clock u) rest (transmitted u))
    end
  else (0, u).

Definition write (port v : Z) (u : uart) : uart :=
  if port =? Serial.reg Serial.LineControl then
    mk_uart v (mcr u) (clock u) (received u) (transmitted u)
  else if port =? Serial.reg Serial.ModemControl then
    mk_uart (lcr u) v (clock u) (received u) (transmitted u)
  else if port =? Serial.reg Serial.FifoControl then
    if Z.testbit v 1 then mk_uart (lcr u) (mcr u) (clock u) [] (transmitted u) else u
  else if port =? Serial.reg Serial.Data then
    if dlab u then mk_uart (lcr u) (mcr u) (256 * (clock u / 256) + v) (received u) (transmitted u)
    else if loopback u then mk_uart (lcr u) (mcr u) (clock u) (received u ++ [v]) (transmitted u)
    else mk_uart (lcr u) (mcr u) (clock u) (received u) (transmitted u ++ [v])
  else if (port =? Serial.reg Serial.InterruptEnable) && dlab u then
    mk_uart (lcr u) (mcr u) (256 * v + clock u mod 256) (received u) (transmitted u)
  else u.

Definition reset : uart := mk_uart 0 0 0 [] [].

(** A wider access is a sequence of byte accesses to consecutive ports, the
    least significant byte first. *)
Definition width_bytes (w : Width) : list Z :=
  match w with W8 => [0] | W16 => [0; 1] | W32 => [0; 1; 2; 3] end.

Definition bus_read (w : Width) (port : Z) (u : uart) : Z * uart :=
  foldl (λ '(v, u), λ i, let '(b, u') := read (port + i) u in (v + Z.shiftl b (8 * i), u'))
    (0, u) (width_bytes w).

Definition bus_write (w : Width) (port v : Z) (u : uart) : uart :=
  foldl (λ u i, write (port + i) (u8 (Z.shiftr v (8 * i))) u) u (width_bytes w).

#[local] Instance uart_device : PortDevice := {|
  pdev := uart;
  dev_in := λ w, match w with W8 => read | _ => bus_read w end;
  dev_out := λ w, match w with W8 => write | _ => bus_write w end
|}.

#[local] Program Instance uart_transmitter : Transmitter := {|
  online := λ u, dlab u = false ∧ loopback u = false;
  sent := transmitted
|}.
Next Obligation. done. Qed.
Next Obligation. intros d _. exists 0%nat. unfold status_bit. simpl. by destruct (received d). Qed.
Next Obligation.
  intros d b [Hd Hl] _. unfold dev_out, uart_device, write. simpl. rewrite Hd. simpl. by rewrite Hl.
Qed.

Definition line_of_uart (u : uart) : line_state := mk_line (lcr u) (mcr u) (clock u) (received u).

Lemma uart_write u r v l : line_write r v (line_of_uart u) = Some l →
  line_of_uart (write (Serial.reg r) v u) = l ∧ transmitted (write (Serial.reg r) v u) = transmitted u.
Proof.
  unfold line_write, latched, looped. cbn [line_of_uart line_control modem_control divisor incoming].
  destruct (Z.eqb_spec r Serial.LineControl) as [-> |]; [by intros [= <-] |].
  destruct (Z.eqb_spec r Serial.ModemControl) as [-> |]; [by intros [= <-] |].
  destruct (Z.eqb_spec r Serial.FifoControl) as [-> |].
  { unfold write. cbn -[Z.testbit]. destruct (Z.testbit v 0), (Z.testbit v 1); by intros [= <-]. }
  destruct (Z.eqb_spec r Serial.InterruptEnable) as [-> |].
  { unfold write. cbn -[Z.testbit]. unfold dlab. destruct (Z.testbit (lcr u) 7); by intros [= <-]. }
  destruct (Z.eqb_spec r Serial.Data) as [-> |]; [| done].
  unfold write, dlab, loopback. cbn -[Z.testbit].
  destruct (Z.testbit (lcr u) 7), (Z.testbit (mcr u) 4); by intros [= <-].
Qed.

#[local] Program Instance uart_registers : Registers := {|
  line_of := line_of_uart;
  character_polls := 0
|}.
Next Obligation. exact uart_write. Qed.
Next Obligation. done. Qed.
Next Obligation.
  intros u _ Hi. exists 0%nat. split; [done |]. unfold status_bit. simpl in *. by destruct (received u).
Qed.
Next Obligation.
  intros [c m q i t] b rest _ Hd Hi _. unfold latched in Hd. simpl in Hd, Hi. subst i.
  unfold dev_in, uart_device, read, dlab. simpl. by rewrite Hd.
Qed.
Next Obligation. by intros u Hd Hl _. Qed.
Next Obligation. done. Qed.

End Uart.

(** ** The console the kernel talks to

    What the code that prints relies on, so that a whole run can be followed
    once for every device: [c_up] says the console can be used and [c_said]
    what was said between two states.  Any device at all is a console of which
    nothing is known; a working UART is one whose bytes are. *)

Definition same_console `{PD : PortDevice} (s s' : machine) : Prop :=
  output_sink s' = output_sink s ∧ initialized s' = initialized s ∧ device s' = device s.

Definition text (s : string) : list ascii := list_ascii_of_string s.

Class Console `{PD : PortDevice} := {
  c_up : machine → Prop;
  c_said : list ascii → machine → machine → Prop;
  c_up_same s s' : same_console s s' → c_up s → c_up s';
  c_said_same t s1 s1' s2 s2' : device s1' = device s1 → device s2' = device s2 →
    c_said t s1 s2 → c_said t s1' s2';
  c_said_nil s : c_said [] s s;
  c_said_app t1 t2 s1 s2 s3 : c_said t1 s1 s2 → c_said t2 s2 s3 → c_said (t1 ++ t2) s1 s3;
  c_start s : wp (Serial.init 115200) (λ _ s', Serial.only_serial s s' ∧
    c_up (with_output_sink (Some serial_putc) s') ∧ c_said [] s s') s;
  c_write s str : c_up s → wp (Serial.write (Some str))
    (λ _ s', Serial.only_device s s' ∧ c_up s' ∧ c_said (text str) s s') s;
  c_kprintf s format ap t : c_up s → Print.render format ap = Some t →
    wp (Print.kprintf (Some format) ap)
      (λ _ s', Serial.only_device s s' ∧ c_up s' ∧ c_said t s s') s
}.

(** Whatever is behind the ports. *)
#[local] Program Instance any_console `{PD : PortDevice} : Console := {|
  c_up := λ _, True;
  c_said := λ _ _ _, True
|}.
Solve Obligations with try done.
Next Obligation.
  intros PD s. eapply wp_mono; [apply Serial.wp_init; lia |]. by intros ok s' [_ Hs].
Qed.
Next Obligation. intros PD s str _. by apply Serial.wp_write. Qed.
Next Obligation. intros PD s format ap t _ Ht. apply Print.wp_kprintf; [| done]. unfold Print.format_ok. by rewrite Ht. Qed.

(** A UART that works, with the bytes that have left it. *)
#[local] Program Instance wire_console `{RG : Registers} : Console := {|
  c_up := λ s, up s ∧ output_sink s = Some serial_putc;
  c_said := λ t s s', sent (device s') = sent (device s) ++ wire t
|}.
Next Obligation. intros PD TX RG s s' (Hk & Hi & Hd) [[? ?] ?]. split; [split |]; congruence. Qed.
Next Obligation. intros PD TX RG t s1 s1' s2 s2' E1 E2 H. simpl in *. by rewrite E1, E2. Qed.
Next Obligation. intros PD TX RG s. simpl. by rewrite app_nil_r. Qed.
Next Obligation.
  intros PD TX RG t1 t2 s1 s2 s3 H1 H2. simpl in *. by rewrite H2, H1, wire_app, app_assoc.
Qed.
Next Obligation.
  intros PD TX RG s. eapply wp_mono; [apply wp_init_up; [lia |] |].
  { change (115200 / 115200) with 1. rewrite Z.mul_1_r. apply rg_fast. }
  intros ok s' (_ & Hs & Hup & Hsent & _).
  split_and!; try done. by rewrite app_nil_r.
Qed.
Next Obligation.
  intros PD TX RG s str [Hup Hk]. apply (wp_write_chars_sent str); [done |].
  intros s' Ht. split_and!; [apply Ht | by eapply transmitted_up | | apply Ht].
  by rewrite (transmitted_sink _ _ _ Ht).
Qed.
Next Obligation.
  intros PD TX RG s format ap t [Hup Hk] Hr. apply (wp_kprintf_sent s format ap t); [done.. |].
  intros s' Ht. split_and!; [apply Ht | by eapply transmitted_up | | apply Ht].
  by rewrite (transmitted_sink _ _ _ Ht).
Qed.

(** *** Following what is said *)

Section Said.
Context `{CN : Console}.
Implicit Types (s : machine) (t : list ascii).

(** [m] returns having said [t]; [m] stops the CPU having said [t]. *)
Definition tells {A} (m : M A) t (Q : A → machine → Prop) s : Prop :=
  wp m (λ a s', c_said t s s' ∧ Q a s') s.
Definition ends {A} (m : M A) t (Q : machine → Prop) s : Prop :=
  halts m (λ s', c_said t s s' ∧ Q s') s.

Lemma tells_bind {A B} (m : M A) (k : A → M B) t1 t2 (Q : B → machine → Prop) s :
  tells m t1 (λ a s', tells (k a) t2 Q s') s → tells (bind m k) (t1 ++ t2) Q s.
Proof.
  intros H. apply wp_bind. eapply wp_mono; [exact H |]. intros a s1 [H1 H2].
  eapply wp_mono; [exact H2 |]. intros b s2 [H3 HQ]. split; [by eapply c_said_app | done].
Qed.

Lemma ends_bind {A B} (m : M A) (k : A → M B) t1 t2 (Q : machine → Prop) s :
  tells m t1 (λ a s', ends (k a) t2 Q s') s → ends (bind m k) (t1 ++ t2) Q s.
Proof.
  intros H. apply halts_bind. eapply wp_mono; [exact H |]. intros a s1 [H1 (s2 & E & H2 & HQ)].
  exists s2. split_and!; [done | by eapply c_said_app | done].
Qed.

Lemma ends_halt {A} (Q : machine → Prop) s : Q s → ends (A := A) halt [] Q s.
Proof. intros HQ. apply halts_halt. split; [apply c_said_nil | done]. Qed.

Lemma tells_ret {A} (a : A) (Q : A → machine → Prop) s : Q a s → tells (ret a) [] Q s.
Proof. intros HQ. apply wp_ret. split; [apply c_said_nil | done]. Qed.

(** A step that leaves the device alone says nothing. *)
Lemma tells_silent {A} (m : M A) (Q : A → machine → Prop) s :
  wp m (λ a s', device s' = device s ∧ Q a s') s → tells m [] Q s.
Proof.
  intros H. eapply wp_mono; [exact H |]. intros a s' [Hd HQ]. split; [| done].
  by eapply (c_said_same _ s s s s'); [.. | apply c_said_nil].
Qed.

Lemma ends_silent {A B} (m : M A) (k : A → M B) t (Q : machine → Prop) s :
  wp m (λ a s', device s' = device s ∧ ends (k a) t Q s') s → ends (bind m k) t Q s.
Proof. intros H. apply (ends_bind m k [] t). by apply tells_silent. Qed.

Lemma tells_bind_nil {A B} (m : M A) (k : A → M B) t (Q : B → machine → Prop) s :
  tells m [] (λ a s', tells (k a) t Q s') s → tells (bind m k) t Q s.
Proof. apply (tells_bind m k []). Qed.

Lemma tells_skip {A B} (m : M A) (k : A → M B) t (Q : B → machine → Prop) s :
  wp m (λ a s', device s' = device s ∧ tells (k a) t Q s') s → tells (bind m k) t Q s.
Proof. intros H. by apply tells_bind_nil, tells_silent. Qed.

(** Only the devices matter for what was said. *)
Lemma tells_from {A} (m : M A) t (Q : A → machine → Prop) s s' : device s' = device s →
  tells m t Q s' → wp m (λ a s'', c_said t s s'' ∧ Q a s'') s'.
Proof.
  intros Hd H. eapply wp_mono; [exact H |]. intros a s'' [Hs HQ]. split; [| done].
  by apply (c_said_same t s' s s'' s'').
Qed.

Lemma ends_bind_l {A B} (m : M A) (k : A → M B) t (Q : machine → Prop) s :
  ends m t Q s → ends (bind m k) t Q s.
Proof. apply halts_bind_l. Qed.

Lemma ends_bind_assoc {A B C} (m : M A) (f : A → M B) (k : B → M C) t (Q : machine → Prop) s :
  ends (bind m (λ a, bind (f a) k)) t Q s → ends (bind (bind m f) k) t Q s.
Proof. unfold ends, halts. by rewrite (bind_assoc m f k s). Qed.

Lemma tells_mono {A} (m : M A) t (P Q : A → machine → Prop) s :
  tells m t P s → (∀ a s', P a s' → Q a s') → tells m t Q s.
Proof. intros H HQ. eapply wp_mono; [exact H |]. intros a s' [? ?]. auto. Qed.

Lemma ends_mono {A} (m : M A) t (P Q : machine → Prop) s :
  ends m t P s → (∀ s', P s' → Q s') → ends m t Q s.
Proof. intros (s' & E & H1 & H2) HQ. exists s'. auto. Qed.

(** Output, from a state that differs from [s0] in the device alone. *)
Lemma tells_kprintf s0 format ap t (Q : unit → machine → Prop) s :
  Serial.only_device s0 s → c_up s → Print.render format ap = Some t →
  (∀ s', Serial.only_device s0 s' → c_up s' → Q tt s') →
  tells (Print.kprintf (Some format) ap) t Q s.
Proof.
  intros H0 Hup Ht HQ. eapply wp_mono; [by apply c_kprintf |]. intros [] s' (Hd & Hup' & Hs).
  split; [done |]. apply HQ; [by etrans | done].
Qed.

Lemma tells_write s0 str (Q : unit → machine → Prop) s :
  Serial.only_device s0 s → c_up s →
  (∀ s', Serial.only_device s0 s' → c_up s' → Q tt s') →
  tells (Serial.write (Some str)) (text str) Q s.
Proof.
  intros H0 Hup HQ. eapply wp_mono; [by apply c_write |]. intros [] s' (Hd & Hup' & Hs).
  split; [done |]. apply HQ; [by etrans | done].
Qed.

End Said.

(** One line of output, with the state before it as the base. *)
Ltac say :=
  match goal with
  | H : Serial.only_device ?s0 ?s, U : c_up ?s |- ends _ _ _ ?s =>
      eapply ends_bind;
      first [apply (tells_write s0); [exact H | exact U |]
            | eapply (tells_kprintf s0); [exact H | exact U | reflexivity |]];
      clear s H U; intros s H U
  | H : Serial.only_device ?s0 ?s, U : c_up ?s |- tells (bind _ _) _ _ ?s =>
      eapply tells_bind;
      first [apply (tells_write s0); [exact H | exact U |]
            | eapply (tells_kprintf s0); [exact H | exact U | reflexivity |]];
      clear s H U; intros s H U
  | H : Serial.only_device ?s0 ?s, U : c_up ?s |- tells _ _ _ ?s =>
      first [apply (tells_write s0); [exact H | exact U |]
            | eapply (tells_kprintf s0); [exact H | exact U | reflexivity |]];
      clear s H U; intros s H U
  end.

(** The same from an explicit state: [U] says the console was up in a state
    with the same console, and afterwards in the new one. *)
Ltac speak U :=
  lazymatch goal with
  | |- ends (bind _ _) _ _ _ => eapply ends_bind
  | |- tells (bind _ _) _ _ _ => eapply tells_bind
  | _ => idtac
  end;
  lazymatch goal with
  | |- tells _ _ _ ?s =>
      let V := fresh "V" in
      assert (c_up s) as V by (eapply c_up_same; [| exact U]; done); clear U;
      first [apply (tells_write s); [done | exact V |]
            | eapply (tells_kprintf s); [done | exact V | reflexivity |]];
      clear V;
      let s' := fresh "s" in let d := fresh "d" in
      intros s' [d ->]%Serial.only_device_ex U
  end.
