(* ===== verification/Cpu.v ===== *)
(** Bringing up the CPU and taking exceptions: src/src/arch/x86_64/gdt.cpp,
    idt.cpp, interrupts.cpp and the entry stubs of isr.S.

    The addresses of the tables and of the stubs are chosen by the linker and
    are arguments.  The stack at the entry of a handler is a list of words,
    the top first. *)

From Stdlib Require Import ZArith Lia Ascii String.
From stdpp Require Import base numbers list gmap.
From S2P Require Import Prelude Descriptors Machine Serial Print Console.
Local Open Scope Z_scope.

(** ** Segments and gates *)

Module Cpu.

Section WithDevice.
Context {PD : PortDevice}.

Definition on_cpu (f : cpu_state → cpu_state) : M unit := modify (λ s, with_cpu (f (cpu s)) s).

Definition lgdt (p : Gdt.GdtPointer) (c : cpu_state) : cpu_state :=
  mk_cpu (cr2 c) (cr3 c) (msrs c) p (idtr c)
    (seg_cs c) (seg_ds c) (seg_es c) (seg_fs c) (seg_gs c) (seg_ss c).

(** The far return: CS changes with the instruction pointer. *)
Definition lretq (code : Z) (c : cpu_state) : cpu_state :=
  mk_cpu (cr2 c) (cr3 c) (msrs c) (gdtr c) (idtr c)
    code (seg_ds c) (seg_es c) (seg_fs c) (seg_gs c) (seg_ss c).

(** The five [movw]s.  A load of FS or of GS takes the segment's base from the
    descriptor, 0 in all of them, and so clears the base MSR. *)
Definition kFsBaseMsr : Z := 0xC0000100.
Definition kGsBaseMsr : Z := 0xC0000101.

Definition load_data_segments (data : Z) (c : cpu_state) : cpu_state :=
  mk_cpu (cr2 c) (cr3 c) (<[kGsBaseMsr := 0]> (<[kFsBaseMsr := 0]> (msrs c)))
    (gdtr c) (idtr c) (seg_cs c) data data data data data.

Definition lidt (p : Idt.Pointer) (c : cpu_state) : cpu_state :=
  mk_cpu (cr2 c) (cr3 c) (msrs c) (gdtr c) p
    (seg_cs c) (seg_ds c) (seg_es c) (seg_fs c) (seg_gs c) (seg_ss c).

(** Loading a selector marks its descriptor, in the table in memory. *)
Definition mark_accessed (sel : Z) : M unit :=
  modify (λ s, with_gdt_table (Gdt.set_accessed sel (gdt_table s)) s).

Definition gdt_init (gdt_address : Z) : M unit :=
  on_cpu (lgdt (Gdt.gdt_pointer gdt_address)) ;;
  mark_accessed Gdt.kKernelCodeSelector ;;
  on_cpu (lretq Gdt.kKernelCodeSelector) ;;
  mark_accessed Gdt.kKernelDataSelector ;;
  on_cpu (load_data_segments Gdt.kKernelDataSelector).

(** [idt[i] = e]. *)
Definition set_gate (i : Z) (e : Idt.Entry) : M unit :=
  modify (λ s, with_idt_table (<[Z.to_nat i := e]> (idt_table s)) s).

Definition idt_init (isr_stub_table : Z → Z) (idt_address : Z) : M unit :=
  for_each 0 256 1 (λ i, set_gate i Idt.empty_entry) ;;
  for_each 0 32 1 (λ i,
    set_gate i (Idt.make_entry (isr_stub_table i) Gdt.kKernelCodeSelector 0 0x8E)) ;;
  on_cpu (lidt {| Idt.limit := u16 (256 * 16 - 1); Idt.base := idt_address |}).

Lemma wp_set_gate i e (Q : unit → machine → Prop) s :
  Q tt (with_idt_table (<[Z.to_nat i := e]> (idt_table s)) s) → wp (set_gate i e) Q s.
Proof. done. Qed.

(** A loop over gates fills a prefix of the table. *)
Lemma wp_fill_gates (f : Z → Idt.Entry) n s (Q : unit → machine → Prop) :
  0 <= n <= Z.of_nat (List.length (idt_table s)) → n < two64 →
  (∀ t, List.length t = List.length (idt_table s) →
     (∀ i, 0 <= i < n → t !! Z.to_nat i = Some (f i)) →
     (∀ i, n <= i → t !! Z.to_nat i = idt_table s !! Z.to_nat i) →
     Q tt (with_idt_table t s)) →
  wp (for_each 0 n 1 (λ i, set_gate i (f i))) Q s.
Proof.
  intros Hn H64 HQ.
  apply (wp_for_each (λ j s', ∃ t, s' = with_idt_table t s ∧
    List.length t = List.length (idt_table s) ∧
    (∀ i, 0 <= i < j → t !! Z.to_nat i = Some (f i)) ∧
    (∀ i, j <= i → t !! Z.to_nat i = idt_table s !! Z.to_nat i)));
    [lia | lia | done | apply Z.mod_1_r | | |].
  - exists (idt_table s). split_and!; [by destruct s | done | lia | done].
  - intros j s' Hj (t & -> & Hl & Hlo & Hhi). apply wp_set_gate.
    exists (<[Z.to_nat j := f j]> t). split_and!; [done | by rewrite length_insert | |].
    + intros i Hi. destruct (decide (i = j)) as [-> |].
      * apply list_lookup_insert_eq. lia.
      * rewrite list_lookup_insert_ne by lia. apply Hlo. lia.
    + intros i Hi. rewrite list_lookup_insert_ne by lia. apply Hhi. lia.
  - intros s' (t & -> & ? & ? & ?). by apply HQ.
Qed.

End WithDevice.
End Cpu.

(** ** Exceptions *)

Module Interrupts.

(** The words [isr_common] leaves on the stack, lowest address first. *)
Record InterruptFrame := mk_frame {
  r15 : Z; r14 : Z; r13 : Z; r12 : Z; r11 : Z; r10 : Z; r9 : Z; r8 : Z;
  rbp : Z; rdi : Z; rsi : Z; rdx : Z; rcx : Z; rbx : Z; rax : Z;
  vector : Z; error_code : Z;
  rip : Z; cs : Z; rflags : Z; rsp : Z; ss : Z
}.

Definition exception_name (vector : Z) : string :=
  match vector with
  | 0 => "#DE Divide Error"
  | 1 => "#DB Debug"
  | 2 => "NMI"
  | 3 => "#BP Breakpoint"
  | 4 => "#OF Overflow"
  | 5 => "#BR Bound Range"
  | 6 => "#UD Invalid Opcode"
  | 7 => "#NM Device Not Available"
  | 8 => "#DF Double Fault"
  | 9 => "Reserved"
  | 10 => "#TS Invalid TSS"
  | 11 => "#NP Segment Not Present"
  | 12 => "#SS Stack-Segment Fault"
  | 13 => "#GP General Protection"
  | 14 => "#PF Page Fault"
  | 15 => "Reserved"
  | 16 => "#MF x87 Floating-Point"
  | 17 => "#AC Alignment Check"
  | 18 => "#MC Machine Check"
  | 19 => "#XM SIMD Floating-Point"
  | 20 => "Reserved"
  | 21 => "#CP Control Protection"
  | 22 => "Reserved"
  | 23 => "Reserved"
  | 24 => "Reserved"
  | 25 => "Reserved"
  | 26 => "Reserved"
  | 27 => "Reserved"
  | 28 => "Reserved"
  | 29 => "#VC VMM Communication"
  | 30 => "#SX Security"
  | 31 => "Reserved"
  | _ => "Unknown"
  end%string.

Definition line (s : string) : string := (s ++ String char_nl "")%string.
Definition nl : string := String char_nl "".

(** The stubs of isr.S: the vectors for which the CPU pushes an error code,
    and the others. *)
Definition isr_error : list Z := [8; 10; 11; 12; 13; 14; 17; 21; 29; 30].
Definition isr_no_error : list Z :=
  [0; 1; 2; 3; 4; 5; 6; 7; 9; 15; 16; 18; 19; 20; 22; 23; 24; 25; 26; 27; 28; 31].

Definition isr_stub (vector : Z) (stack : list Z) : list Z :=
  if decide (vector ∈ isr_error) then vector :: stack else vector :: 0 :: stack.

(** The general registers, in the order [isr_common] pushes them. *)
Record registers := mk_regs {
  g_rax : Z; g_rbx : Z; g_rcx : Z; g_rdx : Z; g_rsi : Z; g_rdi : Z; g_rbp : Z;
  g_r8 : Z; g_r9 : Z; g_r10 : Z; g_r11 : Z; g_r12 : Z; g_r13 : Z; g_r14 : Z; g_r15 : Z
}.

Definition isr_common_push (g : registers) (stack : list Z) : list Z :=
  g_r15 g :: g_r14 g :: g_r13 g :: g_r12 g :: g_r11 g :: g_r10 g :: g_r9 g :: g_r8 g ::
  g_rbp g :: g_rdi g :: g_rsi g :: g_rdx g :: g_rcx g :: g_rbx g :: g_rax g :: stack.

(** The way back: fifteen pops, then [addq $16, %rsp]. *)
Definition isr_common_pop (stack : list Z) : option (registers * list Z) :=
  match stack with
  | p15 :: p14 :: p13 :: p12 :: p11 :: p10 :: p9 :: p8 ::
    pbp :: pdi :: psi :: pdx :: pcx :: pbx :: pax :: _ :: _ :: rest =>
      Some (mk_regs pax pbx pcx pdx psi pdi pbp p8 p9 p10 p11 p12 p13 p14 p15, rest)
  | _ => None
  end.

(** The stack read through an [InterruptFrame*]. *)
Definition frame_at (stack : list Z) : option InterruptFrame :=
  match stack with
  | p15 :: p14 :: p13 :: p12 :: p11 :: p10 :: p9 :: p8 ::
    pbp :: pdi :: psi :: pdx :: pcx :: pbx :: pax :: v :: err ::
    ip :: c :: fl :: sp :: st :: _ =>
      Some (mk_frame p15 p14 p13 p12 p11 p10 p9 p8 pbp pdi psi pdx pcx pbx pax v err ip c fl sp st)
  | _ => None
  end.

Section WithDevice.
Context {PD : PortDevice}.

(** The lines of the report on the error code of a page fault. *)
Definition fault_details (error_code : Z) : M unit :=
  Print.kprintf (Some (line "  Present: %u")) [va_int (Z.land (Z.shiftr error_code 0) 1)] ;;
  Print.kprintf (Some (line "  Write: %u")) [va_int (Z.land (Z.shiftr error_code 1) 1)] ;;
  Print.kprintf (Some (line "  User: %u")) [va_int (Z.land (Z.shiftr error_code 2) 1)] ;;
  Print.kprintf (Some (line "  Reserved-bit violation: %u"))
    [va_int (Z.land (Z.shiftr error_code 3) 1)] ;;
  Print.kprintf (Some (line "  Instruction fetch: %u"))
    [va_int (Z.land (Z.shiftr error_code 4) 1)].

Definition isr_handler (frame : InterruptFrame) : M unit :=
  Serial.write (Some (nl ++ nl ++ line "*** EXCEPTION ***")%string) ;;
  Serial.write (Some "Vector: "%string) ;;
  Print.kprintf (Some (line "%lu")) [va_int (vector frame)] ;;
  Serial.write (Some "Exception: "%string) ;;
  Serial.write (Some (exception_name (vector frame))) ;;
  Serial.write (Some nl) ;;
  Print.kprintf (Some (line "Error code: 0x%lx")) [va_int (error_code frame)] ;;
  let! cr2 :=
    (if vector frame =? 14 then
       let! cr2 := gets (λ s, cr2 (cpu s)) in
       fault_details (error_code frame) ;;
       ret cr2
     else ret 0) in
  Print.kprintf (Some (line "CR2:    %p")) [va_int cr2] ;;
  Print.kprintf (Some (line "RIP:    %p")) [va_int (rip frame)] ;;
  Print.kprintf (Some (line "CS:     0x%lx")) [va_int (cs frame)] ;;
  Print.kprintf (Some (line "RFLAGS: 0x%lx")) [va_int (rflags frame)] ;;
  Print.kprintf (Some (line "RSP:    %p")) [va_int (rsp frame)] ;;
  Print.kprintf (Some (line "SS:     0x%lx")) [va_int (ss frame)] ;;
  Print.kprintf (Some (line "RAX: %p  RBX: %p  RCX: %p"))
    [va_int (rax frame); va_int (rbx frame); va_int (rcx frame)] ;;
  Print.kprintf (Some (line "RDX: %p  RSI: %p  RDI: %p"))
    [va_int (rdx frame); va_int (rsi frame); va_int (rdi frame)] ;;
  Print.kprintf (Some (line "RBP: %p  R8:  %p  R9:  %p"))
    [va_int (rbp frame); va_int (r8 frame); va_int (r9 frame)] ;;
  Print.kprintf (Some (line "R10: %p  R11: %p  R12: %p"))
    [va_int (r10 frame); va_int (r11 frame); va_int (r12 frame)] ;;
  Print.kprintf (Some (line "R13: %p  R14: %p  R15: %p"))
    [va_int (r13 frame); va_int (r14 frame); va_int (r15 frame)] ;;
  Serial.write (Some (nl ++ line "System halted.")%string) ;;
  halt.

End WithDevice.
End Interrupts.
