(* ===== verification/Report.v ===== *)
(** What the kernel prints when it takes an exception: the text of the report
    as a function of the frame, and [isr_handler] proved to say exactly that on
    any [Console]. *)

From Stdlib Require Import ZArith Lia Ascii String.
From stdpp Require Import base numbers list gmap.
From S2P Require Import Prelude Descriptors Machine Serial Print Console Cpu.
Import Interrupts.
Local Open Scope Z_scope.

(** ** Texts *)

Definition labelled (label : string) (body : list ascii) : list ascii :=
  text label ++ body ++ [char_nl].
Definition dec (v : Z) : list ascii := Print.numeral 10 (u64 v).
Definition bit (v n : Z) : list ascii := Print.numeral 10 (if Z.testbit v n then 1 else 0).
Definition hex (v : Z) : list ascii := Print.numeral 16 (u64 v).
Definition ptr (v : Z) : list ascii := Print.pointer_text (u64 v).

Definition fault_bits (err : Z) : list ascii :=
  labelled "  Present: " (bit err 0) ++ labelled "  Write: " (bit err 1) ++
  labelled "  User: " (bit err 2) ++ labelled "  Reserved-bit violation: " (bit err 3) ++
  labelled "  Instruction fetch: " (bit err 4).

Definition three (a : string) (x : Z) (b : string) (y : Z) (c : string) (z : Z) : list ascii :=
  labelled a (ptr x ++ text b ++ ptr y ++ text c ++ ptr z).

(** What the report says of a frame: CR2 is shown for a page fault only. *)
Definition report (f : InterruptFrame) (fault_address : Z) : list ascii :=
  text (nl ++ nl ++ line "*** EXCEPTION ***")%string ++
  text "Vector: " ++ labelled "" (dec (vector f)) ++
  text "Exception: " ++ text (exception_name (vector f)) ++ text nl ++
  labelled "Error code: 0x" (hex (error_code f)) ++
  (if vector f =? 14 then fault_bits (error_code f) else []) ++
  labelled "CR2:    " (ptr (if vector f =? 14 then fault_address else 0)) ++
  labelled "RIP:    " (ptr (rip f)) ++ labelled "CS:     0x" (hex (cs f)) ++
  labelled "RFLAGS: 0x" (hex (rflags f)) ++ labelled "RSP:    " (ptr (rsp f)) ++
  labelled "SS:     0x" (hex (ss f)) ++
  three "RAX: " (rax f) "  RBX: " (rbx f) "  RCX: " (rcx f) ++
  three "RDX: " (rdx f) "  RSI: " (rsi f) "  RDI: " (rdi f) ++
  three "RBP: " (rbp f) "  R8:  " (r8 f) "  R9:  " (r9 f) ++
  three "R10: " (r10 f) "  R11: " (r11 f) "  R12: " (r12 f) ++
  three "R13: " (r13 f) "  R14: " (r14 f) "  R15: " (r15 f) ++
  text (nl ++ line "System halted.")%string ++ [].

Lemma bit_text v n : 0 <= n → bit v n = Print.numeral 10 (u32 (Z.land (Z.shiftr v n) 1)).
Proof.
  intros Hn. unfold bit. f_equal. rewrite land_0x1, <- Z.bit0_mod, Z.shiftr_spec, Z.add_0_l by lia.
  by destruct (Z.testbit v n).
Qed.

Lemma app_cons_assoc (c : ascii) l1 l2 : (l1 ++ [c]) ++ l2 = l1 ++ c :: l2.
Proof. by rewrite <- app_assoc. Qed.

Section Said.
Context `{CN : Console}.
Implicit Types (s : machine) (t : list ascii).

#[local] Opaque Print.numeral Print.pointer_text.

Lemma tells_fault_details s0 err s (Q : unit → machine → Prop) :
  Serial.only_device s0 s → c_up s → (∀ s', Serial.only_device s0 s' → c_up s' → Q tt s') →
  tells (fault_details err) (fault_bits err) Q s.
Proof.
  intros H U HQ. unfold fault_bits. rewrite !bit_text by lia. unfold fault_details.
  do 5 say. by apply HQ.
Qed.

(** CR2 as the handler sees it, with the lines it adds for a page fault. *)
Lemma tells_fault_address s0 f s (Q : Z → machine → Prop) :
  Serial.only_device s0 s → c_up s →
  (∀ s', Serial.only_device s0 s' → c_up s' → Q (if vector f =? 14 then cr2 (cpu s0) else 0) s') →
  tells (if vector f =? 14 then
           let! cr2 := gets (λ s, cr2 (cpu s)) in
           fault_details (error_code f) ;; ret cr2
         else ret 0)
    (if vector f =? 14 then fault_bits (error_code f) else []) Q s.
Proof.
  intros H U HQ. destruct (vector f =? 14); [| by apply tells_ret, HQ].
  apply (tells_bind _ _ [] (fault_bits (error_code f))), tells_silent, wp_gets. split; [done |].
  rewrite <- (app_nil_r (fault_bits (error_code f))). apply tells_bind, (tells_fault_details s0); [done.. |].
  intros s' H' U'. apply tells_ret. replace (cr2 (cpu s)) with (cr2 (cpu s0)); [by apply HQ |].
  by rewrite H.
Qed.

(** The handler says its report and never comes back. *)
Lemma ends_isr_handler_from s0 f s : Serial.only_device s0 s → c_up s →
  ends (isr_handler f) (report f (cr2 (cpu s0))) (λ s', Serial.only_device s0 s' ∧ c_up s') s.
Proof.
  intros H U. unfold isr_handler, report. do 7 say.
  apply ends_bind, (tells_fault_address s0); [done.. |]. clear s H U. intros s H U.
  do 12 say. by apply ends_halt.
Qed.

Lemma ends_isr_handler f s : c_up s →
  ends (isr_handler f) (report f (cr2 (cpu s))) (λ s', Serial.only_device s s' ∧ c_up s') s.
Proof. by apply ends_isr_handler_from. Qed.

End Said.
