(* ===== verification/LibString.v ===== *)
(** The freestanding C library functions, src/src/lib/string.cpp, on a byte
    memory: an address that is absent cannot be accessed, and a computation
    that touches one has no result. *)

From Stdlib Require Import ZArith Lia.
From stdpp Require Import base numbers list gmap option.
From S2P Require Import Prelude.
Local Open Scope Z_scope.

Module LibString.

Abbreviation mem := (gmap Z Z).

Definition store8 (a v : Z) (m : mem) : option mem :=
  match m !! a with
  | Some _ => Some (<[a := v]> m)
  | None => None
  end.

(** [for (size_t i = lo; ...; i++)], [k] times. *)
Fixpoint for_up (k : nat) (i : Z) (body : Z → mem → option mem) (m : mem) : option mem :=
  match k with
  | O => Some m
  | S k' => m' ← body i m; for_up k' (i + 1) body m'
  end.

(** [for (size_t i = k; i > 0; i--)]. *)
Fixpoint for_down (k : nat) (body : Z → mem → option mem) (m : mem) : option mem :=
  match k with
  | O => Some m
  | S k' => m' ← body (Z.of_nat k) m; for_down k' body m'
  end.

Definition copy_byte (dest src i : Z) (m : mem) : option mem :=
  b ← m !! (src + i); store8 (dest + i) b m.

(** Each returns its first argument, as the C functions do, with the memory. *)
Definition memcpy (dest src n : Z) (m : mem) : option (Z * mem) :=
  m' ← for_up (Z.to_nat n) 0 (copy_byte dest src) m; Some (dest, m').

Definition memset (s c n : Z) (m : mem) : option (Z * mem) :=
  m' ← for_up (Z.to_nat n) 0 (λ i, store8 (s + i) (u8 c)) m; Some (s, m').

Definition memmove (dest src n : Z) (m : mem) : option (Z * mem) :=
  m' ← (if dest <? src then for_up (Z.to_nat n) 0 (copy_byte dest src) m
        else if src <? dest then for_down (Z.to_nat n) (λ i, copy_byte dest src (i - 1)) m
        else Some m);
  Some (dest, m').

Fixpoint memcmp_loop (k : nat) (i s1 s2 : Z) (m : mem) : option Z :=
  match k with
  | O => Some 0
  | S k' =>
      b1 ← m !! (s1 + i);
      b2 ← m !! (s2 + i);
      if b1 =? b2 then memcmp_loop k' (i + 1) s1 s2 m
      else Some (if b1 <? b2 then -1 else 1)
  end.

Definition memcmp (s1 s2 n : Z) (m : mem) : option Z := memcmp_loop (Z.to_nat n) 0 s1 s2 m.

(** ** What the functions promise *)

(** The bytes [a, a + n) can be accessed. *)
Definition buffer (m : mem) (a n : Z) : Prop := ∀ i, 0 <= i < n → is_Some (m !! (a + i)).

(** [m'] is [m] with [f i] at [dest + i] for [lo <= i < hi]. *)
Record filled (dest lo hi : Z) (f : Z → option Z) (m m' : mem) : Prop := {
  filled_in : ∀ i, lo <= i < hi → m' !! (dest + i) = f i;
  filled_out : ∀ a, ~ (dest + lo <= a < dest + hi) → m' !! a = m !! a
}.

Lemma store8_spec a v m : is_Some (m !! a) → store8 a v m = Some (<[a := v]> m).
Proof. unfold store8. by intros [x ->]. Qed.

Lemma copy_byte_spec dest src i m : is_Some (m !! (src + i)) → is_Some (m !! (dest + i)) →
  ∃ b, m !! (src + i) = Some b ∧ copy_byte dest src i m = Some (<[dest + i := b]> m).
Proof.
  intros [b Hb] Hd. exists b. split; [done |]. unfold copy_byte. rewrite Hb. simpl.
  by apply store8_spec.
Qed.

Lemma insert_is_Some (m : mem) a v x : is_Some (m !! x) → is_Some (<[a := v]> m !! x).
Proof. rewrite lookup_insert. case_decide; [eauto | done]. Qed.

(** Copying upwards reads bytes that have not been written yet when the
    destination is below the source or the two do not meet. *)
Lemma copy_up_spec dest src n k : ∀ i m, 0 <= i → i + Z.of_nat k = n →
  dest < src ∨ src + n <= dest ∨ dest + n <= src → buffer m src n → buffer m dest n →
  ∃ m', for_up k i (copy_byte dest src) m = Some m' ∧
    filled dest i n (λ j, m !! (src + j)) m m'.
Proof.
  induction k as [| k IH]; intros i m Hi Hn Hov Hs Hd; simpl.
  { exists m. split; [done |]. split; [lia | done]. }
  destruct (copy_byte_spec dest src i m (Hs i ltac:(lia)) (Hd i ltac:(lia))) as (b & Hb & ->). simpl.
  destruct (IH (i + 1) (<[dest + i := b]> m)) as (m' & -> & [Hin Hout]); [lia | lia | done | | |].
  { intros j Hj. by apply insert_is_Some, Hs. }
  { intros j Hj. by apply insert_is_Some, Hd. }
  exists m'. split; [done |]. split.
  - intros j Hj. destruct (decide (j = i)) as [-> |].
    + by rewrite Hout, lookup_insert_eq by lia.
    + rewrite Hin by lia. apply lookup_insert_ne. lia.
  - intros a Ha. rewrite Hout by lia. apply lookup_insert_ne. lia.
Qed.

(** Copying downwards does so when the destination is above the source. *)
Lemma copy_down_spec dest src k : ∀ m, src < dest → buffer m src (Z.of_nat k) →
  buffer m dest (Z.of_nat k) →
  ∃ m', for_down k (λ i, copy_byte dest src (i - 1)) m = Some m' ∧
    filled dest 0 (Z.of_nat k) (λ j, m !! (src + j)) m m'.
Proof.
  induction k as [| k IH]; intros m Hov Hs Hd.
  { exists m. split; [done |]. split; [intros i Hi; simpl in Hi; lia | done]. }
  cbn [for_down]. replace (Z.of_nat (S k) - 1) with (Z.of_nat k) by lia.
  destruct (copy_byte_spec dest src (Z.of_nat k) m (Hs (Z.of_nat k) ltac:(lia))
    (Hd (Z.of_nat k) ltac:(lia)))    as (b & Hb & ->). simpl.
  destruct (IH (<[dest + Z.of_nat k := b]> m)) as (m' & -> & [Hin Hout]); [done | | |].
  { intros j Hj. apply insert_is_Some, Hs. lia. }
  { intros j Hj. apply insert_is_Some, Hd. lia. }
  exists m'. split; [done |]. split.
  - intros j Hj. destruct (decide (j = Z.of_nat k)) as [-> |].
    + by rewrite Hout, lookup_insert_eq by lia.
    + rewrite Hin by lia. apply lookup_insert_ne. lia.
  - intros a Ha. rewrite Hout by lia. apply lookup_insert_ne. lia.
Qed.

Lemma set_up_spec s c n k : ∀ i m, 0 <= i → i + Z.of_nat k = n → buffer m s n →
  ∃ m', for_up k i (λ j, store8 (s + j) c) m = Some m' ∧ filled s i n (λ _, Some c) m m'.
Proof.
  induction k as [| k IH]; intros i m Hi Hn Hs; simpl.
  { exists m. split; [done |]. split; [lia | done]. }
  rewrite store8_spec by (apply Hs; lia). simpl.
  destruct (IH (i + 1) (<[s + i := c]> m)) as (m' & -> & [Hin Hout]); [lia | lia | |].
  { intros j Hj. by apply insert_is_Some, Hs. }
  exists m'. split; [done |]. split.
  - intros j Hj. destruct (decide (j = i)) as [-> |].
    + by rewrite Hout, lookup_insert_eq by lia.
    + apply Hin. lia.
  - intros a Ha. rewrite Hout by lia. apply lookup_insert_ne. lia.
Qed.

Lemma copy_self dest n m : 0 <= n → filled dest 0 n (λ j, m !! (dest + j)) m m.
Proof. by split. Qed.

(** The outcome of a comparison: equal, or decided at the first difference. *)
Definition compared (m : mem) (s1 s2 lo n r : Z) : Prop :=
  (r = 0 ∧ ∀ i, lo <= i < n → m !! (s1 + i) = m !! (s2 + i)) ∨
  ∃ k b1 b2, lo <= k < n ∧ (∀ i, lo <= i < k → m !! (s1 + i) = m !! (s2 + i)) ∧
    m !! (s1 + k) = Some b1 ∧ m !! (s2 + k) = Some b2 ∧ b1 ≠ b2 ∧
    r = if b1 <? b2 then -1 else 1.

Lemma memcmp_loop_spec m s1 s2 n k : ∀ i, 0 <= i → i + Z.of_nat k = n → buffer m s1 n →
  buffer m s2 n → ∃ r, memcmp_loop k i s1 s2 m = Some r ∧ compared m s1 s2 i n r.
Proof.
  induction k as [| k IH]; intros i Hi Hn H1 H2; simpl.
  { exists 0. split; [done |]. left. split; [done | lia]. }
  destruct (H1 i ltac:(lia)) as [b1 E1], (H2 i ltac:(lia)) as [b2 E2]. rewrite E1, E2. simpl.
  destruct (Z.eqb_spec b1 b2) as [-> | Hne].
  - destruct (IH (i + 1)) as (r & -> & Hr); [lia | lia | done | done |]. exists r. split; [done |].
    destruct Hr as [[-> Heq] | (x & c1 & c2 & Hx & Heq & Ex1 & Ex2 & Hne & ->)]; [left | right].
    + split; [done |]. intros j Hj. destruct (decide (j = i)) as [-> |]; [congruence | apply Heq; lia].
    + exists x, c1, c2. split_and!; try done; try lia.
      intros j Hj. destruct (decide (j = i)) as [-> |]; [congruence | apply Heq; lia].
  - eexists. split; [done |]. right. exists i, b1, b2. split_and!; try done; lia.
Qed.

(** C24: [memmove] copies the bytes the source held before the call, however
    the two buffers overlap, changes no other byte, and returns its
    destination. *)
Theorem memmove_correct dest src n m : 0 <= n → buffer m src n → buffer m dest n →
  ∃ m', memmove dest src n m = Some (dest, m') ∧ filled dest 0 n (λ i, m !! (src + i)) m m'.
Proof.
  intros Hn Hs Hd. unfold memmove. destruct (Z.ltb_spec dest src) as [Hlt | Hge].
  - destruct (copy_up_spec dest src n (Z.to_nat n) 0 m) as (m' & -> & Hf); try done; [lia | auto |].
    by exists m'.
  - destruct (Z.ltb_spec src dest) as [Hgt | Heq].
    + destruct (copy_down_spec dest src (Z.to_nat n) m) as (m' & -> & Hf); try done;
        [by rewrite Z2Nat.id.. |]. rewrite Z2Nat.id in Hf by done. by exists m'.
    + assert (dest = src) as -> by lia. exists m. split; [done | by apply copy_self].
Qed.

(** C36: on buffers that do not overlap [memcpy] copies and [memset] fills
    exactly the bytes asked for; both return their first argument. *)
Theorem memcpy_memset_correct dest src c n m : 0 <= n → buffer m src n → buffer m dest n →
  dest + n <= src ∨ src + n <= dest →
  (∃ m', memcpy dest src n m = Some (dest, m') ∧ filled dest 0 n (λ i, m !! (src + i)) m m') ∧
  (∃ m', memset dest c n m = Some (dest, m') ∧ filled dest 0 n (λ _, Some (u8 c)) m m').
Proof.
  intros Hn Hs Hd Hov. split.
  - unfold memcpy. destruct (copy_up_spec dest src n (Z.to_nat n) 0 m) as (m' & -> & Hf);
      try done; [lia | tauto |]. by exists m'.
  - unfold memset. destruct (set_up_spec dest (u8 c) n (Z.to_nat n) 0 m) as (m' & -> & Hf);
      try done; [lia |]. by exists m'.
Qed.

(** C37: [memcmp] returns 0 exactly when the buffers are equal, and otherwise
    orders them by their first different byte. *)
Theorem memcmp_correct s1 s2 n m : 0 <= n → buffer m s1 n → buffer m s2 n →
  ∃ r, memcmp s1 s2 n m = Some r ∧ compared m s1 s2 0 n r.
Proof. intros Hn H1 H2. apply memcmp_loop_spec; [lia | lia | done | done]. Qed.

(** ** Concrete buffers *)

Definition sample : mem := list_to_map (zip (seqZ 100 8) [1; 2; 3; 4; 5; 6; 7; 8]).

Lemma sample_buffer a n : 100 <= a → a + n <= 108 → buffer sample a n.
Proof.
  intros Ha Hn i Hi. assert (a + i ∈ seqZ 100 8) as Hin by (apply elem_of_seqZ; lia).
  change (seqZ 100 8) with [100; 101; 102; 103; 104; 105; 106; 107] in Hin.
  generalize dependent (a + i). intros x Hin.
  repeat (apply elem_of_cons in Hin as [-> | Hin]; [by eexists |]). by apply elem_of_nil in Hin.
Qed.

Lemma memmove_correct_witness :
  ∃ m', memmove 102 100 4 sample = Some (102, m') ∧
    filled 102 0 4 (λ i, sample !! (100 + i)) sample m'.
Proof. apply (memmove_correct 102 100 4 sample); [lia | apply sample_buffer; lia..]. Defined.

Lemma memcpy_memset_correct_witness :
  (∃ m', memcpy 104 100 4 sample = Some (104, m') ∧
     filled 104 0 4 (λ i, sample !! (100 + i)) sample m') ∧
  (∃ m', memset 104 (-1) 4 sample = Some (104, m') ∧ filled 104 0 4 (λ _, Some (u8 (-1))) sample m').
Proof.
  apply (memcpy_memset_correct 104 100 (-1) 4 sample); [lia | apply sample_buffer; lia.. | lia].
Defined.

Lemma memcmp_correct_witness :
  ∃ r, memcmp 100 104 4 sample = Some r ∧ compared sample 100 104 0 4 r.
Proof. apply (memcmp_correct 100 104 4 sample); [lia | apply sample_buffer; lia..]. Defined.

End LibString.
