(* ===== verification/Pmm.v ===== *)
(** The physical frame allocator, src/src/mm/pmm.cpp: one bit per 4 KiB frame
    in a bitmap that itself lives in physical memory and is reached through
    the higher-half direct map. *)

From Stdlib Require Import ZArith Lia String.
From stdpp Require Import base numbers list gmap sets fin_sets.
From S2P Require Import Prelude Descriptors Machine Serial Print.
Local Open Scope Z_scope.

Module Pmm.

Definition kPageSize : Z := 4096.
Definition kWordBits : Z := 64.

Inductive RegionType :=
| Usable
| Reserved
| AcpiReclaimable
| AcpiNvs
| Bad
| BootloaderReclaimable
| KernelAndModules
| Framebuffer.

#[global] Instance RegionType_eq_dec : EqDecision RegionType.
Proof. solve_decision. Defined.

Record MemoryRegion := mk_region {
  base : Z;
  length : Z;
  type : RegionType
}.

Definition region_type_name (type : RegionType) : string :=
  match type with
  | Usable => "USABLE"
  | Reserved => "RESERVED"
  | AcpiReclaimable => "ACPI_RECLAIMABLE"
  | AcpiNvs => "ACPI_NVS"
  | Bad => "BAD_MEMORY"
  | BootloaderReclaimable => "BOOTLOADER_RECLAIMABLE"
  | KernelAndModules => "KERNEL_AND_MODULES"
  | Framebuffer => "FRAMEBUFFER"
  end.

(** [__builtin_ctzll], defined on non-zero arguments. *)
Fixpoint pos_ctz (p : positive) : Z :=
  match p with
  | xO q => 1 + pos_ctz q
  | _ => 0
  end.
Definition ctzll (x : Z) : Z :=
  match x with
  | Zpos p => pos_ctz p
  | _ => 0
  end.

(** Assignments to the static variables. *)
Definition set_hhdm (v : Z) (p : pmm_state) : pmm_state :=
  mk_pmm (bitmap p) (bitmap_phys p) (bitmap_words p) (bitmap_bytes p) (frame_count p)
    (free_frame_count p) v.
Definition set_sizes (frames words bytes : Z) (p : pmm_state) : pmm_state :=
  mk_pmm (bitmap p) (bitmap_phys p) words bytes frames (free_frame_count p) (g_hhdm_offset p).
Definition set_bitmap_phys (v : Z) (p : pmm_state) : pmm_state :=
  mk_pmm (bitmap p) v (bitmap_words p) (bitmap_bytes p) (frame_count p)
    (free_frame_count p) (g_hhdm_offset p).
Definition set_bitmap (v : Z) (p : pmm_state) : pmm_state :=
  mk_pmm v (bitmap_phys p) (bitmap_words p) (bitmap_bytes p) (frame_count p)
    (free_frame_count p) (g_hhdm_offset p).
Definition set_free_count (v : Z) (p : pmm_state) : pmm_state :=
  mk_pmm (bitmap p) (bitmap_phys p) (bitmap_words p) (bitmap_bytes p) (frame_count p)
    v (g_hhdm_offset p).

Section WithDevice.
Context {PD : PortDevice}.

Definition on_pmm (f : pmm_state → pmm_state) : M unit :=
  modify (λ s, with_pmm (f (pmm s)) s).

Definition incr_free : M unit :=
  on_pmm (λ p, set_free_count (free_frame_count p + 1)%u64 p).
Definition decr_free : M unit :=
  on_pmm (λ p, set_free_count (free_frame_count p - 1)%u64 p).

(** The address of [bitmap[word]]. *)
Definition bitmap_word (word : Z) (s : machine) : Z := (bitmap (pmm s) + 8 * word)%u64.

Definition frame_valid (frame : Z) (s : machine) : bool := frame <? frame_count (pmm s).

Definition set_frame_used (frame : Z) : M unit :=
  let! valid := gets (frame_valid frame) in
  if negb valid then ret tt else
  let word := frame / kWordBits in
  let bit := frame mod kWordBits in
  let! a := gets (bitmap_word word) in
  let! w := load64 a in
  store64 a (w .| (1 << bit))%u64.

Definition set_frame_free (frame : Z) : M unit :=
  let! valid := gets (frame_valid frame) in
  if negb valid then ret tt else
  let word := frame / kWordBits in
  let bit := frame mod kWordBits in
  let! a := gets (bitmap_word word) in
  let! w := load64 a in
  store64 a (w .& .~ (1 << bit))%u64.

(** ** Initialisation *)

(** The first loop of [init]: print the map, total the usable bytes and find
    the highest usable address. *)
Fixpoint scan_map (regions : list MemoryRegion) (highest_usable_end usable_bytes : Z)
    : M (Z * Z) :=
  match regions with
  | [] => ret (highest_usable_end, usable_bytes)
  | region :: rest =>
      Print.kprintf (Some ("  %p - %p  length=%lu  type=%s" ++ String char_nl "")%string)
        [va_int (base region); va_int (base region + length region)%u64;
         va_int (length region); va_str (Some (region_type_name (type region)))] ;;
      if decide (type region = Usable) then
        let usable_bytes := (usable_bytes + length region)%u64 in
        let e := (base region + length region)%u64 in
        scan_map rest (if highest_usable_end <? e then e else highest_usable_end) usable_bytes
      else scan_map rest highest_usable_end usable_bytes
  end.

(** The search for a region that can hold the bitmap. *)
Fixpoint find_bitmap (regions : list MemoryRegion) (bitmap_pages : Z) : option Z :=
  match regions with
  | [] => None
  | region :: rest =>
      if decide (type region = Usable) then
        if (bitmap_pages * kPageSize)%u64 <=? length region then Some (base region)
        else find_bitmap rest bitmap_pages
      else find_bitmap rest bitmap_pages
  end.

(** Phase 1: every word of the bitmap is all ones. *)
Definition mark_all_used : M unit :=
  let! words := gets (λ s, bitmap_words (pmm s)) in
  for_each 0 words 1 (λ i,
    let! a := gets (bitmap_word i) in
    store64 a UINT64_MAX).

(** Phase 2: the frames that lie wholly inside a usable region become free. *)
Fixpoint mark_usable_free (regions : list MemoryRegion) : M unit :=
  match regions with
  | [] => ret tt
  | region :: rest =>
      (if decide (type region = Usable) then
         let first_frame := ((base region + kPageSize - 1) / kPageSize)%u64 in
         let frame_end := ((base region + length region) / kPageSize)%u64 in
         for_each first_frame frame_end 1 (λ frame,
           let! valid := gets (frame_valid frame) in
           if negb valid then ret tt else
           set_frame_free frame ;; incr_free)
       else ret tt) ;;
      mark_usable_free rest
  end.

(** Phase 3: the frames of the bitmap itself are used. *)
Definition mark_bitmap_used (bitmap_pages : Z) : M unit :=
  let! phys := gets (λ s, bitmap_phys (pmm s)) in
  let bitmap_first_frame := phys / kPageSize in
  let bitmap_last_frame := (bitmap_first_frame + bitmap_pages)%u64 in
  for_each bitmap_first_frame bitmap_last_frame 1 (λ frame,
    let! valid := gets (frame_valid frame) in
    if negb valid then ret tt else
    let word := frame / kWordBits in
    let bit := frame mod kWordBits in
    let! a := gets (bitmap_word word) in
    let! w := load64 a in
    (if (w .& (1 << bit) =? 0)%u64 then decr_free else ret tt) ;;
    set_frame_used frame).

Definition nl : string := String char_nl EmptyString.

(** The last lines of [init]. *)
Definition report_free : M unit :=
  let! n := gets (λ s, free_frame_count (pmm s)) in
  Print.kprintf (Some ("  free frames:    %lu" ++ nl)%string) [va_int n] ;;
  Print.kprintf (Some ("  free memory:    %lu bytes" ++ nl)%string)
    [va_int (n * kPageSize)%u64] ;;
  Print.kprintf (Some ("  bitmap initialized" ++ nl)%string) [].

Definition init (regions : list MemoryRegion) (hhdm_offset : Z) : M unit :=
  on_pmm (set_hhdm hhdm_offset) ;;
  Print.kprintf (Some (nl ++ "Memory map:" ++ nl)%string) [] ;;
  let! (highest_usable_end, usable_bytes) := scan_map regions 0 0 in
  Print.kprintf (Some ("Total usable memory: %lu bytes" ++ nl)%string) [va_int usable_bytes] ;;
  if highest_usable_end =? 0 then
    Print.kprintf (Some ("fatal: no usable memory" ++ nl)%string) [] ;; halt
  else
    let frames := ((highest_usable_end + kPageSize - 1) / kPageSize)%u64 in
    let words := ((frames + kWordBits - 1) / kWordBits)%u64 in
    let bytes := (words * 8)%u64 in
    on_pmm (set_sizes frames words bytes) ;;
    let bitmap_pages := ((bytes + kPageSize - 1) / kPageSize)%u64 in
    match find_bitmap regions bitmap_pages with
    | None =>
        Print.kprintf (Some ("fatal: no usable region large enough for bitmap" ++ nl)%string) [] ;;
        halt
    | Some phys =>
        on_pmm (set_bitmap_phys phys) ;;
        on_pmm (set_bitmap (hhdm_offset + phys)%u64) ;;
        Print.kprintf (Some ("PMM:" ++ nl
          ++ "  highest usable: %p" ++ nl
          ++ "  frame count:    %lu" ++ nl
          ++ "  bitmap phys:    %p" ++ nl
          ++ "  bitmap virt:    %p" ++ nl
          ++ "  bitmap bytes:   %lu" ++ nl
          ++ "  bitmap words:   %lu" ++ nl
          ++ "  bitmap pages:   %lu" ++ nl)%string)
          [va_int highest_usable_end; va_int frames; va_int phys;
           va_int (hhdm_offset + phys)%u64; va_int bytes; va_int words; va_int bitmap_pages] ;;
        mark_all_used ;;
        on_pmm (set_free_count 0) ;;
        mark_usable_free regions ;;
        mark_bitmap_used bitmap_pages ;;
        report_free
    end.

(** ** Allocation and release *)

Definition alloc_frame : M Z :=
  let! words := gets (λ s, bitmap_words (pmm s)) in
  let! r := for_range 0 words 1 (λ word_index,
    let! a := gets (bitmap_word word_index) in
    let! word := load64 a in
    if word =? UINT64_MAX then ret None else
    let free_bits := (.~ word)%u64 in
    let bit := ctzll free_bits in
    let frame := (word_index * kWordBits + bit)%u64 in
    let! valid := gets (frame_valid frame) in
    if negb valid then ret None else
    set_frame_used frame ;;
    decr_free ;;
    ret (Some (frame * kPageSize)%u64)) in
  match r with
  | Some address => ret address
  | None => ret 0
  end.

Definition free_frame (address : Z) : M unit :=
  if negb (address mod kPageSize =? 0) then
    Print.kprintf (Some ("fatal: pmm::free_frame: misaligned address %p" ++ nl)%string)
      [va_int address]
  else
  let frame := address / kPageSize in
  let! valid := gets (frame_valid frame) in
  if negb valid then
    Print.kprintf (Some ("fatal: pmm::free_frame: frame out of range: %lu" ++ nl)%string)
      [va_int frame]
  else
  let word := frame / kWordBits in
  let bit := frame mod kWordBits in
  let mask := (1 << bit)%u64 in
  let! a := gets (bitmap_word word) in
  let! w := load64 a in
  if (w .& mask =? 0)%u64 then
    Print.kprintf (Some ("fatal: pmm::free_frame: double free: %p" ++ nl)%string)
      [va_int address]
  else
  store64 a (w .& .~ mask)%u64 ;;
  incr_free.

Definition physical_to_virtual (address : Z) : M Z :=
  gets (λ s, (g_hhdm_offset (pmm s) + address)%u64).

Definition virtual_to_physical (address : Z) : M Z :=
  gets (λ s, (address - g_hhdm_offset (pmm s))%u64).

End WithDevice.
End Pmm.
