(* ===== verification/PmmInv.v ===== *)
(** Correctness of the frame allocator.

    [bits s F] says that the bitmap in memory represents the set [F] of free
    frames; [layout s A] that the frames of [A], the ones the allocator may
    hand out, are reachable through the direct map and apart from the bitmap.
    Each operation is proved to implement its set operation. *)

From Stdlib Require Import ZArith Lia String.
From stdpp Require Import base numbers list gmap sets fin_sets.
From S2P Require Import Prelude Descriptors Machine Serial Print Pmm.
Import Pmm.
Local Open Scope Z_scope.

(** ** Trailing zeros *)

Lemma pos_ctz_spec p :
  0 <= pos_ctz p ∧ Z.testbit (Zpos p) (pos_ctz p) = true ∧
  ∀ n, 0 <= n < pos_ctz p → Z.testbit (Zpos p) n = false.
Proof.
  induction p as [p IH | p IH |]; simpl pos_ctz.
  - split; [lia |]. split; [done | lia].
  - destruct IH as (H0 & H1 & H2). split; [lia |].
    rewrite Pos2Z.inj_xO. split.
    + rewrite Z.double_bits. by replace (Z.pred (1 + pos_ctz p)) with (pos_ctz p) by lia.
    + intros n Hn. rewrite Z.double_bits.
      destruct (decide (n = 0)) as [-> |]; [by apply Z.testbit_neg_r |]. apply H2. lia.
  - split; [lia |]. split; [done | lia].
Qed.

(** The lowest clear bit of a word that is not all ones. *)
Lemma ctzll_not_spec w : is_u64 w → w ≠ UINT64_MAX →
  let b := ctzll (u64 (Z.lnot w)) in
  0 <= b < 64 ∧ Z.testbit w b = false ∧ ∀ n, 0 <= n < b → Z.testbit w n = true.
Proof.
  intros Hw Hne. simpl.
  assert (u64 (Z.lnot w) = 18446744073709551615 - w) as Hn.
  { unfold u64, Z.lnot, is_u64 in *. replace (Z.pred (- w))
      with (18446744073709551615 - w + (-1) * 18446744073709551616) by lia.
    rewrite Z_mod_plus_full. apply Z.mod_small. lia. }
  destruct (u64 (Z.lnot w)) as [| p | p] eqn:Hp;
    [unfold UINT64_MAX in *; lia | | unfold is_u64 in *; lia].
  unfold ctzll. destruct (pos_ctz_spec p) as (H0 & H1 & H2). rewrite <- Hp in H1, H2.
  rewrite u64_testbit in H1 by lia. apply andb_prop in H1 as [Hlt H1].
  apply Z.ltb_lt in Hlt. rewrite Z.lnot_spec in H1 by lia.
  split; [lia |]. split; [by apply negb_true_iff |].
  intros n Hn'. specialize (H2 n Hn').
  rewrite u64_testbit, Z.lnot_spec in H2 by lia.
  destruct (Z.ltb_spec n 64); [by apply negb_false_iff | lia].
Qed.

Lemma all_ones_testbit n : 0 <= n < 64 → Z.testbit UINT64_MAX n = true.
Proof. intros Hn. change UINT64_MAX with (Z.ones 64). by apply Z.ones_spec_low. Qed.

(** ** The bitmap as a set *)

Section WithDevice.
Context {PD : PortDevice}.
Implicit Types (s : machine) (F A : gset Z).

(** The address of the word that holds the bit of frame [f]. *)
Definition bit_word s (f : Z) : Z := bitmap (pmm s) + 8 * (f / 64).

Record bits s F : Prop := {
  bits_ptr : 0 <= bitmap (pmm s) ∧ bitmap (pmm s) + 8 * bitmap_words (pmm s) <= two64;
  bits_words : 0 <= frame_count (pmm s) <= 64 * bitmap_words (pmm s);
  bits_phys : 4096 * frame_count (pmm s) <= two64;
  bits_access : ∀ w, 0 <= w < bitmap_words (pmm s) →
    addr_ok s (bitmap (pmm s) + 8 * w) = true;
  bits_u64 : ∀ w, 0 <= w < bitmap_words (pmm s) → is_u64 (cell s (bitmap (pmm s) + 8 * w));
  bits_free : ∀ f, 0 <= f < 64 * bitmap_words (pmm s) →
    f ∈ F ↔ Z.testbit (cell s (bit_word s f)) (f mod 64) = false;
  bits_valid : ∀ f, f ∈ F → 0 <= f < frame_count (pmm s)
}.

Definition counted s F : Prop := free_frame_count (pmm s) = Z.of_nat (size F).

(** Nothing but the contents of memory and the count of free frames has
    changed. *)
Definition same_env s s' : Prop :=
  access s' = access s ∧ set_free_count 0 (pmm s') = set_free_count 0 (pmm s) ∧
  cpu s' = cpu s ∧ gdt_table s' = gdt_table s ∧ idt_table s' = idt_table s ∧
  output_sink s' = output_sink s ∧
  initialized s' = initialized s ∧ video s' = video s ∧ device s' = device s.

(** Memory and allocator state are as they were. *)
Definition same_mem s s' : Prop :=
  access s' = access s ∧ cells s' = cells s ∧ pmm s' = pmm s.

#[global] Instance same_env_equiv : Equivalence same_env.
Proof.
  split; unfold same_env.
  - done.
  - intros x y (-> & -> & -> & -> & -> & -> & -> & -> & ->); done.
  - intros x y z (-> & -> & -> & -> & -> & -> & -> & -> & ->) (-> & -> & -> & -> & -> & -> & -> & -> & ->); done.
Qed.

#[global] Instance same_mem_equiv : Equivalence same_mem.
Proof.
  split; unfold same_mem.
  - done.
  - intros x y (-> & -> & ->); done.
  - intros x y z (-> & -> & ->) (-> & -> & ->); done.
Qed.

Lemma only_device_same_mem s s' : Serial.only_device s s' → same_mem s s'.
Proof. by intros ->. Qed.

Lemma same_env_fields s s' : same_env s s' →
  access s' = access s ∧ bitmap (pmm s') = bitmap (pmm s) ∧
  bitmap_phys (pmm s') = bitmap_phys (pmm s) ∧ bitmap_words (pmm s') = bitmap_words (pmm s) ∧
  frame_count (pmm s') = frame_count (pmm s) ∧ g_hhdm_offset (pmm s') = g_hhdm_offset (pmm s).
Proof.
  intros (Ha & Hp & _). destruct s as [? ? []], s' as [? ? []]; unfold set_free_count in Hp; simpl in *.
  repeat split; congruence.
Qed.

(** The memory the managers own: the bitmap, and the frames of [A] in the direct
    map. *)
Definition held s A (a : Z) : Prop :=
  bitmap (pmm s) <= a < bitmap (pmm s) + 8 * bitmap_words (pmm s) ∨
  ∃ f, f ∈ A ∧ g_hhdm_offset (pmm s) + 4096 * f <= a < g_hhdm_offset (pmm s) + 4096 * f + 4096.

Lemma held_env s s' A a : same_env s s' → held s' A a ↔ held s A a.
Proof. intros (_ & Eb & _ & Ew & _ & Eh)%same_env_fields. unfold held. by rewrite Eb, Ew, Eh. Qed.

(** Of the memory no more than what is held has changed, and of the rest of
    the state the count of free frames. *)
Record touches A s s' : Prop := {
  touches_env : same_env s s';
  touches_cells : ∀ a, ~ held s A a → cell s' a = cell s a
}.

#[global] Instance touches_preorder A : PreOrder (touches A).
Proof.
  split; [done |]. intros x y z [E1 C1] [E2 C2]. split; [by etrans |].
  intros a Ha. rewrite C2; [by apply C1 | by rewrite (held_env x)].
Qed.

Lemma touches_mono A B s s' : A ⊆ B → touches A s s' → touches B s s'.
Proof.
  intros Hsub [E C]. split; [done |]. intros a Ha. apply C. intros [| (f & Hf & ?)]; apply Ha; [by left |].
  right. exists f. set_solver.
Qed.

Lemma touches_store A s a v : held s A a → touches A s (set_cell a v s).
Proof. intros Ha. split; [done |]. intros b Hb. apply cell_set_cell_ne. by intros ->. Qed.

Lemma touches_count A s n : touches A s (with_pmm (set_free_count n (pmm s)) s).
Proof. done. Qed.

#[global] Instance addr_ok_same_env : Proper (same_env ==> eq ==> eq) addr_ok.
Proof. intros s s' [Ha _] a ? <-. unfold addr_ok, writable. by rewrite Ha. Qed.

#[global] Instance bits_same_mem : Proper (same_mem ==> eq ==> impl) bits.
Proof.
  intros s s' Hs F ? <- [H1 H2 H3 H4 H5 H6 H7].
  destruct Hs as (Ha & Hc & Hp). unfold addr_ok, writable, bit_word, cell in *.
  split; unfold addr_ok, writable, bit_word, cell in *; rewrite ?Ha, ?Hc, ?Hp; done.
Qed.

Lemma bits_mem s s' F : same_mem s s' → bits s F → bits s' F.
Proof. intros Hs. by apply bits_same_mem. Qed.

(** Stores outside the bitmap do not matter to it. *)
Lemma bits_cells s s' F : only_cells s s' → bits s F →
  (∀ w, 0 <= w < bitmap_words (pmm s) →
     cell s' (bitmap (pmm s) + 8 * w) = cell s (bitmap (pmm s) + 8 * w)) → bits s' F.
Proof.
  intros Hoc Hb Hsame. pose proof Hb as [H1 H2 H3 H4 H5 H6 H7].
  assert (pmm s' = pmm s ∧ access s' = access s) as [Hp Ha] by (by rewrite Hoc).
  split; unfold addr_ok, writable, bit_word in *; rewrite ?Hp, ?Ha; try done.
  - intros w Hw. rewrite Hsame by done. auto.
  - intros f Hf. rewrite Hsame by (split; [apply Z.div_pos | apply Z.div_lt_upper_bound]; lia). auto.
Qed.

#[global] Instance counted_same_mem : Proper (same_mem ==> eq ==> impl) counted.
Proof. intros s s' (_ & _ & Hp) F ? <-. unfold counted. by rewrite Hp. Qed.

Lemma bits_bitmap_word s F w : bits s F → 0 <= w < bitmap_words (pmm s) →
  bitmap_word w s = bitmap (pmm s) + 8 * w.
Proof.
  intros [Hp _ _ _ _ _ _] Hw. unfold bitmap_word, two64 in *.
  by u64_simpl.
Qed.

Lemma bits_word_range s F f : bits s F → 0 <= f < frame_count (pmm s) →
  0 <= f / 64 < bitmap_words (pmm s).
Proof. intros [_ Hw _ _ _ _ _] Hf. dlia. Qed.

Lemma bits_size s F : bits s F → Z.of_nat (size F) <= frame_count (pmm s).
Proof.
  intros Hb.
  assert (F ⊆ list_to_set (seqZ 0 (frame_count (pmm s)))) as Hsub.
  { intros f Hf%(bits_valid _ _ Hb). apply elem_of_list_to_set, elem_of_seqZ. lia. }
  apply subseteq_size in Hsub. rewrite size_list_to_set in Hsub by apply NoDup_seqZ.
  rewrite length_seqZ in Hsub. pose proof (bits_words _ _ Hb). lia.
Qed.

(** Changing the bit of one frame changes the membership of that frame. *)
Lemma bits_update s F F' f v :
  bits s F → 0 <= f < frame_count (pmm s) → is_u64 v →
  (∀ n, 0 <= n < 64 → n ≠ f mod 64 → Z.testbit v n = Z.testbit (cell s (bit_word s f)) n) →
  (∀ g, g ≠ f → g ∈ F' ↔ g ∈ F) → (f ∈ F' ↔ Z.testbit v (f mod 64) = false) →
  bits (set_cell (bit_word s f) v s) F'.
Proof.
  intros Hb Hf Hv Hn Hne Hfe. destruct Hb as [H1 H2 H3 H4 H5 H6 H7].
  split; try done.
  - intros w Hw. simpl. rewrite cell_set_cell. case_decide; auto.
  - intros g Hg. change (bit_word (set_cell _ _ _) g) with (bit_word s g).
    rewrite cell_set_cell. destruct (decide (g = f)) as [-> | Hgf].
    + rewrite decide_True by done. done.
    + rewrite (Hne g Hgf), (H6 g Hg). case_decide as Hw; [| done].
      unfold bit_word in Hw. assert (f / 64 = g / 64) as Hd by lia.
      assert (g mod 64 ≠ f mod 64) by dlia.
      rewrite (Hn (g mod 64)); [| dlia | done]. unfold bit_word. by rewrite Hd.
  - intros g Hg. simpl. destruct (decide (g = f)) as [-> | Hgf]; [done |].
    apply H7. by apply Hne.
Qed.

Lemma bits_mark_used s F f : bits s F → 0 <= f < frame_count (pmm s) →
  bits (set_cell (bit_word s f) (Z.lor (cell s (bit_word s f)) (u64 (Z.shiftl 1 (f mod 64)))) s)
    (F ∖ {[f]}).
Proof.
  intros Hb Hf. pose proof (bits_word_range _ _ _ Hb Hf) as Hw.
  assert (0 <= f mod 64 < 64) by dlia.
  rewrite u64_small by auto with u64.
  apply bits_update with F; auto.
  - apply lor_is_u64; [by apply (bits_u64 _ _ Hb) | auto with u64].
  - intros n Hn Hne. rewrite set_bit_spec by lia.
    rewrite (proj2 (Z.eqb_neq _ _) Hne). apply orb_false_r.
  - set_solver.
  - rewrite set_bit_spec, Z.eqb_refl, orb_true_r by lia. set_solver.
Qed.

Lemma bits_mark_free s F f : bits s F → 0 <= f < frame_count (pmm s) →
  bits (set_cell (bit_word s f)
          (Z.land (cell s (bit_word s f)) (u64 (Z.lnot (u64 (Z.shiftl 1 (f mod 64)))))) s)
    (F ∪ {[f]}).
Proof.
  intros Hb Hf. pose proof (bits_word_range _ _ _ Hb Hf) as Hw.
  assert (0 <= f mod 64 < 64) by dlia.
  assert (is_u64 (cell s (bit_word s f))) by by apply (bits_u64 _ _ Hb).
  rewrite (u64_small (Z.shiftl 1 _)) by auto with u64.
  apply bits_update with F; auto.
  - auto with u64.
  - intros n Hn Hne. rewrite clear_bit_spec by (done || lia).
    rewrite (proj2 (Z.eqb_neq _ _) Hne). apply andb_true_r.
  - set_solver.
  - rewrite clear_bit_spec, Z.eqb_refl, andb_false_r by (done || lia). set_solver.
Qed.

Lemma frame_valid_iff f s : frame_valid f s = true ↔ f < frame_count (pmm s).
Proof. apply Z.ltb_lt. Qed.

Lemma wp_set_frame_used s F f (Q : unit → machine → Prop) :
  bits s F → 0 <= f < frame_count (pmm s) →
  (∀ v, bits (set_cell (bit_word s f) v s) (F ∖ {[f]}) → Q tt (set_cell (bit_word s f) v s)) →
  wp (set_frame_used f) Q s.
Proof.
  intros Hb Hf HQ. pose proof (bits_word_range _ _ _ Hb Hf).
  unfold set_frame_used. wp_steps. rewrite (proj2 (frame_valid_iff f s)) by lia. simpl.
  wp_steps. rewrite (bits_bitmap_word _ F) by done.
  apply wp_load64; [by apply (bits_access _ _ Hb) |].
  apply wp_store64; [by apply (bits_access _ _ Hb) |].
  apply HQ, bits_mark_used; done.
Qed.

Lemma wp_set_frame_free s F f (Q : unit → machine → Prop) :
  bits s F → 0 <= f < frame_count (pmm s) →
  (∀ v, bits (set_cell (bit_word s f) v s) (F ∪ {[f]}) → Q tt (set_cell (bit_word s f) v s)) →
  wp (set_frame_free f) Q s.
Proof.
  intros Hb Hf HQ. pose proof (bits_word_range _ _ _ Hb Hf).
  unfold set_frame_free. wp_steps. rewrite (proj2 (frame_valid_iff f s)) by lia. simpl.
  wp_steps. rewrite (bits_bitmap_word _ F) by done.
  apply wp_load64; [by apply (bits_access _ _ Hb) |].
  apply wp_store64; [by apply (bits_access _ _ Hb) |].
  apply HQ, bits_mark_free; done.
Qed.

(** ** Allocation *)

(** The frame [alloc_frame] picks: the lowest free one. *)
Definition lowest F (f : Z) : Prop := f ∈ F ∧ ∀ g, g ∈ F → f <= g.

(** The state after [f] has been taken: one word of the bitmap and the
    counter differ. *)
Definition after_alloc s (f v : Z) : machine :=
  with_pmm (set_free_count (u64 (free_frame_count (pmm s) - 1)) (pmm s))
    (set_cell (bit_word s f) v s).

Lemma same_env_after_alloc s f v : same_env s (after_alloc s f v).
Proof. done. Qed.

Lemma held_bit_word s A f : 0 <= f < 64 * bitmap_words (pmm s) → held s A (bit_word s f).
Proof. intros Hf. left. unfold bit_word. dlia. Qed.

Lemma touches_after_alloc A s f v : 0 <= f < 64 * bitmap_words (pmm s) → touches A s (after_alloc s f v).
Proof. intros Hf. etrans; [by apply (touches_store A s), held_bit_word | done]. Qed.

Lemma bits_set_count s F n : bits s F → bits (with_pmm (set_free_count n (pmm s)) s) F.
Proof. intros []. by split. Qed.

Lemma lowest_unique F f g : lowest F f → lowest F g → f = g.
Proof. intros [H1 H2] [H3 H4]. specialize (H2 g H3). specialize (H4 f H1). lia. Qed.

(** What one word of the bitmap says about the lowest free frame. *)
Lemma bits_word_full s F w : bits s F → 0 <= w < bitmap_words (pmm s) →
  cell s (bitmap (pmm s) + 8 * w) = UINT64_MAX →
  (∀ g, g ∈ F → 64 * w <= g) → ∀ g, g ∈ F → 64 * (w + 1) <= g.
Proof.
  intros Hb Hw Hfull Hlo g Hg. specialize (Hlo g Hg).
  destruct (Z_lt_le_dec g (64 * (w + 1))) as [Hlt |]; [| done]. exfalso.
  assert (g / 64 = w) as Hd by dlia.
  apply (bits_free _ _ Hb) in Hg; [| lia].
  unfold bit_word in Hg. rewrite Hd, Hfull, all_ones_testbit in Hg by dlia. done.
Qed.

Lemma bits_word_lowest s F w : bits s F → 0 <= w < bitmap_words (pmm s) →
  let x := cell s (bitmap (pmm s) + 8 * w) in
  x ≠ UINT64_MAX → (∀ g, g ∈ F → 64 * w <= g) →
  lowest F (64 * w + ctzll (u64 (Z.lnot x))).
Proof.
  intros Hb Hw x Hx Hlo. pose proof (bits_u64 _ _ Hb w Hw) as Hu. fold x in Hu.
  destruct (ctzll_not_spec x Hu Hx) as (H0 & H1 & H2).
  set (b := ctzll (u64 (Z.lnot x))) in *.
  assert ((64 * w + b) / 64 = w) as Hd by dlia.
  assert ((64 * w + b) mod 64 = b) as Hm by dlia.
  split.
  - apply (bits_free _ _ Hb); [lia |]. unfold bit_word. by rewrite Hd, Hm.
  - intros g Hg. specialize (Hlo g Hg).
    destruct (Z_lt_le_dec g (64 * w + b)) as [Hlt |]; [| done]. exfalso.
    assert (g / 64 = w) as Hgd by dlia.
    apply (bits_free _ _ Hb) in Hg; [| lia].
    unfold bit_word in Hg. rewrite Hgd in Hg. fold x in Hg. rewrite H2 in Hg by dlia. done.
Qed.

Lemma wp_alloc_frame s F (Q : Z → machine → Prop) :
  bits s F →
  (∀ f v, lowest F f → bits (after_alloc s f v) (F ∖ {[f]}) →
     Q (4096 * f) (after_alloc s f v)) →
  (F = ∅ → Q 0 s) →
  wp alloc_frame Q s.
Proof.
  intros Hb Hsome Hnone. pose proof (bits_ptr _ _ Hb). pose proof (bits_phys _ _ Hb).
  pose proof (bits_words _ _ Hb). unfold two64 in *.
  unfold alloc_frame. wp_steps.
  eapply (wp_for_range (λ i s', s' = s ∧ ∀ g, g ∈ F → 64 * i <= g));
    [lia | lia | unfold two64; lia | apply Z.mod_1_r | | |].
  - split; [done |]. intros g Hg%(bits_valid _ _ Hb). lia.
  - intros w s' Hw [-> Hlo]. wp_steps. rewrite (bits_bitmap_word _ F) by done.
    apply wp_load64; [by apply (bits_access _ _ Hb) |].
    destruct (Z.eqb_spec (cell s (bitmap (pmm s) + 8 * w)) UINT64_MAX) as [He | Hne].
    { apply wp_ret. split; [done |]. by eapply bits_word_full. }
    pose proof (bits_word_lowest _ _ _ Hb Hw Hne Hlo) as Hlow. cbv zeta in Hlow |- *.
    set (b := ctzll _) in *. pose proof (bits_valid _ _ Hb _ (proj1 Hlow)) as Hv.
    assert (u64 (u64 (w * kWordBits) + b) = 64 * w + b) as ->.
    { unfold kWordBits. rewrite u64_add_l. replace (w * 64) with (64 * w) by lia.
      by u64_simpl. }
    wp_steps. rewrite (proj2 (frame_valid_iff _ _)) by lia. simpl.
    apply wp_bind, wp_set_frame_used with F; [done.. |]. intros v Hv'.
    unfold decr_free, on_pmm. wp_steps.
    replace (u64 ((64 * w + b) * kPageSize)) with (4096 * (64 * w + b))
      by (unfold kPageSize; u64_simpl; lia).
    apply (Hsome (64 * w + b) v Hlow). by apply (bits_set_count _ _ _ Hv').
  - intros s' [-> Hlo]. apply wp_ret, Hnone.
    apply set_eq. intros g. split; [| set_solver].
    intros Hg. specialize (Hlo g Hg). pose proof (bits_valid _ _ Hb g Hg). lia.
Qed.

Lemma counted_after_alloc s F f v : counted s F → f ∈ F → bits s F →
  counted (after_alloc s f v) (F ∖ {[f]}).
Proof.
  unfold counted, after_alloc. simpl. intros -> Hf Hb.
  pose proof (bits_size _ _ Hb). pose proof (bits_phys _ _ Hb). unfold two64 in *.
  assert (size F = S (size (F ∖ {[f]}))) as Hsz.
  { assert (F = {[f]} ∪ F ∖ {[f]}) as HF by (apply union_difference_L; set_solver).
    rewrite HF at 1. rewrite size_union by set_solver. rewrite size_singleton. lia. }
  rewrite u64_small by (unfold is_u64; lia). lia.
Qed.

(** ** Release *)

(** The state after [f] has been given back. *)
Definition after_free s (f v : Z) : machine :=
  with_pmm (set_free_count (u64 (free_frame_count (pmm s) + 1)) (pmm s))
    (set_cell (bit_word s f) v s).

Lemma counted_after_free s F f v : counted s F → f ∉ F → bits s F →
  0 <= f < frame_count (pmm s) → counted (after_free s f v) (F ∪ {[f]}).
Proof.
  unfold counted, after_free. simpl. intros -> Hf Hb Hr.
  pose proof (bits_size _ _ Hb). pose proof (bits_phys _ _ Hb). unfold two64 in *.
  rewrite u64_small by (unfold is_u64; lia).
  rewrite size_union, size_singleton by set_solver. lia.
Qed.

(** Every branch of [free_frame]: a bad address is reported and ignored, a
    used frame becomes free. *)
Lemma wp_free_frame s F address (Q : unit → machine → Prop) :
  bits s F → is_u64 address →
  ((address mod 4096 ≠ 0 ∨ frame_count (pmm s) <= address / 4096 ∨ address / 4096 ∈ F) →
     ∀ s', Serial.only_device s s' → Q tt s') →
  (address mod 4096 = 0 → address / 4096 < frame_count (pmm s) → address / 4096 ∉ F →
     ∀ v, bits (after_free s (address / 4096) v) (F ∪ {[address / 4096]}) →
     Q tt (after_free s (address / 4096) v)) →
  wp (free_frame address) Q s.
Proof.
  intros Hb Ha Hbad Hgood. unfold free_frame, kPageSize, kWordBits, is_u64 in *.
  destruct (Z.eqb_spec (address mod 4096) 0) as [Hal |]; simpl;
    [| apply Print.wp_kprintf; [done | auto]].
  wp_steps. destruct (frame_valid (address / 4096) s) eqn:Hv; simpl;
    [| apply Z.ltb_ge in Hv; apply Print.wp_kprintf; [done | auto]].
  apply frame_valid_iff in Hv. set (f := address / 4096) in *.
  assert (0 <= f < frame_count (pmm s)) as Hf by (subst f; dlia).
  pose proof (bits_word_range _ _ _ Hb Hf) as Hw. pose proof (bits_words _ _ Hb).
  wp_steps. rewrite (bits_bitmap_word _ F) by done.
  apply wp_load64; [by apply (bits_access _ _ Hb) |].
  rewrite (u64_small (Z.shiftl 1 _)), land_bit_eqb by (try apply bit_is_u64; dlia).
  change (bitmap (pmm s) + 8 * (f / 64)) with (bit_word s f).
  destruct (Z.testbit (cell s (bit_word s f)) (f mod 64)) eqn:Ht; simpl.
  - wp_step. apply wp_store64; [by apply (bits_access _ _ Hb) |].
    unfold incr_free, on_pmm. wp_steps. apply Hgood; [done.. | |].
    + rewrite (bits_free _ _ Hb) by lia. by rewrite Ht.
    + pose proof (bits_mark_free _ _ _ Hb Hf) as Hm.
      rewrite (u64_small (Z.shiftl 1 _)) in Hm by (apply bit_is_u64; dlia).
      by apply (bits_set_count _ _ _ Hm).
  - apply Print.wp_kprintf; [done |]. apply Hbad. right. right.
    apply (bits_free _ _ Hb); [lia | done].
Qed.

End WithDevice.
