(* ===== verification/PmmInit.v ===== *)
(** Initialisation of the frame allocator: [Pmm.init] establishes the
    allocator's invariant, with exactly the frames that lie wholly inside a
    usable region and outside the bitmap free. *)

From Stdlib Require Import ZArith Lia String.
From stdpp Require Import base numbers list gmap sets fin_sets.
From S2P Require Import Prelude Descriptors Machine Serial Print Pmm PmmInv.
Import Pmm.
Local Open Scope Z_scope.

(** ** Sets of consecutive frames *)

Definition frame_range (first last : Z) : gset Z := list_to_set (seqZ first (last - first)).

Lemma elem_of_frame_range f a b : f ∈ frame_range a b ↔ a <= f < b.
Proof. unfold frame_range. rewrite elem_of_list_to_set, elem_of_seqZ. lia. Qed.

Lemma frame_range_empty a b : b <= a → frame_range a b = ∅.
Proof. intros. apply set_eq. intros f. rewrite elem_of_frame_range. set_solver by lia. Qed.

Lemma frame_range_snoc a b : a <= b → frame_range a (b + 1) = frame_range a b ∪ {[b]}.
Proof.
  intros. apply set_eq. intros f.
  rewrite elem_of_union, elem_of_singleton, !elem_of_frame_range. lia.
Qed.

Lemma empty_union (X : gset Z) : ∅ ∪ X = X.
Proof. set_solver. Qed.

(** ** The memory map, abstractly *)

(** The frames wholly inside a region. *)
Definition frames_of (r : MemoryRegion) : gset Z :=
  frame_range ((base r + 4095) / 4096) ((base r + length r) / 4096).

Lemma elem_of_frames_of f r :
  f ∈ frames_of r ↔ base r <= 4096 * f ∧ 4096 * f + 4096 <= base r + length r.
Proof. unfold frames_of. rewrite elem_of_frame_range. dlia. Qed.

Definition usable (r : MemoryRegion) : Prop := type r = Usable.
#[global] Instance usable_dec r : Decision (usable r) := decide (type r = Usable).
#[global] Arguments usable_dec : simpl never.

Fixpoint usable_frames (regions : list MemoryRegion) : gset Z :=
  match regions with
  | [] => ∅
  | r :: rest => (if decide (usable r) then frames_of r else ∅) ∪ usable_frames rest
  end.

Lemma elem_of_usable_frames f regions :
  f ∈ usable_frames regions ↔ ∃ r, r ∈ regions ∧ usable r ∧ f ∈ frames_of r.
Proof.
  induction regions as [| r rest IH]; simpl.
  - set_solver.
  - rewrite elem_of_union, IH. setoid_rewrite elem_of_cons.
    split.
    + intros [Hf | (r' & H1 & H2)]; [case_decide; [eauto | set_solver] | eauto].
    + intros (r' & [-> | Hin] & Hu & Hf); [left; by rewrite decide_True | eauto].
Qed.

(** The end of the highest usable region. *)
Fixpoint highest_usable (regions : list MemoryRegion) : Z :=
  match regions with
  | [] => 0
  | r :: rest =>
      if decide (usable r) then Z.max (base r + length r) (highest_usable rest)
      else highest_usable rest
  end.

Lemma highest_usable_nonneg regions : 0 <= highest_usable regions.
Proof. induction regions; simpl; [lia |]. case_decide; lia. Qed.

Lemma highest_usable_ge regions r : r ∈ regions → usable r →
  base r + length r <= highest_usable regions.
Proof.
  induction regions as [| r' rest IH]; [set_solver |]; simpl.
  intros [-> | Hin]%elem_of_cons Hu.
  - rewrite decide_True by done. lia.
  - specialize (IH Hin Hu). case_decide; lia.
Qed.

Lemma highest_usable_zero regions : (∀ r, r ∈ regions → usable r → base r + length r = 0) →
  highest_usable regions = 0.
Proof.
  induction regions as [| r rest IH]; intros Hz; [done |]. simpl.
  rewrite IH by (intros r' Hr'; apply Hz; set_solver). case_decide; [| done].
  rewrite (Hz r) by set_solver. done.
Qed.

(** What the boot protocol guarantees of the usable regions: no wrap-around,
    with room to round the end up to a page. *)
Definition region_wf (r : MemoryRegion) : Prop :=
  0 <= base r ∧ 0 <= length r ∧ base r + length r <= two64 - 4096.
Definition map_wf (regions : list MemoryRegion) : Prop :=
  ∀ r, r ∈ regions → usable r → region_wf r.

(** Usable regions share no frame. *)
Fixpoint disjoint_map (regions : list MemoryRegion) : Prop :=
  match regions with
  | [] => True
  | r :: rest => (usable r → frames_of r ## usable_frames rest) ∧ disjoint_map rest
  end.

Lemma map_wf_cons r rest : map_wf (r :: rest) → (usable r → region_wf r) ∧ map_wf rest.
Proof.
  intros H. split.
  - apply H. set_solver.
  - intros r' Hr'. apply H. set_solver.
Qed.

Lemma highest_usable_bound regions : map_wf regions → highest_usable regions <= two64 - 4096.
Proof.
  induction regions as [| r rest IH]; simpl; [unfold two64; lia |].
  intros [H1 H2]%map_wf_cons. specialize (IH H2). case_decide; [| done].
  specialize (H1 H). unfold region_wf in H1. lia.
Qed.

(** The sizes [init] computes. *)
Definition frames_for (highest : Z) : Z := (highest + 4095) / 4096.
Definition words_for (highest : Z) : Z := (frames_for highest + 63) / 64.
Definition pages_for (highest : Z) : Z := (8 * words_for highest + 4095) / 4096.
(** The sizes [init] computes do not wrap. *)
Lemma init_sizes H : 0 <= H <= two64 - 4096 →
  u64 (u64 (H + kPageSize) - 1) / kPageSize = frames_for H ∧
  u64 (u64 (frames_for H + kWordBits) - 1) / kWordBits = words_for H ∧
  u64 (words_for H * 8) = 8 * words_for H ∧
  u64 (u64 (8 * words_for H + kPageSize) - 1) / kPageSize = pages_for H.
Proof.
  unfold two64, kPageSize, kWordBits. intros HH.
  assert (0 <= frames_for H <= 4503599627370496) by (unfold frames_for; dlia).
  assert (0 <= words_for H <= 4503599627370496) by (unfold words_for; dlia).
  rewrite !u64_sub_l, !u64_small by (unfold is_u64; lia).
  split_and!; [unfold frames_for | unfold words_for | lia | unfold pages_for]; f_equal; lia.
Qed.

Definition bitmap_frames (phys pages : Z) : gset Z := frame_range (phys / 4096) (phys / 4096 + pages).

Section WithDevice.
Context {PD : PortDevice}.
Implicit Types (s : machine) (F A : gset Z).

(** The frames of [A] are reachable through the direct map, and apart from
    the bitmap. *)
Record layout s A : Prop := {
  lay_hhdm : 0 < g_hhdm_offset (pmm s) ∧
    g_hhdm_offset (pmm s) + 4096 * frame_count (pmm s) <= two64;
  lay_phys : 4096 * frame_count (pmm s) <= 4503599627370496;
  lay_bitmap : bitmap (pmm s) = g_hhdm_offset (pmm s) + bitmap_phys (pmm s);
  lay_apart : ∀ f, f ∈ A → 4096 * f + 4096 <= bitmap_phys (pmm s) ∨
    bitmap_phys (pmm s) + 8 * bitmap_words (pmm s) <= 4096 * f;
  lay_access : ∀ f i, f ∈ A → 0 <= i < 512 →
    addr_ok s (g_hhdm_offset (pmm s) + 4096 * f + 8 * i) = true;
  lay_range : ∀ f, f ∈ A → 0 <= f < frame_count (pmm s)
}.

#[global] Instance layout_same_env : Proper (same_env ==> eq ==> impl) layout.
Proof.
  intros s s' Hs A ? <- [H1 H2 H3 H4 H5 H6]. pose proof Hs as (Ha & Eb & Ep & Ew & Ef & Eh)%same_env_fields.
  split; rewrite ?Eb, ?Ep, ?Ew, ?Ef, ?Eh; try done.
  intros f i Hf Hi. unfold addr_ok, writable. rewrite Ha. by apply H5.
Qed.

Lemma layout_env s s' A : same_env s s' → layout s A → layout s' A.
Proof. intros Hs. by apply layout_same_env. Qed.

Lemma layout_mem s s' A : same_mem s s' → layout s A → layout s' A.
Proof.
  intros (Ha & _ & Hp) [H1 H2 H3 H4 H5 H6]. split; rewrite ?Hp; try done.
  intros f i Hf Hi. unfold addr_ok, writable. rewrite Ha. by apply H5.
Qed.

(** ** The phases of [init] *)

Lemma find_bitmap_Some regions pages phys : find_bitmap regions pages = Some phys →
  ∃ r, r ∈ regions ∧ usable r ∧ base r = phys ∧ u64 (pages * 4096) <= length r.
Proof.
  induction regions as [| r rest IH]; simpl; [done |].
  intros H. case_decide as Hu; [destruct (Z.leb_spec (u64 (pages * kPageSize)) (length r)) |].
  - simplify_eq. exists r. split; [set_solver |]. done.
  - destruct (IH H) as (r' & Hin & Hr'). exists r'. split; [set_solver | done].
  - destruct (IH H) as (r' & Hin & Hr'). exists r'. split; [set_solver | done].
Qed.

Lemma find_bitmap_None regions pages : 0 <= pages * 4096 < two64 →
  (∀ r, r ∈ regions → usable r → length r < pages * 4096) → find_bitmap regions pages = None.
Proof.
  unfold two64. intros Hp. induction regions as [| r rest IH]; intros Hr; simpl; [done |].
  unfold kPageSize. rewrite u64_small by done.
  assert (find_bitmap rest pages = None) as -> by (apply IH; intros r' Hr'; apply Hr; set_solver).
  case_decide as Hu; [| done]. specialize (Hr r ltac:(set_solver) Hu).
  destruct (Z.leb_spec (pages * 4096) (length r)); [lia | done].
Qed.

(** Phase 1 *)
Lemma wp_mark_all_used s (Q : unit → machine → Prop) :
  let p := pmm s in
  0 <= bitmap p ∧ 0 <= bitmap_words p ∧ bitmap p + 8 * bitmap_words p <= two64 →
  0 <= frame_count p <= 64 * bitmap_words p → 4096 * frame_count p <= two64 →
  (∀ w, 0 <= w < bitmap_words p → addr_ok s (bitmap p + 8 * w) = true) →
  (∀ s', only_cells s s' → touches ∅ s s' → bits s' ∅ → Q tt s') →
  wp mark_all_used Q s.
Proof.
  intros p Hptr Hfc Hph Hacc HQ. subst p. unfold two64 in *.
  unfold mark_all_used. wp_steps.
  eapply (wp_for_each (λ i s', only_cells s s' ∧ touches ∅ s s' ∧
     ∀ w, 0 <= w < i → cell s' (bitmap (pmm s) + 8 * w) = UINT64_MAX));
    [lia | lia | unfold two64; lia | apply Z.mod_1_r | | |].
  - split_and!; [done | done | lia].
  - intros i s' Hi (Hoc & Hto & Hw). wp_steps. rewrite Hoc. unfold bitmap_word. simpl.
    u64_simpl. rewrite <- Hoc. apply wp_store64.
    + rewrite (only_cells_addr_ok s) by done. auto.
    + split_and!; [by etrans | |].
      * etrans; [exact Hto |]. apply touches_store, (held_env s); [apply Hto |]. left. lia.
      * intros w Hw'. rewrite cell_set_cell. case_decide; [done |]. apply Hw. lia.
  - intros s' (Hoc & Hto & Hw). apply HQ; [done | done |]. rewrite Hoc in *. simpl in *.
    split; simpl; unfold two64; try done; try lia.
    + intros w Hw'. rewrite Hw by lia. unfold is_u64, UINT64_MAX. lia.
    + intros f Hf. unfold bit_word. simpl. rewrite Hw, all_ones_testbit by dlia.
      set_solver.
Qed.

(** Phase 2 *)
Lemma wp_mark_range_free s F first last (Q : unit → machine → Prop) :
  bits s F → 0 <= first → last <= frame_count (pmm s) →
  (∀ s', touches ∅ s s' → bits s' (F ∪ frame_range first last) →
     (counted s F → F ## frame_range first last → counted s' (F ∪ frame_range first last)) →
     Q tt s') →
  wp (for_each first last 1 (λ frame,
        let! valid := gets (frame_valid frame) in
        if negb valid then ret tt else set_frame_free frame ;; incr_free)) Q s.
Proof.
  intros Hb Hfirst Hlast HQ. pose proof (bits_phys _ _ Hb). unfold two64 in *.
  destruct (Z_le_gt_dec last first) as [Hle | Hgt].
  { apply wp_for_each_empty; [done |]. rewrite frame_range_empty, (right_id_L ∅ (∪)) in HQ by done.
    by apply HQ. }
  eapply (wp_for_each (λ j s', touches ∅ s s' ∧ bits s' (F ∪ frame_range first j) ∧
    (counted s F → F ## frame_range first last → counted s' (F ∪ frame_range first j))));
    [lia | lia | unfold two64; lia | apply Z.mod_1_r | | |].
  - rewrite frame_range_empty, (right_id_L ∅ (∪)) by lia. done.
  - intros j s' Hj (He & Hb' & Hc). pose proof He as (_ & _ & _ & _ & Ef & _)%touches_env%same_env_fields.
    pose proof (bits_words _ _ Hb'). wp_steps. rewrite (proj2 (frame_valid_iff _ _)) by lia. cbn [negb].
    apply wp_bind, (wp_set_frame_free _ _ _ _ Hb'); [lia |]. intros v Hv.
    unfold incr_free, on_pmm. wp_steps.
    rewrite frame_range_snoc, (assoc_L (∪)) by lia. split; [| split].
    + etrans; [exact He |]. etrans; [by apply (touches_store ∅ s' (bit_word s' j) v), held_bit_word; lia | done].
    + by apply (bits_set_count _ _ _ Hv).
    + intros Hcs Hd. apply (counted_after_free s' (F ∪ frame_range first j) j v);
        [auto | | done | lia].
      rewrite elem_of_union, elem_of_frame_range. intros [Hin | ]; [| lia].
      apply (Hd j Hin). apply elem_of_frame_range. lia.
  - intros s' (He & Hb' & Hc). auto.
Qed.

Lemma wp_mark_usable_free regions : ∀ s F (Q : unit → machine → Prop),
  bits s F → map_wf regions → highest_usable regions <= 4096 * frame_count (pmm s) →
  (∀ s', touches ∅ s s' → bits s' (F ∪ usable_frames regions) →
     (counted s F → disjoint_map regions → F ## usable_frames regions →
        counted s' (F ∪ usable_frames regions)) → Q tt s') →
  wp (mark_usable_free regions) Q s.
Proof.
  induction regions as [| r rest IH]; intros s F Q Hb Hwf Hhi HQ; simpl in *.
  { apply wp_ret. rewrite (right_id_L ∅ (∪)) in HQ. by apply HQ. }
  apply map_wf_cons in Hwf as [Hr Hrest]. apply wp_bind.
  destruct (decide (type r = Usable)) as [Hu | Hu].
  - rewrite (decide_True (P := usable r)) in HQ by done.
    rewrite (decide_True (P := usable r)) in Hhi by done.
    specialize (Hr Hu). unfold region_wf, two64, kPageSize in *.
    rewrite (u64_small (base r + length r)), u64_sub_l by (unfold is_u64; lia).
    replace (base r + 4096 - 1) with (base r + 4095) by lia.
    rewrite u64_small by (unfold is_u64; lia).
    apply wp_mark_range_free with F; [done | dlia | dlia |]. fold (frames_of r).
    intros s1 He1 Hb1 Hc1. pose proof He1 as (_ & _ & _ & _ & Ef & _)%touches_env%same_env_fields.
    apply IH with (F ∪ frames_of r); [done.. | rewrite Ef; lia |].
    intros s2 He2 Hb2 Hc2. rewrite (assoc_L (∪)) in HQ. apply HQ; [by etrans | done |].
    intros Hcs [Hd1 Hd2] Hd. apply Hc2; [apply Hc1 | |]; [done | set_solver | done |].
    specialize (Hd1 Hu). set_solver.
  - rewrite (decide_False (P := usable r)) in HQ by done.
    rewrite (decide_False (P := usable r)) in Hhi by done.
    rewrite (left_id_L ∅ (∪)) in HQ. apply wp_ret, IH with F; [done.. |].
    intros s2 He2 Hb2 Hc2. apply HQ; [done.. |]. intros ? [_ ?]. auto.
Qed.

(** Phase 3 *)
Lemma wp_mark_bitmap_used s F pages (Q : unit → machine → Prop) :
  bits s F → 0 <= bitmap_phys (pmm s) → 0 <= pages →
  bitmap_phys (pmm s) / 4096 + pages < two64 →
  (∀ s', touches ∅ s s' →
     bits s' (F ∖ bitmap_frames (bitmap_phys (pmm s)) pages) →
     (counted s F → counted s' (F ∖ bitmap_frames (bitmap_phys (pmm s)) pages)) → Q tt s') →
  wp (mark_bitmap_used pages) Q s.
Proof.
  intros Hb Hphys Hpages Hbound HQ. unfold mark_bitmap_used, two64, kPageSize, kWordBits in *.
  wp_steps. set (b := bitmap_phys (pmm s) / 4096) in *.
  assert (0 <= b) by (subst b; dlia). rewrite u64_small by (unfold is_u64; lia).
  eapply (wp_for_each (λ j s', touches ∅ s s' ∧ bits s' (F ∖ frame_range b j) ∧
    (counted s F → counted s' (F ∖ frame_range b j))));
    [lia | lia | unfold two64; lia | apply Z.mod_1_r | | |].
  - rewrite frame_range_empty, difference_empty_L by lia. done.
  - intros j s' Hj (He & Hb' & Hc). pose proof He as (_ & _ & _ & Ew & Ef & _)%touches_env%same_env_fields.
    rewrite frame_range_snoc by lia. rewrite <- difference_difference_l_L.
    wp_steps. destruct (frame_valid j s') eqn:Hv; cbn [negb].
    2: { apply Z.ltb_ge in Hv. apply wp_ret.
         assert (F ∖ frame_range b j ∖ {[j]} = F ∖ frame_range b j) as ->; [| done].
         apply difference_disjoint_L, disjoint_singleton_r. intros Hin%(bits_valid _ _ Hb'). lia. }
    apply frame_valid_iff in Hv. assert (0 <= j < frame_count (pmm s')) as Hjr by lia.
    pose proof (bits_word_range _ _ _ Hb' Hjr). pose proof (bits_words _ _ Hb').
    wp_steps. rewrite (bits_bitmap_word _ _ _ Hb') by done.
    apply wp_load64; [by apply (bits_access _ _ Hb') |].
    rewrite (u64_small (Z.shiftl 1 _)), land_bit_eqb by (try apply bit_is_u64; dlia).
    change (bitmap (pmm s') + 8 * (j / 64)) with (bit_word s' j).
    apply wp_bind. destruct (Z.testbit (cell s' (bit_word s' j)) (j mod 64)) eqn:Ht; cbn [negb].
    + apply wp_ret, (wp_set_frame_used _ _ _ _ Hb'); [done |]. intros v Hbv.
      assert (j ∉ F ∖ frame_range b j) as Hnin by (rewrite (bits_free _ _ Hb') by lia; by rewrite Ht).
      assert (F ∖ frame_range b j ∖ {[j]} = F ∖ frame_range b j) as Heq
        by (apply difference_disjoint_L, disjoint_singleton_r; done).
      split; [etrans; [exact He | by apply touches_store, held_bit_word; lia] |].
      split; [done |]. rewrite Heq. done.
    + assert (j ∈ F ∖ frame_range b j) as Hin by (apply (bits_free _ _ Hb'); [lia | done]).
      unfold decr_free, on_pmm. wp_steps.
      eapply wp_set_frame_used; [by apply (bits_set_count _ _ _ Hb') | done |]. intros v Hbv.
      split; [etrans; [exact He | refine (touches_after_alloc ∅ s' j v _); lia] |]. split; [done |].
      intros Hcs. apply (counted_after_alloc s' _ j v (Hc Hcs) Hin Hb').
  - intros s' (He & Hb' & Hc). by apply HQ.
Qed.

(** ** [init] *)

(** The state [init] is called in: the memory map does not wrap, a usable
    region can hold the bitmap and starts on a page boundary (the boot
    protocol aligns usable entries to pages), and the direct map at [h]
    reaches all usable memory, below the 52-bit physical limit. *)
Record boot_ok s (regions : list MemoryRegion) (h phys : Z) : Prop := {
  bo_wf : map_wf regions;
  bo_some : 0 < highest_usable regions;
  bo_bitmap : find_bitmap regions (pages_for (highest_usable regions)) = Some phys;
  bo_aligned : phys mod 4096 = 0;
  bo_hhdm : 0 < h ∧ h mod 8 = 0 ∧
    h + 4096 * frames_for (highest_usable regions) <= two64;
  bo_phys : 4096 * frames_for (highest_usable regions) <= 4503599627370496;
  bo_access : ∀ r a, r ∈ regions → usable r → base r <= a → a + 8 <= base r + length r →
    writable s (h + a) = true
}.

(** The frames free after [init]. *)
Definition initial_free (regions : list MemoryRegion) (phys : Z) : gset Z :=
  usable_frames regions ∖ bitmap_frames phys (pages_for (highest_usable regions)).

Lemma boot_ok_sizes s regions h phys : boot_ok s regions h phys →
  let H := highest_usable regions in
  0 < frames_for H ∧ frames_for H <= 64 * words_for H ∧
  64 * words_for H <= frames_for H + 63 ∧ 0 < pages_for H ∧
  8 * words_for H <= 4096 * pages_for H ∧ 4096 * pages_for H <= 8 * words_for H + 4095 ∧
  H <= 4096 * frames_for H.
Proof. intros Hb. pose proof (bo_some _ _ _ _ Hb). unfold pages_for, words_for, frames_for. dlia. Qed.

Lemma boot_ok_region s regions h phys : boot_ok s regions h phys →
  ∃ r, r ∈ regions ∧ usable r ∧ base r = phys ∧ 0 <= base r ∧
       4096 * pages_for (highest_usable regions) <= length r ∧
       base r + length r <= highest_usable regions.
Proof.
  intros Hb. pose proof (boot_ok_sizes _ _ _ _ Hb) as Hsz. cbv zeta in Hsz.
  pose proof (bo_phys _ _ _ _ Hb).
  destruct (find_bitmap_Some _ _ _ (bo_bitmap _ _ _ _ Hb)) as (r & Hin & Hu & Hr & Hl).
  destruct (bo_wf _ _ _ _ Hb r Hin Hu) as (Hr0 & _).
  exists r. repeat split; try done; [| by apply highest_usable_ge].
  rewrite u64_small in Hl by (unfold is_u64; lia). lia.
Qed.

Lemma bo_phys_range s regions h phys : boot_ok s regions h phys →
  0 <= phys < 4096 * frames_for (highest_usable regions).
Proof.
  intros Hb. destruct (boot_ok_region _ _ _ _ Hb) as (r & _ & _ & Hr & ? & ? & ?).
  pose proof (boot_ok_sizes _ _ _ _ Hb) as Hsz. cbv zeta in Hsz. lia.
Qed.

Lemma boot_ok_free_apart s regions h phys f : boot_ok s regions h phys →
  f ∈ initial_free regions phys →
  4096 * f + 4096 <= phys ∨ phys + 8 * words_for (highest_usable regions) <= 4096 * f.
Proof.
  intros Hb. pose proof (boot_ok_sizes _ _ _ _ Hb) as Hsz. cbv zeta in Hsz.
  pose proof (bo_aligned _ _ _ _ Hb). unfold initial_free, bitmap_frames.
  rewrite elem_of_difference, elem_of_frame_range. intros [_ Hf]. dlia.
Qed.

Lemma boot_ok_free_access s regions h phys f i : boot_ok s regions h phys →
  f ∈ initial_free regions phys → 0 <= i < 512 →
  addr_ok s (h + 4096 * f + 8 * i) = true.
Proof.
  intros Hb Hf Hi. unfold initial_free in Hf. apply elem_of_difference in Hf as [Hf _].
  apply elem_of_usable_frames in Hf as (r & Hin & Hu & [H1 H2]%elem_of_frames_of).
  pose proof (bo_hhdm _ _ _ _ Hb). unfold addr_ok. rewrite <- Z.add_assoc.
  rewrite (bo_access _ _ _ _ Hb r); [simpl; apply Z.eqb_eq; dlia | done | done | lia | lia].
Qed.

Lemma boot_ok_free_range s regions h phys f : boot_ok s regions h phys →
  f ∈ initial_free regions phys → 0 <= f < frames_for (highest_usable regions).
Proof.
  intros Hb Hf. unfold initial_free in Hf. apply elem_of_difference in Hf as [Hf _].
  apply elem_of_usable_frames in Hf as (r & Hin & Hu & [H1 H2]%elem_of_frames_of).
  pose proof (highest_usable_ge _ _ Hin Hu). pose proof (bo_wf _ _ _ _ Hb r Hin Hu) as (? & ? & _).
  unfold frames_for. dlia.
Qed.

(** The allocator once its sizes and its bitmap are chosen. *)
Definition sized s (regions : list MemoryRegion) (h phys : Z) : Prop :=
  let H := highest_usable regions in
  bitmap (pmm s) = h + phys ∧ bitmap_phys (pmm s) = phys ∧ bitmap_words (pmm s) = words_for H ∧
  frame_count (pmm s) = frames_for H ∧ g_hhdm_offset (pmm s) = h.

Lemma sized_env s s' regions h phys : same_env s s' → sized s regions h phys → sized s' regions h phys.
Proof. intros (_ & Eb & Ep & Ew & Ef & Eh)%same_env_fields. unfold sized. by rewrite Eb, Ep, Ew, Ef, Eh. Qed.

Lemma sized_layout s regions h phys : boot_ok s regions h phys → sized s regions h phys →
  layout s (initial_free regions phys).
Proof.
  intros Hb (Eb & Ep & Ew & Ef & Eh). pose proof (bo_phys _ _ _ _ Hb) as Hph.
  pose proof (bo_hhdm _ _ _ _ Hb) as Hh.
  split; rewrite ?Eh, ?Ef, ?Eb, ?Ep, ?Ew; unfold two64 in *; try lia.
  - intros f. by apply boot_ok_free_apart with s h.
  - intros f i Hf Hi. by apply boot_ok_free_access with regions phys.
  - intros f. by apply boot_ok_free_range with s h.
Qed.

(** The three phases, up to what follows them. *)
Lemma wp_phases {B} s regions h phys (k : M B) (Q : B → machine → Prop) :
  boot_ok s regions h phys → sized s regions h phys →
  (∀ s', touches ∅ s s' → bits s' (initial_free regions phys) →
     layout s' (initial_free regions phys) →
     (disjoint_map regions → counted s' (initial_free regions phys)) → wp k Q s') →
  wp (mark_all_used ;; on_pmm (set_free_count 0) ;; mark_usable_free regions ;;
      mark_bitmap_used (pages_for (highest_usable regions)) ;; k) Q s.
Proof.
  intros Hb Hz HQ. pose proof (boot_ok_sizes _ _ _ _ Hb) as Hsz. cbv zeta in Hsz.
  pose proof (bo_phys _ _ _ _ Hb) as Hph. pose proof (bo_hhdm _ _ _ _ Hb) as Hh.
  destruct (boot_ok_region _ _ _ _ Hb) as (r & Hin & Hu & Hr & Hr0 & Hrl & Hrh).
  pose proof Hz as (Eb & Ep & Ew & Ef & Eh).
  wp_step. apply wp_mark_all_used; rewrite ?Eb, ?Ew, ?Ef; unfold two64 in *; try lia.
  { intros w Hw. unfold addr_ok. rewrite <- Z.add_assoc.
    rewrite (bo_access _ _ _ _ Hb r); [simpl | done | done | lia | lia].
    apply Z.eqb_eq. pose proof (bo_aligned _ _ _ _ Hb). dlia. }
  intros s2 Hoc Hto Hb2. wp_step. unfold on_pmm at 1. wp_step. wp_step.
  match goal with |- wp _ _ ?x => assert (touches ∅ s x) as He2 by (by etrans; [exact Hto |]) end.
  pose proof (sized_env _ _ _ _ _ (touches_env _ _ _ He2) Hz) as (_ & _ & _ & Ef2 & _).
  apply wp_mark_usable_free with ∅; [by apply (bits_set_count _ _ _ Hb2) | exact (bo_wf _ _ _ _ Hb) | |].
  { rewrite Ef2. lia. }
  rewrite empty_union. intros s3 He3 Hb3 Hc3. rewrite He3 in He2.
  pose proof (sized_env _ _ _ _ _ (touches_env _ _ _ He2) Hz) as (_ & Ep3 & _). wp_step.
  apply wp_mark_bitmap_used with (usable_frames regions);
    [done | rewrite Ep3; lia | lia | rewrite Ep3; unfold two64; dlia |].
  rewrite Ep3. fold (initial_free regions phys). intros s4 He4 Hb4 Hc4. rewrite He4 in He2.
  apply HQ; [done | done | |].
  - apply (layout_env s); [apply He2 |]. by apply sized_layout with h.
  - intros Hd. apply Hc4, Hc3; [| done | apply disjoint_empty_l]. done.
Qed.

End WithDevice.
