(* ===== verification/PmmBoot.v ===== *)
(** [Pmm.init] as a whole, on any [Console]: the text it prints as a function
    of the memory map, the allocator it leaves, and the maps it refuses. *)

From Stdlib Require Import ZArith Lia Ascii String.
From stdpp Require Import base numbers list gmap sets fin_sets.
From S2P Require Import Prelude Descriptors Machine Serial Print Console Cpu Report Pmm PmmInv PmmInit.
Import Pmm.
Local Open Scope Z_scope.

(** ** Texts *)

Definition region_text (r : MemoryRegion) : list ascii :=
  text "  " ++ ptr (base r) ++ text " - " ++ ptr (u64 (base r + length r)) ++
  text "  length=" ++ dec (length r) ++ text "  type=" ++ text (region_type_name (type r)) ++ text nl.

(** The total of the usable lengths, as the loop adds it up. *)
Definition usable_bytes (regions : list MemoryRegion) (start : Z) : Z :=
  foldl (λ total r, if decide (type r = Usable) then u64 (total + length r) else total) start regions.

Definition total_text (regions : list MemoryRegion) : list ascii :=
  text "Total usable memory: " ++ dec (usable_bytes regions 0) ++ text (" bytes" ++ nl)%string.

Definition bitmap_text (highest h phys : Z) : list ascii :=
  text ("PMM:" ++ nl ++ "  highest usable: ")%string ++ ptr highest ++
  text (nl ++ "  frame count:    ")%string ++ dec (frames_for highest) ++
  text (nl ++ "  bitmap phys:    ")%string ++ ptr phys ++
  text (nl ++ "  bitmap virt:    ")%string ++ ptr (u64 (h + phys)) ++
  text (nl ++ "  bitmap bytes:   ")%string ++ dec (8 * words_for highest) ++
  text (nl ++ "  bitmap words:   ")%string ++ dec (words_for highest) ++
  text (nl ++ "  bitmap pages:   ")%string ++ dec (pages_for highest) ++ text nl.

Definition free_text (free : Z) : list ascii :=
  (text "  free frames:    " ++ dec free ++ text nl) ++
  (text "  free memory:    " ++ dec (u64 (free * 4096)) ++ text (" bytes" ++ nl)%string) ++
  text ("  bitmap initialized" ++ nl)%string.

Definition init_text (regions : list MemoryRegion) (h phys free : Z) : list ascii :=
  text (nl ++ "Memory map:" ++ nl)%string ++ (regions ≫= region_text) ++ total_text regions ++
  bitmap_text (highest_usable regions) h phys ++ free_text free.

(** What it prints when it gives up. *)
Definition init_refused_text (regions : list MemoryRegion) : list ascii :=
  text (nl ++ "Memory map:" ++ nl)%string ++ (regions ≫= region_text) ++ total_text regions ++
  (if highest_usable regions =? 0 then text ("fatal: no usable memory" ++ nl)%string
   else text ("fatal: no usable region large enough for bitmap" ++ nl)%string) ++ [].

Section Said.
Context `{CN : Console}.
Implicit Types s : machine.

#[local] Opaque Print.numeral Print.pointer_text.

Lemma tells_scan_map regions : ∀ s0 s highest bytes (Q : Z * Z → machine → Prop),
  Serial.only_device s0 s → c_up s → map_wf regions → 0 <= highest →
  (∀ s', Serial.only_device s0 s' → c_up s' →
     Q (Z.max highest (highest_usable regions), usable_bytes regions bytes) s') →
  tells (scan_map regions highest bytes) (regions ≫= region_text) Q s.
Proof.
  induction regions as [| r rest IH]; intros s0 s highest bytes Q H U Hwf Hh HQ.
  - apply tells_ret. simpl in HQ. rewrite Z.max_l in HQ by done. by apply HQ.
  - apply map_wf_cons in Hwf as [Hr Hrest]. cbn [scan_map].
    change ((r :: rest) ≫= region_text) with (region_text r ++ (rest ≫= region_text)). say.
    cbn [highest_usable usable_bytes foldl] in HQ. unfold usable in *.
    destruct (decide (type r = Usable)) as [Hu | Hu]; [| by apply (IH s0)].
    specialize (Hr Hu). unfold region_wf, two64 in Hr. cbv zeta.
    rewrite (u64_small (base r + length r)) by (unfold is_u64; lia).
    apply (IH s0); [done | done | done | case_match; lia |]. intros s' H' U'.
    replace (Z.max _ (highest_usable rest)) with
      (Z.max highest (Z.max (base r + length r) (highest_usable rest)))
      by (destruct (Z.ltb_spec highest (base r + length r)); lia).
    by apply HQ.
Qed.

(** ** The run *)

(** What [init] leaves: the allocator's fields and the frames it has free. *)
Record initialised s regions h phys s' : Prop := {
  in_access : access s' = access s;
  in_cpu : cpu s' = cpu s;
  in_video : video s' = video s;
  in_cells : ∀ a, ~ held s' ∅ a → cell s' a = cell s a;
  in_sized : sized s' regions h phys;
  in_bits : bits s' (initial_free regions phys);
  in_counted : counted s' (initial_free regions phys);
  in_layout : layout s' (initial_free regions phys)
}.

Lemma tells_init s regions h phys (Q : unit → machine → Prop) :
  c_up s → boot_ok s regions h phys → disjoint_map regions →
  (∀ s', initialised s regions h phys s' → c_up s' → Q tt s') →
  tells (init regions h) (init_text regions h phys (Z.of_nat (size (initial_free regions phys)))) Q s.
Proof.
  intros U Hb Hd HQ. pose proof Hb as [Hwf Hpos Hfind _ Hh Hph _].
  pose proof (highest_usable_bound _ Hwf) as Hhb. unfold init, report_free, init_text.
  apply tells_skip, wp_modify. split; [done |]. speak U.
  eapply tells_bind, tells_scan_map; [done | done | done | done |].
  intros s2 [d2 ->]%Serial.only_device_ex U2. rewrite Z.max_r by lia. speak U2.
  destruct (Z.eqb_spec (highest_usable regions) 0); [lia |].
  destruct (init_sizes (highest_usable regions)) as (-> & -> & -> & ->); [lia |]. cbv zeta.
  apply tells_skip, wp_modify. split; [done |]. rewrite Hfind.
  do 2 (apply tells_skip, wp_modify; split; [done |]). speak U2.
  match goal with |- tells _ _ _ ?s1 => set (x := s1) in * end.
  assert (sized x regions h phys) as Hz.
  { unfold sized. simpl. rewrite u64_small; [done |]. pose proof (bo_phys_range _ _ _ _ Hb).
    unfold is_u64, two64 in *. lia. }
  apply (wp_phases x regions h phys); [by destruct Hb | done |].
  intros s' [He Hcells] Hbits Hlay Hc. apply tells_from; [apply He |].
  assert (c_up s') as U' by (destruct He as (_ & _ & _ & _ & _ & ? & ? & _ & ?); by apply (c_up_same x)).
  apply tells_skip, wp_gets. split; [done |]. cbv beta. rewrite (Hc Hd : _ = _).
  speak U'. speak U'. speak U'. apply HQ; [| done].
  split; simpl.
  - by destruct He as (-> & _).
  - by destruct He as (_ & _ & -> & _).
  - by destruct He as (_ & _ & _ & _ & _ & _ & _ & -> & _).
  - intros a Ha. apply (Hcells a). by rewrite <- (held_env x s').
  - exact (sized_env x s' _ _ _ He Hz).
  - by eapply (bits_mem s').
  - exact (Hc Hd).
  - by apply (layout_mem s').
Qed.

(** With nothing usable, or nowhere to put the bitmap, [init] says so and stops. *)
Lemma ends_init s regions h (Q : machine → Prop) : c_up s → map_wf regions →
  highest_usable regions = 0 ∨
  find_bitmap regions (pages_for (highest_usable regions)) = None →
  (∀ s', cells s' = cells s → c_up s' → Q s') →
  ends (init regions h) (init_refused_text regions) Q s.
Proof.
  intros U Hwf Hbad HQ. pose proof (highest_usable_nonneg regions).
  pose proof (highest_usable_bound _ Hwf) as Hhb. unfold init, init_refused_text.
  apply ends_silent, wp_modify. split; [done |]. speak U.
  eapply ends_bind, tells_scan_map; [done | done | done | done |].
  intros s2 [d2 ->]%Serial.only_device_ex U2. rewrite Z.max_r by lia. speak U2.
  destruct (Z.eqb_spec (highest_usable regions) 0) as [E |]; [speak U2; by apply ends_halt, HQ |].
  destruct Hbad as [| Hbad]; [done |].
  destruct (init_sizes (highest_usable regions)) as (-> & -> & -> & ->); [lia |]. cbv zeta.
  apply ends_silent, wp_modify. split; [done |]. rewrite Hbad. speak U2. by apply ends_halt, HQ.
Qed.

End Said.
