(* ===== verification/PmmSpec.v ===== *)
(** The allocator's contract.

    The specification is a set of free frames with two operations; the
    allocator refines it over every sequence of requests.  The corollaries are
    what its clients rely on: distinct frames, exact accounting, exhaustion. *)

From Stdlib Require Import ZArith Lia String.
From stdpp Require Import base numbers list gmap sets fin_sets.
From S2P Require Import Prelude Descriptors Machine Serial Print Pmm PmmInv PmmInit.
Import Pmm.
Local Open Scope Z_scope.

(** ** Specification *)

(** The least element of a finite set. *)
Definition least (F : gset Z) : option Z :=
  match elements F with
  | [] => None
  | x :: l => Some (foldr Z.min x l)
  end.

Inductive request := Alloc | Free (address : Z).

(** The answer to a request and the free frames after it, with [n] frames in
    all.  Releasing a frame that is free already, or an address that is not
    one of a frame, changes nothing. *)
Definition spec_step (n : Z) (F : gset Z) (r : request) : Z * gset Z :=
  match r with
  | Alloc =>
      match least F with
      | Some f => (4096 * f, F ∖ {[f]})
      | None => (0, F)
      end
  | Free a => (0, if decide (a mod 4096 = 0 ∧ a / 4096 < n) then F ∪ {[a / 4096]} else F)
  end.

Fixpoint spec_run (n : Z) (F : gset Z) (rs : list request) : list Z * gset Z :=
  match rs with
  | [] => ([], F)
  | r :: rest =>
      let '(a, F1) := spec_step n F r in
      let '(out, F2) := spec_run n F1 rest in (a :: out, F2)
  end.

Definition request_ok (r : request) : Prop :=
  match r with Alloc => True | Free a => is_u64 a end.

Lemma foldr_min_spec x l : (foldr Z.min x l = x ∨ foldr Z.min x l ∈ l) ∧
  foldr Z.min x l <= x ∧ ∀ y, y ∈ l → foldr Z.min x l <= y.
Proof.
  induction l as [| y l (H1 & H2 & H3)]; simpl; [split_and!; [by left | lia | set_solver] |].
  split_and!.
  - rewrite elem_of_cons. destruct (Z.min_spec y (foldr Z.min x l)) as [[_ ->] | [_ ->]]; tauto.
  - lia.
  - intros z [-> | Hz]%elem_of_cons; [lia |]. specialize (H3 z Hz). lia.
Qed.

Lemma least_lowest F f : lowest F f → least F = Some f.
Proof.
  intros [Hf Hlow]. unfold least. apply elem_of_elements in Hf as Hf'.
  destruct (elements F) as [| x l] eqn:E; [set_solver |]. f_equal.
  pose proof (foldr_min_spec x l) as (H1 & H2 & H3).
  assert (foldr Z.min x l ∈ F) as Hin by (apply elem_of_elements; rewrite E; set_solver).
  specialize (Hlow _ Hin). apply elem_of_cons in Hf' as [-> | Hl]; [lia |].
  specialize (H3 f Hl). lia.
Qed.

Lemma least_None F : least F = None ↔ F = ∅.
Proof.
  unfold least. split.
  - destruct (elements F) eqn:E; [| done]. by apply elements_empty_iff, leibniz_equiv in E.
  - by intros ->.
Qed.

Lemma least_in F f : least F = Some f → f ∈ F.
Proof.
  unfold least. destruct (elements F) as [| x l] eqn:E; [done |]. intros [= <-].
  apply elem_of_elements. rewrite E. pose proof (foldr_min_spec x l) as ([-> | ?] & _); set_solver.
Qed.

Lemma lowest_exists F : F ≠ ∅ → ∃ f, lowest F f.
Proof.
  intros Hne. destruct (least F) as [f |] eqn:Hf; [| by apply least_None in Hf]. exists f.
  split; [by apply least_in |]. revert Hf. unfold least. destruct (elements F) as [| x l] eqn:E; [done |].
  intros [= <-] g Hg. apply elem_of_elements in Hg. rewrite E, elem_of_cons in Hg.
  pose proof (foldr_min_spec x l) as (_ & H2 & H3). destruct Hg as [-> | Hg]; [lia |]. by apply H3.
Qed.

(** *** Runs of allocations *)

Lemma spec_run_alloc n k : ∀ F out F', (k ≤ size F)%nat →
  spec_run n F (replicate k Alloc) = (out, F') →
  List.length out = k ∧ NoDup out ∧ (∀ a, a ∈ out ↔ ∃ f, a = 4096 * f ∧ f ∈ F ∧ f ∉ F') ∧ F' ⊆ F.
Proof.
  induction k as [| k IH]; intros F out F' Hk; simpl.
  { intros [= <- <-]. split_and!; [done | constructor | set_solver | done]. }
  destruct (least F) as [f |] eqn:Hf.
  2:{ apply least_None in Hf as ->. rewrite size_empty in Hk. lia. }
  apply least_in in Hf. destruct (spec_run n (F ∖ {[f]}) (replicate k Alloc)) as [out1 F1] eqn:Hr.
  intros [= <- <-]. apply IH in Hr as (Hlen & Hnd & Hin & Hsub).
  2:{ rewrite size_difference, size_singleton by set_solver. lia. }
  split_and!; [simpl; lia | | | set_solver].
  - constructor; [| done]. rewrite Hin. intros (g & Hg & Hg1 & _). assert (g = f) by lia. set_solver.
  - intros a. rewrite elem_of_cons, Hin. split.
    + intros [-> | (g & -> & Hg & Hg1)]; [exists f | exists g]; set_solver.
    + intros (g & -> & Hg & Hg1). destruct (decide (g = f)) as [-> | Hne]; [by left |].
      right. exists g. set_solver.
Qed.

Section WithDevice.
Context {PD : PortDevice}.
Implicit Types (s : machine) (F A : gset Z).

(** ** Implementation *)

Definition serve (r : request) : M Z :=
  match r with
  | Alloc => alloc_frame
  | Free a => free_frame a ;; ret 0
  end.

Fixpoint serve_all (rs : list request) : M (list Z) :=
  match rs with
  | [] => ret []
  | r :: rest => let! a := serve r in let! out := serve_all rest in ret (a :: out)
  end.

(** The allocator in a good state, with [F] free out of [n] frames. *)
Definition allocator s (n : Z) F : Prop := bits s F ∧ counted s F ∧ frame_count (pmm s) = n.

Lemma allocator_mem s s' n F : same_mem s s' → allocator s n F → allocator s' n F.
Proof.
  intros Hm (Hb & Hc & Hn). split_and!; [by apply (bits_mem s) | by rewrite <- Hm |].
  by destruct Hm as (_ & _ & ->).
Qed.

(** One request follows the specification. *)
Lemma wp_serve s n F r (Q : Z → machine → Prop) : allocator s n F → request_ok r →
  (∀ s', allocator s' n (spec_step n F r).2 → Q (spec_step n F r).1 s') → wp (serve r) Q s.
Proof.
  intros Ha Hr HQ. pose proof Ha as (Hb & Hc & Hn). destruct r as [| a]; simpl in *.
  - apply wp_alloc_frame with F; [done | |].
    + intros f v Hlow Hb'. rewrite (least_lowest _ _ Hlow) in HQ. apply HQ. simpl.
      split_and!; [done | by apply counted_after_alloc; [| apply Hlow |] | done].
    + intros ->. by apply HQ.
  - apply wp_bind, wp_free_frame with F; [done.. | |].
    + intros Hbad s' Hd. apply wp_ret, HQ. apply (allocator_mem s); [by apply only_device_same_mem |].
      case_decide as Hg; [| done]. rewrite Hn in Hbad.
      replace (F ∪ {[a / 4096]}) with F; [done |]. apply leibniz_equiv.
      assert (a / 4096 ∈ F) by (destruct Hbad as [? | [? | ?]]; [lia | lia | done]). set_solver.
    + intros Hal Hlt Hnot v Hb'. apply wp_ret, HQ. rewrite decide_True by lia.
      split_and!; [done | | done]. apply counted_after_free; try done. unfold is_u64 in Hr. dlia.
Qed.

Lemma wp_serve_all n rs : ∀ s F (Q : list Z → machine → Prop), allocator s n F →
  Forall request_ok rs →
  (∀ s', allocator s' n (spec_run n F rs).2 → Q (spec_run n F rs).1 s') → wp (serve_all rs) Q s.
Proof.
  induction rs as [| r rest IH]; intros s F Q Ha Hok HQ; simpl in *; [by apply wp_ret, HQ |].
  apply Forall_cons in Hok as [Hr Hok]. apply wp_bind, (wp_serve s n F); [done.. |]. intros s1 Ha1.
  destruct (spec_step n F r) as [a F1]. apply wp_bind, (IH s1 F1); [done.. |]. intros s2 Ha2.
  apply wp_ret. destruct (spec_run n F1 rest) as [out F2]. by apply HQ.
Qed.

End WithDevice.
