(* ===== verification/Paging.v ===== *)
(** Page-table entries and virtual addresses, src/src/mm/vmm.hpp: the flag
    and address encodings, the decomposition of an address into its indices,
    the canonical-address rule and [align_up]. *)

From Stdlib Require Import ZArith Lia.
From stdpp Require Import base numbers list.
From S2P Require Import Prelude.
Local Open Scope Z_scope.

Definition kPageTableEntries : Z := 512.
Definition kPageSize : Z := 4096.
Definition kLargePageSize : Z := 2 * 1024 * 1024.

Definition align_up (value alignment : Z) : Z :=
  ((value + alignment - 1) .& .~ (alignment - 1))%u64.

(** The enumerators of [PageFlags], whose underlying type is uint64_t, and
    its operators. *)
Module PageFlags.
Definition None : Z := 0.
Definition Present : Z := Z.shiftl 1 0.
Definition Writable : Z := Z.shiftl 1 1.
Definition User : Z := Z.shiftl 1 2.
Definition Accessed : Z := Z.shiftl 1 5.
Definition Dirty : Z := Z.shiftl 1 6.
Definition Huge : Z := Z.shiftl 1 7.
Definition Global : Z := Z.shiftl 1 8.
Definition NoExecute : Z := Z.shiftl 1 63.
Definition or (lhs rhs : Z) : Z := Z.lor lhs rhs.
Definition and (lhs rhs : Z) : Z := Z.land lhs rhs.
(** The value [lhs] has after [lhs |= rhs]. *)
Definition or_assign (lhs rhs : Z) : Z := or lhs rhs.
End PageFlags.

Definition kPhysicalAddressMask : Z := 0x000FFFFFFFFFF000.

Definition make_page_entry (physical_address flags : Z) : Z :=
  ((physical_address .& kPhysicalAddressMask) .| flags)%u64.

Definition page_entry_address (entry : Z) : Z := Z.land entry kPhysicalAddressMask.

Definition page_entry_flags (entry : Z) : Z := (entry .& .~ kPhysicalAddressMask)%u64.

Record VirtualAddress := mk_va {
  pml4_index : Z;
  pdpt_index : Z;
  pd_index : Z;
  pt_index : Z;
  offset : Z
}.

Definition decompose_address (address : Z) : VirtualAddress :=
  (mk_va
     (u16 ((address >> 39) .& 0x1FF))
     (u16 ((address >> 30) .& 0x1FF))
     (u16 ((address >> 21) .& 0x1FF))
     (u16 ((address >> 12) .& 0x1FF))
     (u16 (address .& 0xFFF)))%u64.

Definition reassemble_address (address : VirtualAddress) : Z :=
  (let result :=
     (pml4_index address << 39) .| (pdpt_index address << 30) .|
     (pd_index address << 21) .| (pt_index address << 12) .| offset address in
   if negb (result .& (1 << 47) =? 0)
   then result .| 0xFFFF000000000000
   else result)%u64.

Definition is_canonical (address : Z) : bool :=
  (let upper := address >> 48 in
   let sign := (address >> 47) .& 1 in
   if sign =? 0 then upper =? 0 else upper =? 0xFFFF)%u64.

(** ** Rounding *)

Lemma land_u64_r x y : is_u64 x → Z.land x (u64 y) = Z.land x y.
Proof.
  intros Hx. apply Z.bits_inj'. intros n Hn. rewrite !Z.land_spec, u64_testbit by done.
  destruct (Z.ltb_spec n 64); [done |]. by rewrite is_u64_testbit_high.
Qed.

Lemma land_not_low x k : is_u64 x → 0 <= k → Z.land x (u64 (Z.lnot (2 ^ k - 1))) = x - x mod 2 ^ k.
Proof.
  intros Hx Hk. rewrite land_u64_r by done.
  replace (Z.lnot (2 ^ k - 1)) with (- 2 ^ k) by (unfold Z.lnot; lia).
  by apply land_high_mask.
Qed.

Lemma align_up_eq value k : 0 <= k < 64 → 0 <= value → value + 2 ^ k <= two64 →
  align_up value (2 ^ k) = (value + (2 ^ k - 1)) / 2 ^ k * 2 ^ k.
Proof.
  unfold align_up, two64. intros Hk Hv Hb.
  assert (0 < 2 ^ k) by lia.
  assert (2 ^ k < 18446744073709551616) by (change 18446744073709551616 with (2 ^ 64); apply Z.pow_lt_mono_r; lia).
  rewrite u64_sub_l, (u64_small (2 ^ k - 1)) by (unfold is_u64; lia).
  rewrite (u64_small (value + 2 ^ k - 1)) by (unfold is_u64; lia).
  rewrite land_not_low by (unfold is_u64; lia).
  replace (value + 2 ^ k - 1) with (value + (2 ^ k - 1)) by lia.
  pose proof (Z.div_mod (value + (2 ^ k - 1)) (2 ^ k)). lia.
Qed.

(** ** Entries *)

Lemma land_address_mask x : Z.land x kPhysicalAddressMask = x mod 2 ^ 52 - x mod 4096.
Proof.
  change kPhysicalAddressMask with (Z.land (2 ^ 52 - 1) (- 2 ^ 12)).
  rewrite Z.land_assoc, land_low_mask, land_high_mask by lia.
  f_equal. change (2 ^ 52) with (4096 * 2 ^ 40). change (2 ^ 12) with 4096.
  rewrite Z.rem_mul_r by lia. rewrite (Z.mul_comm 4096 (_ mod _)), Z_mod_plus_full.
  apply Zmod_mod.
Qed.

(** A physical page address that fits an entry. *)
Definition page_address (p : Z) : Prop := 0 <= p < 2 ^ 52 ∧ p mod 4096 = 0.

Lemma land_page_address p : page_address p → Z.land p kPhysicalAddressMask = p.
Proof.
  intros [Hp Hm]. rewrite land_address_mask, Hm, Z.mod_small by done. lia.
Qed.

Lemma page_address_land x : page_address (Z.land x kPhysicalAddressMask).
Proof.
  rewrite land_address_mask. split; [| change (2 ^ 52) with 4503599627370496; dlia].
  change (2 ^ 52) with 4503599627370496. dlia.
Qed.

(** Flags that leave the address bits alone. *)
Definition flag_bits (flags : Z) : Prop := is_u64 flags ∧ Z.land flags kPhysicalAddressMask = 0.

Lemma page_entry_address_make p flags : page_address p → flag_bits flags →
  page_entry_address (make_page_entry p flags) = p.
Proof.
  intros Hp [_ Hf]. unfold page_entry_address, make_page_entry.
  rewrite Z.land_lor_distr_l, Hf, Z.lor_0_r, <- Z.land_assoc, Z.land_diag.
  by apply land_page_address.
Qed.

Lemma page_entry_flags_make p flags : page_address p → flag_bits flags →
  page_entry_flags (make_page_entry p flags) = flags.
Proof.
  intros Hp [Hu Hf]. unfold page_entry_flags, make_page_entry.
  assert (is_u64 (Z.lor (Z.land p kPhysicalAddressMask) flags)).
  { apply lor_is_u64; [| done]. rewrite land_page_address by done.
    destruct Hp. unfold is_u64. lia. }
  rewrite land_u64_r, Z.land_lor_distr_l, <- Z.land_assoc, Z.land_lnot_diag, Z.land_0_r by done.
  apply Z.bits_inj'. intros n Hn.
  rewrite Z.lor_0_l, Z.land_spec, Z.lnot_spec by done.
  assert (Z.testbit (Z.land flags kPhysicalAddressMask) n = false) as Hn'
    by (rewrite Hf; apply Z.testbit_0_l).
  rewrite Z.land_spec in Hn'. by destruct (Z.testbit flags n), (Z.testbit kPhysicalAddressMask n).
Qed.

Lemma make_page_entry_split e : is_u64 e →
  make_page_entry (page_entry_address e) (page_entry_flags e) = e.
Proof.
  intros He. unfold make_page_entry, page_entry_address, page_entry_flags.
  rewrite land_u64_r, <- Z.land_assoc, Z.land_diag by done.
  apply Z.bits_inj'. intros n Hn.
  rewrite Z.lor_spec, !Z.land_spec, Z.lnot_spec by done.
  by destruct (Z.testbit e n), (Z.testbit kPhysicalAddressMask n).
Qed.

(** ** Addresses *)

Lemma decompose_fields v :
  decompose_address v =
  mk_va ((v / 2 ^ 39) mod 512) ((v / 2 ^ 30) mod 512) ((v / 2 ^ 21) mod 512)
        ((v / 2 ^ 12) mod 512) (v mod 4096).
Proof.
  unfold decompose_address. autorewrite with masks. rewrite !Z.shiftr_div_pow2 by lia.
  unfold u16. f_equal; apply Z.mod_small; dlia.
Qed.

Lemma is_canonical_iff v : is_u64 v →
  is_canonical v = true ↔ v < 2 ^ 47 ∨ two64 - 2 ^ 47 <= v.
Proof.
  intros Hv. unfold is_canonical, is_u64, two64 in *.
  rewrite !Z.shiftr_div_pow2, land_0x1 by lia.
  change (2 ^ 47) with 140737488355328. change (2 ^ 48) with 281474976710656.
  destruct (Z.eqb_spec ((v / 140737488355328) mod 2) 0); rewrite Z.eqb_eq; dlia.
Qed.

(** The fields of an address, in range. *)
Definition va_wf (a : VirtualAddress) : Prop :=
  0 <= pml4_index a < 512 ∧ 0 <= pdpt_index a < 512 ∧ 0 <= pd_index a < 512 ∧
  0 <= pt_index a < 512 ∧ 0 <= offset a < 4096.

(** The 48 bits the fields of an address make up. *)
Definition va_low (a : VirtualAddress) : Z :=
  pml4_index a * 2 ^ 39 + pdpt_index a * 2 ^ 30 + pd_index a * 2 ^ 21 + pt_index a * 2 ^ 12 + offset a.

Lemma reassemble_eq a : va_wf a →
  reassemble_address a = if va_low a <? 2 ^ 47 then va_low a else va_low a + (two64 - 2 ^ 48).
Proof.
  intros (H1 & H2 & H3 & H4 & H5). unfold reassemble_address.
  rewrite !Z.shiftl_mul_pow2 by lia. change (1 * 2 ^ 47) with (Z.shiftl 1 47).
  rewrite (u64_small (Z.shiftl 1 47)) by (apply bit_is_u64; lia).
  rewrite !u64_small by (unfold is_u64; lia).
  rewrite (lor_disjoint_add (pml4_index a * 2 ^ 39) _ 39) by (try apply Z.mod_mul; lia).
  rewrite (lor_disjoint_add (pml4_index a * 2 ^ 39 + pdpt_index a * 2 ^ 30) _ 30) by dlia.
  rewrite (lor_disjoint_add (_ + pd_index a * 2 ^ 21) _ 21) by dlia.
  rewrite (lor_disjoint_add (_ + pt_index a * 2 ^ 12) _ 12) by dlia.
  fold (va_low a). assert (0 <= va_low a < 2 ^ 48) as Hr by (unfold va_low; lia).
  rewrite land_bit_eqb, negb_involutive, <- (Z.mod_small (va_low a) (2 ^ 48) Hr), Z.testbit_eqb,
    (Z.mod_small _ _ Hr) by lia.
  unfold two64. destruct (Z.ltb_spec (va_low a) (2 ^ 47)).
  - rewrite Z.div_small by lia. done.
  - replace (va_low a / 2 ^ 47) with 1 by dlia.
    rewrite Z.lor_comm, (lor_disjoint_add _ _ 48) by (done || lia). simpl. lia.
Qed.
