(* ===== verification/Mmu.v ===== *)
(** The processor's page walk.

    Physical memory is reached, and named, through the direct map: the word at
    physical address [p] is the one at [hhdm s + p].  [hw_access] is what the
    processor makes of a virtual address once a PML4 is loaded: the physical
    address and the rights, which every level of the walk restricts. *)

From Stdlib Require Import ZArith Lia.
From stdpp Require Import base numbers list gmap.
From S2P Require Import Prelude Descriptors Machine Paging.
Local Open Scope Z_scope.

(** A table of level [l] decodes nine bits of the address from bit [shift l]
    up; level 4 is the PML4. *)
Definition shift (l : nat) : Z := 3 + 9 * Z.of_nat l.

(** The index of [v] in a table of level [l]. *)
Definition lidx (l : nat) (v : Z) : Z := (v / 2 ^ shift l) mod 512.

(** The physical address a leaf of level [l] gives to [v]. *)
Definition leaf_address (l : nat) (e v : Z) : Z :=
  Z.lor (page_entry_address e) (v mod 2 ^ shift l).

Section WithDevice.
Context {PD : PortDevice}.

Definition hhdm (s : machine) : Z := g_hhdm_offset (pmm s).

(** Entry [i] of the table at physical address [p]. *)
Definition ent (s : machine) (p i : Z) : Z := cell s (hhdm s + p + 8 * i).

(** A page is writable when every entry on the walk allows writing, and
    executable when none forbids execution. *)
Fixpoint hw_walk (s : machine) (l : nat) (p v : Z) (w x : bool) : option (Z * bool * bool) :=
  match l with
  | O => None
  | S l' =>
      let e := ent s p (lidx l v) in
      let w' := w && Z.testbit e 1 in
      let x' := x && negb (Z.testbit e 63) in
      if negb (Z.testbit e 0) then None
      else if (l =? 1)%nat || (Z.testbit e 7 && (l <=? 3)%nat)
           then Some (leaf_address l e v, w', x')
           else hw_walk s l' (page_entry_address e) v w' x'
  end.

Definition hw_access (s : machine) (root v : Z) : option (Z * bool * bool) :=
  hw_walk s 4 root v true true.

End WithDevice.
