(* ===== verification/Vmm.v ===== *)
(** The paging layer, src/src/mm/vmm.cpp, with the MSR access of
    src/src/arch/x86_64/msr.hpp it uses.

    A [PageTable*] is the address of its first entry, 0 being the null
    pointer; a [uint64_t&] to an entry is the entry's address.  The tables
    live in the same memory as the allocator's bitmap. *)

From Stdlib Require Import ZArith Lia.
From stdpp Require Import base numbers list gmap.
From S2P Require Import Prelude Descriptors Machine Pmm Paging Mmu.
Local Open Scope Z_scope.

(** ** Model-specific registers *)

Module Msr.

Definition kEferMsr : Z := 0xC0000080.
Definition kEferNxe : Z := Z.shiftl 1 11.

Section WithDevice.
Context {PD : PortDevice}.

Definition set_msr (msr value : Z) (c : cpu_state) : cpu_state :=
  mk_cpu (cr2 c) (cr3 c) (<[msr := value]> (msrs c)) (gdtr c) (idtr c)
    (seg_cs c) (seg_ds c) (seg_es c) (seg_fs c) (seg_gs c) (seg_ss c).

(** [rdmsr] delivers the register as an EDX:EAX pair, [wrmsr] takes it so. *)
Definition rdmsr (msr : Z) : M (Z * Z) :=
  gets (λ s, let v := default 0 (msrs (cpu s) !! msr) in (u32 v, u32 (Z.shiftr v 32))).
Definition wrmsr (msr lo hi : Z) : M unit :=
  modify (λ s, with_cpu (set_msr msr (Z.shiftl hi 32 + lo) (cpu s)) s).

Definition read_msr (msr : Z) : M Z :=
  let! (lo, hi) := rdmsr msr in
  ret ((hi << 32) .| lo)%u64.

Definition write_msr (msr value : Z) : M unit :=
  let lo := u32 value in
  let hi := u32 (Z.shiftr value 32) in
  wrmsr msr lo hi.

Definition enable_nx : M unit :=
  let! efer := read_msr kEferMsr in
  if Z.land efer kEferNxe =? 0 then write_msr kEferMsr (Z.lor efer kEferNxe)
  else ret tt.

End WithDevice.
End Msr.

Module Vmm.

Record AllocatedTable := mk_table {
  physical : Z;
  virtual_address : Z
}.

Record AddressSpace := mk_space {
  pml4 : Z;
  pml4_physical : Z
}.

Definition intermediate_flags (leaf_flags : Z) : Z :=
  let result := PageFlags.or PageFlags.Present PageFlags.Writable in
  if negb (Z.land leaf_flags PageFlags.User =? 0)
  then PageFlags.or_assign result PageFlags.User
  else result.

(** [&table->entries[index]]. *)
Definition entry_at (table index : Z) : Z := (table + 8 * index)%u64.

Section WithDevice.
Context {PD : PortDevice}.

(** [None] stands for the result [false]. *)
Definition allocate_table : M (option AllocatedTable) :=
  let! physical := Pmm.alloc_frame in
  if physical =? UINT64_MAX then ret None else
  let! virtual_address := Pmm.physical_to_virtual physical in
  for_each 0 kPageTableEntries 1 (λ i, store64 (entry_at virtual_address i) 0) ;;
  ret (Some (mk_table physical virtual_address)).

Definition create_address_space : M (option AddressSpace) :=
  let! table := allocate_table in
  match table with
  | None => ret None
  | Some t => ret (Some (mk_space (virtual_address t) (physical t)))
  end.

Definition ensure_table (entry middle_flags : Z) : M Z :=
  let present := PageFlags.Present in
  let huge := PageFlags.Huge in
  let! e := load64 entry in
  if negb (Z.land e huge =? 0) then ret 0 else
  if Z.land e present =? 0 then
    let! table := allocate_table in
    match table with
    | None => ret 0
    | Some t =>
        store64 entry (make_page_entry (physical t) middle_flags) ;;
        ret (virtual_address t)
    end
  else
    store64 entry (Z.lor e middle_flags) ;;
    let! e' := load64 entry in
    Pmm.physical_to_virtual (page_entry_address e').

Definition map_page (pml4 virt phys flags : Z) : M bool :=
  if pml4 =? 0 then ret false else
  if negb (is_canonical virt) then ret false else
  if negb (Z.land virt (kPageSize - 1) =? 0) then ret false else
  if negb (Z.land phys (kPageSize - 1) =? 0) then ret false else
  if negb (phys .& .~ kPhysicalAddressMask =? 0)%u64 then ret false else
  if negb (Z.land flags PageFlags.Huge =? 0) then ret false else
  let address := decompose_address virt in
  let middle_flags := intermediate_flags flags in
  let! pdpt := ensure_table (entry_at pml4 (pml4_index address)) middle_flags in
  if pdpt =? 0 then ret false else
  let! pd := ensure_table (entry_at pdpt (pdpt_index address)) middle_flags in
  if pd =? 0 then ret false else
  let! pt := ensure_table (entry_at pd (pd_index address)) middle_flags in
  if pt =? 0 then ret false else
  let pt_entry := entry_at pt (pt_index address) in
  let! e := load64 pt_entry in
  if negb (Z.land e PageFlags.Present =? 0) then ret false else
  store64 pt_entry (make_page_entry phys (PageFlags.or flags PageFlags.Present)) ;;
  ret true.

Definition map_page_large (pml4 virt phys flags : Z) : M bool :=
  if pml4 =? 0 then ret false else
  if negb (is_canonical virt) then ret false else
  let kLargePageMask := kLargePageSize - 1 in
  if negb (Z.land virt kLargePageMask =? 0) then ret false else
  if negb (Z.land phys kLargePageMask =? 0) then ret false else
  if negb (phys .& .~ kPhysicalAddressMask =? 0)%u64 then ret false else
  let address := decompose_address virt in
  let middle_flags := intermediate_flags flags in
  let! pdpt := ensure_table (entry_at pml4 (pml4_index address)) middle_flags in
  if pdpt =? 0 then ret false else
  let! pd := ensure_table (entry_at pdpt (pdpt_index address)) middle_flags in
  if pd =? 0 then ret false else
  let pd_entry := entry_at pd (pd_index address) in
  let! e := load64 pd_entry in
  if negb (Z.land e PageFlags.Present =? 0) then ret false else
  store64 pd_entry (make_page_entry phys
    (PageFlags.or (PageFlags.or flags PageFlags.Present) PageFlags.Huge)) ;;
  ret true.

Definition map_range (space : AddressSpace) (virt phys size flags : Z) : M bool :=
  if pml4 space =? 0 then ret false else
  if size =? 0 then ret false else
  if negb (Z.land virt (kPageSize - 1) =? 0) then ret false else
  if negb (Z.land phys (kPageSize - 1) =? 0) then ret false else
  if negb (Z.land size (kPageSize - 1) =? 0) then ret false else
  if (UINT64_MAX - size)%u64 <? virt then ret false else
  if (UINT64_MAX - size)%u64 <? phys then ret false else
  if negb (is_canonical virt) then ret false else
  if negb (is_canonical (virt + size - 1)%u64) then ret false else
  let! r := for_range 0 size kPageSize (λ offset,
    let! ok := map_page (pml4 space) (virt + offset)%u64 (phys + offset)%u64 flags in
    if negb ok then ret (Some false) else ret None) in
  match r with
  | Some b => ret b
  | None => ret true
  end.

Definition map_range_large (space : AddressSpace) (virt phys size flags : Z) : M bool :=
  if pml4 space =? 0 then ret false else
  if size =? 0 then ret false else
  let kLargePageMask := kLargePageSize - 1 in
  if negb (Z.land virt kLargePageMask =? 0) then ret false else
  if negb (Z.land phys kLargePageMask =? 0) then ret false else
  if negb (Z.land size kLargePageMask =? 0) then ret false else
  if (UINT64_MAX - size)%u64 <? virt then ret false else
  if (UINT64_MAX - size)%u64 <? phys then ret false else
  if negb (is_canonical virt) then ret false else
  if negb (is_canonical (virt + size - 1)%u64) then ret false else
  let! r := for_range 0 size kLargePageSize (λ offset,
    let! ok := map_page_large (pml4 space) (virt + offset)%u64 (phys + offset)%u64 flags in
    if negb ok then ret (Some false) else ret None) in
  match r with
  | Some b => ret b
  | None => ret true
  end.

Definition translate (space : AddressSpace) (virt : Z) : M Z :=
  if pml4 space =? 0 then ret 0 else
  if negb (is_canonical virt) then ret 0 else
  let address := decompose_address virt in
  let present := PageFlags.Present in
  let huge := PageFlags.Huge in
  let! pml4_entry := load64 (entry_at (pml4 space) (pml4_index address)) in
  if Z.land pml4_entry present =? 0 then ret 0 else
  let! pdpt := Pmm.physical_to_virtual (page_entry_address pml4_entry) in
  let! pdpt_entry := load64 (entry_at pdpt (pdpt_index address)) in
  if Z.land pdpt_entry present =? 0 then ret 0 else
  if negb (Z.land pdpt_entry huge =? 0) then
    ret (Z.lor (page_entry_address pdpt_entry) (Z.land virt 0x3FFFFFFF))
  else
  let! pd := Pmm.physical_to_virtual (page_entry_address pdpt_entry) in
  let! pd_entry := load64 (entry_at pd (pd_index address)) in
  if Z.land pd_entry present =? 0 then ret 0 else
  if negb (Z.land pd_entry huge =? 0) then
    ret (Z.lor (page_entry_address pd_entry) (Z.land virt 0x1FFFFF))
  else
  let! pt := Pmm.physical_to_virtual (page_entry_address pd_entry) in
  let! pt_entry := load64 (entry_at pt (pt_index address)) in
  if Z.land pt_entry present =? 0 then ret 0 else
  ret (Z.lor (page_entry_address pt_entry) (Z.land virt 0xFFF)).

Definition set_cr3 (v : Z) (c : cpu_state) : cpu_state :=
  mk_cpu (cr2 c) v (msrs c) (gdtr c) (idtr c)
    (seg_cs c) (seg_ds c) (seg_es c) (seg_fs c) (seg_gs c) (seg_ss c).

(** Loading CR3 puts the new tables in force: what they do not translate is no
    longer accessible, and what they do not make writable may no longer be
    written. *)
Definition load_address_space (space : AddressSpace) : M unit :=
  modify (λ s, with_access
    (λ a, match access s a, hw_access s (pml4_physical space) a with
          | Some w, Some (_, w', _) => Some (w && w')
          | _, _ => None
          end)
    (with_cpu (set_cr3 (pml4_physical space) (cpu s)) s)).

End WithDevice.

(** ** The kernel address space *)

Record KernelLayout := {
  virtual_base : Z;
  physical_base : Z;
  image_start : Z;
  text_start : Z;
  rodata_start : Z;
  data_start : Z;
  data_end : Z
}.

(** The end of the highest region of any type. *)
Fixpoint highest_end (regions : list Pmm.MemoryRegion) (highest : Z) : Z :=
  match regions with
  | [] => highest
  | r :: rest =>
      let e := (Pmm.base r + Pmm.length r)%u64 in
      highest_end rest (if highest <? e then e else highest)
  end.

Section WithDevice.
Context {PD : PortDevice}.

Definition map_segment (out : AddressSpace) (layout : KernelLayout) (start last flags : Z) : M bool :=
  let phys := (start - virtual_base layout + physical_base layout)%u64 in
  let size := (last - start)%u64 in
  map_range out start phys size flags.

(** The four segments of the image, each with the rights it needs. *)
Definition map_image (out : AddressSpace) (layout : KernelLayout) : M bool :=
  let data_end_rounded := align_up (data_end layout) kPageSize in
  let! ok := map_segment out layout (image_start layout) (text_start layout)
               PageFlags.NoExecute in
  if negb ok then ret false else
  let! ok := map_segment out layout (text_start layout) (rodata_start layout)
               PageFlags.None in
  if negb ok then ret false else
  let! ok := map_segment out layout (rodata_start layout) (data_start layout)
               PageFlags.NoExecute in
  if negb ok then ret false else
  let! ok := map_segment out layout (data_start layout) data_end_rounded
               (PageFlags.or PageFlags.Writable PageFlags.NoExecute) in
  if negb ok then ret false else
  ret true.

(** [regions] is a pointer ([None] is null) with its count; [out] is the
    caller's variable, returned with the result. *)
Definition build_kernel_address_space (out : AddressSpace)
    (regions : option (list Pmm.MemoryRegion)) (hhdm_offset : Z) (layout : KernelLayout)
    : M (bool * AddressSpace) :=
  match regions with
  | None => ret (false, out)
  | Some regions =>
      if (Z.of_nat (length regions) =? 0) then ret (false, out) else
      if negb (Z.land hhdm_offset (kLargePageSize - 1) =? 0) then ret (false, out) else
      Msr.enable_nx ;;
      let! created := create_address_space in
      match created with
      | None => ret (false, out)
      | Some out =>
          let highest := highest_end regions 0 in
          if highest =? 0 then ret (false, out) else
          let highest := align_up highest kLargePageSize in
          let! ok := map_range_large out hhdm_offset 0 highest
                       (PageFlags.or PageFlags.Writable PageFlags.NoExecute) in
          if negb ok then ret (false, out) else
          let! ok := map_image out layout in
          ret (ok, out)
      end
  end.

End WithDevice.
End Vmm.
