(* ===== verification/Boot.v ===== *)
(** The kernel's entry point, src/src/main.cpp: the checks on what the boot
    loader delivered, the start of the memory managers, the switch to the
    kernel's own address space, the drawing of the framebuffer and the
    intentional page fault that ends the run.

    The responses of the boot loader, the symbols of the linker script and the
    registers at the moment of the fault are arguments. *)

From Stdlib Require Import ZArith Lia Ascii String.
From stdpp Require Import base numbers list gmap.
From S2P Require Import Prelude Descriptors Machine Serial Print Console Cpu Pmm Paging Mmu Vmm.
Local Open Scope Z_scope.

Module Boot.
Import Interrupts.

(** ** What the boot loader and the linker deliver *)

Record limine_framebuffer := mk_fb {
  fb_address : Z;
  fb_width : Z;
  fb_height : Z;
  fb_pitch : Z
}.

Record limine_memmap_entry := mk_entry {
  me_base : Z;
  me_length : Z;
  me_type : Z
}.

(** A response that did not come is [None]. *)
Record Limine := {
  base_revision_supported : bool;
  framebuffer_response : option (list limine_framebuffer);
  memmap_response : option (list limine_memmap_entry);
  hhdm_response : option Z;
  kernel_address_response : option (Z * Z)
}.

Record Symbols := {
  sym_text_start : Z;
  sym_text_end : Z;
  sym_rodata_start : Z;
  sym_rodata_end : Z;
  sym_data_start : Z;
  sym_data_end : Z;
  sym_requests_start : Z;
  sym_gdt : Z;
  sym_idt : Z;
  sym_isr_stub_table : Z → Z
}.

(** The state of the CPU when it faults. *)
Record FaultContext := {
  ctx_registers : registers;
  ctx_rip : Z;
  ctx_rflags : Z;
  ctx_rsp : Z
}.

(** ** The memory map *)

(** The [switch] on the type of an entry. *)
Definition region_type (type : Z) : option Pmm.RegionType :=
  match type with
  | 0 => Some Pmm.Usable
  | 1 => Some Pmm.Reserved
  | 2 => Some Pmm.AcpiReclaimable
  | 3 => Some Pmm.AcpiNvs
  | 4 => Some Pmm.Bad
  | 5 => Some Pmm.BootloaderReclaimable
  | 6 => Some Pmm.KernelAndModules
  | 7 => Some Pmm.Framebuffer
  | _ => None
  end.

(** The loop that looks for the kernel's own memory. *)
Fixpoint kernel_base_valid (regions : list Pmm.MemoryRegion) (kernel_physical_base : Z) : bool :=
  match regions with
  | [] => false
  | region :: rest =>
      if decide (Pmm.type region = Pmm.KernelAndModules) then
        let region_end := (Pmm.base region + Pmm.length region)%u64 in
        if (Pmm.base region <=? kernel_physical_base) && (kernel_physical_base <? region_end)
        then true
        else kernel_base_valid rest kernel_physical_base
      else kernel_base_valid rest kernel_physical_base
  end.

Section WithDevice.
Context {PD : PortDevice}.

Definition hcf {A} : M A := halt.

(** A fatal error: say so and stop. *)
Definition fatal {A} (message : string) : M A :=
  Print.kprintf (Some (line message)) [] ;; hcf.

Fixpoint translate_entries (entries : list limine_memmap_entry) : M (list Pmm.MemoryRegion) :=
  match entries with
  | [] => ret []
  | e :: rest =>
      match region_type (me_type e) with
      | None =>
          Print.kprintf (Some (line "fatal: unknown memory map type: %lu")) [va_int (me_type e)] ;;
          hcf
      | Some type =>
          let! regions := translate_entries rest in
          ret (Pmm.mk_region (me_base e) (me_length e) type :: regions)
      end
  end.

Definition translate_memmap (entries : list limine_memmap_entry) : M (list Pmm.MemoryRegion) :=
  if 64 <? Z.of_nat (List.length entries) then fatal "fatal: memory map has too many entries"
  else translate_entries entries.

(** ** Start *)

Definition start_console (syms : Symbols) : M unit :=
  Cpu.gdt_init (sym_gdt syms) ;;
  Cpu.idt_init (sym_isr_stub_table syms) (sym_idt syms) ;;
  let! _ := Serial.init 115200 in
  Print.set_sink (Some serial_putc) ;;
  Serial.write (Some (line "WaterBuffalo booting")).

(** The checks on the responses, in order. *)
Definition check_responses (info : Limine)
    : M (limine_framebuffer * list limine_memmap_entry * Z * (Z * Z)) :=
  if negb (base_revision_supported info) then fatal "fatal: bootloader rejected base revision" else
  match framebuffer_response info with
  | None | Some [] => fatal "fatal: no framebuffer from bootloader"
  | Some (framebuffer :: _) =>
      Serial.write (Some (line "framebuffer acquired")) ;;
      match memmap_response info with
      | None => fatal "fatal: no memory map from bootloader"
      | Some entries =>
          match hhdm_response info with
          | None => fatal "fatal: no HHDM response from bootloader"
          | Some hhdm_offset =>
              match kernel_address_response info with
              | None => fatal "fatal: no kernel address response from bootloader"
              | Some kernel_address => ret (framebuffer, entries, hhdm_offset, kernel_address)
              end
          end
      end
  end.

(** The lambda that takes an address of the image to physical memory. *)
Definition virtual_to_physical (layout : Vmm.KernelLayout) (address : Z) : Z :=
  (address - Vmm.virtual_base layout + Vmm.physical_base layout)%u64.

Definition kernel_layout (syms : Symbols) (kernel_virtual_base kernel_physical_base : Z)
    : Vmm.KernelLayout := {|
  Vmm.virtual_base := kernel_virtual_base;
  Vmm.physical_base := kernel_physical_base;
  Vmm.image_start := sym_requests_start syms;
  Vmm.text_start := sym_text_start syms;
  Vmm.rodata_start := sym_rodata_start syms;
  Vmm.data_start := sym_data_start syms;
  Vmm.data_end := sym_data_end syms
|}.

Definition print_segment (name : string) (layout : Vmm.KernelLayout) (first last : Z) : M unit :=
  Print.kprintf (Some (line (name ++ " virt=%p-%p size=%lu phys=%p-%p")))
    [va_int first; va_int last; va_int (last - first)%u64;
     va_int (virtual_to_physical layout first); va_int (virtual_to_physical layout last)].

Definition print_segments (syms : Symbols) (layout : Vmm.KernelLayout) : M unit :=
  print_segment ".text:  " layout (sym_text_start syms) (sym_text_end syms) ;;
  print_segment ".rodata:" layout (sym_rodata_start syms) (sym_rodata_end syms) ;;
  print_segment ".data:  " layout (sym_data_start syms) (sym_data_end syms).

(** ** The switch *)

(** One line of the printed check: what an address translates to. *)
Definition print_translation (space : Vmm.AddressSpace) (name : string) (address expected : Z) : M unit :=
  let! physical := Vmm.translate space address in
  Print.kprintf (Some (line (name ++ "%p -> %p (expect %p)")))
    [va_int address; va_int physical; va_int expected].

Definition print_translations (space : Vmm.AddressSpace) (layout : Vmm.KernelLayout)
    (framebuffer : limine_framebuffer) (hhdm_offset : Z) : M unit :=
  Print.kprintf (Some (line "pml4 physical:   %p")) [va_int (Vmm.pml4_physical space)] ;;
  let! physical := Vmm.translate space (hhdm_offset + 0x1000)%u64 in
  Print.kprintf (Some (line "direct map:      %p -> %p (expect 0x1000)"))
    [va_int (hhdm_offset + 0x1000)%u64; va_int physical] ;;
  print_translation space "framebuffer:     " (fb_address framebuffer)
    (fb_address framebuffer - hhdm_offset)%u64 ;;
  print_translation space "image:           " (Vmm.image_start layout)
    (virtual_to_physical layout (Vmm.image_start layout)) ;;
  print_translation space ".text:           " (Vmm.text_start layout)
    (virtual_to_physical layout (Vmm.text_start layout)) ;;
  print_translation space ".data:           " (Vmm.data_start layout)
    (virtual_to_physical layout (Vmm.data_start layout)).

(** The pixel at [(x, y)]: [(nY << 8) | nX] in 32 bits. *)
Definition pixel (framebuffer : limine_framebuffer) (x y : Z) : Z :=
  let nX := u32 (x * 255 / fb_width framebuffer)%u64 in
  let nY := u32 (y * 255 / fb_height framebuffer)%u64 in
  Z.lor (u32 (Z.shiftl nY 8)) nX.

Definition pixel_address (framebuffer : limine_framebuffer) (x y : Z) : Z :=
  (fb_address framebuffer + 4 * (y * (fb_pitch framebuffer / 4) + x))%u64.

Definition draw_framebuffer (framebuffer : limine_framebuffer) : M unit :=
  for_each 0 (fb_height framebuffer) 1 (λ y,
    for_each 0 (fb_width framebuffer) 1 (λ x,
      store32 (pixel_address framebuffer x y) (pixel framebuffer x y))).

Definition set_cr2 (v : Z) (c : cpu_state) : cpu_state :=
  mk_cpu v (cr3 c) (msrs c) (gdtr c) (idtr c)
    (seg_cs c) (seg_ds c) (seg_es c) (seg_fs c) (seg_gs c) (seg_ss c).

(** [*p = 1] through a null pointer.  When the tables in force do not map the
    page the processor raises exception 14 for a write to a page that is not
    present, through its gate; a null page that is mapped has no meaning in
    C++. *)
Definition write_null (ctx : FaultContext) : M unit :=
  let! s := gets id in
  match hw_access s (cr3 (cpu s)) 0 with
  | Some _ => fault
  | None =>
      Cpu.on_cpu (set_cr2 0) ;;
      let stack := [2; ctx_rip ctx; seg_cs (cpu s); ctx_rflags ctx; ctx_rsp ctx; seg_ss (cpu s)] in
      match frame_at (isr_common_push (ctx_registers ctx) (isr_stub 14 stack)) with
      | Some frame => isr_handler frame
      | None => fault
      end
  end.

(** ** The sections of [kmain] *)

(** The bases the boot loader reports, and the check that the physical one lies
    in the kernel's memory. *)
Definition verify_base (regions : list Pmm.MemoryRegion) (kernel_virtual_base kernel_physical_base : Z)
    : M unit :=
  Print.kprintf (Some (line "kernel virtual base:  %p")) [va_int kernel_virtual_base] ;;
  Print.kprintf (Some (line "kernel physical base: %p")) [va_int kernel_physical_base] ;;
  if negb (kernel_base_valid regions kernel_physical_base) then
    fatal "fatal: kernel physical base is not inside KERNEL_AND_MODULES region"
  else
  Print.kprintf (Some (line "kernel physical base verified")) [].

(** The address space is built, or the kernel stops. *)
Definition build_space (space : Vmm.AddressSpace) (regions : list Pmm.MemoryRegion) (hhdm_offset : Z)
    (layout : Vmm.KernelLayout) : M Vmm.AddressSpace :=
  let! (built, space) :=
    Vmm.build_kernel_address_space space (Some regions) hhdm_offset layout in
  if negb built then fatal "FATAL: failed to build kernel address space" else ret space.

(** From the printed check of the new space to the end. *)
Definition run_kernel (space : Vmm.AddressSpace) (layout : Vmm.KernelLayout)
    (framebuffer : limine_framebuffer) (hhdm_offset : Z) (ctx : FaultContext) : M unit :=
  print_translations space layout framebuffer hhdm_offset ;;
  Print.kprintf (Some (line "loading cr3...")) [] ;;
  Vmm.load_address_space space ;;
  Print.kprintf (Some (line "cr3 loaded")) [] ;;
  draw_framebuffer framebuffer ;;
  Serial.write (Some (line "done")) ;;
  write_null ctx ;;
  hcf.

Definition kmain (syms : Symbols) (info : Limine) (ctx : FaultContext) (space : Vmm.AddressSpace)
    : M unit :=
  start_console syms ;;
  let! (framebuffer, entries, hhdm_offset, (kernel_virtual_base, kernel_physical_base)) :=
    check_responses info in
  let! regions := translate_memmap entries in
  verify_base regions kernel_virtual_base kernel_physical_base ;;
  let layout := kernel_layout syms kernel_virtual_base kernel_physical_base in
  print_segments syms layout ;;
  Pmm.init regions hhdm_offset ;;
  let! space := build_space space regions hhdm_offset layout in
  run_kernel space layout framebuffer hhdm_offset ctx.

End WithDevice.
End Boot.
