(* ===== verification/TypeSafety.v ===== *)
(** Types: every value the kernel keeps stays within the width of the C++
    object or the register that holds it.

    The model computes in [Z] and wraps where C++ wraps; [well_typed] says that
    what is stored is what the declared type can hold, and every operation is
    shown to end and to keep it so however it ends: returning, stopping the CPU
    or faulting. *)

From Stdlib Require Import ZArith Lia Ascii String.
From stdpp Require Import base numbers list gmap.
From S2P Require Import Prelude Descriptors Machine Serial Print Console Cpu Pmm Paging Mmu Vmm Boot.
Import Boot Interrupts.
Local Open Scope Z_scope.

(** ** Widths *)

Definition is_u8 (x : Z) : Prop := 0 <= x < 256.
Definition is_u16 (x : Z) : Prop := 0 <= x < 65536.
Definition is_u32 (x : Z) : Prop := 0 <= x < 4294967296.

Definition pmm_typed (p : pmm_state) : Prop :=
  is_u64 (bitmap p) ∧ is_u64 (bitmap_phys p) ∧ is_u64 (bitmap_words p) ∧ is_u64 (bitmap_bytes p) ∧
  is_u64 (frame_count p) ∧ is_u64 (free_frame_count p) ∧ is_u64 (g_hhdm_offset p).

Definition entry_typed (e : Idt.Entry) : Prop :=
  is_u16 (Idt.offset_low e) ∧ is_u16 (Idt.selector e) ∧ is_u8 (Idt.ist e) ∧ is_u8 (Idt.type_attr e) ∧
  is_u16 (Idt.offset_mid e) ∧ is_u32 (Idt.offset_high e) ∧ is_u32 (Idt.zero e).

Record cpu_typed (c : cpu_state) : Prop := {
  ty_cr2 : is_u64 (cr2 c);
  ty_cr3 : is_u64 (cr3 c);
  ty_msrs : map_Forall (λ _ v, is_u64 v) (msrs c);
  ty_gdtr : is_u16 (Gdt.gp_limit (gdtr c)) ∧ is_u64 (Gdt.gp_base (gdtr c));
  ty_idtr : is_u16 (Idt.limit (idtr c)) ∧ is_u64 (Idt.base (idtr c));
  ty_segments : Forall is_u16 [seg_cs c; seg_ds c; seg_es c; seg_fs c; seg_gs c; seg_ss c]
}.

Record well_typed `{PD : PortDevice} (s : machine) : Prop := {
  ty_cells : map_Forall (λ _ v, is_u64 v) (cells s);
  ty_pmm : pmm_typed (pmm s);
  ty_cpu : cpu_typed (cpu s);
  ty_idt : List.length (idt_table s) = 256%nat ∧ Forall entry_typed (idt_table s);
  ty_video : map_Forall (λ _ v, is_u32 v) (video s)
}.

Definition region_typed (r : Pmm.MemoryRegion) : Prop := is_u64 (Pmm.base r) ∧ is_u64 (Pmm.length r).
Definition space_typed (sp : Vmm.AddressSpace) : Prop :=
  is_u64 (Vmm.pml4 sp) ∧ is_u64 (Vmm.pml4_physical sp).

Abbreviation typed := (keeps well_typed).

Create HintDb typed.
#[export] Hint Resolve u64_range lor_is_u64 land_is_u64_l : typed.

Lemma div_is_u64 x y : is_u64 x → 0 < y → is_u64 (x / y).
Proof. unfold is_u64. intros. split; [apply Z.div_pos; lia |]. apply Z.div_lt_upper_bound; nia. Qed.

Lemma mask_is_u64 x y : is_u64 y → is_u64 (Z.land x y).
Proof. intros Hy. rewrite Z.land_comm. by apply land_is_u64_l. Qed.

Section WithDevice.
Context {PD : PortDevice}.
Implicit Types s : machine.

(** ** Primitive steps *)

(** A computation that touches devices and the console alone. *)
Lemma typed_console {A} (m : M A) (R : machine → machine → Prop) (T : A → Prop) :
  (∀ s s', R s s' → cells s' = cells s ∧ pmm s' = pmm s ∧ cpu s' = cpu s ∧
     idt_table s' = idt_table s ∧ video s' = video s) →
  (∀ s, wp m (λ a s', R s s' ∧ T a) s) → typed m T.
Proof.
  intros HR Hm s [H1 H2 H3 H4 H5]. destruct (wp_inv _ _ _ (Hm s)) as (a & s' & E & Hs & Ha).
  rewrite E. split; [| done].
  destruct (HR s s' Hs) as (E1 & E2 & E3 & E4 & E5). split; by rewrite ?E1, ?E2, ?E3, ?E4, ?E5.
Qed.

Lemma typed_kprintf format ap : Print.format_ok format ap = true →
  typed (Print.kprintf (Some format) ap) (λ _, True).
Proof.
  intros Hf. apply (typed_console _ Serial.only_device).
  - intros s s' ->. done.
  - intros s. by apply Print.wp_kprintf.
Qed.

Lemma typed_write str : typed (Serial.write (Some str)) (λ _, True).
Proof.
  apply (typed_console _ Serial.only_device); [by intros s s' -> |]. intros s. by apply Serial.wp_write.
Qed.

Lemma typed_serial_init : typed (Serial.init 115200) (λ _, True).
Proof.
  apply (typed_console _ Serial.only_serial); [by intros s s' (b & d & ->) |]. intros s.
  eapply wp_mono; [apply Serial.wp_init; lia |]. by intros ok s' [_ H].
Qed.

Lemma typed_load64 a : typed (load64 a) is_u64.
Proof.
  apply keeps_load64. intros s Hs. unfold cell. destruct (cells s !! a) as [v |] eqn:E; [| by unfold is_u64].
  by apply (ty_cells _ Hs a).
Qed.

Lemma typed_store64 a v : is_u64 v → typed (store64 a v) (λ _, True).
Proof.
  intros Hv. apply keeps_store64; [| done]. intros s [H1 H2 H3 H4 H5]. split; try done.
  by apply map_Forall_insert_2.
Qed.

Lemma typed_on_pmm f : (∀ p, pmm_typed p → pmm_typed (f p)) → typed (Pmm.on_pmm f) (λ _, True).
Proof. intros Hf. apply keeps_modify; [| done]. intros s [H1 H2 H3 H4 H5]. split; try done. by apply Hf. Qed.

Lemma typed_on_cpu f : (∀ c, cpu_typed c → cpu_typed (f c)) → typed (Cpu.on_cpu f) (λ _, True).
Proof. intros Hf. apply keeps_modify; [| done]. intros s [H1 H2 H3 H4 H5]. split; try done. by apply Hf. Qed.

Lemma typed_gets {A} (f : machine → A) : typed (gets f) (λ _, True).
Proof. by apply keeps_gets. Qed.

Lemma typed_ret {A} (a : A) : typed (ret a) (λ _, True).
Proof. by apply keeps_ret. Qed.

Lemma typed_halt {A} (T : A → Prop) : typed halt T.
Proof. apply keeps_halt. Qed.

Lemma typed_for_each lo hi (body : Z → M unit) : is_u64 lo → is_u64 hi →
  (∀ i, is_u64 i → typed (body i) (λ _, True)) → typed (for_each lo hi 1 body) (λ _, True).
Proof. intros Hlo Hhi Hb. by apply keeps_for_each. Qed.

Lemma typed_bitmap_words : typed (gets (λ s, bitmap_words (pmm s))) is_u64.
Proof. apply keeps_gets. intros s Hs. apply (ty_pmm _ Hs). Qed.

End WithDevice.

#[export] Hint Resolve typed_write typed_serial_init typed_load64 typed_ret typed_halt typed_gets : typed.
#[export] Hint Resolve typed_store64 div_is_u64 : typed.

(** Follows the shape of a computation; the facts about widths are left to the
    hints. *)
Ltac typing :=
  repeat first
  [ progress cbv zeta
  | lazymatch goal with
    | |- keeps _ (bind _ _) _ => eapply keeps_bind; [solve [eauto with typed | apply typed_kprintf; done] | intros ? ?]
    | |- keeps _ (if ?b then _ else _) _ => destruct b
    | |- keeps _ (Print.kprintf _ _) _ => apply typed_kprintf; done
    | |- keeps _ (ret _) (λ _, True) => apply typed_ret
    | |- keeps _ _ _ => solve [eauto with typed]
    end ].

Section Allocator.
Context {PD : PortDevice}.

Lemma typed_set_frame_used f : typed (Pmm.set_frame_used f) (λ _, True).
Proof. unfold Pmm.set_frame_used. typing. Qed.
Lemma typed_set_frame_free f : typed (Pmm.set_frame_free f) (λ _, True).
Proof. unfold Pmm.set_frame_free. typing. Qed.
Lemma typed_incr_free : typed Pmm.incr_free (λ _, True).
Proof. apply typed_on_pmm. intros p (? & ? & ? & ? & ? & ? & ?). by split_and!; [.. | apply u64_range |]. Qed.
Lemma typed_decr_free : typed Pmm.decr_free (λ _, True).
Proof. apply typed_on_pmm. intros p (? & ? & ? & ? & ? & ? & ?). by split_and!; [.. | apply u64_range |]. Qed.

#[local] Hint Resolve typed_set_frame_used typed_set_frame_free typed_incr_free typed_decr_free : typed.

Lemma typed_physical_to_virtual a : typed (Pmm.physical_to_virtual a) is_u64.
Proof. apply keeps_gets. intros s _. apply u64_range. Qed.

Lemma typed_alloc_frame : typed Pmm.alloc_frame is_u64.
Proof.
  unfold Pmm.alloc_frame. eapply keeps_bind; [apply typed_bitmap_words | intros words Hw].
  eapply keeps_bind; [apply (keeps_for_range _ is_u64); [done | by unfold is_u64 | done | apply Z.mod_1_r |] |].
  - intros i _. typing; apply keeps_ret; [done | done |]. intros v [= <-]. apply u64_range.
  - intros [a |] Ha; apply keeps_ret; [by apply Ha | by unfold is_u64].
Qed.

Lemma typed_free_frame a : typed (Pmm.free_frame a) (λ _, True).
Proof. unfold Pmm.free_frame. typing. Qed.

Lemma typed_scan_map regions : ∀ highest bytes, is_u64 highest → is_u64 bytes →
  typed (Pmm.scan_map regions highest bytes) (λ r, is_u64 r.1 ∧ is_u64 r.2).
Proof.
  induction regions as [| r rest IH]; intros highest bytes Hh Hb; cbn [Pmm.scan_map].
  - by apply keeps_ret.
  - eapply keeps_bind; [by apply typed_kprintf | intros _ _].
    case_decide; [| by apply IH]. apply IH; [case_match; [apply u64_range | done] | apply u64_range].
Qed.

Lemma find_bitmap_typed regions pages phys : Forall region_typed regions →
  Pmm.find_bitmap regions pages = Some phys → is_u64 phys.
Proof.
  induction 1 as [| r rest [Hr _] _ IH]; simpl; [done |]. case_decide; [| done]. case_match; [| done].
  by intros [= <-].
Qed.

Lemma typed_mark_all_used : typed Pmm.mark_all_used (λ _, True).
Proof.
  unfold Pmm.mark_all_used. eapply keeps_bind; [apply typed_bitmap_words | intros words Hw].
  apply typed_for_each; [by unfold is_u64 | done |]. intros i _. typing.
  apply typed_store64. by unfold is_u64, UINT64_MAX.
Qed.

Lemma typed_mark_usable_free regions : typed (Pmm.mark_usable_free regions) (λ _, True).
Proof.
  induction regions as [| r rest IH]; cbn [Pmm.mark_usable_free]; [typing |].
  eapply keeps_bind; [| intros _ _; exact IH]. case_decide; [| typing].
  apply typed_for_each; [apply div_is_u64; [apply u64_range | done].. |]. intros i _. typing.
Qed.

Lemma typed_mark_bitmap_used pages : typed (Pmm.mark_bitmap_used pages) (λ _, True).
Proof.
  unfold Pmm.mark_bitmap_used. eapply keeps_bind.
  - apply (keeps_gets _ _ is_u64). intros s Hs. apply (ty_pmm _ Hs).
  - intros phys Hp. apply typed_for_each; [by apply div_is_u64 | apply u64_range |]. intros i _. typing.
    eapply (keeps_bind _ _ _ (λ _, True)); [| intros _ _; typing]. case_match; typing.
Qed.
#[local] Hint Resolve typed_mark_all_used typed_mark_usable_free typed_mark_bitmap_used : typed.

Lemma typed_pmm_init regions h : Forall region_typed regions → is_u64 h →
  typed (Pmm.init regions h) (λ _, True).
Proof.
  intros Hr Hh. unfold Pmm.init, Pmm.report_free.
  eapply keeps_bind; [apply typed_on_pmm; intros p (?&?&?&?&?&?&?); by split_and! | intros _ _].
  eapply keeps_bind; [by apply typed_kprintf | intros _ _].
  eapply keeps_bind; [apply typed_scan_map; by unfold is_u64 | intros [highest bytes] [H1 H2]].
  eapply keeps_bind; [by apply typed_kprintf | intros _ _]. case_match; [typing |]. cbv zeta.
  eapply keeps_bind; [apply typed_on_pmm; intros p (?&?&?&?&?&?&?); split_and!; simpl; auto with typed | intros _ _].
  { apply div_is_u64; [apply u64_range | done]. }
  { apply div_is_u64; [apply u64_range | done]. }
  case_match eqn:Hf; [| typing]. apply find_bitmap_typed in Hf; [| done].
  do 2 (eapply keeps_bind; [apply typed_on_pmm; intros p (?&?&?&?&?&?&?); split_and!; simpl; auto with typed
    | intros _ _]).
  typing. eapply keeps_bind; [apply typed_on_pmm; intros p (?&?&?&?&?&?&?); by split_and! | intros _ _].
  typing.
Qed.

End Allocator.

#[export] Hint Resolve typed_physical_to_virtual typed_alloc_frame : typed.

Section Paging.
Context {PD : PortDevice}.

Lemma make_page_entry_typed p f : is_u64 f → is_u64 (make_page_entry p f).
Proof. intros Hf. apply lor_is_u64; [| done]. apply mask_is_u64. by unfold is_u64. Qed.

Lemma intermediate_flags_typed f : is_u64 (Vmm.intermediate_flags f).
Proof. unfold Vmm.intermediate_flags. case_match; by unfold is_u64. Qed.

Definition table_typed (t : option Vmm.AllocatedTable) : Prop :=
  ∀ x, t = Some x → is_u64 (Vmm.physical x) ∧ is_u64 (Vmm.virtual_address x).

Lemma typed_allocate_table : typed Vmm.allocate_table table_typed.
Proof.
  unfold Vmm.allocate_table. eapply keeps_bind; [apply typed_alloc_frame | intros p Hp].
  case_match; [by apply keeps_ret |]. eapply keeps_bind; [apply typed_physical_to_virtual | intros v Hv].
  eapply keeps_bind; [apply typed_for_each; [by unfold is_u64.. | intros i _; apply typed_store64; by unfold is_u64] |].
  intros _ _. apply keeps_ret. by intros x [= <-].
Qed.

Lemma typed_ensure_table entry f : is_u64 f → typed (Vmm.ensure_table entry f) is_u64.
Proof.
  intros Hf. assert (is_u64 0) by (by unfold is_u64). unfold Vmm.ensure_table. cbv zeta.
  eapply keeps_bind; [apply typed_load64 | intros e He]. case_match; [by apply keeps_ret |].
  case_match.
  - eapply keeps_bind; [apply typed_allocate_table | intros [t |] Ht]; [| by apply keeps_ret].
    eapply keeps_bind; [by apply typed_store64, make_page_entry_typed | intros _ _].
    apply keeps_ret. by apply Ht.
  - eapply keeps_bind; [by apply typed_store64, lor_is_u64 | intros _ _]. typing.
Qed.
#[local] Hint Resolve typed_ensure_table intermediate_flags_typed make_page_entry_typed : typed.

Lemma or_flags_typed f g : is_u64 f → is_u64 g → is_u64 (PageFlags.or f g).
Proof. apply lor_is_u64. Qed.

Lemma typed_map_page pml4 virt phys flags : is_u64 flags →
  typed (Vmm.map_page pml4 virt phys flags) (λ _, True).
Proof.
  intros Hf. assert (is_u64 (PageFlags.or flags PageFlags.Present))
    by (apply or_flags_typed; by unfold is_u64).
  unfold Vmm.map_page. typing.
Qed.

Lemma typed_map_page_large pml4 virt phys flags : is_u64 flags →
  typed (Vmm.map_page_large pml4 virt phys flags) (λ _, True).
Proof.
  intros Hf. assert (is_u64 (PageFlags.or (PageFlags.or flags PageFlags.Present) PageFlags.Huge))
    by (repeat apply or_flags_typed; by unfold is_u64).
  unfold Vmm.map_page_large. typing.
Qed.

(** The guard on the size makes the loop's steps meet its bound. *)
Lemma page_mask_mod k n : 0 <= k → negb (Z.land n (2 ^ k - 1) =? 0) = false → n mod 2 ^ k = 0.
Proof. intros Hk H%negb_false_iff%Z.eqb_eq. by rewrite land_low_mask in H. Qed.

Lemma typed_map_range space virt phys size flags : is_u64 size → is_u64 flags →
  typed (Vmm.map_range space virt phys size flags) (λ _, True).
Proof.
  intros Hn Hf. unfold Vmm.map_range. do 4 (case_match; [typing |]).
  case_match eqn:Hm; [typing |]. apply (page_mask_mod 12) in Hm; [| done]. do 4 (case_match; [typing |]).
  eapply keeps_bind; [apply (keeps_for_range _ (λ _, True)); [done | by unfold is_u64 | done | by rewrite Z.sub_0_r |] |].
  - intros i _. eapply keeps_bind; [by apply typed_map_page | intros b _]. case_match; by apply keeps_ret.
  - intros [b |] _; typing.
Qed.

Lemma typed_map_range_large space virt phys size flags : is_u64 size → is_u64 flags →
  typed (Vmm.map_range_large space virt phys size flags) (λ _, True).
Proof.
  intros Hn Hf. unfold Vmm.map_range_large. cbv zeta. do 4 (case_match; [typing |]).
  case_match eqn:Hm; [typing |]. apply (page_mask_mod 21) in Hm; [| done]. do 4 (case_match; [typing |]).
  eapply keeps_bind; [apply (keeps_for_range _ (λ _, True)); [done | by unfold is_u64 | done | by rewrite Z.sub_0_r |] |].
  - intros i _. eapply keeps_bind; [by apply typed_map_page_large | intros b _]. case_match; by apply keeps_ret.
  - intros [b |] _; typing.
Qed.

Lemma typed_translate space virt : typed (Vmm.translate space virt) is_u64.
Proof.
  assert (is_u64 0) by (by unfold is_u64).
  assert (∀ e m, is_u64 m → is_u64 (Z.lor (page_entry_address e) (Z.land virt m))) as Hl.
  { intros e m Hm. apply lor_is_u64; apply mask_is_u64; [by unfold is_u64 | done]. }
  unfold Vmm.translate. typing; apply keeps_ret; try done; apply Hl; by unfold is_u64.
Qed.

Lemma typed_create_address_space :
  typed Vmm.create_address_space (λ r, ∀ sp, r = Some sp → space_typed sp).
Proof.
  unfold Vmm.create_address_space. eapply keeps_bind; [apply typed_allocate_table | intros [t |] Ht].
  - apply keeps_ret. intros sp [= <-]. by destruct (Ht t).
  - by apply keeps_ret.
Qed.

Lemma cpu_set_msr m v c : is_u64 v → cpu_typed c → cpu_typed (Msr.set_msr m v c).
Proof. intros Hv [H1 H2 H3 H4 H5 H6]. split; try done. by apply map_Forall_insert_2. Qed.

Lemma typed_enable_nx : typed Msr.enable_nx (λ _, True).
Proof.
  unfold Msr.enable_nx, Msr.read_msr, Msr.rdmsr, Msr.write_msr, Msr.wrmsr.
  eapply keeps_bind; [eapply keeps_bind; [apply typed_gets | intros [lo hi] _; apply typed_ret] | intros e _].
  case_match; [| typing]. apply typed_on_cpu. intros c. apply cpu_set_msr.
  unfold u32, is_u64. rewrite Z.shiftl_mul_pow2 by lia. change (2 ^ 32) with 4294967296.
  pose proof (Z.mod_pos_bound (Z.shiftr (Z.lor e Msr.kEferNxe) 32) 4294967296).
  pose proof (Z.mod_pos_bound (Z.lor e Msr.kEferNxe) 4294967296). lia.
Qed.

Lemma typed_map_image space L : typed (Vmm.map_image space L) (λ _, True).
Proof.
  unfold Vmm.map_image, Vmm.map_segment. cbv zeta.
  do 4 (eapply keeps_bind; [apply typed_map_range; [apply u64_range | by unfold is_u64] | intros ? _]; case_match; [typing |]).
  typing.
Qed.

Lemma typed_build out regions h L : space_typed out →
  typed (Vmm.build_kernel_address_space out regions h L) (λ r, space_typed r.2).
Proof.
  intros Ho. unfold Vmm.build_kernel_address_space. destruct regions as [regions |]; [| by apply keeps_ret].
  do 2 (case_match; [by apply keeps_ret |]). eapply keeps_bind; [apply typed_enable_nx | intros _ _].
  eapply keeps_bind; [apply typed_create_address_space | intros [sp |] Hsp]; [| by apply keeps_ret].
  specialize (Hsp sp eq_refl). cbv zeta. case_match; [by apply keeps_ret |].
  eapply keeps_bind; [apply typed_map_range_large; [apply mask_is_u64, u64_range | by unfold is_u64] | intros ok _].
  case_match; [by apply keeps_ret |]. eapply keeps_bind; [apply typed_map_image | intros ok' _].
  by apply keeps_ret.
Qed.

End Paging.

Section Cpu.
Context {PD : PortDevice}.

Lemma typed_mark_accessed sel : typed (Cpu.mark_accessed sel) (λ _, True).
Proof. apply keeps_modify; [| done]. by intros s [? ? ? ? ?]. Qed.

Lemma typed_gdt_init a : is_u64 a → typed (Cpu.gdt_init a) (λ _, True).
Proof.
  intros Ha. unfold Cpu.gdt_init.
  eapply keeps_bind; [apply typed_on_cpu; intros c [? ? ? ? ? ?]; by split | intros _ _].
  eapply keeps_bind; [apply typed_mark_accessed | intros _ _].
  eapply keeps_bind; [apply typed_on_cpu; intros c [? ? ? ? ? [_ Hs]%Forall_cons]; split; try done;
    by apply Forall_cons_2 | intros _ _].
  eapply keeps_bind; [apply typed_mark_accessed | intros _ _].
  apply typed_on_cpu. intros c [? ? ? ? ? [Hs _]%Forall_cons]. split; try done.
  - simpl. repeat apply map_Forall_insert_2; by unfold is_u64.
  - apply Forall_cons_2; [exact Hs |]. by repeat (apply Forall_cons_2; [by unfold is_u16 |]).
Qed.

Lemma make_entry_typed handler selector type_attr : is_u16 selector → is_u8 type_attr →
  entry_typed (Idt.make_entry handler selector 0 type_attr).
Proof.
  intros Hs Ht. unfold entry_typed. split; [by apply Z.mod_pos_bound |]. split; [exact Hs |].
  split; [by apply Z.mod_pos_bound |]. split; [exact Ht |].
  split; [by apply Z.mod_pos_bound |]. split; [by apply Z.mod_pos_bound | done].
Qed.

Lemma typed_set_gate i e : entry_typed e → typed (Cpu.set_gate i e) (λ _, True).
Proof.
  intros He. apply keeps_modify; [| done]. intros s [H1 H2 H3 [H4 H5] H6]. split; try done.
  split; [simpl; by rewrite length_insert |]. by apply Forall_insert.
Qed.

Lemma typed_idt_init stubs a : is_u64 a → typed (Cpu.idt_init stubs a) (λ _, True).
Proof.
  intros Ha. assert (is_u64 0) by (by unfold is_u64). unfold Cpu.idt_init.
  eapply keeps_bind; [apply typed_for_each; [done | by unfold is_u64 |]; intros i _; by apply typed_set_gate | intros _ _].
  eapply keeps_bind; [apply typed_for_each; [done | by unfold is_u64 |]; intros i _;
    by apply typed_set_gate, make_entry_typed | intros _ _].
  apply typed_on_cpu. intros c [? ? ? ? ? ?]. by split.
Qed.

(** The report reads the frame and CR2 and changes nothing that has a type. *)
Lemma typed_isr_handler f : typed (isr_handler f) (λ _, True).
Proof.
  unfold isr_handler. typing.
  eapply (keeps_bind _ _ _ (λ _, True)); [case_match; [| typing] |].
  - eapply keeps_bind; [apply typed_gets | intros ? _].
    eapply (keeps_bind _ _ _ (λ _, True)); [unfold fault_details; typing | intros ? _; typing].
  - intros c _. typing.
Qed.

End Cpu.

(** ** What the boot loader and the linker deliver *)

Definition fb_sized (fb : limine_framebuffer) : Prop := is_u64 (fb_width fb) ∧ is_u64 (fb_height fb).
Definition entry_sized (e : limine_memmap_entry) : Prop := is_u64 (me_base e) ∧ is_u64 (me_length e).

(** The integers of the responses are the 64-bit fields of the protocol. *)
Record limine_typed (info : Limine) : Prop := {
  lt_framebuffers : ∀ fbs, framebuffer_response info = Some fbs → Forall fb_sized fbs;
  lt_memmap : ∀ entries, memmap_response info = Some entries → Forall entry_sized entries;
  lt_hhdm : ∀ h, hhdm_response info = Some h → is_u64 h
}.

Definition symbols_typed (syms : Symbols) : Prop := is_u64 (sym_gdt syms) ∧ is_u64 (sym_idt syms).

Section Boot.
Context {PD : PortDevice}.

Lemma typed_fatal {A} message (T : A → Prop) : Print.format_ok (line message) [] = true →
  typed (fatal message) T.
Proof.
  intros Hf. eapply keeps_bind; [by apply typed_kprintf | intros _ _; apply typed_halt].
Qed.

Lemma typed_translate_entries entries : Forall entry_sized entries →
  typed (translate_entries entries) (Forall region_typed).
Proof.
  induction 1 as [| e rest He _ IH]; cbn [translate_entries]; [by apply keeps_ret |].
  case_match.
  - eapply keeps_bind; [exact IH | intros rs Hrs]. apply keeps_ret. by constructor.
  - eapply keeps_bind; [by apply typed_kprintf | intros _ _; apply typed_halt].
Qed.

Lemma typed_translate_memmap entries : Forall entry_sized entries →
  typed (translate_memmap entries) (Forall region_typed).
Proof.
  intros He. unfold translate_memmap. case_match; [by apply typed_fatal | by apply typed_translate_entries].
Qed.

Lemma typed_check_responses info : limine_typed info →
  typed (check_responses info) (λ '(fb, entries, h, _), fb_sized fb ∧ Forall entry_sized entries ∧ is_u64 h).
Proof.
  intros [Hfb Hm Hh]. unfold check_responses. case_match; [by apply typed_fatal |].
  destruct (framebuffer_response info) as [[| fb rest] |]; try by apply typed_fatal.
  eapply keeps_bind; [apply typed_write | intros _ _].
  destruct (memmap_response info); [| by apply typed_fatal].
  destruct (hhdm_response info); [| by apply typed_fatal].
  destruct (kernel_address_response info); [| by apply typed_fatal]. apply keeps_ret.
  split; [| auto]. by apply (Forall_inv (Hfb _ eq_refl)).
Qed.

Lemma typed_start_console syms : symbols_typed syms → typed (start_console syms) (λ _, True).
Proof.
  intros [Hg Hi]. unfold start_console. eapply keeps_bind; [by apply typed_gdt_init | intros _ _].
  eapply keeps_bind; [by apply typed_idt_init | intros _ _]. typing.
  eapply (keeps_bind _ _ _ (λ _, True)); [| intros _ _; typing].
  apply keeps_modify; [| done]. intros s [? ? ? ? ?]. by split.
Qed.

Lemma typed_print_translation space name a e :
  (∀ x y z, Print.format_ok (line (name ++ "%p -> %p (expect %p)")) [va_int x; va_int y; va_int z] = true) →
  typed (print_translation space name a e) (λ _, True).
Proof. intros Hf. eapply keeps_bind; [apply typed_translate | intros p _]. by apply typed_kprintf. Qed.

Lemma typed_print_translations space L fb h : typed (print_translations space L fb h) (λ _, True).
Proof.
  unfold print_translations. eapply keeps_bind; [by apply typed_kprintf | intros _ _].
  eapply keeps_bind; [apply typed_translate | intros p _].
  eapply keeps_bind; [by apply typed_kprintf | intros _ _].
  do 3 (eapply keeps_bind; [by apply typed_print_translation | intros _ _]).
  by apply typed_print_translation.
Qed.

Lemma pixel_typed fb x y : is_u32 (pixel fb x y).
Proof.
  unfold pixel. assert (∀ v, is_u32 (u32 v)) as Hu by (intros v; by apply Z.mod_pos_bound).
  set (a := u32 (Z.shiftl _ 8)). set (b := u32 (u64 (x * 255) / _)).
  assert (is_u32 a ∧ is_u32 b) as [Ha Hb] by (split; apply Hu). clearbody a b. unfold is_u32 in *.
  assert (∀ v, 0 <= v → v < 4294967296 ↔ Z.log2 v < 32) as Hl.
  { intros v Hv. change 4294967296 with (2 ^ 32). destruct (decide (v = 0)) as [-> |]; [done |].
    rewrite Z.log2_lt_pow2 by lia. done. }
  assert (0 <= Z.lor a b) by (apply Z.lor_nonneg; lia). split; [done |]. apply Hl; [done |].
  rewrite Z.log2_lor by lia. apply Z.max_lub_lt; apply Hl; lia.
Qed.

Lemma typed_draw fb : fb_sized fb → typed (draw_framebuffer fb) (λ _, True).
Proof.
  intros [Hw Hh]. assert (is_u64 0) by (by unfold is_u64). unfold draw_framebuffer.
  apply typed_for_each; [done | done |]. intros y _. apply typed_for_each; [done | done |]. intros x _.
  apply keeps_store32; [| done]. intros s [? ? ? ? ?]. split; try done.
  simpl. apply map_Forall_insert_2; [apply pixel_typed | done].
Qed.

Lemma typed_write_null ctx : typed (write_null ctx) (λ _, True).
Proof.
  unfold write_null. eapply keeps_bind; [apply typed_gets | intros s _].
  case_match; [apply keeps_fault |]. eapply keeps_bind.
  - apply typed_on_cpu. intros c [? ? ? ? ? ?]. split; try done.
  - intros _ _. cbv zeta. case_match; [apply typed_isr_handler | apply keeps_fault].
Qed.

Lemma typed_load_address_space space : space_typed space →
  typed (Vmm.load_address_space space) (λ _, True).
Proof.
  intros [_ Hp]. apply keeps_modify; [| done]. intros s [? ? [? ? ? ? ? ?] ? ?]. split; try done.
Qed.

Lemma typed_print_segments syms L : typed (print_segments syms L) (λ _, True).
Proof. unfold print_segments, print_segment. typing. Qed.

Lemma typed_verify_base regions vb pb : typed (verify_base regions vb pb) (λ _, True).
Proof.
  unfold verify_base. do 2 (eapply keeps_bind; [by apply typed_kprintf | intros _ _]).
  case_match; [by apply typed_fatal | by apply typed_kprintf].
Qed.

Lemma typed_build_space space regions h layout : Forall region_typed regions → is_u64 h →
  space_typed space → typed (build_space space regions h layout) space_typed.
Proof.
  intros Hr Hh Hsp. unfold build_space. eapply keeps_bind; [by apply typed_build | intros [built sp] Hsp'].
  case_match; [by apply typed_fatal | by apply keeps_ret].
Qed.

(** Nothing comes after the end of [kmain]. *)
Lemma typed_run_kernel space layout fb h ctx : space_typed space → fb_sized fb →
  typed (run_kernel space layout fb h ctx) (λ _, False).
Proof.
  intros Hsp Hfb. unfold run_kernel.
  eapply keeps_bind; [apply typed_print_translations | intros _ _].
  eapply keeps_bind; [by apply typed_kprintf | intros _ _].
  eapply keeps_bind; [by apply typed_load_address_space | intros _ _].
  eapply keeps_bind; [by apply typed_kprintf | intros _ _].
  eapply keeps_bind; [by apply typed_draw | intros _ _].
  eapply keeps_bind; [apply typed_write | intros _ _].
  eapply keeps_bind; [apply typed_write_null | intros _ _; apply typed_halt].
Qed.

Lemma typed_kmain syms info ctx space : symbols_typed syms → limine_typed info → space_typed space →
  typed (kmain syms info ctx space) (λ _, False).
Proof.
  intros Hs Hi Hsp. unfold kmain. eapply keeps_bind; [by apply typed_start_console | intros _ _].
  eapply keeps_bind; [by apply typed_check_responses | intros [[[fb entries] h] [vb pb]] (Hfb & He & Hh)].
  eapply keeps_bind; [by apply typed_translate_memmap | intros regions Hr].
  eapply keeps_bind; [apply typed_verify_base | intros _ _].
  cbv zeta. eapply keeps_bind; [apply typed_print_segments | intros _ _].
  eapply keeps_bind; [by apply typed_pmm_init | intros _ _].
  eapply keeps_bind; [by apply typed_build_space | intros sp Hsp'; by apply typed_run_kernel].
Qed.

End Boot.
