(* ===== verification/VmmInv.v ===== *)
(** The page-table invariant and what the table operations do to it.

    [tables s root T] describes the tables reachable from [root]: [T] labels
    each table with its level (4 for the PML4 down to 1) and with the bits of
    the virtual addresses it serves, so that a table serves one range only.
    [vm] adds the allocator: every table occupies a frame that is allocated,
    reachable and apart from the bitmap.  [walk] is the specification of a
    translation, one recursive step per level. *)

From Stdlib Require Import ZArith Lia.
From stdpp Require Import base numbers list gmap sets fin_sets.
From S2P Require Import Prelude Descriptors Machine Serial Print Pmm PmmInv PmmInit Paging Mmu Vmm.
Import Vmm.
Local Open Scope Z_scope.

(** ** Indices and prefixes *)

(** The bits of [v] above those a table of level [l] decodes. *)
Definition pre (l : nat) (v : Z) : Z := (v mod 2 ^ 48) / 2 ^ shift (S l).

Lemma lidx_range l v : 0 <= lidx l v < 512.
Proof. apply Z.mod_pos_bound. lia. Qed.

Lemma pre_root v : pre 4 v = 0.
Proof. unfold pre. change (shift 5) with 48. apply Z.div_small, Z.mod_pos_bound. lia. Qed.

Lemma pre_step l v : (l ≤ 3)%nat → pre l v = pre (S l) v * 512 + lidx (S l) v.
Proof.
  intros Hl. unfold pre, lidx.
  destruct l as [| [| [| [| l]]]]; [| | | | lia];
    cbv [shift]; simpl Z.of_nat; simpl Z.mul; simpl Z.add.
  all: repeat match goal with |- context [2 ^ ?n] =>
         let c := eval compute in (2 ^ n) in change (2 ^ n) with c end.
  all: dlia.
Qed.

Lemma decompose_lidx v :
  decompose_address v = mk_va (lidx 4 v) (lidx 3 v) (lidx 2 v) (lidx 1 v) (v mod 4096).
Proof. apply decompose_fields. Qed.

(** ** The flags of an entry, bit by bit *)

Lemma present_test e : (Z.land e PageFlags.Present =? 0) = negb (Z.testbit e 0).
Proof. by apply land_bit_eqb. Qed.
Lemma huge_test e : (Z.land e PageFlags.Huge =? 0) = negb (Z.testbit e 7).
Proof. by apply land_bit_eqb. Qed.
Lemma user_test e : (Z.land e PageFlags.User =? 0) = negb (Z.testbit e 2).
Proof. by apply land_bit_eqb. Qed.

Lemma intermediate_flags_cases flags :
  intermediate_flags flags = (if Z.testbit flags 2 then 7 else 3).
Proof. unfold intermediate_flags. rewrite user_test, negb_involutive. by destruct (Z.testbit _ _). Qed.

(** Flags an intermediate entry can carry. *)
Definition middle (m : Z) : Prop := m = 3 ∨ m = 7.

Lemma intermediate_flags_middle flags : middle (intermediate_flags flags).
Proof. rewrite intermediate_flags_cases. unfold middle. destruct (Z.testbit _ _); auto. Qed.

Lemma middle_flag_bits m : middle m → flag_bits m.
Proof. intros [-> | ->]; split; by unfold is_u64. Qed.

Lemma middle_bits m n : middle m → Z.testbit m 0 = true ∧ Z.testbit m 1 = true ∧
  (3 <= n → Z.testbit m n = false).
Proof.
  intros Hm. split_and!; [by destruct Hm as [-> | ->].. |]. intros Hn.
  rewrite <- (Z.mod_small m (2 ^ 3)) by (destruct Hm as [-> | ->]; done).
  apply Z.mod_pow2_bits_high. lia.
Qed.

Lemma page_address_low_bit p n : page_address p → 0 <= n < 12 → Z.testbit p n = false.
Proof.
  intros [_ Hm] Hn. rewrite <- (Z.mod_pow2_bits_low p 12) by lia.
  change (2 ^ 12) with 4096. by rewrite Hm, Z.testbit_0_l.
Qed.

Lemma page_address_high_bit p n : page_address p → 52 <= n → Z.testbit p n = false.
Proof.
  intros [Hp _] Hn. rewrite <- (Z.mod_small p (2 ^ 52)) by done.
  apply Z.mod_pow2_bits_high. lia.
Qed.

(** A flag bit of an entry comes from the flags alone. *)
Lemma make_page_entry_bit p flags n : page_address p → 0 <= n < 12 ∨ 52 <= n →
  Z.testbit (make_page_entry p flags) n = Z.testbit flags n.
Proof.
  intros Hp Hn. unfold make_page_entry. rewrite land_page_address, Z.lor_spec by done.
  destruct Hn; [rewrite page_address_low_bit by done | rewrite page_address_high_bit by done]; done.
Qed.

Lemma make_page_entry_u64 p flags : page_address p → is_u64 flags → is_u64 (make_page_entry p flags).
Proof.
  intros Hp Hf. apply lor_is_u64; [| done]. rewrite land_page_address by done.
  destruct Hp. unfold is_u64. lia.
Qed.

(** Adding intermediate flags to a present table entry. *)
Lemma lor_middle_address e m : middle m → page_entry_address (Z.lor e m) = page_entry_address e.
Proof.
  intros Hm%middle_flag_bits. unfold page_entry_address.
  by rewrite Z.land_lor_distr_l, (proj2 Hm), Z.lor_0_r.
Qed.

(** ** Specification of a translation *)

#[global] Arguments Z.testbit : simpl never.

Section WithDevice.
Context {PD : PortDevice}.
Implicit Types (s : machine) (F A : gset Z) (T : gmap Z (nat * Z)).

(** The leaf entry a virtual address reaches and its level: 1 for a 4 KiB
    page, 2 for 2 MiB, 3 for 1 GiB. *)
Fixpoint walk s (l : nat) (p v : Z) : option (nat * Z) :=
  match l with
  | O => None
  | S l' =>
      let e := ent s p (lidx l v) in
      if negb (Z.testbit e 0) then None
      else if (l =? 1)%nat then Some (1%nat, e)
      else if Z.testbit e 7 && (l <=? 3)%nat then Some (l, e)
      else walk s l' (page_entry_address e) v
  end.

(** Whether the slot of [v] at level [k] is occupied: the walk meets a leaf
    above it or finds its entry present. *)
Fixpoint slot_taken s (k l : nat) (p v : Z) : bool :=
  match l with
  | O => false
  | S l' =>
      let e := ent s p (lidx l v) in
      if negb (Z.testbit e 0) then false
      else if (l =? k)%nat || Z.testbit e 7 then true
      else slot_taken s k l' (page_entry_address e) v
  end.

(** The number of tables the path of [v] lacks down to level [k], from the
    table [p] of level [l] on. *)
Fixpoint missing s (k l : nat) (p v : Z) : nat :=
  match l with
  | O => 0
  | S l' =>
      let e := ent s p (lidx l v) in
      if (l <=? k)%nat then 0
      else if negb (Z.testbit e 0) then l - k
      else if Z.testbit e 7 then 0
      else missing s k l' (page_entry_address e) v
  end%nat.

(** [reach s root v l p]: the walk of [v] passes through the table [p] at
    level [l]. *)
Inductive reach s (root v : Z) : nat → Z → Prop :=
| reach_root : reach s root v 4 root
| reach_next l p :
    reach s root v (S l) p → l ≠ 0%nat →
    Z.testbit (ent s p (lidx (S l) v)) 0 = true →
    Z.testbit (ent s p (lidx (S l) v)) 7 = false →
    reach s root v l (page_entry_address (ent s p (lidx (S l) v))).

Lemma reach_walk s root v l p : reach s root v l p → walk s 4 root v = walk s l p v.
Proof.
  induction 1 as [| l p _ IH Hl H0 H7]; [done |]. rewrite IH. cbn [walk].
  rewrite H0, H7. cbn [negb andb Nat.eqb]. destruct l; done.
Qed.

Lemma missing_le s k v : ∀ l p, (missing s k l p v ≤ l - k)%nat.
Proof.
  induction l as [| l IH]; intros p; cbn [missing]; [lia |].
  destruct (Nat.leb_spec (S l) k); [lia |]. destruct (negb _); [lia |].
  destruct (Z.testbit _ 7); [lia |]. etrans; [apply IH | lia].
Qed.

Lemma reach_missing s root v k l p : reach s root v l p → (k ≤ l)%nat →
  missing s k 4 root v = missing s k l p v.
Proof.
  induction 1 as [| l p _ IH Hl H0 H7]; intros Hk; [done |]. rewrite IH by lia. cbn [missing].
  rewrite H0, H7. cbn [negb]. destruct (Nat.leb_spec (S l) k); [lia | done].
Qed.

(** A path that has its table of level [l] lacks only tables below it. *)
Lemma reach_missing_le s root v k l p : reach s root v l p → (k ≤ l)%nat →
  (missing s k 4 root v ≤ l - k)%nat.
Proof. intros Hr Hk. rewrite (reach_missing _ _ _ _ _ _ Hr Hk). apply missing_le. Qed.

(** ** The invariant *)

Record tables s (root : Z) T : Prop := {
  t_root : T !! root = Some (4%nat, 0);
  t_level : ∀ p l n, T !! p = Some (l, n) → (1 ≤ l ≤ 4)%nat;
  t_u64 : ∀ p lb i, T !! p = Some lb → 0 <= i < 512 → is_u64 (ent s p i);
  t_absent : ∀ p lb i, T !! p = Some lb → 0 <= i < 512 →
    Z.testbit (ent s p i) 0 = false → ent s p i = 0;
  t_huge : ∀ p l n i, T !! p = Some (l, n) → 0 <= i < 512 → (1 < l)%nat →
    Z.testbit (ent s p i) 0 = true → Z.testbit (ent s p i) 7 = true → (l ≤ 3)%nat;
  t_next : ∀ p l n i, T !! p = Some (l, n) → 0 <= i < 512 → (1 < l)%nat →
    Z.testbit (ent s p i) 0 = true → Z.testbit (ent s p i) 7 = false →
    T !! page_entry_address (ent s p i) = Some ((l - 1)%nat, n * 512 + i) ∧
    Z.testbit (ent s p i) 1 = true ∧ Z.testbit (ent s p i) 63 = false
}.

Record vm s (root : Z) T A F : Prop := {
  vm_bits : bits s F;
  vm_counted : counted s F;
  vm_layout : layout s A;
  vm_sub : F ⊆ A;
  vm_tables : tables s root T;
  vm_frames : ∀ p lb, T !! p = Some lb → p mod 4096 = 0 ∧ p / 4096 ∈ A ∧ p / 4096 ∉ F
}.

Lemma vm_table_frame s root T A F p lb : vm s root T A F → T !! p = Some lb →
  ∃ f, p = 4096 * f ∧ f ∈ A ∧ f ∉ F.
Proof. intros H Hp. destruct (vm_frames _ _ _ _ _ H _ _ Hp) as (Hm & HA & HF).
  exists (p / 4096). split_and!; [dlia | done..]. Qed.

(** Where the entries of a frame lie. *)
Lemma frame_bounds s A f i : layout s A → f ∈ A → 0 <= i < 512 →
  0 < hhdm s ∧ 0 <= f ∧ page_address (4096 * f) ∧ hhdm s + 4096 * f + 8 * i + 8 <= two64 ∧
  addr_ok s (hhdm s + 4096 * f + 8 * i) = true.
Proof.
  intros Hl Hf Hi. unfold hhdm. pose proof (lay_hhdm _ _ Hl). pose proof (lay_phys _ _ Hl).
  pose proof (lay_range _ _ Hl _ Hf). unfold page_address, two64 in *.
  split_and!; try lia; [dlia | by apply (lay_access _ _ Hl)].
Qed.

Lemma entry_at_frame s A f i : layout s A → f ∈ A → 0 <= i < 512 →
  entry_at (hhdm s + 4096 * f) i = hhdm s + 4096 * f + 8 * i.
Proof.
  intros Hl Hf Hi. pose proof (frame_bounds _ _ _ _ Hl Hf Hi) as (? & ? & _ & ? & _).
  unfold entry_at, two64 in *. by u64_simpl.
Qed.

Lemma physical_to_virtual_frame s A f (Q : Z → machine → Prop) : layout s A → f ∈ A →
  Q (hhdm s + 4096 * f) s → wp (Pmm.physical_to_virtual (4096 * f)) Q s.
Proof.
  intros Hl Hf HQ. pose proof (frame_bounds _ _ _ 0 Hl Hf) as (? & ? & _ & ? & _); [lia |].
  apply wp_gets. fold (hhdm s). unfold two64 in *. by u64_simpl.
Qed.

Lemma slot_inj f g i j : 0 <= i < 512 → 0 <= j < 512 →
  4096 * f + 8 * i = 4096 * g + 8 * j → f = g ∧ i = j.
Proof. lia. Qed.

Lemma ent_set_cell s f i v g j : 0 <= i < 512 → 0 <= j < 512 →
  ent (set_cell (hhdm s + 4096 * f + 8 * i) v s) (4096 * g) j =
  if decide (f = g ∧ i = j) then v else ent s (4096 * g) j.
Proof.
  intros Hi Hj. unfold ent. change (hhdm (set_cell _ _ _)) with (hhdm s).
  rewrite cell_set_cell. destruct (decide (f = g ∧ i = j)) as [[-> ->] | Hne].
  - by rewrite decide_True.
  - rewrite decide_False; [done |]. intros Heq. apply Hne, slot_inj; lia.
Qed.

(** A store into a frame of [A] does not disturb the bitmap. *)
Lemma bits_frame_store s A F f i v : bits s F → layout s A → f ∈ A → 0 <= i < 512 →
  bits (set_cell (hhdm s + 4096 * f + 8 * i) v s) F.
Proof.
  intros Hb Hl Hf Hi. pose proof (lay_apart _ _ Hl f Hf). pose proof (lay_bitmap _ _ Hl).
  apply (bits_cells s); [apply only_cells_set_cell | done |].
  intros w Hw. apply cell_set_cell_ne. unfold hhdm. lia.
Qed.

(** ** Allocating a table *)

(** The entries of a table in a frame of [A] are the managers'. *)
Lemma held_entry s A f i : f ∈ A → 0 <= i < 512 → held s A (hhdm s + 4096 * f + 8 * i).
Proof. intros Hf Hi. right. exists f. unfold hhdm. split; [done | lia]. Qed.

(** The frames of [A] other than [f] hold what they held. *)
Definition frames_kept s s' A (f : Z) : Prop :=
  ∀ g j, g ∈ A → g ≠ f → 0 <= j < 512 → ent s' (4096 * g) j = ent s (4096 * g) j.

Lemma ent_after_alloc s A f v g j : layout s A → g ∈ A → 0 <= j < 512 →
  0 <= f < 64 * bitmap_words (pmm s) →
  ent (after_alloc s f v) (4096 * g) j = ent s (4096 * g) j.
Proof.
  intros Hl Hg Hj Hf. pose proof (lay_apart _ _ Hl g Hg). pose proof (lay_bitmap _ _ Hl).
  unfold ent. change (hhdm (after_alloc s f v)) with (hhdm s).
  change (cell (after_alloc s f v)) with (cell (set_cell (bit_word s f) v s)).
  apply cell_set_cell_ne. unfold bit_word, hhdm. dlia.
Qed.

Lemma wp_allocate_table s A F (Q : option AllocatedTable → machine → Prop) :
  bits s F → counted s F → layout s A → F ⊆ A → F ≠ ∅ →
  (∀ f s', lowest F f → touches A s s' → bits s' (F ∖ {[f]}) → counted s' (F ∖ {[f]}) →
     (∀ i, 0 <= i < 512 → ent s' (4096 * f) i = 0) → frames_kept s s' A f →
     Q (Some (mk_table (4096 * f) (hhdm s + 4096 * f))) s') →
  wp allocate_table Q s.
Proof.
  intros Hb Hc Hl Hsub Hne HQ. unfold allocate_table.
  apply wp_bind, wp_alloc_frame with F; [done | | done]. intros f v Hlow Hb1.
  assert (f ∈ A) as HfA by (apply Hsub, Hlow).
  pose proof (bits_valid _ _ Hb f (proj1 Hlow)) as Hfr. pose proof (bits_words _ _ Hb).
  pose proof (counted_after_alloc _ _ f v Hc (proj1 Hlow) Hb) as Hc1.
  set (s1 := after_alloc s f v) in *.
  assert (same_env s s1) as He1 by done. pose proof (layout_env _ _ _ He1 Hl) as Hl1.
  pose proof (frame_bounds _ _ _ 0 Hl1 HfA) as (Hh & Hf0 & [Hp _] & Hb64 & _); [lia |].
  destruct (Z.eqb_spec (4096 * f) UINT64_MAX); [unfold UINT64_MAX in *; lia |].
  apply wp_bind, (physical_to_virtual_frame _ _ _ _ Hl1 HfA).
  change (hhdm s1) with (hhdm s). apply wp_bind.
  apply (wp_for_each (λ i s', only_cells s1 s' ∧ touches A s s' ∧ bits s' (F ∖ {[f]}) ∧
    (∀ j, 0 <= j < i → ent s' (4096 * f) j = 0) ∧ frames_kept s s' A f));
    [lia | unfold kPageTableEntries; lia | unfold kPageTableEntries, two64; lia
    | apply Z.mod_1_r | | |]; unfold kPageTableEntries.
  - split_and!; [done | by apply touches_after_alloc; lia | done | lia |]. intros g j Hg Hgf Hj.
    apply ent_after_alloc with A; auto; lia.
  - intros i s' Hi (Hoc & Hto & Hb' & Hz & Hk).
    assert (same_env s1 s') as He' by (rewrite Hoc; done).
    pose proof (layout_env _ _ _ He' Hl1) as Hl'.
    assert (hhdm s' = hhdm s) as Hhh by (rewrite Hoc; done).
    rewrite <- Hhh, (entry_at_frame _ _ _ _ Hl' HfA) by lia.
    apply wp_store64; [by apply (frame_bounds _ _ _ _ Hl' HfA) |].
    split_and!; [by etrans | | by apply bits_frame_store with A | |].
    + etrans; [exact Hto |]. apply touches_store, held_entry; [done | lia].
    + intros j Hj. rewrite ent_set_cell by lia. case_decide as Hd; [done |]. apply Hz.
      destruct (decide (i = j)); [subst; tauto | lia].
    + intros g j Hg Hgf Hj. rewrite ent_set_cell by lia. rewrite decide_False by (intros [? ?]; congruence). auto.
  - intros s' (Hoc & Hto & Hb' & Hz & Hk). apply wp_ret, HQ; try done. rewrite Hoc; done.
Qed.

(** ** States with the same memory *)

(** Tables and translations depend on memory alone. *)
Lemma ent_mem s s' p i : same_mem s s' → ent s' p i = ent s p i.
Proof. intros (_ & Hc & Hp). unfold ent, hhdm, cell. by rewrite Hc, Hp. Qed.

Lemma hhdm_mem s s' : same_mem s s' → hhdm s' = hhdm s.
Proof. intros (_ & _ & Hp). unfold hhdm. by rewrite Hp. Qed.

Lemma walk_mem s s' l p v : same_mem s s' → walk s' l p v = walk s l p v.
Proof.
  intros Hm. revert p. induction l as [| l IH]; intros p; cbn [walk]; [done |].
  by rewrite (ent_mem s s'), IH.
Qed.

Lemma hw_access_cells s s' root v : cells s' = cells s → pmm s' = pmm s →
  hw_access s' root v = hw_access s root v.
Proof.
  intros Hc Hp. assert (∀ p i, ent s' p i = ent s p i) as He
    by (intros p i; unfold ent, hhdm, cell; by rewrite Hc, Hp).
  assert (∀ l p w x, hw_walk s' l p v w x = hw_walk s l p v w x) as H; [| apply H].
  induction l as [| l IH]; intros p w x; cbn [hw_walk]; [done |]. by rewrite He, IH.
Qed.

Lemma tables_mem s s' root T : same_mem s s' → tables s root T → tables s' root T.
Proof.
  intros Hm [H1 H2 H3 H4 H5 H6]. split; try done; intros *; rewrite (ent_mem s s') by done; eauto.
Qed.

Lemma vm_mem s s' root T A F : same_mem s s' → vm s root T A F → vm s' root T A F.
Proof.
  intros Hm [H1 H2 H3 H4 H5 H6]. split; try done.
  - by apply (bits_mem s).
  - by rewrite <- Hm.
  - by apply (layout_mem s).
  - by apply (tables_mem s).
Qed.

End WithDevice.
