(* ===== verification/VmmSteps.v ===== *)
(** The steps of a mapping: [ensure_table] descends one level, creating the
    table when it is missing, without changing any translation; writing a
    leaf changes exactly the translations the leaf covers. *)

From Stdlib Require Import ZArith Lia.
From stdpp Require Import base numbers list gmap sets fin_sets.
From S2P Require Import Prelude Descriptors Machine Serial Print Pmm PmmInv PmmInit Paging Mmu Vmm VmmInv.
Import Vmm.
Local Open Scope Z_scope.

Section WithDevice.
Context {PD : PortDevice}.
Implicit Types (s : machine) (F A : gset Z) (T : gmap Z (nat * Z)).

(** ** States with the same translations *)

(** [s'] translates like [s], and the slots below level [lim] are as they
    were; tables may have been added from level [lim] up. *)
Record sim (root : Z) (lim : nat) s s' : Prop := {
  sim_walk : ∀ v, walk s' 4 root v = walk s 4 root v;
  sim_taken : ∀ k v, (1 ≤ k < lim)%nat → slot_taken s' k 4 root v = slot_taken s k 4 root v;
  sim_reach : ∀ v l p, reach s root v l p → reach s' root v l p;
  sim_missing : ∀ k v, (missing s' k 4 root v ≤ missing s k 4 root v)%nat
}.

#[global] Instance sim_preorder root lim : PreOrder (sim root lim).
Proof.
  split.
  - intros s. split; auto.
  - intros s1 s2 s3 [W1 K1 R1 N1] [W2 K2 R2 N2].
    split; [intros v; by rewrite W2 | intros k v Hk; by rewrite K2, K1 | auto |].
    intros k v. specialize (N1 k v). specialize (N2 k v). lia.
Qed.

Lemma sim_trans root lim s1 s2 s3 :
  sim root lim s1 s2 → sim root lim s2 s3 → sim root lim s1 s3.
Proof. intros. by etrans. Qed.

Lemma sim_mono root lim lim' s s' : (lim' ≤ lim)%nat → sim root lim s s' → sim root lim' s s'.
Proof. intros Hle [W K R N]. split; [done | | done..]. intros k v Hk. apply K. lia. Qed.

(** What may happen to an entry of a table of level [l]. *)
Inductive entry_step s' (lim l : nat) (e e' : Z) : Prop :=
| entry_same : e' = e → entry_step s' lim l e e'
| entry_flags :
    (1 < l)%nat → (lim ≤ l)%nat → Z.testbit e 0 = true → Z.testbit e 7 = false →
    Z.testbit e' 0 = true → Z.testbit e' 7 = false →
    page_entry_address e' = page_entry_address e → entry_step s' lim l e e'
| entry_new :
    (1 < l)%nat → (lim ≤ l)%nat → Z.testbit e 0 = false →
    Z.testbit e' 0 = true → Z.testbit e' 7 = false →
    (∀ k, 0 <= k < 512 → ent s' (page_entry_address e') k = 0) → entry_step s' lim l e e'.

Lemma walk_empty s l p v : (∀ k, 0 <= k < 512 → ent s p k = 0) → walk s l p v = None.
Proof.
  intros Hz. destruct l as [| l]; [done |]. cbn [walk].
  by rewrite Hz by apply lidx_range.
Qed.

Lemma taken_empty s k l p v : (∀ j, 0 <= j < 512 → ent s p j = 0) → slot_taken s k l p v = false.
Proof.
  intros Hz. destruct l as [| l]; [done |]. cbn [slot_taken].
  by rewrite Hz by apply lidx_range.
Qed.

Lemma walk_leaf s l p v e : (1 ≤ l)%nat → ent s p (lidx l v) = e → Z.testbit e 0 = true →
  l = 1%nat ∨ (l ≤ 3)%nat ∧ Z.testbit e 7 = true → walk s l p v = Some (l, e).
Proof.
  intros Hl He H0 Hleaf. destruct l as [| l]; [lia |]. cbn [walk]. rewrite He, H0. cbn [negb].
  destruct Hleaf as [[= ->] | [Hl3 H7]]; [done |].
  destruct (Nat.eqb_spec (S l) 1) as [Hl1 | Hl1]; [by rewrite Hl1 |].
  by rewrite H7, (proj2 (Nat.leb_le _ _) Hl3).
Qed.

Lemma walk_steps s s' root lim T : tables s root T →
  (∀ p l n i, T !! p = Some (l, n) → 0 <= i < 512 → entry_step s' lim l (ent s p i) (ent s' p i)) →
  ∀ l p n v, T !! p = Some (l, n) → walk s' l p v = walk s l p v.
Proof.
  intros Ht Hstep l. induction l as [| l IH]; intros p n v Hp; [done |]. cbn [walk].
  pose proof (lidx_range (S l) v) as Hi. set (i := lidx (S l) v) in *.
  destruct (Hstep _ _ _ i Hp Hi) as [-> | Hl _ H0 H7 H0' H7' Ha | Hl _ H0 H0' H7' Hz].
  - destruct (Z.testbit (ent s p i) 0) eqn:H0; [| done]. cbn [negb].
    destruct (Nat.eqb_spec (S l) 1) as [| Hl1]; [done |].
    destruct (Z.testbit (ent s p i) 7) eqn:H7; cbn [andb].
    + pose proof (t_huge _ _ _ Ht _ _ _ _ Hp Hi ltac:(lia) H0 H7).
      by rewrite (proj2 (Nat.leb_le (S l) 3)).
    + destruct (t_next _ _ _ Ht _ _ _ _ Hp Hi ltac:(lia) H0 H7) as [Hn _].
      replace (S l - 1)%nat with l in Hn by lia. eapply IH, Hn.
  - rewrite H0, H7, H0', H7', Ha. cbn [negb andb].
    destruct (Nat.eqb_spec (S l) 1) as [| Hl1]; [lia |].
    destruct (t_next _ _ _ Ht _ _ _ _ Hp Hi ltac:(lia) H0 H7) as [Hn _].
    replace (S l - 1)%nat with l in Hn by lia. eapply IH, Hn.
  - rewrite H0, H0', H7'. cbn [negb andb].
    destruct (Nat.eqb_spec (S l) 1) as [| Hl1]; [lia |]. by apply walk_empty.
Qed.

Lemma taken_steps s s' root lim T k : tables s root T →
  (∀ p l n i, T !! p = Some (l, n) → 0 <= i < 512 → entry_step s' lim l (ent s p i) (ent s' p i)) →
  (1 ≤ k < lim)%nat →
  ∀ l p n v, T !! p = Some (l, n) → slot_taken s' k l p v = slot_taken s k l p v.
Proof.
  intros Ht Hstep Hk l. induction l as [| l IH]; intros p n v Hp; [done |]. cbn [slot_taken].
  pose proof (lidx_range (S l) v) as Hi. set (i := lidx (S l) v) in *.
  assert ((1 < S l)%nat → Z.testbit (ent s p i) 0 = true → Z.testbit (ent s p i) 7 = false →
    slot_taken s' k l (page_entry_address (ent s p i)) v =
    slot_taken s k l (page_entry_address (ent s p i)) v) as Hnext.
  { intros Hl H0 H7. destruct (t_next _ _ _ Ht _ _ _ _ Hp Hi Hl H0 H7) as [Hn _].
    replace (S l - 1)%nat with l in Hn by lia. eapply IH, Hn. }
  destruct (Hstep _ _ _ i Hp Hi) as [-> | Hl Hlim H0 H7 H0' H7' Ha | Hl Hlim H0 H0' H7' Hz].
  - destruct (Z.testbit (ent s p i) 0) eqn:H0; [| done]. cbn [negb].
    destruct (Nat.eqb_spec (S l) k) as [| Hlk]; [done |].
    destruct (Z.testbit (ent s p i) 7) eqn:H7; [done |]. cbn [orb].
    destruct (decide (l = 0%nat)) as [-> |]; [done | apply Hnext; [lia | done..]].
  - rewrite H0, H7, H0', H7', Ha. cbn [negb]. rewrite !orb_false_r.
    destruct (Nat.eqb_spec (S l) k) as [| Hlk]; [lia |]. by apply Hnext.
  - rewrite H0, H0', H7'. cbn [negb]. rewrite orb_false_r.
    destruct (Nat.eqb_spec (S l) k) as [| Hlk]; [lia |]. by apply taken_empty.
Qed.

(** New tables only shorten what a path lacks. *)
Lemma missing_steps s s' root lim T k : tables s root T →
  (∀ p l n i, T !! p = Some (l, n) → 0 <= i < 512 → entry_step s' lim l (ent s p i) (ent s' p i)) →
  ∀ l p n v, T !! p = Some (l, n) → (missing s' k l p v ≤ missing s k l p v)%nat.
Proof.
  intros Ht Hstep l. induction l as [| l IH]; intros p n v Hp; [done |]. cbn [missing].
  pose proof (lidx_range (S l) v) as Hi. set (i := lidx (S l) v) in *.
  destruct (Nat.leb_spec (S l) k); [done |].
  assert ((1 < S l)%nat → Z.testbit (ent s p i) 0 = true → Z.testbit (ent s p i) 7 = false →
    (missing s' k l (page_entry_address (ent s p i)) v ≤
     missing s k l (page_entry_address (ent s p i)) v)%nat) as Hnext.
  { intros Hl H0 H7. destruct (t_next _ _ _ Ht _ _ _ _ Hp Hi Hl H0 H7) as [Hn _].
    replace (S l - 1)%nat with l in Hn by lia. eapply IH, Hn. }
  destruct (Hstep _ _ _ i Hp Hi) as [-> | Hl Hlim H0 H7 H0' H7' Ha | Hl Hlim H0 H0' H7' Hz].
  - destruct (Z.testbit (ent s p i) 0) eqn:H0; [| done]. cbn [negb].
    destruct (Z.testbit (ent s p i) 7) eqn:H7; [done |].
    destruct (decide (l = 0%nat)) as [-> |]; [done | apply Hnext; [lia | done..]].
  - rewrite H0, H7, H0', H7', Ha. cbn [negb]. by apply Hnext.
  - rewrite H0, H0', H7'. cbn [negb]. etrans; [apply missing_le | lia].
Qed.

(** A table on the path of [v] carries the label of [v]. *)
Lemma reach_label s root T v l p : tables s root T → reach s root v l p →
  T !! p = Some (l, pre l v).
Proof.
  intros Ht. induction 1 as [| l p Hr IH Hl H0 H7].
  - rewrite pre_root. apply Ht.
  - pose proof (t_level _ _ _ Ht _ _ _ IH).
    destruct (t_next _ _ _ Ht _ _ _ _ IH (lidx_range _ _) ltac:(lia) H0 H7) as [Hn _].
    rewrite Hn, (pre_step l) by lia. do 2 f_equal. lia.
Qed.

Lemma reach_level s root v l p : reach s root v l p → (l ≤ 4)%nat.
Proof. induction 1; lia. Qed.

(** The path to a table depends only on the bits above it. *)
Lemma reach_pre s root w v l p : pre l v = pre l w → reach s root w l p → reach s root v l p.
Proof.
  intros Hpre Hr. induction Hr as [| l p Hr IH Hl H0 H7]; [constructor |].
  pose proof (reach_level _ _ _ _ _ Hr) as Hl4.
  rewrite (pre_step l v), (pre_step l w) in Hpre by lia.
  pose proof (lidx_range (S l) v). pose proof (lidx_range (S l) w).
  assert (lidx (S l) w = lidx (S l) v ∧ pre (S l) v = pre (S l) w) as [Hix Hpre'] by lia.
  rewrite Hix in H0, H7 |- *. apply reach_next; [by apply IH | done..].
Qed.

Lemma sim_of_steps s s' root lim T : tables s root T →
  (∀ p l n i, T !! p = Some (l, n) → 0 <= i < 512 → entry_step s' lim l (ent s p i) (ent s' p i)) →
  sim root lim s s'.
Proof.
  intros Ht Hstep. split.
  - intros v. eapply walk_steps; [done.. | apply Ht].
  - intros k v Hk. eapply taken_steps; [done.. | apply Ht].
  - intros v l p Hr. induction Hr as [| l p Hr IH Hl H0 H7]; [constructor |].
    pose proof (reach_label _ _ _ _ _ _ Ht Hr) as Hlb.
    destruct (Hstep _ _ _ (lidx (S l) v) Hlb (lidx_range _ _))
      as [He | _ _ _ _ H0' H7' Ha | _ _ H0' _ _ _]; [| | congruence].
    + rewrite <- He. constructor; congruence.
    + rewrite <- Ha. by constructor.
  - intros k v. eapply missing_steps; [done.. | apply Ht].
Qed.

(** When one entry of one table differs, the slots of the addresses that do
    not pass through it are as they were. *)
Lemma taken_apart s s' root T p i l n k v : tables s root T → T !! p = Some (l, n) →
  (∀ q lb j, T !! q = Some lb → 0 <= j < 512 → ~ (q = p ∧ i = j) → ent s' q j = ent s q j) →
  pre (l - 1) v ≠ n * 512 + i → slot_taken s' k 4 root v = slot_taken s k 4 root v.
Proof.
  intros Ht Hp Hsame Hne.
  assert (∀ j q, T !! q = Some (j, pre j v) → slot_taken s' k j q v = slot_taken s k j q v) as Hw.
  { intros j. induction j as [| j IH]; intros q Hq; [done |]. cbn [slot_taken].
    pose proof (lidx_range (S j) v) as Hj. pose proof (t_level _ _ _ Ht _ _ _ Hq).
    rewrite (Hsame q _ _ Hq Hj).
    2:{ intros [-> Hd]. simplify_eq. apply Hne.
        rewrite (pre_step (S j - 1)) by lia. replace (S (S j - 1)) with (S j) by lia. lia. }
    destruct (Z.testbit (ent s q (lidx (S j) v)) 0) eqn:H0; [| done]. cbn [negb].
    destruct (Nat.eqb_spec (S j) k); [done |].
    destruct (Z.testbit (ent s q (lidx (S j) v)) 7) eqn:H7; [done |]. cbn [orb].
    destruct (decide (j = 0%nat)) as [-> |]; [done |].
    destruct (t_next _ _ _ Ht _ _ _ _ Hq Hj ltac:(lia) H0 H7) as [Hn _].
    apply IH. rewrite Hn, (pre_step j) by lia. do 2 f_equal. lia. }
  apply Hw. rewrite pre_root. apply Ht.
Qed.

(** ** Writing one entry of a table *)

Section OneEntry.
#[local] Set Default Proof Using "All".
Context (s : machine) (root : Z) (T : gmap Z (nat * Z)) (A F : gset Z).
Context (f i e' : Z) (l : nat) (n : Z).
Context (Hvm : vm s root T A F) (Hp : T !! (4096 * f) = Some (l, n)) (Hi : 0 <= i < 512).

Local Abbreviation s' := (set_cell (hhdm s + 4096 * f + 8 * i) e' s).

Lemma one_entry_ent q lb j : T !! q = Some lb → 0 <= j < 512 →
  ent s' q j = if decide (q = 4096 * f ∧ i = j) then e' else ent s q j.
Proof.
  intros Hq Hj. destruct (vm_table_frame _ _ _ _ _ _ _ Hvm Hq) as (g & -> & _ & _).
  rewrite ent_set_cell by done.
  destruct (decide (f = g ∧ i = j)) as [[-> ->] | Hne]; [by rewrite decide_True |].
  rewrite decide_False; [done |]. intros [Hg ->]. apply Hne. split; lia.
Qed.

Lemma one_entry_frame : f ∈ A.
Proof. destruct (vm_frames _ _ _ _ _ Hvm _ _ Hp) as (_ & HA & _).
  by rewrite Z.mul_comm, Z.div_mul in HA. Qed.

Lemma one_entry_addr : addr_ok s (hhdm s + 4096 * f + 8 * i) = true ∧
  entry_at (hhdm s + 4096 * f) i = hhdm s + 4096 * f + 8 * i ∧ 0 < hhdm s + 4096 * f.
Proof.
  pose proof one_entry_frame as HA. pose proof (vm_layout _ _ _ _ _ Hvm) as Hl.
  pose proof (frame_bounds _ _ _ _ Hl HA Hi) as (? & ? & _ & _ & ?).
  split_and!; [done | by apply entry_at_frame with A | lia].
Qed.

(** The invariant survives when the new entry fits its table. *)
Lemma one_entry_vm :
  is_u64 e' → Z.testbit e' 0 = true →
  ((1 < l)%nat → Z.testbit e' 7 = true → (l ≤ 3)%nat) →
  ((1 < l)%nat → Z.testbit e' 7 = false →
     T !! page_entry_address e' = Some ((l - 1)%nat, n * 512 + i) ∧
     Z.testbit e' 1 = true ∧ Z.testbit e' 63 = false) →
  vm s' root T A F.
Proof.
  intros Hu H0 Hh Hn. destruct Hvm as [V1 V2 V3 V4 V5 V6]. split; try done.
  - apply bits_frame_store with A; [done.. | apply one_entry_frame | done].
  - by apply (layout_env s).
  - pose proof V5 as [T1 T2 T3 T4 T5 T6]. split; try done.
    + intros q lb j Hq Hj. rewrite (one_entry_ent q lb) by done. case_decide; eauto.
    + intros q lb j Hq Hj. rewrite (one_entry_ent q lb) by done. case_decide; [congruence | eauto].
    + intros q l' m j Hq Hj. rewrite (one_entry_ent q (l', m)) by done.
      case_decide as Hd; [destruct Hd as [-> ->]; simplify_eq; auto | eauto].
    + intros q l' m j Hq Hj. rewrite (one_entry_ent q (l', m)) by done.
      case_decide as Hd; [destruct Hd as [-> ->]; simplify_eq; auto | eauto].
Qed.

(** A leaf written into a free slot: addresses outside the range of the slot
    translate as before, addresses inside it reach the leaf. *)
Lemma one_entry_walk_other v : pre (l - 1) v ≠ n * 512 + i →
  walk s' 4 root v = walk s 4 root v.
Proof.
  intros Hne. destruct Hvm as [_ _ _ _ Ht _].
  assert (∀ k p, T !! p = Some (k, pre k v) → walk s' k p v = walk s k p v) as Hw.
  { intros k. induction k as [| k IH]; intros p Hq; [done |]. cbn [walk].
    pose proof (lidx_range (S k) v) as Hj. pose proof (t_level _ _ _ Ht _ _ _ Hq).
    rewrite (one_entry_ent p _ _ Hq Hj). case_decide as Hd.
    { destruct Hd as [-> Hd]. simplify_eq. exfalso. apply Hne.
      rewrite (pre_step (S k - 1)) by lia. replace (S (S k - 1)) with (S k) by lia. lia. }
    destruct (Z.testbit (ent s p (lidx (S k) v)) 0) eqn:H0; [| done]. cbn [negb].
    destruct (Nat.eqb_spec (S k) 1); [done |].
    destruct (Z.testbit (ent s p (lidx (S k) v)) 7) eqn:H7; cbn [andb].
    + pose proof (t_huge _ _ _ Ht _ _ _ _ Hq Hj ltac:(lia) H0 H7).
      by rewrite (proj2 (Nat.leb_le (S k) 3)).
    + destruct (t_next _ _ _ Ht _ _ _ _ Hq Hj ltac:(lia) H0 H7) as [Hn _].
      apply IH. rewrite Hn, (pre_step k) by lia. do 2 f_equal. lia. }
  apply Hw. rewrite pre_root. apply Ht.
Qed.

Lemma one_entry_taken_other k v : pre (l - 1) v ≠ n * 512 + i →
  slot_taken s' k 4 root v = slot_taken s k 4 root v.
Proof.
  intros Hne. apply (taken_apart s s' root T (4096 * f) i l n); [apply Hvm | done | | done].
  intros q lb j Hq Hj Hd. rewrite (one_entry_ent q lb) by done. by rewrite decide_False.
Qed.

(** The path of an address down to the slot's table is not affected. *)
Lemma one_entry_reach v k p : (l ≤ k)%nat → reach s root v k p → reach s' root v k p.
Proof.
  intros Hk Hr. induction Hr as [| k p Hr IH Hk0 H0 H7]; [constructor |].
  specialize (IH ltac:(lia)). pose proof (vm_tables _ _ _ _ _ Hvm) as Ht.
  pose proof (reach_label _ _ _ _ _ _ Ht Hr) as Hlb.
  assert (ent s' p (lidx (S k) v) = ent s p (lidx (S k) v)) as Hsame.
  { rewrite (one_entry_ent _ _ _ Hlb (lidx_range _ _)), decide_False; [done |].
    intros [-> _]. rewrite Hlb in Hp. simplify_eq. lia. }
  rewrite <- Hsame. constructor; rewrite ?Hsame; done.
Qed.

(** The translations after a leaf has been written at the slot of [w]. *)
Lemma one_entry_leaf w v :
  reach s root w l (4096 * f) → i = lidx l w →
  Z.testbit e' 0 = true → (l = 1%nat ∨ (l ≤ 3)%nat ∧ Z.testbit e' 7 = true) →
  walk s' 4 root v =
    if decide (pre (l - 1) v = pre (l - 1) w) then Some (l, e') else walk s 4 root v.
Proof.
  intros Hr Hiw H0 Hleaf. pose proof (vm_tables _ _ _ _ _ Hvm) as Ht.
  pose proof (reach_label _ _ _ _ _ _ Ht Hr) as Hlb.
  pose proof (t_level _ _ _ Ht _ _ _ Hlb) as Hlev.
  assert (∀ x, pre (l - 1) x = pre l x * 512 + lidx l x) as Hstep.
  { intros x. rewrite (pre_step (l - 1)) by lia. by replace (S (l - 1)) with l by lia. }
  assert (n = pre l w) as Hn by congruence.
  case_decide as Hd.
  - rewrite !Hstep in Hd. pose proof (lidx_range l v). pose proof (lidx_range l w).
    assert (reach s' root v l (4096 * f)) as Hr'.
    { apply one_entry_reach; [lia |]. apply (reach_pre _ _ w); [lia | done]. }
    rewrite (reach_walk _ _ _ _ _ Hr'). apply walk_leaf; [lia | | done..].
    rewrite (one_entry_ent _ _ _ Hp) by done. by rewrite decide_True by (split; [done | lia]).
  - apply one_entry_walk_other. rewrite Hstep in Hd |- *. rewrite Hstep in Hd. lia.
Qed.

End OneEntry.

(** ** Linking a new table *)

Section NewTable.
#[local] Set Default Proof Using "All".
Context (s s1 : machine) (root : Z) (T : gmap Z (nat * Z)) (A F : gset Z).
Context (f i g m : Z) (l : nat) (n : Z).
Context (Hvm : vm s root T A F) (Hm : middle m) (Hl0 : l ≠ 0%nat).
Context (Hp : T !! (4096 * f) = Some (S l, n)) (Hi : 0 <= i < 512).
Context (Habs : Z.testbit (ent s (4096 * f) i) 0 = false).
(** What [allocate_table] did between [s] and [s1]. *)
Context (Hg : g ∈ F) (He1 : same_env s s1).
Context (Hb1 : bits s1 (F ∖ {[g]})) (Hc1 : counted s1 (F ∖ {[g]})).
Context (Hz : ∀ j, 0 <= j < 512 → ent s1 (4096 * g) j = 0) (Hk : frames_kept s s1 A g).

Local Abbreviation e' := (make_page_entry (4096 * g) m).
Local Abbreviation s' := (set_cell (hhdm s + 4096 * f + 8 * i) e' s1).
Local Abbreviation T' := (<[4096 * g := (l, n * 512 + i)]> T).

Lemma new_hhdm : hhdm s1 = hhdm s.
Proof. apply same_env_fields in He1. unfold hhdm. tauto. Qed.

Lemma new_g : g ∈ A ∧ page_address (4096 * g) ∧ 0 < hhdm s + 4096 * g.
Proof.
  assert (g ∈ A) as HgA by by apply (vm_sub _ _ _ _ _ Hvm).
  destruct (frame_bounds _ _ _ 0 (vm_layout _ _ _ _ _ Hvm) HgA) as (? & ? & ? & _ & _); [lia |].
  split_and!; [done.. | lia].
Qed.

Lemma new_entry_bits : page_entry_address e' = 4096 * g ∧ is_u64 e' ∧
  Z.testbit e' 0 = true ∧ Z.testbit e' 1 = true ∧ Z.testbit e' 7 = false ∧ Z.testbit e' 63 = false.
Proof.
  destruct new_g as (_ & Hpg & _).
  destruct (middle_bits m 7 Hm) as (M0 & M1 & M7). destruct (middle_bits m 63 Hm) as (_ & _ & M63).
  rewrite !make_page_entry_bit by (done || lia).
  split_and!; try done.
  - apply page_entry_address_make; [done | by apply middle_flag_bits].
  - apply make_page_entry_u64; [done | by apply middle_flag_bits].
  - apply M7. lia.
  - apply M63. lia.
Qed.

Lemma new_fresh : T !! (4096 * g) = None.
Proof.
  destruct (T !! (4096 * g)) eqn:Hq; [| done].
  destruct (vm_frames _ _ _ _ _ Hvm _ _ Hq) as (_ & _ & HnF).
  by rewrite Z.mul_comm, Z.div_mul in HnF by lia.
Qed.

Lemma new_ent_old q lb j : T !! q = Some lb → 0 <= j < 512 →
  ent s' q j = if decide (q = 4096 * f ∧ i = j) then e' else ent s q j.
Proof.
  intros Hq Hj. destruct (vm_table_frame _ _ _ _ _ _ _ Hvm Hq) as (k & -> & HkA & HkF).
  rewrite <- new_hhdm, ent_set_cell by done.
  destruct (decide (f = k ∧ i = j)) as [[-> ->] | Hd]; [by rewrite decide_True |].
  rewrite decide_False by (intros [? ?]; apply Hd; split; [lia | done]).
  apply Hk; [done | congruence | done].
Qed.

Lemma new_ent_fresh j : 0 <= j < 512 → ent s' (4096 * g) j = 0.
Proof.
  intros Hj. rewrite <- new_hhdm, ent_set_cell, decide_False; [by apply Hz | | done..].
  intros [Hfg _]. pose proof new_fresh. congruence.
Qed.

Lemma new_sim : sim root (S l) s s'.
Proof.
  destruct new_entry_bits as (Ha & _ & H0 & _ & H7 & _).
  apply (sim_of_steps _ _ _ _ T (vm_tables _ _ _ _ _ Hvm)). intros q lq nq j Hq Hj.
  rewrite (new_ent_old q _ j Hq Hj). case_decide as Hd; [| by constructor].
  destruct Hd as [-> <-]. simplify_eq.
  apply entry_new; [lia | lia | done.. |]. rewrite Ha. apply new_ent_fresh.
Qed.

Lemma new_taken_other k v : pre l v ≠ n * 512 + i →
  slot_taken s' k 4 root v = slot_taken s k 4 root v.
Proof.
  intros Hne. apply (taken_apart s s' root T (4096 * f) i (S l) n); [apply Hvm | done | |].
  - intros q lb j Hq Hj Hd. rewrite (new_ent_old q lb) by done. by rewrite decide_False.
  - by replace (S l - 1)%nat with l by lia.
Qed.

Lemma new_tables : tables s' root T'.
Proof.
  destruct new_entry_bits as (Ha & Hu & H0 & H1 & H7 & H63).
  pose proof new_fresh as Hfresh.
  pose proof (vm_tables _ _ _ _ _ Hvm) as [T1 T2 T3 T4 T5 T6].
  assert (∀ q lb, T !! q = Some lb → q ≠ 4096 * g) as Hne by (intros q lb Hq ->; congruence).
  split.
  - rewrite lookup_insert_ne; [done | symmetry; by eapply Hne].
  - intros q l' n' [[<- [= <- <-]] | [_ Hq]]%lookup_insert_Some; [| by eapply T2].
    pose proof (T2 _ _ _ Hp). lia.
  - intros q lb j [[<- <-] | [_ Hq]]%lookup_insert_Some Hj.
    + rewrite new_ent_fresh by done. unfold is_u64. lia.
    + rewrite (new_ent_old q lb) by done. case_decide; eauto.
  - intros q lb j [[<- <-] | [_ Hq]]%lookup_insert_Some Hj; [by rewrite new_ent_fresh |].
    rewrite (new_ent_old q lb) by done. case_decide; [congruence | eauto].
  - intros q l' n' j [[<- [= <- <-]] | [_ Hq]]%lookup_insert_Some Hj; [by rewrite new_ent_fresh |].
    rewrite (new_ent_old q (l', n')) by done. case_decide; [congruence | eauto].
  - intros q l' n' j [[<- [= <- <-]] | [_ Hq]]%lookup_insert_Some Hj; [by rewrite new_ent_fresh |].
    rewrite (new_ent_old q (l', n')) by done. case_decide as Hd.
    + destruct Hd as [-> <-]. simplify_eq. intros _ _ _. rewrite Ha, lookup_insert_eq.
      by replace (S l - 1)%nat with l by lia.
    + intros Hl' H0' H7'. destruct (T6 _ _ _ _ Hq Hj Hl' H0' H7') as [Hn Hb].
      split; [| done]. rewrite lookup_insert_ne; [done | symmetry; by eapply Hne].
Qed.

Lemma new_vm : vm s' root T' A (F ∖ {[g]}).
Proof.
  destruct new_g as (HgA & _ & _).
  assert (same_env s s') as He' by done. pose proof (vm_layout _ _ _ _ _ Hvm) as Hl.
  split.
  - rewrite <- new_hhdm. apply bits_frame_store with A; [done | by apply (layout_env s) | | done].
    destruct (vm_frames _ _ _ _ _ Hvm _ _ Hp) as (_ & HA & _).
    by rewrite Z.mul_comm, Z.div_mul in HA.
  - done.
  - by apply (layout_env s).
  - pose proof (vm_sub _ _ _ _ _ Hvm). set_solver.
  - apply new_tables.
  - intros q lb [[<- _] | [_ Hq]]%lookup_insert_Some.
    + rewrite (Z.mul_comm 4096), Z.div_mul, Z.mod_mul by lia. set_solver.
    + destruct (vm_frames _ _ _ _ _ Hvm _ _ Hq) as (? & ? & ?). set_solver.
Qed.

(** The walk that lacked the table now passes through it, and what the path
    still lacks and the frames spent add up. *)
Lemma new_reach v : lidx (S l) v = i → reach s root v (S l) (4096 * f) →
  reach s' root v l (4096 * g).
Proof.
  intros Ev Hr. pose proof (new_ent_old _ _ _ Hp Hi) as Hent. rewrite decide_True in Hent by done.
  destruct new_entry_bits as (Ha & _ & B0 & _ & B7 & _).
  pose proof (reach_next s' root v l (4096 * f) (sim_reach _ _ _ _ new_sim _ _ _ Hr) Hl0) as Hn.
  rewrite Ev, Hent, Ha in Hn. by apply Hn.
Qed.

Lemma new_missing v k : lidx (S l) v = i → reach s root v (S l) (4096 * f) → (k ≤ l)%nat →
  (size F + missing s' k 4 root v ≤ size (F ∖ {[g]}) + missing s k 4 root v)%nat.
Proof.
  intros Ev Hr Hkl. pose proof (reach_missing_le _ _ _ _ _ _ (new_reach v Ev Hr) Hkl).
  assert (missing s k 4 root v = S l - k)%nat as ->.
  { rewrite (reach_missing _ _ _ _ _ _ Hr) by lia. cbn [missing]. rewrite Ev, Habs.
    destruct (Nat.leb_spec (S l) k); [lia | done]. }
  assert (size F ≠ 0%nat) by (rewrite size_non_empty_iff; set_solver).
  rewrite (size_difference F {[g]}), size_singleton by set_solver. lia.
Qed.

End NewTable.

(** Adding intermediate flags to the entry of an existing table. *)

Section OldTable.
#[local] Set Default Proof Using "All".
Context (s : machine) (root : Z) (T : gmap Z (nat * Z)) (A F : gset Z).
Context (f i m : Z) (l : nat) (n : Z).
Context (Hvm : vm s root T A F) (Hm : middle m) (Hl0 : l ≠ 0%nat).
Context (Hp : T !! (4096 * f) = Some (S l, n)) (Hi : 0 <= i < 512).
Context (H0 : Z.testbit (ent s (4096 * f) i) 0 = true).
Context (H7 : Z.testbit (ent s (4096 * f) i) 7 = false).

Local Abbreviation e := (ent s (4096 * f) i).
Local Abbreviation s' := (set_cell (hhdm s + 4096 * f + 8 * i) (Z.lor e m) s).

Lemma old_entry_bits : is_u64 (Z.lor e m) ∧ Z.testbit (Z.lor e m) 0 = true ∧
  Z.testbit (Z.lor e m) 1 = true ∧ Z.testbit (Z.lor e m) 7 = false ∧
  Z.testbit (Z.lor e m) 63 = Z.testbit e 63.
Proof.
  destruct (middle_bits m 7 Hm) as (M0 & M1 & M7). destruct (middle_bits m 63 Hm) as (_ & _ & M63).
  rewrite !Z.lor_spec, H0, H7, M0, M1, M7, M63, ?orb_false_r, ?orb_true_r by lia.
  split_and!; try done. apply lor_is_u64; [| apply middle_flag_bits, Hm].
  eapply (t_u64 _ _ _ (vm_tables _ _ _ _ _ Hvm)); done.
Qed.

Lemma old_vm : vm s' root T A F.
Proof.
  destruct old_entry_bits as (Hu & B0 & B1 & B7 & B63).
  destruct (t_next _ _ _ (vm_tables _ _ _ _ _ Hvm) _ _ _ _ Hp Hi ltac:(lia) H0 H7)
    as (Hnext & _ & H63).
  apply (one_entry_vm s root T A F f i _ (S l) n); try done; [by rewrite B7 |].
  intros _ _. rewrite lor_middle_address, B63 by done. done.
Qed.

Lemma old_sim : sim root (S l) s s'.
Proof.
  destruct old_entry_bits as (Hu & B0 & B1 & B7 & B63).
  apply (sim_of_steps _ _ _ _ T (vm_tables _ _ _ _ _ Hvm)). intros q lq nq j Hq Hj.
  rewrite (one_entry_ent s root T A F f i _ (S l) n Hvm Hp Hi q _ j Hq Hj).
  case_decide as Hd; [| by constructor]. destruct Hd as [-> <-]. simplify_eq.
  apply entry_flags; [lia | lia | done.. | by apply lor_middle_address].
Qed.

End OldTable.

(** ** [ensure_table] *)

(** What a step down to level [l] promises: the table [q] is there, from at most
    one frame, and no translation has changed. *)
Definition stepped s root A F v k l (Q : Z → machine → Prop) : Prop :=
  ∀ s' T' F' q, touches A s s' → vm s' root T' A F' → F' ⊆ F →
    (size F + missing s' k 4 root v ≤ size F' + missing s k 4 root v)%nat →
    sim root (S l) s s' →
    (∀ j w, pre l w ≠ pre l v → slot_taken s' j 4 root w = slot_taken s j 4 root w) →
    reach s' root v l q → 0 < hhdm s' + q → Q (hhdm s' + q) s'.

(** The table exists. *)
Lemma wp_ensure_old s root T A F v k l f m (Q : Z → machine → Prop) :
  vm s root T A F → middle m → l ≠ 0%nat → (k ≤ l)%nat → reach s root v (S l) (4096 * f) → f ∈ A →
  Z.testbit (ent s (4096 * f) (lidx (S l) v)) 0 = true →
  Z.testbit (ent s (4096 * f) (lidx (S l) v)) 7 = false → stepped s root A F v k l Q →
  let entry := hhdm s + 4096 * f + 8 * lidx (S l) v in
  wp (store64 entry (Z.lor (ent s (4096 * f) (lidx (S l) v)) m) ;;
      let! e' := load64 entry in Pmm.physical_to_virtual (page_entry_address e')) Q s.
Proof.
  intros Hvm Hm Hl0 Hk Hr HfA H0 H7 HQ entry. pose proof (vm_tables _ _ _ _ _ Hvm) as Ht.
  pose proof (reach_label _ _ _ _ _ _ Ht Hr) as Hlb. pose proof (lidx_range (S l) v) as Hi.
  pose proof (t_level _ _ _ Ht _ _ _ Hlb) as Hlev.
  destruct (one_entry_addr s root T A F f _ 0 (S l) _ Hvm Hlb Hi) as (Hok & _).
  destruct (t_next _ _ _ Ht _ _ _ _ Hlb Hi ltac:(lia) H0 H7) as (Hnext & _ & _).
  apply wp_bind, wp_store64; [done |]. apply wp_bind, wp_load64; [done |]. subst entry.
  rewrite cell_set_cell_eq, lor_middle_address by done.
  pose proof (old_vm s root T A F f _ m l _ Hvm Hm Hl0 Hlb Hi H0 H7) as Hvm'.
  pose proof (old_sim s root T A F f _ m l _ Hvm Hm Hl0 Hlb Hi H0 H7) as Hsim.
  pose proof (sim_reach _ _ _ _ Hsim _ _ _ (reach_next s root v l (4096 * f) Hr Hl0 H0 H7)) as Hreach.
  destruct (vm_table_frame _ _ _ _ _ _ _ Hvm' Hnext) as (g & Hg & HgA & _). rewrite Hg in *.
  pose proof (frame_bounds _ _ _ 0 (vm_layout _ _ _ _ _ Hvm') HgA) as (? & ? & _); [lia |].
  eapply physical_to_virtual_frame; [apply (vm_layout _ _ _ _ _ Hvm') | done |].
  apply HQ with T F; try done; [by apply touches_store, held_entry |
    pose proof (sim_missing _ _ _ _ Hsim k v); lia | | lia].
  intros j w Hw. apply (one_entry_taken_other s root T A F f _ _ (S l) _ Hvm Hlb Hi).
  rewrite (pre_step l v) in Hw by lia. by replace (S l - 1)%nat with l by lia.
Qed.

(** It is missing, and a frame is free. *)
Lemma wp_ensure_new s root T A F v k l f m (Q : Z → machine → Prop) :
  vm s root T A F → middle m → l ≠ 0%nat → (k ≤ l)%nat → reach s root v (S l) (4096 * f) → f ∈ A →
  (missing s k 4 root v ≤ size F)%nat →
  Z.testbit (ent s (4096 * f) (lidx (S l) v)) 0 = false → stepped s root A F v k l Q →
  wp (let! table := allocate_table in
      match table with
      | None => ret 0
      | Some t =>
          store64 (hhdm s + 4096 * f + 8 * lidx (S l) v) (make_page_entry (physical t) m) ;;
          ret (virtual_address t)
      end) Q s.
Proof.
  intros Hvm Hm Hl0 Hk Hr HfA Hsz H0 HQ. pose proof (vm_tables _ _ _ _ _ Hvm) as Ht.
  pose proof (reach_label _ _ _ _ _ _ Ht Hr) as Hlb. pose proof (lidx_range (S l) v) as Hi.
  pose proof (t_level _ _ _ Ht _ _ _ Hlb) as Hlev.
  destruct (one_entry_addr s root T A F f _ 0 (S l) _ Hvm Hlb Hi) as (Hok & _).
  apply wp_bind, wp_allocate_table with A F; try apply Hvm.
  { intros ->. rewrite size_empty, (reach_missing _ _ _ _ _ _ Hr) in Hsz by lia.
    cbn [missing] in Hsz. rewrite H0 in Hsz. destruct (Nat.leb_spec (S l) k); simpl in Hsz; lia. }
  intros g s1 [Hg _] Hto Hb1 Hc1 Hz Hkp. pose proof (touches_env _ _ _ Hto) as He1.
  apply wp_bind, wp_store64; [by rewrite <- (addr_ok_same_env _ _ He1 _ _ eq_refl) |].
  apply wp_ret. cbn [physical virtual_address].
  pose proof (new_hhdm s s1 root T A F f _ g m l _ Hvm Hm Hl0 Hlb Hi H0 Hg He1 Hb1 Hc1 Hz Hkp) as Hh.
  destruct (new_g s s1 root T A F f _ g m l _ Hvm Hm Hl0 Hlb Hi H0 Hg He1 Hb1 Hc1 Hz Hkp)
    as (_ & _ & Hpos).
  set (s' := set_cell _ (make_page_entry (4096 * g) m) s1).
  rewrite <- Hh. change (hhdm s1) with (hhdm s'). eapply (HQ s').
  - etrans; [exact Hto |]. subst s'. rewrite <- Hh. by apply touches_store, held_entry.
  - by eapply new_vm.
  - set_solver.
  - by eapply new_missing.
  - by eapply new_sim.
  - intros j w Hw. eapply new_taken_other; try done. by rewrite <- (pre_step l v) by lia.
  - by eapply new_reach.
  - change (hhdm s') with (hhdm s1). by rewrite Hh.
Qed.

(** A level is created only when it is missing, from one frame: what the path
    still lacks and the frames spent add up. *)
Lemma wp_ensure_table s root T A F v k l p m (Q : Z → machine → Prop) :
  vm s root T A F → middle m → reach s root v (S l) p → l ≠ 0%nat → (k ≤ l)%nat →
  (missing s k 4 root v ≤ size F)%nat →
  (Z.testbit (ent s p (lidx (S l) v)) 0 = true → Z.testbit (ent s p (lidx (S l) v)) 7 = true →
     Q 0 s) →
  stepped s root A F v k l Q →
  wp (ensure_table (entry_at (hhdm s + p) (lidx (S l) v)) m) Q s.
Proof.
  intros Hvm Hm Hr Hl0 Hk Hsz Hhuge HQ. pose proof (vm_tables _ _ _ _ _ Hvm) as Ht.
  pose proof (reach_label _ _ _ _ _ _ Ht Hr) as Hlb. pose proof (lidx_range (S l) v) as Hi.
  destruct (vm_table_frame _ _ _ _ _ _ _ Hvm Hlb) as (f & -> & HfA & _).
  destruct (one_entry_addr s root T A F f _ 0 (S l) _ Hvm Hlb Hi) as (Hok & Hea & _).
  rewrite Hea. unfold ensure_table. apply wp_bind, wp_load64; [done |].
  change (cell s (hhdm s + 4096 * f + 8 * lidx (S l) v)) with (ent s (4096 * f) (lidx (S l) v)).
  rewrite huge_test, negb_involutive, present_test.
  destruct (Z.testbit (ent s (4096 * f) (lidx (S l) v)) 7) eqn:H7;
    destruct (Z.testbit (ent s (4096 * f) (lidx (S l) v)) 0) eqn:H0; cbn [negb].
  - by apply wp_ret, Hhuge.
  - rewrite (t_absent _ _ _ Ht _ _ _ Hlb Hi H0) in H7. done.
  - by apply (wp_ensure_old s root T A F v k l f m).
  - by apply (wp_ensure_new s root T A F v k l f m).
Qed.

End WithDevice.
