(* ===== verification/VmmMap.v ===== *)
(** What [map_page], [map_page_large], [create_address_space] and
    [translate] do, as rules over the page-table invariant: a mapping changes
    the translations of its own page and of nothing else, refuses to replace
    one, and [translate] computes the specification [walk]. *)

From Stdlib Require Import ZArith Lia.
From stdpp Require Import base numbers list gmap sets fin_sets.
From S2P Require Import Prelude Descriptors Machine Serial Print Pmm PmmInv PmmInit Paging Mmu Vmm VmmInv VmmSteps.
Import Vmm.
Local Open Scope Z_scope.

(** ** Argument checks *)

Lemma low_bits_test x k : 0 <= k → (Z.land x (2 ^ k - 1) =? 0) = (x mod 2 ^ k =? 0).
Proof. intros. by rewrite land_low_mask. Qed.

Lemma page_offset_test x : (Z.land x (kPageSize - 1) =? 0) = (x mod 4096 =? 0).
Proof. exact (low_bits_test x 12 ltac:(lia)). Qed.

Lemma large_offset_test x : (Z.land x (kLargePageSize - 1) =? 0) = (x mod 2097152 =? 0).
Proof. exact (low_bits_test x 21 ltac:(lia)). Qed.

(** [phys & ~kPhysicalAddressMask], for a page-aligned address. *)
Lemma address_bits_test x : is_u64 x → x mod 4096 = 0 →
  (Z.land x (u64 (Z.lnot kPhysicalAddressMask)) =? 0) = (x <? 2 ^ 52).
Proof.
  intros Hu Hx. rewrite land_u64_r by done.
  assert (Z.land x (Z.lnot kPhysicalAddressMask) = x - Z.land x kPhysicalAddressMask) as ->.
  { rewrite <- Z.ldiff_land.
    assert (Z.land (Z.ldiff x kPhysicalAddressMask) (Z.land x kPhysicalAddressMask) = 0) as Hz.
    { apply Z.bits_inj'. intros n Hn. rewrite !Z.land_spec, Z.ldiff_spec, Z.testbit_0_l.
      by destruct (Z.testbit x n), (Z.testbit kPhysicalAddressMask n). }
    pose proof (Z.add_nocarry_lxor _ _ Hz) as Hadd. rewrite (Z.lxor_lor _ _ Hz) in Hadd.
    rewrite <- (Z.lor_ldiff_and x kPhysicalAddressMask) at 2. lia. }
  rewrite land_address_mask, Hx. change (2 ^ 52) with 4503599627370496. unfold is_u64 in *.
  destruct (Z.eqb_spec (x - (x mod 4503599627370496 - 0)) 0), (Z.ltb_spec x 4503599627370496);
    try done; exfalso; dlia.
Qed.

(** The arguments of a mapping of pages of [2 ^ k] bytes. *)
Definition args_ok (k virt phys flags : Z) : Prop :=
  is_canonical virt = true ∧ virt mod 2 ^ k = 0 ∧ phys mod 2 ^ k = 0 ∧ 0 <= phys < 2 ^ 52 ∧
  flag_bits flags ∧ Z.testbit flags 7 = false.

Definition leaf_flags (flags : Z) : Z := PageFlags.or flags PageFlags.Present.
Definition large_flags (flags : Z) : Z :=
  PageFlags.or (PageFlags.or flags PageFlags.Present) PageFlags.Huge.

Lemma leaf_flags_spec flags : flag_bits flags → flag_bits (leaf_flags flags) ∧
  Z.testbit (leaf_flags flags) 0 = true ∧
  (∀ n, n ≠ 0 → Z.testbit (leaf_flags flags) n = Z.testbit flags n).
Proof.
  intros [Hu Hm]. unfold leaf_flags, PageFlags.or, PageFlags.Present. split_and!.
  - split; [apply lor_is_u64; [done | by unfold is_u64] |].
    by rewrite Z.land_lor_distr_l, Hm.
  - by rewrite set_bit_spec, orb_true_r by lia.
  - intros n Hn. rewrite set_bit_spec by lia.
    by rewrite (proj2 (Z.eqb_neq _ _) Hn), orb_false_r.
Qed.

Lemma large_flags_spec flags : flag_bits flags → flag_bits (large_flags flags) ∧
  Z.testbit (large_flags flags) 0 = true ∧ Z.testbit (large_flags flags) 7 = true ∧
  (∀ n, n ≠ 0 → n ≠ 7 → Z.testbit (large_flags flags) n = Z.testbit flags n).
Proof.
  intros Hf. destruct (leaf_flags_spec flags Hf) as ([Hu Hm] & H0 & Hn).
  change (large_flags flags) with (Z.lor (leaf_flags flags) PageFlags.Huge).
  unfold PageFlags.Huge. split_and!.
  - split; [apply lor_is_u64; [done | by unfold is_u64] |].
    by rewrite Z.land_lor_distr_l, Hm.
  - by rewrite set_bit_spec, H0 by lia.
  - by rewrite set_bit_spec, orb_true_r by lia.
  - intros n Hn0 Hn7. rewrite set_bit_spec by lia.
    by rewrite (proj2 (Z.eqb_neq _ _) Hn7), orb_false_r, Hn.
Qed.

(** [map_page_large] sets [Huge] itself, so it is the same with or without it in
    its argument. *)
Definition without_huge (flags : Z) : Z := Z.clearbit flags 7.

Lemma without_huge_spec flags : flag_bits flags →
  flag_bits (without_huge flags) ∧ Z.testbit (without_huge flags) 7 = false.
Proof.
  intros [Hu Hm]. unfold without_huge. split; [split |].
  - rewrite Z.clearbit_spec', Z.ldiff_land. by apply land_is_u64_l.
  - rewrite Z.clearbit_spec', Z.ldiff_land, <- Z.land_assoc, (Z.land_comm (Z.lnot _)), Z.land_assoc, Hm.
    apply Z.land_0_l.
  - by rewrite Z.clearbit_eq.
Qed.

Lemma large_flags_huge flags : large_flags (without_huge flags) = large_flags flags.
Proof.
  unfold large_flags, without_huge, PageFlags.or, PageFlags.Present, PageFlags.Huge.
  apply Z.bits_inj'. intros n Hn. rewrite !Z.lor_spec, Z.clearbit_eqb by lia.
  destruct (Z.eqb_spec 7 n) as [<- |]; [by rewrite !orb_true_r | by rewrite andb_true_r].
Qed.

Lemma intermediate_flags_huge flags : intermediate_flags (without_huge flags) = intermediate_flags flags.
Proof. rewrite !intermediate_flags_cases. unfold without_huge. by rewrite Z.clearbit_neq. Qed.

Section WithDevice.
Context {PD : PortDevice}.
Implicit Types (s : machine) (F A : gset Z) (T : gmap Z (nat * Z)).

(** ** The last step of a mapping *)

Lemma wp_write_leaf s root T A F w l p e' (Q : bool → machine → Prop) :
  vm s root T A F → reach s root w l p → is_u64 e' → Z.testbit e' 0 = true →
  (l = 1%nat ∨ (l = 2)%nat ∧ Z.testbit e' 7 = true) →
  (Z.testbit (ent s p (lidx l w)) 0 = true → Q false s) →
  (Z.testbit (ent s p (lidx l w)) 0 = false → ∀ s', touches A s s' → vm s' root T A F →
     (∀ v, walk s' 4 root v =
        if decide (pre (l - 1) v = pre (l - 1) w) then Some (l, e') else walk s 4 root v) →
     (∀ k v, pre (l - 1) v ≠ pre (l - 1) w →
        slot_taken s' k 4 root v = slot_taken s k 4 root v) →
     (∀ v k q, (l ≤ k)%nat → reach s root v k q → reach s' root v k q) →
     Q true s') →
  wp (let! e := load64 (entry_at (hhdm s + p) (lidx l w)) in
      if negb (Z.land e PageFlags.Present =? 0) then ret false
      else store64 (entry_at (hhdm s + p) (lidx l w)) e' ;; ret true) Q s.
Proof.
  intros Hvm Hr Hu H0 Hl Hbad Hgood. pose proof (vm_tables _ _ _ _ _ Hvm) as Ht.
  pose proof (reach_label _ _ _ _ _ _ Ht Hr) as Hlb. pose proof (lidx_range l w) as Hi.
  destruct (vm_table_frame _ _ _ _ _ _ _ Hvm Hlb) as (f & -> & HfA & HfF).
  destruct (one_entry_addr s root T A F f _ 0 l _ Hvm Hlb Hi) as (Hok & Hea & _). rewrite Hea.
  apply wp_bind, wp_load64; [done |].
  change (cell s (hhdm s + 4096 * f + 8 * lidx l w)) with (ent s (4096 * f) (lidx l w)).
  rewrite present_test, negb_involutive.
  destruct (Z.testbit (ent s (4096 * f) (lidx l w)) 0); [by apply wp_ret, Hbad |].
  apply wp_bind, wp_store64; [done |].
  apply wp_ret, Hgood; [done | by apply touches_store, held_entry | | | |].
  - apply (one_entry_vm s root T A F f _ e' l _ Hvm Hlb Hi); [done.. | |].
    + intros Hl1 _. lia.
    + intros Hl1 H7. destruct Hl as [-> | [_ ?]]; [lia | congruence].
  - intros v. apply (one_entry_leaf s root T A F f _ e' l _ Hvm Hlb Hi); [done.. |].
    destruct Hl as [-> | [-> ?]]; [by left | right; split; [lia | done]].
  - intros k v Hv. apply (one_entry_taken_other s root T A F f _ e' l _ Hvm Hlb Hi).
    replace (pre l w * 512 + lidx l w) with (pre (l - 1) w); [done |].
    rewrite (pre_step (l - 1)) by lia. by replace (S (l - 1)) with l by lia.
  - intros v k q. apply (one_entry_reach s root T A F f _ e' l _ Hvm Hlb Hi).
Qed.

(** *** Occupied slots *)

Lemma reach_taken s root w l p k : (k ≤ l)%nat → reach s root w l p →
  slot_taken s k 4 root w = slot_taken s k l p w.
Proof.
  intros Hk Hr. induction Hr as [| l p _ IH Hl H0 H7]; [done |].
  rewrite IH by lia. cbn [slot_taken]. rewrite H0, H7. cbn [negb]. rewrite orb_false_r.
  destruct (Nat.eqb_spec (S l) k); [lia | done].
Qed.

Lemma slot_taken_here s k p w : (1 ≤ k)%nat →
  slot_taken s k k p w = Z.testbit (ent s p (lidx k w)) 0.
Proof.
  intros Hk. destruct k as [| k]; [lia |]. cbn [slot_taken]. rewrite Nat.eqb_refl.
  by destruct (Z.testbit _ 0).
Qed.

Lemma slot_taken_huge s root w l p k : (k ≤ S l)%nat → reach s root w (S l) p →
  Z.testbit (ent s p (lidx (S l) w)) 0 = true → Z.testbit (ent s p (lidx (S l) w)) 7 = true →
  slot_taken s k 4 root w = true.
Proof.
  intros Hk Hr H0 H7. rewrite (reach_taken _ _ _ _ _ _ Hk Hr). cbn [slot_taken].
  by rewrite H0, H7, orb_true_r.
Qed.

(** A 4 KiB slot is taken exactly when its address translates. *)
Lemma slot_taken_walk s root T v : tables s root T →
  slot_taken s 1 4 root v = true ↔ walk s 4 root v ≠ None.
Proof.
  intros Ht. assert (∀ l p n, T !! p = Some (l, n) →
    slot_taken s 1 l p v = true ↔ walk s l p v ≠ None) as H; [| eapply H, Ht].
  induction l as [| l IH]; intros p n Hp; [done |]. cbn [slot_taken walk].
  pose proof (lidx_range (S l) v) as Hi.
  destruct (Z.testbit (ent s p (lidx (S l) v)) 0) eqn:H0; [| done]. cbn [negb].
  destruct (Nat.eqb_spec (S l) 1) as [| Hl]; [done |].
  destruct (Z.testbit (ent s p (lidx (S l) v)) 7) eqn:H7; cbn [orb andb].
  - pose proof (t_huge _ _ _ Ht _ _ _ _ Hp Hi ltac:(lia) H0 H7).
    by rewrite (proj2 (Nat.leb_le (S l) 3)).
  - destruct (t_next _ _ _ Ht _ _ _ _ Hp Hi ltac:(lia) H0 H7) as [Hn _].
    replace (S l - 1)%nat with l in Hn by lia. eapply IH, Hn.
Qed.

(** A slot depends on the bits above it alone. *)
Lemma pre_up l v w : (l ≤ 3)%nat → pre l v = pre l w →
  pre (S l) v = pre (S l) w ∧ lidx (S l) v = lidx (S l) w.
Proof.
  intros Hl. rewrite !(pre_step l) by done.
  pose proof (lidx_range (S l) v). pose proof (lidx_range (S l) w). lia.
Qed.

Lemma pre_above k v w : pre k v = pre k w → ∀ n, (k + n ≤ 4)%nat → pre (k + n) v = pre (k + n) w.
Proof.
  intros Hp n. induction n as [| n IH]; intros Hn; [by rewrite Nat.add_0_r |].
  rewrite Nat.add_succ_r. apply pre_up; [lia | apply IH; lia].
Qed.

(** No table is there for nothing: a page-directory entry in use has a page
    mapped below it. *)
Definition tidy s (root : Z) : Prop :=
  ∀ v, slot_taken s 2 4 root v = true → ∃ w, pre 1 w = pre 1 v ∧ walk s 4 root w ≠ None.

(** ** Going down the levels *)

(** Half way through a mapping of [virt] in [s]: in [s'] the tables down to
    level [l] are there, [q] being the last, no translation has changed, and
    every frame spent made a table that was missing. *)
Record descent (k : nat) root A s F virt (l : nat) (q : Z) s' T' F' : Prop := {
  ds_env : touches A s s';
  ds_vm : vm s' root T' A F';
  ds_sub : F' ⊆ F;
  ds_cost : (size F + missing s' k 4 root virt ≤ size F' + missing s k 4 root virt)%nat;
  ds_sim : sim root (S l) s s';
  ds_apart : ∀ v, pre l v ≠ pre l virt →
    slot_taken s' (S l) 4 root v = slot_taken s (S l) 4 root v;
  ds_reach : reach s' root virt l q;
  ds_pos : (hhdm s' + q =? 0) = false
}.

Lemma root_nonzero s root T A F : vm s root T A F → (hhdm s + root =? 0) = false.
Proof.
  intros Hvm.
  destruct (vm_table_frame _ _ _ _ _ _ _ Hvm (t_root _ _ _ (vm_tables _ _ _ _ _ Hvm)))
    as (f & -> & HfA & _).
  pose proof (frame_bounds _ _ _ 0 (vm_layout _ _ _ _ _ Hvm) HfA) as (Hh & Hf0 & _); lia.
Qed.

Lemma descent_start k s root T A F virt : vm s root T A F → descent k root A s F virt 4 root s T F.
Proof. intros Hvm. split; try done. - constructor. - by eapply root_nonzero. Qed.

Lemma wp_descend k root A s F virt l q s1 T1 F1 m (Q : Z → machine → Prop) :
  descent k root A s F virt (S l) q s1 T1 F1 → middle m → l ≠ 0%nat → (1 ≤ k ≤ l)%nat →
  (missing s k 4 root virt ≤ size F)%nat →
  (slot_taken s k 4 root virt = true → Q 0 s1) →
  (∀ s2 T2 F2 q2, descent k root A s F virt l q2 s2 T2 F2 → Q (hhdm s2 + q2) s2) →
  wp (ensure_table (entry_at (hhdm s1 + q) (lidx (S l) virt)) m) Q s1.
Proof.
  intros [E1 V1 S1 N1 M1 A1 R1 P1] Hm Hl Hk Hsz Hbad Hgood.
  apply (wp_ensure_table s1 root T1 A F1 virt k l q); [done.. | lia | lia | |].
  - intros H0 H7. apply Hbad. rewrite <- (sim_taken _ _ _ _ M1) by lia.
    by apply (slot_taken_huge s1 root virt l q); [lia | ..].
  - intros s2 T2 F2 q2 E2 V2 S2 N2 M2 A2 R2 P2. apply Hgood with T2 F2. split; try done.
    + by etrans.
    + set_solver.
    + lia.
    + eapply sim_trans; [| exact M2]. eapply sim_mono; [| exact M1]. lia.
    + intros v Hv. rewrite A2 by done. apply M1. lia.
    + lia.
Qed.

(** The tables made on the way down are on the path of [virt] only. *)
Lemma descent_apart k root A s F virt l q s1 T1 F1 v :
  descent k root A s F virt l q s1 T1 F1 → (1 ≤ l)%nat → pre 1 v ≠ pre 1 virt →
  slot_taken s1 2 4 root v = slot_taken s 2 4 root v.
Proof.
  intros [E V S N M Ap R P] Hl Hv. destruct (decide (l = 1%nat)) as [-> |]; [by apply Ap |].
  apply M. lia.
Qed.

(** ** The outcomes of a page mapping *)

Record page_refused (lv : nat) root A s F virt s' : Prop := {
  pr_env : touches A s s';
  pr_vm : ∃ T' F', vm s' root T' A F' ∧ F' ⊆ F ∧
    (size F ≤ size F' + missing s lv 4 root virt)%nat;
  pr_taken : slot_taken s lv 4 root virt = true;
  pr_tidy : tidy s root → tidy s' root;
  pr_walk : ∀ v, walk s' 4 root v = walk s 4 root v
}.

Record page_mapped (lv : nat) (e : Z) root A s F virt s' : Prop := {
  pm_env : touches A s s';
  pm_vm : ∃ T' F', vm s' root T' A F' ∧ F' ⊆ F ∧
    (size F ≤ size F' + missing s lv 4 root virt)%nat;
  pm_free : slot_taken s lv 4 root virt = false;
  pm_tidy : tidy s root → tidy s' root;
  pm_walk : ∀ v, walk s' 4 root v =
    if decide (pre (lv - 1) v = pre (lv - 1) virt) then Some (lv, e) else walk s 4 root v;
  pm_slots : ∀ v, pre (lv - 1) v ≠ pre (lv - 1) virt →
    slot_taken s' lv 4 root v = slot_taken s lv 4 root v;
  pm_reach : ∃ q, reach s' root virt lv q
}.

Lemma descent_refused lv root A s F virt l q s1 T1 F1 :
  descent lv root A s F virt l q s1 T1 F1 → (1 ≤ lv ≤ l)%nat → slot_taken s lv 4 root virt = true →
  page_refused lv root A s F virt s1.
Proof.
  intros Hd Hl Ht. pose proof Hd as [E V S N M Ap R P]. split; [done | | done | | apply M].
  { exists T1, F1. split_and!; [done.. | lia]. }
  intros Htidy v Hv. destruct (decide (pre 1 v = pre 1 virt)) as [Hp | Hp].
  - destruct (decide (l = 1%nat)) as [-> |].
    + exists virt. split; [done |]. apply (slot_taken_walk s1 root T1); [apply V |].
      rewrite (sim_taken _ _ _ _ M) by lia. by assert (lv = 1%nat) as -> by lia.
    + rewrite (sim_taken _ _ _ _ M) in Hv by lia. destruct (Htidy v Hv) as (w & Hw & Hx).
      exists w. by rewrite (sim_walk _ _ _ _ M).
  - rewrite (descent_apart _ _ _ _ _ _ _ _ _ _ _ _ Hd) in Hv by (done || lia).
    destruct (Htidy v Hv) as (w & Hw & Hx). exists w. by rewrite (sim_walk _ _ _ _ M).
Qed.

Lemma wp_last_step lv root A s F virt q s1 T1 F1 e (Q : bool → machine → Prop) :
  descent lv root A s F virt lv q s1 T1 F1 → is_u64 e → Z.testbit e 0 = true →
  (lv = 1%nat ∨ (lv = 2)%nat ∧ Z.testbit e 7 = true) →
  (∀ s', page_refused lv root A s F virt s' → Q false s') →
  (∀ s', page_mapped lv e root A s F virt s' → Q true s') →
  wp (let! e1 := load64 (entry_at (hhdm s1 + q) (lidx lv virt)) in
      if negb (Z.land e1 PageFlags.Present =? 0) then ret false
      else store64 (entry_at (hhdm s1 + q) (lidx lv virt)) e ;; ret true) Q s1.
Proof.
  intros Hd Hu H0 Hlv Hbad Hgood. pose proof Hd as [E V S N M Ap R P].
  assert (slot_taken s lv 4 root virt = Z.testbit (ent s1 q (lidx lv virt)) 0) as Htk.
  { rewrite <- (sim_taken _ _ _ _ M) by lia.
    rewrite (reach_taken s1 root virt lv q lv) by done. apply slot_taken_here. lia. }
  apply (wp_write_leaf s1 root T1 A F1 virt lv q); try done.
  - intros He. apply Hbad. eapply descent_refused; [done | lia | congruence].
  - intros He s2 E2 V2 W2 K2 R2. apply Hgood. split; [by etrans | | congruence | | | |].
    + exists T1, F1. split_and!; [done.. | lia].
    + intros Htidy v Hv. destruct (decide (pre 1 v = pre 1 virt)) as [Hp | Hp].
      { exists virt. split; [done |]. by rewrite W2, decide_True. }
      assert (∀ w, pre 1 w = pre 1 v → pre (lv - 1) w ≠ pre (lv - 1) virt) as Hne.
      { intros w Hw Heq. apply Hp. rewrite <- Hw. destruct Hlv as [-> | [-> _]]; [| done].
        by apply (pre_up 0); [lia |]. }
      rewrite K2, (descent_apart _ _ _ _ _ _ _ _ _ _ _ _ Hd) in Hv by (done || lia || by apply Hne).
      destruct (Htidy v Hv) as (w & Hw & Hx). exists w.
      rewrite W2, decide_False, (sim_walk _ _ _ _ M) by auto. done.
    + intros v. rewrite W2. case_decide; [done | apply M].
    + intros v Hv. rewrite K2 by done. apply M. lia.
    + eauto.
Qed.

(** One level of a mapping, with the test that follows it in the code. *)
Ltac descend Hd :=
  apply wp_bind; eapply (wp_descend _ _ _ _ _ _ _ _ _ _ _ _ _ Hd); [done | done | lia | done |
    let Ht := fresh in intros Ht; apply wp_ret;
    match goal with Hbad : _ |- _ => eapply Hbad, descent_refused; [exact Hd | lia | exact Ht] end |];
  clear Hd; intros ? ? ? ? Hd; rewrite (ds_pos _ _ _ _ _ _ _ _ _ _ _ Hd).

(** ** [map_page] *)

Lemma wp_map_page s root T A F virt phys flags (Q : bool → machine → Prop) :
  vm s root T A F → args_ok 12 virt phys flags → (missing s 1 4 root virt ≤ size F)%nat →
  (∀ s', page_refused 1 root A s F virt s' → Q false s') →
  (∀ s', page_mapped 1 (make_page_entry phys (leaf_flags flags)) root A s F virt s' → Q true s') →
  wp (map_page (hhdm s + root) virt phys flags) Q s.
Proof.
  intros Hvm (Hcan & Hva & Hpa & Hp52 & Hfl & Hf7) Hsz Hbad Hgood.
  change (2 ^ 12) with 4096 in *. assert (is_u64 phys) as Hpu by (unfold is_u64; lia).
  unfold map_page. rewrite (root_nonzero _ _ _ _ _ Hvm), Hcan, !page_offset_test, Hva, Hpa, Z.eqb_refl.
  cbn [negb]. rewrite address_bits_test, (proj2 (Z.ltb_lt _ _)) by (done || lia). cbn [negb].
  rewrite huge_test, Hf7. cbn [negb]. rewrite decompose_lidx.
  cbn [pml4_index pdpt_index pd_index pt_index].
  pose proof (intermediate_flags_middle flags) as Hm.
  pose proof (descent_start 1 s root T A F virt Hvm) as Hd. do 3 descend Hd.
  destruct (leaf_flags_spec flags Hfl) as ([Hlu Hlm] & H0 & _).
  assert (page_address phys) as Hpage by (split; [lia | done]).
  eapply (wp_last_step 1); [exact Hd | | | by left | done..].
  - by apply make_page_entry_u64.
  - by rewrite make_page_entry_bit by (done || lia).
Qed.

(** ** [map_page_large] *)

Lemma wp_map_page_large s root T A F virt phys flags (Q : bool → machine → Prop) :
  vm s root T A F → args_ok 21 virt phys flags → (missing s 2 4 root virt ≤ size F)%nat →
  (∀ s', page_refused 2 root A s F virt s' → Q false s') →
  (∀ s', page_mapped 2 (make_page_entry phys (large_flags flags)) root A s F virt s' → Q true s') →
  wp (map_page_large (hhdm s + root) virt phys flags) Q s.
Proof.
  intros Hvm (Hcan & Hva & Hpa & Hp52 & Hfl & Hf7) Hsz Hbad Hgood.
  change (2 ^ 21) with 2097152 in *. assert (is_u64 phys) as Hpu by (unfold is_u64; lia).
  assert (phys mod 4096 = 0) as Hpa' by dlia.
  unfold map_page_large. cbv zeta.
  rewrite (root_nonzero _ _ _ _ _ Hvm), Hcan, !large_offset_test, Hva, Hpa, Z.eqb_refl. cbn [negb].
  rewrite address_bits_test, (proj2 (Z.ltb_lt _ _)) by (done || lia). cbn [negb].
  rewrite decompose_lidx. cbn [pml4_index pdpt_index pd_index pt_index].
  pose proof (intermediate_flags_middle flags) as Hm.
  pose proof (descent_start 2 s root T A F virt Hvm) as Hd. do 2 descend Hd.
  destruct (large_flags_spec flags Hfl) as ([Hlu Hlm] & H0 & H7 & _).
  assert (page_address phys) as Hpage by (split; [lia | done]).
  eapply (wp_last_step 2); [exact Hd | | | | done..].
  - by apply make_page_entry_u64.
  - by rewrite make_page_entry_bit by (done || lia).
  - right. by rewrite make_page_entry_bit by (done || lia).
Qed.

(** An address that translates has its slot taken at every level. *)
Lemma walk_slot_taken s k v : (1 ≤ k)%nat → ∀ l p, (k ≤ l)%nat →
  walk s l p v ≠ None → slot_taken s k l p v = true.
Proof.
  intros Hk l. induction l as [| l IH]; intros p Hl Hw; [lia |]. cbn [slot_taken walk] in *.
  destruct (Z.testbit (ent s p (lidx (S l) v)) 0); [| done]. cbn [negb] in *.
  destruct (Nat.eqb_spec (S l) k) as [| Hne]; [done |]. cbn [orb].
  destruct (Z.testbit (ent s p (lidx (S l) v)) 7); [done |].
  destruct (Nat.eqb_spec (S l) 1); [lia |]. cbn [andb] in Hw. apply IH; [lia | done].
Qed.

Lemma slot_taken_pre s k v w : (1 ≤ k)%nat → pre (k - 1) v = pre (k - 1) w → ∀ l p, (l ≤ 4)%nat →
  (k ≤ l)%nat → slot_taken s k l p v = slot_taken s k l p w.
Proof.
  intros Hk Hp l. induction l as [| l IH]; intros p Hl Hkl; [lia |]. cbn [slot_taken].
  assert (lidx (S l) v = lidx (S l) w) as ->.
  { apply pre_up; [lia |]. replace l with (k - 1 + (l - (k - 1)))%nat by lia.
    apply pre_above; [done | lia]. }
  destruct (Nat.eqb_spec (S l) k) as [| Hne]; [done |]. rewrite IH by lia. done.
Qed.

(** ** [create_address_space] *)

(** A fresh PML4: no address translates and no slot is taken. *)
Lemma wp_create_address_space s A F (Q : option AddressSpace → machine → Prop) :
  bits s F → counted s F → layout s A → F ⊆ A → F ≠ ∅ →
  (∀ s' root T F', touches A s s' → vm s' root T A F' → F' ⊆ F → (size F ≤ size F' + 1)%nat →
     (∀ v, walk s' 4 root v = None) → (∀ k v, slot_taken s' k 4 root v = false) →
     (∃ f, lowest F f ∧ root = 4096 * f) →
     Q (Some (mk_space (hhdm s' + root) root)) s') →
  wp create_address_space Q s.
Proof.
  intros Hb Hc Hl Hsub Hne HQ. apply wp_bind, wp_allocate_table with A F; [done.. |].
  intros f s' [Hf Hlow] He Hb' Hc' Hz _. apply wp_ret. cbn [physical virtual_address].
  assert (hhdm s' = hhdm s) as <- by (apply touches_env, same_env_fields in He; unfold hhdm; tauto).
  apply HQ with {[4096 * f := (4%nat, 0)]} (F ∖ {[f]}); [done | | set_solver | | | |].
  - split; [done.. | by apply (layout_env s); [apply He |] | set_solver | |].
    + assert (∀ p lb, {[4096 * f := (4%nat, 0)]} !! p = Some lb → p = 4096 * f ∧ lb = (4%nat, 0))
        as Hsing by (intros p lb [<- <-]%lookup_singleton_Some; done).
      split; [by rewrite lookup_singleton_eq | ..].
      * intros p l n [-> [= -> ->]]%Hsing. lia.
      * intros p lb i [-> _]%Hsing Hi. rewrite Hz by done. unfold is_u64. lia.
      * intros p lb i [-> _]%Hsing Hi _. by rewrite Hz.
      * intros p l n i [-> _]%Hsing Hi _. by rewrite Hz.
      * intros p l n i [-> _]%Hsing Hi _. by rewrite Hz.
    + intros p lb [<- _]%lookup_singleton_Some.
      rewrite (Z.mul_comm 4096), Z.div_mul, Z.mod_mul by lia. set_solver.
  - rewrite (size_difference F {[f]}), size_singleton by set_solver. lia.
  - intros v. by apply walk_empty.
  - intros k v. by apply taken_empty.
  - by exists f.
Qed.

(** ** [translate] *)

(** What [translate] returns. *)
Definition translation s (root v : Z) : Z :=
  match walk s 4 root v with
  | Some (l, e) => leaf_address l e v
  | None => 0
  end.

Lemma wp_load_entry s root T A F v l p (Q : Z → machine → Prop) :
  vm s root T A F → reach s root v l p → Q (ent s p (lidx l v)) s →
  wp (load64 (entry_at (hhdm s + p) (lidx l v))) Q s.
Proof.
  intros Hvm Hr HQ. pose proof (reach_label _ _ _ _ _ _ (vm_tables _ _ _ _ _ Hvm) Hr) as Hlb.
  destruct (vm_table_frame _ _ _ _ _ _ _ Hvm Hlb) as (f & -> & _ & _).
  destruct (one_entry_addr s root T A F f _ 0 l _ Hvm Hlb (lidx_range l v)) as (Hok & -> & _).
  by apply wp_load64.
Qed.

Lemma wp_next_table s root T A F v l p (Q : Z → machine → Prop) :
  vm s root T A F → reach s root v (S l) p → l ≠ 0%nat →
  Z.testbit (ent s p (lidx (S l) v)) 0 = true → Z.testbit (ent s p (lidx (S l) v)) 7 = false →
  (∀ q, q = page_entry_address (ent s p (lidx (S l) v)) → reach s root v l q → Q (hhdm s + q) s) →
  wp (Pmm.physical_to_virtual (page_entry_address (ent s p (lidx (S l) v)))) Q s.
Proof.
  intros Hvm Hr Hl H0 H7 HQ. pose proof (reach_next s root v l p Hr Hl H0 H7) as Hn.
  pose proof (reach_label _ _ _ _ _ _ (vm_tables _ _ _ _ _ Hvm) Hn) as Hlb.
  specialize (HQ _ eq_refl Hn).
  destruct (vm_table_frame _ _ _ _ _ _ _ Hvm Hlb) as (f & Hf & HfA & _). rewrite Hf in *.
  eapply physical_to_virtual_frame; [apply (vm_layout _ _ _ _ _ Hvm) | done..].
Qed.

Lemma wp_translate s root T A F phys v (Q : Z → machine → Prop) :
  vm s root T A F →
  Q (if is_canonical v then translation s root v else 0) s →
  wp (translate (mk_space (hhdm s + root) phys) v) Q s.
Proof.
  intros Hvm HQ. pose proof (vm_tables _ _ _ _ _ Hvm) as Ht.
  destruct (vm_table_frame _ _ _ _ _ _ _ Hvm (t_root _ _ _ Ht)) as (f & Hf & HfA & _).
  pose proof (frame_bounds _ _ _ 0 (vm_layout _ _ _ _ _ Hvm) HfA) as (Hh & Hf0 & _); [lia |].
  unfold translate. cbn [pml4]. destruct (Z.eqb_spec (hhdm s + root) 0); [lia |].
  destruct (is_canonical v); cbn [negb]; [| by apply wp_ret].
  rewrite decompose_lidx. cbn [pml4_index pdpt_index pd_index pt_index].
  unfold translation in HQ. cbn [walk] in HQ.
  assert (reach s root v 4 root) as R4 by constructor.
  apply wp_bind, (wp_load_entry s root T A F); [done.. |]. rewrite present_test.
  set (e4 := ent s root (lidx 4 v)) in *. destruct (Z.testbit e4 0) eqn:P4; cbn [negb] in *;
    [| by apply wp_ret].
  assert (Z.testbit e4 7 = false) as G4.
  { destruct (Z.testbit e4 7) eqn:G; [| done].
    pose proof (t_huge _ _ _ Ht _ _ _ _ (t_root _ _ _ Ht) (lidx_range 4 v) ltac:(lia) P4 G). lia. }
  rewrite G4 in HQ. cbn [Nat.eqb andb] in HQ.
  apply wp_bind, (wp_next_table s root T A F v 3 root); [done.. |]. fold e4. intros q3 -> R3.
  apply wp_bind, (wp_load_entry s root T A F); [done.. |]. rewrite present_test.
  set (e3 := ent s (page_entry_address e4) (lidx 3 v)) in *.
  destruct (Z.testbit e3 0) eqn:P3; cbn [negb] in *; [| by apply wp_ret].
  rewrite huge_test, negb_involutive, land_0x3FFFFFFF.
  destruct (Z.testbit e3 7) eqn:G3; cbn [Nat.eqb andb Nat.leb] in HQ; [by apply wp_ret |].
  apply wp_bind, (wp_next_table s root T A F v 2 (page_entry_address e4)); [done.. |].
  fold e3. intros q2 -> R2.
  apply wp_bind, (wp_load_entry s root T A F); [done.. |]. rewrite present_test.
  set (e2 := ent s (page_entry_address e3) (lidx 2 v)) in *.
  destruct (Z.testbit e2 0) eqn:P2; cbn [negb] in *; [| by apply wp_ret].
  rewrite huge_test, negb_involutive, land_0x1FFFFF.
  destruct (Z.testbit e2 7) eqn:G2; cbn [Nat.eqb andb Nat.leb] in HQ; [by apply wp_ret |].
  apply wp_bind, (wp_next_table s root T A F v 1 (page_entry_address e3)); [done.. |].
  fold e2. intros q1 -> R1.
  apply wp_bind, (wp_load_entry s root T A F); [done.. |]. rewrite present_test.
  rewrite land_0xFFF. set (e1 := ent s (page_entry_address e2) (lidx 1 v)) in *.
  destruct (Z.testbit e1 0) eqn:P1; cbn [negb Nat.eqb] in *; by apply wp_ret.
Qed.

End WithDevice.
