(* ===== verification/VmmRange.v ===== *)
(** Mapping a range: [map_range] and [map_range_large] repeat a page mapping
    over a range.  The loop is proved once, against [PageMapper], the contract
    that [map_page] and [map_page_large] both meet. *)

From Stdlib Require Import ZArith Lia.
From stdpp Require Import base numbers list gmap sets fin_sets.
From S2P Require Import Prelude Descriptors Machine Serial Print Pmm PmmInv PmmInit Paging Mmu Vmm VmmInv VmmSteps VmmMap.
Import Vmm.
Local Open Scope Z_scope.

(** ** Pages *)

(** The size of the pages whose leaves sit at level [lv]. *)
Definition psize (lv : nat) : Z := 2 ^ shift lv.

Lemma psize_1 : psize 1 = 4096. Proof. done. Qed.
Lemma psize_2 : psize 2 = 2097152. Proof. done. Qed.

(** A canonical 64-bit address. *)
Definition canonical (v : Z) : Prop := is_u64 v ∧ is_canonical v = true.

Lemma canonical_cases v : canonical v ↔ 0 <= v < 2 ^ 47 ∨ two64 - 2 ^ 47 <= v < two64.
Proof.
  unfold canonical. split.
  - intros [Hu Hc]. apply is_canonical_iff in Hc; [| done]. unfold is_u64, two64 in *. lia.
  - intros Hv. assert (is_u64 v) as Hu by (unfold is_u64, two64 in *; lia).
    split; [done |]. apply is_canonical_iff; [done | lia].
Qed.

(** Canonical addresses agree on the bits a walk decodes exactly when they
    lie in the same page. *)
Lemma pre_canonical lv a b : lv = 1%nat ∨ lv = 2%nat → canonical a → canonical b →
  pre (lv - 1) a = pre (lv - 1) b ↔ a / psize lv = b / psize lv.
Proof.
  rewrite !canonical_cases. unfold pre, two64. change (2 ^ 47) with 140737488355328.
  change (2 ^ 48) with 281474976710656.
  intros [-> | ->] Ha Hb; simpl; rewrite ?psize_1, ?psize_2;
    [change (2 ^ shift 1) with 4096 | change (2 ^ shift 2) with 2097152].
  - assert (∀ v, 0 <= v < 140737488355328 ∨
      18446744073709551616 - 140737488355328 <= v < 18446744073709551616 →
      (v mod 281474976710656) / 4096 = (v / 4096) mod 68719476736) as E by (intros; dlia).
    rewrite !E by done. dlia.
  - assert (∀ v, 0 <= v < 140737488355328 ∨
      18446744073709551616 - 140737488355328 <= v < 18446744073709551616 →
      (v mod 281474976710656) / 2097152 = (v / 2097152) mod 134217728) as E by (intros; dlia).
    rewrite !E by done. dlia.
Qed.

(** The arguments of a range of pages that can be mapped: aligned, not empty,
    in one half of the address space and below the top of physical memory. *)
Definition range_ok (lv : nat) (virt phys size flags : Z) : Prop :=
  virt mod psize lv = 0 ∧ phys mod psize lv = 0 ∧ size mod psize lv = 0 ∧ 0 < size ∧
  (0 <= virt ∧ virt + size <= 2 ^ 47 ∨ two64 - 2 ^ 47 <= virt ∧ virt + size < two64) ∧
  0 <= phys ∧ phys + size <= 2 ^ 52 ∧ flag_bits flags ∧ Z.testbit flags 7 = false.

Definition in_range (virt size v : Z) : Prop := virt <= v < virt + size.
#[global] Instance in_range_dec virt size v : Decision (in_range virt size v).
Proof. unfold in_range. apply _. Defined.

Section WithDevice.
Context {PD : PortDevice}.
Implicit Types (s : machine) (F A : gset Z) (T : gmap Z (nat * Z)).

(** What mapping one page promises: [op] maps the page of [virt] at level
    [lv] with the entry [entry phys flags], or finds its slot taken and leaves
    every translation alone; it spends frames on missing tables only. *)
Class PageMapper (op : Z → Z → Z → Z → M bool) (lv : nat) (entry : Z → Z → Z) := {
  pm_level : lv = 1%nat ∨ lv = 2%nat;
  pm_map s root T A F virt phys flags (Q : bool → machine → Prop) :
    vm s root T A F → args_ok (shift lv) virt phys flags → (missing s lv 4 root virt ≤ size F)%nat →
    (∀ s', page_refused lv root A s F virt s' → Q false s') →
    (∀ s', page_mapped lv (entry phys flags) root A s F virt s' → Q true s') →
    wp (op (hhdm s + root) virt phys flags) Q s
}.

Definition small_entry (phys flags : Z) : Z := make_page_entry phys (leaf_flags flags).
Definition large_entry (phys flags : Z) : Z := make_page_entry phys (large_flags flags).

#[export] Instance map_page_mapper : PageMapper map_page 1 small_entry.
Proof. split; [by left | apply wp_map_page]. Qed.

#[export] Instance map_page_large_mapper : PageMapper map_page_large 2 large_entry.
Proof. split; [by right | apply wp_map_page_large]. Qed.

(** [s'] is [s] with the first [n] bytes of a range mapped. *)
Record mapped (lv : nat) (entry : Z → Z → Z) (root virt phys flags n : Z) s s' : Prop := {
  mapped_in : ∀ v, canonical v → in_range virt n v →
    walk s' 4 root v = Some (lv, entry (phys + (v - virt) / psize lv * psize lv) flags);
  mapped_out : ∀ v, canonical v → ~ in_range virt n v → walk s' 4 root v = walk s 4 root v
}.

(** ** The tables of a range *)

(** The number of tables of level [k] on the paths of a range, and of the
    tables from level [lv] to level 3. *)
Definition level_tables (k : nat) (virt size : Z) : Z := pre k (virt + size - 1) - pre k virt + 1.
Definition range_tables (lv : nat) (virt size : Z) : Z :=
  foldr (λ k n, level_tables k virt size + n) 0 (seq lv (4 - lv)).

(** A range in one half of the address space. *)
Definition half (virt size : Z) : Prop :=
  0 <= virt ∧ virt + size <= 2 ^ 47 ∨ two64 - 2 ^ 47 <= virt ∧ virt + size <= two64.

Lemma pre_mono k virt size a b : half virt size → virt <= a <= b → b < virt + size → pre k a <= pre k b.
Proof.
  unfold half, pre, two64. intros Hh Hab Hb.
  apply Z.div_le_mono; [apply Z.pow_pos_nonneg; unfold shift; lia |].
  change (2 ^ 48) with 281474976710656. change (2 ^ 47) with 140737488355328 in *. dlia.
Qed.

(** The levels a range meets, as numerals. *)
Lemma pre_values v : pre 1 v = (v mod 281474976710656) / 2097152 ∧
  pre 2 v = (v mod 281474976710656) / 1073741824 ∧ pre 3 v = (v mod 281474976710656) / 549755813888.
Proof. done. Qed.

(** The bytes of a page share their tables. *)
Lemma pre_page lv k a : lv = 1%nat ∨ lv = 2%nat → (lv ≤ k ≤ 3)%nat → a mod psize lv = 0 →
  pre k (a + psize lv - 1) = pre k a.
Proof.
  intros Hlv Hk Ha. assert (lv = 1 ∧ k = 1 ∨ k = 2 ∨ k = 3)%nat as Hc by lia.
  destruct (pre_values a) as (E1 & E2 & E3).
  destruct (pre_values (a + psize lv - 1)) as (E1' & E2' & E3').
  destruct Hlv as [-> | ->]; rewrite ?psize_1, ?psize_2 in *;
    (destruct Hc as [[? ->] | [-> | ->]];
      [rewrite E1, E1' | rewrite E2, E2' | rewrite E3, E3']; clear -Ha; try done; dlia).
Qed.

Lemma range_tables_1 virt size : range_tables 1 virt size =
  level_tables 1 virt size + (level_tables 2 virt size + level_tables 3 virt size).
Proof. cbn. lia. Qed.
Lemma range_tables_2 virt size : range_tables 2 virt size =
  level_tables 2 virt size + level_tables 3 virt size.
Proof. cbn. lia. Qed.

(** Every level has at least one table, and a longer range no fewer. *)
Lemma level_tables_mono k virt n m size : half virt size → 0 < n <= m → m <= size →
  1 <= level_tables k virt n <= level_tables k virt m.
Proof.
  intros Hh Hn Hm. unfold level_tables.
  pose proof (pre_mono k virt size virt (virt + n - 1) Hh).
  pose proof (pre_mono k virt size (virt + n - 1) (virt + m - 1) Hh). lia.
Qed.

Lemma range_tables_mono lv virt n m size : lv = 1%nat ∨ lv = 2%nat → half virt size →
  0 < n <= m → m <= size → 4 - Z.of_nat lv <= range_tables lv virt n <= range_tables lv virt m.
Proof.
  intros Hlv Hh Hn Hm. pose proof (λ k, level_tables_mono k virt n m size Hh Hn Hm) as H.
  pose proof (H 1%nat). pose proof (H 2%nat). pose proof (H 3%nat).
  destruct Hlv as [-> | ->]; rewrite ?range_tables_1, ?range_tables_2; lia.
Qed.

(** How many frames a range of [size] bytes can cost: one table for every
    2 MiB, every GiB and every 512 GiB, and two more at each level for ends
    that are not aligned. *)
Lemma range_tables_bound virt size : half virt size → 0 < size →
  range_tables 2 virt size <= size / 1073741824 + size / 549755813888 + 4 ∧
  range_tables 1 virt size <= size / 2097152 + size / 1073741824 + size / 549755813888 + 6.
Proof.
  unfold half, two64. change (2 ^ 47) with 140737488355328. intros Hh Hs.
  rewrite range_tables_1, range_tables_2. unfold level_tables.
  destruct (pre_values virt) as (-> & -> & ->). destruct (pre_values (virt + size - 1)) as (-> & -> & ->).
  set (a := virt mod 281474976710656).
  assert ((virt + size - 1) mod 281474976710656 = a + size - 1) as -> by (subst a; dlia).
  assert (0 <= a) by (subst a; dlia). clearbody a. clear Hh. split; dlia.
Qed.

Lemma reach_up s root v l p k : reach s root v l p → (l ≤ k ≤ 4)%nat → ∃ q, reach s root v k q.
Proof.
  induction 1 as [| l p Hr IH Hl H0 H7]; intros Hk.
  - replace k with 4%nat by lia. exists root. constructor.
  - destruct (decide (k = l)) as [-> |]; [| by apply IH; lia].
    eexists. by apply reach_next.
Qed.

(** Next to an address that has its tables, only the levels where the two part
    are missing. *)
Lemma missing_next s root lv a b q : lv = 1%nat ∨ lv = 2%nat → reach s root a lv q →
  (∀ k, pre k a <= pre k b) →
  Z.of_nat (missing s lv 4 root b) <=
    foldr (λ k n, (pre k b - pre k a) + n) 0 (seq lv (4 - lv)).
Proof.
  intros Hlv Hr Hle.
  assert (∀ k, (lv ≤ k ≤ 4)%nat → pre k b = pre k a → (missing s lv 4 root b ≤ k - lv)%nat) as Hk.
  { intros k Hk He. destruct (reach_up _ _ _ _ _ k Hr Hk) as [p Hp].
    eapply reach_missing_le; [by eapply reach_pre | lia]. }
  pose proof (missing_le s lv b 4 root) as H4.
  pose proof (Hle 1%nat). pose proof (Hle 2%nat). pose proof (Hle 3%nat).
  pose proof (Hk 1%nat) as K1. pose proof (Hk 2%nat) as K2. pose proof (Hk 3%nat) as K3.
  destruct Hlv as [-> | ->]; cbn [foldr seq Nat.sub].
  - destruct (decide (pre 1 b = pre 1 a)) as [E |]; [specialize (K1 ltac:(lia) E); lia |].
    destruct (decide (pre 2 b = pre 2 a)) as [E |]; [specialize (K2 ltac:(lia) E); lia |].
    destruct (decide (pre 3 b = pre 3 a)) as [E |]; [specialize (K3 ltac:(lia) E); lia |]. lia.
  - destruct (decide (pre 2 b = pre 2 a)) as [E |]; [specialize (K2 ltac:(lia) E); lia |].
    destruct (decide (pre 3 b = pre 3 a)) as [E |]; [specialize (K3 ltac:(lia) E); lia |]. lia.
Qed.

(** The frames for one more page of a range, when the page before it is
    mapped. *)
Lemma missing_step s root lv virt off size q : lv = 1%nat ∨ lv = 2%nat → half virt size →
  virt mod psize lv = 0 → off mod psize lv = 0 → 0 < off → off + psize lv <= size →
  reach s root (virt + off - psize lv) lv q →
  range_tables lv virt off + Z.of_nat (missing s lv 4 root (virt + off)) <=
    range_tables lv virt (off + psize lv).
Proof.
  intros Hlv Hh Hv Hom Ho Hle Hr. assert (0 < psize lv) as Hps by (destruct Hlv as [-> | ->]; done).
  assert (psize lv <= off) as Hpo.
  { apply Z.mod_divide in Hom as [y ->]; [| lia]. assert (0 < y) by nia. nia. }
  assert ((virt + off) mod psize lv = 0) as Hb
    by (rewrite Z.add_mod, Hv, Hom by lia; apply Zmod_0_l).
  assert ((virt + off - psize lv) mod psize lv = 0) as Ha.
  { replace (virt + off - psize lv) with (virt + off + (-1) * psize lv) by lia.
    by rewrite Z_mod_plus_full. }
  pose proof (missing_next s root lv _ (virt + off) q Hlv Hr) as Hn.
  specialize (Hn ltac:(intros k; apply (pre_mono k virt size); [done | lia | lia])).
  assert (∀ k, (lv ≤ k ≤ 3)%nat → level_tables k virt (off + psize lv) =
    level_tables k virt off + (pre k (virt + off) - pre k (virt + off - psize lv))) as Hl.
  { intros k Hk. unfold level_tables. pose proof (pre_page lv k _ Hlv Hk Ha) as E1.
    pose proof (pre_page lv k _ Hlv Hk Hb) as E2.
    replace (virt + off - psize lv + psize lv - 1) with (virt + off - 1) in E1 by lia.
    replace (virt + (off + psize lv) - 1) with (virt + off + psize lv - 1) by lia. lia. }
  destruct Hlv as [-> | ->]; rewrite ?range_tables_1, ?range_tables_2, !Hl by lia;
    cbn [foldr seq Nat.sub] in Hn; lia.
Qed.

Section Loop.
Context (op : Z → Z → Z → Z → M bool) (lv : nat) (entry : Z → Z → Z).
Context `{PM : !PageMapper op lv entry}.

(** The state with the first [off] bytes mapped, for at most [n] frames. *)
Definition range_done s root A F virt phys flags (off n : Z) s' : Prop :=
  ∃ T' F', touches A s s' ∧ vm s' root T' A F' ∧ F' ⊆ F ∧
    Z.of_nat (size F) <= Z.of_nat (size F') + n ∧
    mapped lv entry root virt phys flags off s s' ∧ (tidy s root → tidy s' root) ∧
    (∀ o, 0 <= o < off → o mod psize lv = 0 → slot_taken s lv 4 root (virt + o) = false).

(** Slots outside the pages mapped so far are as they were. *)
Definition slots_kept s root virt (off : Z) s' : Prop :=
  ∀ v, canonical v → ~ in_range virt off v →
    slot_taken s' lv 4 root v = slot_taken s lv 4 root v.

Lemma psize_pos : 0 < psize lv.
Proof. unfold psize. apply Z.pow_pos_nonneg; [lia | unfold shift; lia]. Qed.

Lemma range_page virt phys size flags off : range_ok lv virt phys size flags →
  0 <= off < size → off mod psize lv = 0 →
  canonical (virt + off) ∧ args_ok (shift lv) (virt + off) (phys + off) flags ∧
  off + psize lv <= size.
Proof.
  intros (Hv & Hp & Hs & Hs0 & Hh & Hp0 & Hp52 & Hf & H7) Ho Hom. pose proof psize_pos as Hps.
  assert (off + psize lv <= size) as Hle.
  { apply Z.mod_divide in Hs as [x ->]; [| lia]. apply Z.mod_divide in Hom as [y ->]; [| lia].
    assert (y < x) by nia. nia. }
  assert (canonical (virt + off)) as Hc.
  { apply canonical_cases. unfold two64 in *. lia. }
  split_and!; [done | | done]. unfold args_ok. split_and!; [apply Hc | | | lia | lia | done..].
  - fold (psize lv). rewrite Z.add_mod, Hv, Hom by lia. apply Zmod_0_l.
  - fold (psize lv). rewrite Z.add_mod, Hp, Hom by lia. apply Zmod_0_l.
Qed.

(** Which pages a range holds. *)
Lemma same_page virt off v : virt mod psize lv = 0 → off mod psize lv = 0 → 0 <= off →
  v / psize lv = (virt + off) / psize lv ↔
  in_range virt (off + psize lv) v ∧ ~ in_range virt off v.
Proof.
  intros Hv Ho Ho0. pose proof psize_pos. unfold in_range.
  apply Z.mod_divide in Hv as [x ->]; [| lia]. apply Z.mod_divide in Ho as [y ->]; [| lia].
  rewrite <- Z.mul_add_distr_r, Z.div_mul by lia. split.
  - intros E. pose proof (Z.div_mod v (psize lv) ltac:(lia)) as D.
    pose proof (Z.mod_pos_bound v (psize lv) ltac:(lia)). rewrite E in D. lia.
  - intros (H1 & H2). symmetry. apply (Z.div_unique_pos _ _ _ (v - (x + y) * psize lv)); lia.
Qed.

(** One more page. *)
Lemma mapped_step root virt phys flags off s s1 s2 :
  virt mod psize lv = 0 → off mod psize lv = 0 → 0 <= off → canonical (virt + off) →
  mapped lv entry root virt phys flags off s s1 →
  (∀ v, walk s2 4 root v =
     if decide (pre (lv - 1) v = pre (lv - 1) (virt + off)) then Some (lv, entry (phys + off) flags)
     else walk s1 4 root v) →
  mapped lv entry root virt phys flags (off + psize lv) s s2.
Proof using PM.
  intros Hv Ho Ho0 Hc [Hin Hout] Hw. pose proof psize_pos as Hps.
  split; intros v Hcv Hr; rewrite Hw; case_decide as Hd;
    rewrite (pre_canonical lv v (virt + off)), same_page in Hd by (done || apply pm_level).
  - do 3 f_equal. apply Z.mod_divide in Ho as [y ->]; [| lia]. do 2 f_equal.
    apply (Z.div_unique_pos _ _ _ (v - virt - y * psize lv)); unfold in_range in *; lia.
  - apply Hin; [done |]. unfold in_range in *. lia.
  - tauto.
  - apply Hout; [done |]. unfold in_range in *. lia.
Qed.

(** The frames spent on the first [off] bytes. *)
Definition range_spent (virt off : Z) : Z := if off =? 0 then 0 else range_tables lv virt off.

(** The loop's invariant: the state so far, and the tables of the last page. *)
Definition range_invariant s root A F virt phys flags (off : Z) s' : Prop :=
  off mod psize lv = 0 ∧ slots_kept s root virt off s' ∧
  range_done s root A F virt phys flags off (range_spent virt off) s' ∧
  (0 < off → ∃ q, reach s' root (virt + off - psize lv) lv q).

Lemma range_half virt phys size flags : range_ok lv virt phys size flags → half virt size.
Proof. intros (_ & _ & _ & _ & Hh & _). unfold half, two64 in *. lia. Qed.

(** The next page fits in what is left. *)
Lemma range_spent_step s root virt phys size flags off : range_ok lv virt phys size flags →
  0 <= off < size → off mod psize lv = 0 →
  (0 < off → ∃ q, reach s root (virt + off - psize lv) lv q) →
  range_spent virt off + Z.of_nat (missing s lv 4 root (virt + off)) <=
    range_spent virt (off + psize lv) ∧
  range_spent virt (off + psize lv) <= range_tables lv virt size.
Proof using PM.
  intros Hok Ho Hom Hr. pose proof psize_pos as Hps. pose proof pm_level as Hlv.
  pose proof (range_half _ _ _ _ Hok) as Hh. destruct (range_page _ _ _ _ _ Hok Ho Hom) as (_ & _ & Hle).
  pose proof Hok as (Hv & _). unfold range_spent. destruct (Z.eqb_spec (off + psize lv) 0); [lia |].
  pose proof (range_tables_mono lv virt (off + psize lv) size size Hlv Hh) as Hmono. split; [| lia].
  destruct (Z.eqb_spec off 0) as [-> | Hne].
  - pose proof (missing_le s lv (virt + 0) 4 root). lia.
  - destruct Hr as [q Hq]; [lia |]. by apply (missing_step s root lv virt off size q); try done; lia.
Qed.

(** The whole loop: either every slot of the range was free and the range is
    mapped, or the pages before the first taken slot are. *)
Lemma wp_range_loop s root T A F virt phys size' flags (Q : option bool → machine → Prop) :
  vm s root T A F → range_ok lv virt phys size' flags →
  range_tables lv virt size' <= Z.of_nat (size F) →
  (∀ s' off, 0 <= off < size' → off mod psize lv = 0 →
     slot_taken s lv 4 root (virt + off) = true →
     range_done s root A F virt phys flags off (range_tables lv virt size') s' → Q (Some false) s') →
  (∀ s', range_done s root A F virt phys flags size' (range_tables lv virt size') s' →
     slots_kept s root virt size' s' → Q None s') →
  wp (for_range 0 size' (psize lv) (λ offset,
        let! ok := op (hhdm s + root) (virt + offset)%u64 (phys + offset)%u64 flags in
        if negb ok then ret (Some false) else ret None)) Q s.
Proof using PM.
  intros Hvm Hok Hsz Hbad Hgood. pose proof Hok as (Hv & Hp & Hs & Hs0 & Hh & Hp0 & Hp52 & _).
  pose proof psize_pos as Hps.
  apply (wp_for_range (range_invariant s root A F virt phys flags));
    [lia | lia | unfold two64; lia | by rewrite Z.sub_0_r | | |].
  { split_and!; [apply Zmod_0_l | done | exists T, F; split_and!; [done.. | | | done | lia] | lia].
    - unfold range_spent. simpl. lia.
    - split; [unfold in_range; lia | done]. }
  2:{ intros s' (_ & Hk & Hd & _). apply Hgood; [| done]. unfold range_spent in Hd.
      by destruct (Z.eqb_spec size' 0); [lia |]. }
  intros off s' Ho (Hom & Hk & (T' & F' & E & V & Sub & N & Hm & Htd & Hfree) & Hr).
  destruct (range_page _ _ _ _ off Hok ltac:(lia) Hom) as (Hc & Ha & Hle).
  destruct (range_spent_step s' root _ _ _ _ off Hok ltac:(lia) Hom Hr) as [Hstep Hmax].
  rewrite !u64_small by (unfold is_u64, two64 in *; lia).
  assert (hhdm s = hhdm s') as -> by (apply touches_env, same_env_fields in E; unfold hhdm; symmetry; tauto).
  assert (slot_taken s' lv 4 root (virt + off) = slot_taken s lv 4 root (virt + off)) as Hsame
    by (apply Hk; [done | unfold in_range; lia]).
  apply wp_bind, (pm_map s' root T' A F'); [done.. | lia | |].
  - intros s2 [E2 (T2 & F2 & V2 & S2 & N2) Ht Td W]. apply wp_ret.
    apply (Hbad s2 off); [lia | done | congruence |].
    exists T2, F2. split_and!; [by etrans | done | set_solver | lia | | auto | done].
    destruct Hm as [Hin Hout]. split; intros v Hcv Hrg; rewrite W; auto.
  - intros s2 [E2 (T2 & F2 & V2 & S2 & N2) Ht Td W K R]. apply wp_ret. split_and!.
    + rewrite Z.add_mod, Hom, Z_mod_same_full by lia. apply Zmod_0_l.
    + intros v Hcv Hrg. rewrite K; [apply Hk; [done | unfold in_range in *; lia] |].
      rewrite (pre_canonical lv v (virt + off)), same_page by (done || lia || apply pm_level). tauto.
    + exists T2, F2. split_and!; [by etrans | done | set_solver | lia | | auto |].
      * by eapply mapped_step; [.. | exact W]; try done; lia.
      * intros o Ho2 Hom2. destruct (Z_lt_le_dec o off); [by apply Hfree; [lia |] |].
        assert (o = off) as -> by (apply Z.div_exact in Hom, Hom2; [| lia..];
          assert (o / psize lv = off / psize lv) by nia; congruence).
        congruence.
    + intros _. by replace (virt + (off + psize lv) - psize lv) with (virt + off) by lia.
Qed.

End Loop.

(** ** The two range operations *)

(** The guards both operations share, on good arguments. *)
Lemma range_guards lv virt phys size flags : range_ok lv virt phys size flags →
  (size =? 0) = false ∧ (u64 (UINT64_MAX - size) <? virt) = false ∧
  (u64 (UINT64_MAX - size) <? phys) = false ∧ is_canonical virt = true ∧
  is_canonical (u64 (u64 (virt + size) - 1)) = true.
Proof.
  intros (_ & _ & _ & Hs0 & Hh & Hp0 & Hp52 & _). unfold UINT64_MAX, two64 in *.
  assert (u64 (u64 (virt + size) - 1) = virt + size - 1) as ->
    by (rewrite u64_sub_l; apply u64_small; unfold is_u64; lia).
  rewrite u64_small by (unfold is_u64; lia).
  split_and!; try lia; apply canonical_cases; unfold two64; lia.
Qed.

Lemma wp_map_range s root T A F ph virt phys size' flags (Q : bool → machine → Prop) :
  vm s root T A F → range_ok 1 virt phys size' flags →
  range_tables 1 virt size' <= Z.of_nat (size F) →
  (∀ s' off, 0 <= off < size' → off mod 4096 = 0 →
     slot_taken s 1 4 root (virt + off) = true →
     range_done 1 small_entry s root A F virt phys flags off (range_tables 1 virt size') s' → Q false s') →
  (∀ s', range_done 1 small_entry s root A F virt phys flags size' (range_tables 1 virt size') s' →
     slots_kept 1 s root virt size' s' → Q true s') →
  wp (map_range (mk_space (hhdm s + root) ph) virt phys size' flags) Q s.
Proof.
  intros Hvm Hok Hsz Hbad Hgood. unfold map_range. cbn [pml4].
  rewrite (root_nonzero _ _ _ _ _ Hvm), !page_offset_test.
  destruct (range_guards _ _ _ _ _ Hok) as (-> & -> & -> & -> & ->).
  pose proof Hok as (Hv & Hp & Hs & _). rewrite psize_1 in Hv, Hp, Hs.
  rewrite Hv, Hp, Hs. cbn [negb Z.eqb].
  apply wp_bind, (wp_range_loop map_page 1 small_entry s root T A F); [done.. | |].
  - intros s' off Ho Hom Ht Hd. apply wp_ret. by eapply Hbad.
  - intros s' Hd Hk. apply wp_ret. by apply Hgood.
Qed.

Lemma wp_map_range_large s root T A F ph virt phys size' flags (Q : bool → machine → Prop) :
  vm s root T A F → range_ok 2 virt phys size' flags →
  range_tables 2 virt size' <= Z.of_nat (size F) →
  (∀ s' off, 0 <= off < size' → off mod 2097152 = 0 →
     slot_taken s 2 4 root (virt + off) = true →
     range_done 2 large_entry s root A F virt phys flags off (range_tables 2 virt size') s' → Q false s') →
  (∀ s', range_done 2 large_entry s root A F virt phys flags size' (range_tables 2 virt size') s' →
     slots_kept 2 s root virt size' s' → Q true s') →
  wp (map_range_large (mk_space (hhdm s + root) ph) virt phys size' flags) Q s.
Proof.
  intros Hvm Hok Hsz Hbad Hgood. unfold map_range_large. cbn [pml4]. cbv zeta.
  rewrite (root_nonzero _ _ _ _ _ Hvm), !large_offset_test.
  destruct (range_guards _ _ _ _ _ Hok) as (-> & -> & -> & -> & ->).
  pose proof Hok as (Hv & Hp & Hs & _). rewrite psize_2 in Hv, Hp, Hs.
  rewrite Hv, Hp, Hs. cbn [negb Z.eqb].
  apply wp_bind, (wp_range_loop map_page_large 2 large_entry s root T A F); [done.. | |].
  - intros s' off Ho Hom Ht Hd. apply wp_ret. by eapply Hbad.
  - intros s' Hd Hk. apply wp_ret. by apply Hgood.
Qed.

(** What a mapped page translates to. *)
Lemma small_entry_address phys flags v : page_address phys → flag_bits flags →
  leaf_address 1 (small_entry phys flags) v = phys + v mod 4096.
Proof.
  intros Hp Hf. destruct (leaf_flags_spec flags Hf) as (Hlf & _).
  unfold leaf_address, small_entry. rewrite page_entry_address_make by done.
  change (2 ^ shift 1) with 4096. destruct Hp. apply (lor_disjoint_add _ _ 12); [lia | done | dlia].
Qed.

Lemma large_entry_address phys flags v : page_address phys → phys mod 2097152 = 0 → flag_bits flags →
  leaf_address 2 (large_entry phys flags) v = phys + v mod 2097152.
Proof.
  intros Hp Hm Hf. destruct (large_flags_spec flags Hf) as (Hlf & _).
  unfold leaf_address, large_entry. rewrite page_entry_address_make by done.
  change (2 ^ shift 2) with 2097152. apply (lor_disjoint_add _ _ 21); [lia | done | dlia].
Qed.

(** An address of a mapped range translates to its image. *)
Lemma mapped_small s s' root virt phys size' flags n v :
  range_ok 1 virt phys size' flags → n <= size' → mapped 1 small_entry root virt phys flags n s s' →
  canonical v → in_range virt n v → translation s' root v = phys + (v - virt).
Proof.
  intros (Hv & Hp & Hs & Hs0 & Hh & Hp0 & Hp52 & Hf & H7) Hn [Hin _] Hc Hr.
  unfold translation. rewrite (Hin v Hc Hr). rewrite psize_1 in *. unfold in_range in *.
  rewrite small_entry_address; [| split; dlia | done]. dlia.
Qed.

Lemma mapped_large s s' root virt phys size' flags n v :
  range_ok 2 virt phys size' flags → n <= size' → mapped 2 large_entry root virt phys flags n s s' →
  canonical v → in_range virt n v → translation s' root v = phys + (v - virt).
Proof.
  intros (Hv & Hp & Hs & Hs0 & Hh & Hp0 & Hp52 & Hf & H7) Hn [Hin _] Hc Hr.
  unfold translation. rewrite (Hin v Hc Hr). rewrite psize_2 in *. unfold in_range in *.
  rewrite large_entry_address; [| split; dlia | dlia | done]. dlia.
Qed.

End WithDevice.
