(* ===== verification/KernelSpace.v ===== *)
(** The kernel address space: [build_kernel_address_space] produces exactly
    the mappings of its description, with the rights the processor will
    enforce.

    The description is a list of segments, and the claim is about what the
    processor sees, [hw_access]. *)

From Stdlib Require Import ZArith Lia.
From stdpp Require Import base numbers list gmap sets fin_sets.
From S2P Require Import Prelude Descriptors Machine Serial Print Pmm PmmInv PmmInit Paging Mmu Vmm VmmInv VmmSteps VmmMap VmmRange.
Import Vmm.
Local Open Scope Z_scope.

(** ** Descriptions *)

Record segment := mk_seg {
  sg_level : nat;
  sg_virt : Z;
  sg_phys : Z;
  sg_size : Z;
  sg_flags : Z
}.

Definition sg_entry (lv : nat) : Z → Z → Z :=
  match lv with 1%nat => small_entry | _ => large_entry end.

(** The leaf a description gives to [v]. *)
Fixpoint seg_walk (segs : list segment) (v : Z) : option (nat * Z) :=
  match segs with
  | [] => None
  | g :: rest =>
      if decide (in_range (sg_virt g) (sg_size g) v) then
        Some (sg_level g, sg_entry (sg_level g)
          (sg_phys g + (v - sg_virt g) / psize (sg_level g) * psize (sg_level g)) (sg_flags g))
      else seg_walk rest v
  end.

(** The physical address, whether it can be written, whether it can be
    executed. *)
Fixpoint seg_access (segs : list segment) (v : Z) : option (Z * bool * bool) :=
  match segs with
  | [] => None
  | g :: rest =>
      if decide (in_range (sg_virt g) (sg_size g) v) then
        Some (sg_phys g + (v - sg_virt g), Z.testbit (sg_flags g) 1, negb (Z.testbit (sg_flags g) 63))
      else seg_access rest v
  end.

Definition seg_ok (g : segment) : Prop :=
  (sg_level g = 1 ∨ sg_level g = 2)%nat ∧
  range_ok (sg_level g) (sg_virt g) (sg_phys g) (sg_size g) (sg_flags g).

Lemma seg_walk_None segs v : seg_walk segs v = None ↔
  Forall (λ g, ~ in_range (sg_virt g) (sg_size g) v) segs.
Proof.
  induction segs as [| g rest IH]; simpl; [by split |]. rewrite Forall_cons, <- IH.
  case_decide; [| tauto]. split; [done | tauto].
Qed.

(** The leaf of a segment has the rights of the segment. *)
Lemma sg_entry_bits lv phys flags n : lv = 1%nat ∨ lv = 2%nat → page_address phys → flag_bits flags →
  n = 1 ∨ n = 63 → Z.testbit (sg_entry lv phys flags) n = Z.testbit flags n.
Proof.
  intros Hlv Hp Hf Hn. destruct (leaf_flags_spec flags Hf) as (_ & _ & Hl).
  destruct (large_flags_spec flags Hf) as (_ & _ & _ & Hh).
  destruct Hlv as [-> | ->]; simpl; unfold small_entry, large_entry;
    rewrite make_page_entry_bit by (done || lia); [apply Hl | apply Hh]; lia.
Qed.

Lemma seg_page g v : seg_ok g → in_range (sg_virt g) (sg_size g) v →
  let p := sg_phys g + (v - sg_virt g) / psize (sg_level g) * psize (sg_level g) in
  page_address p ∧ leaf_address (sg_level g) (sg_entry (sg_level g) p (sg_flags g)) v =
    sg_phys g + (v - sg_virt g).
Proof.
  intros [Hl (Hv & Hp & Hs & Hs0 & Hh & Hp0 & Hp52 & Hf & H7)] Hr p. unfold in_range in Hr.
  subst p. destruct Hl as [Hl | Hl]; rewrite Hl in *; simpl;
    rewrite ?psize_1, ?psize_2 in *.
  - assert (page_address (sg_phys g + (v - sg_virt g) / 4096 * 4096)) as Hpa by (split; dlia).
    split; [done |]. rewrite small_entry_address by done. dlia.
  - assert (page_address (sg_phys g + (v - sg_virt g) / 2097152 * 2097152)) as Hpa by (split; dlia).
    split; [done |]. rewrite large_entry_address; [dlia | done | dlia | done].
Qed.

Lemma seg_walk_access segs v : Forall seg_ok segs →
  seg_access segs v = match seg_walk segs v with
  | Some (l, e) => Some (leaf_address l e v, Z.testbit e 1, negb (Z.testbit e 63))
  | None => None
  end.
Proof.
  induction 1 as [| g rest Hg _ IH]; simpl; [done |]. case_decide as Hr; [| done].
  destruct (seg_page g v Hg Hr) as [Hp ->]. pose proof Hg as [Hl (_ & _ & _ & _ & _ & _ & _ & Hf & _)].
  by rewrite !sg_entry_bits by (done || lia).
Qed.

Section WithDevice.
Context {PD : PortDevice}.
Implicit Types (s : machine) (F A : gset Z) (T : gmap Z (nat * Z)).

(** ** The hardware's view *)

Lemma hw_walk_leaf s root T v : tables s root T → ∀ l p n, T !! p = Some (l, n) →
  hw_walk s l p v true true = match walk s l p v with
  | Some (k, e) => Some (leaf_address k e v, Z.testbit e 1, negb (Z.testbit e 63))
  | None => None
  end.
Proof.
  intros Ht l. induction l as [| l IH]; intros p n Hp; [done |]. cbn [walk hw_walk].
  pose proof (lidx_range (S l) v) as Hi. cbn [andb].
  destruct (Z.testbit (ent s p (lidx (S l) v)) 0) eqn:H0; [| done]. cbn [negb].
  destruct (Nat.eqb_spec (S l) 1) as [Hl |]; [by rewrite Hl |]. cbn [orb].
  destruct (Z.testbit (ent s p (lidx (S l) v)) 7) eqn:H7; cbn [andb].
  - pose proof (t_huge _ _ _ Ht _ _ _ _ Hp Hi ltac:(lia) H0 H7).
    by rewrite (proj2 (Nat.leb_le (S l) 3)).
  - destruct (t_next _ _ _ Ht _ _ _ _ Hp Hi ltac:(lia) H0 H7) as (Hn & H1 & H63).
    replace (S l - 1)%nat with l in Hn by lia. rewrite H1, H63. eapply IH, Hn.
Qed.

(** ** Building a described space *)

Definition described s (root : Z) (segs : list segment) : Prop :=
  Forall seg_ok segs ∧ ∀ v, canonical v → walk s 4 root v = seg_walk segs v.

Lemma described_access s root T segs v : tables s root T → described s root segs → canonical v →
  hw_access s root v = seg_access segs v.
Proof.
  intros Ht [Hok Hd] Hc. unfold hw_access. rewrite (hw_walk_leaf s root T) with (n := 0)
    by (done || apply Ht). by rewrite Hd, seg_walk_access.
Qed.

Lemma described_mem s s' root segs : same_mem s s' → described s root segs → described s' root segs.
Proof. intros Hm [Hok Hd]. split; [done |]. intros v Hc. by rewrite (walk_mem s), Hd. Qed.

(** [translate] agrees. *)
Lemma wp_translate_described s root T A F segs ph v (Q : Z → machine → Prop) :
  vm s root T A F → described s root segs → canonical v →
  Q (match seg_access segs v with Some (p, _, _) => p | None => 0 end) s →
  wp (translate (mk_space (hhdm s + root) ph) v) Q s.
Proof.
  intros V [Hok Hd] Hc HQ. apply (wp_translate s root T A F); [done |]. rewrite (proj2 Hc).
  unfold translation. rewrite seg_walk_access, <- Hd in HQ by done.
  by destruct (walk s 4 root v) as [[]|].
Qed.

Definition apart (g : segment) (segs : list segment) : Prop :=
  Forall (λ g', sg_virt g + sg_size g <= sg_virt g' ∨ sg_virt g' + sg_size g' <= sg_virt g) segs.

(** A space under construction: its description and the frames left. *)
Definition space s root A F segs (n : Z) s' : Prop :=
  ∃ T' F', touches A s s' ∧ vm s' root T' A F' ∧ F' ⊆ F ∧
    n <= Z.of_nat (size F') ∧ described s' root segs.

Lemma range_done_space lv entry s0 s root A F F0 virt phys size' flags segs n k s' :
  (∀ p f, entry p f = sg_entry lv p f) → seg_ok (mk_seg lv virt phys size' flags) →
  touches A s0 s → F ⊆ F0 → described s root segs →
  k + n <= Z.of_nat (size F) →
  range_done lv entry s root A F virt phys flags size' k s' →
  space s0 root A F0 (mk_seg lv virt phys size' flags :: segs) n s'.
Proof.
  intros He Hg E Sub [Hok Hd] Hn (T' & F' & E' & V' & S' & N' & [Hin Hout] & _).
  exists T', F'. split_and!; [by etrans | done | set_solver | lia |].
  split; [by constructor |]. intros v Hc. cbn [seg_walk sg_virt sg_size sg_level sg_phys sg_flags]. case_decide as Hr.
  - by rewrite (Hin v Hc Hr), He.
  - by rewrite (Hout v Hc Hr), Hd.
Qed.

(** Adding a segment of small pages apart from the ones already there. *)
Lemma wp_map_segment s0 s root A F0 segs n ph virt phys size' flags (Q : bool → machine → Prop) :
  space s0 root A F0 segs (range_tables 1 virt size' + n) s →
  range_ok 1 virt phys size' flags → apart (mk_seg 1 virt phys size' flags) segs → 0 <= n →
  (∀ s', space s0 root A F0 (mk_seg 1 virt phys size' flags :: segs) n s' → Q true s') →
  wp (map_range (mk_space (hhdm s + root) ph) virt phys size' flags) Q s.
Proof.
  intros (T & F & E & V & Sub & N & Hd) Hok Hap Hn HQ.
  apply (wp_map_range s root T A F); [done | done | lia | |].
  - intros s' off Ho Hom Ht _. exfalso.
    destruct (range_page _ _ _ _ _ off Hok ltac:(lia) Hom) as (Hc & _ & _).
    apply (slot_taken_walk _ _ _ _ (vm_tables _ _ _ _ _ V)) in Ht. apply Ht.
    rewrite (proj2 Hd) by done. apply seg_walk_None.
    eapply Forall_impl; [exact Hap |]. simpl. unfold in_range. lia.
  - intros s' Hdone _. apply HQ.
    eapply (range_done_space 1 small_entry); [done | | exact E | done.. | | exact Hdone];
      [by split; [left |] | lia].
Qed.

(** ** EFER *)

Definition efer s : Z := default 0 (msrs (cpu s) !! Msr.kEferMsr).

(** [read_msr] puts the two halves back together, [write_msr] splits them. *)
Lemma wp_read_msr s msr (Q : Z → machine → Prop) :
  is_u64 (default 0 (msrs (cpu s) !! msr)) → Q (default 0 (msrs (cpu s) !! msr)) s →
  wp (Msr.read_msr msr) Q s.
Proof.
  intros Hu HQ. unfold Msr.read_msr, Msr.rdmsr. wp_steps. set (v := default 0 _) in *.
  replace (Z.lor _ _) with v; [done |]. unfold is_u64, u32 in *.
  rewrite !Z.shiftr_div_pow2, Z.shiftl_mul_pow2 by lia. change (2 ^ 32) with 4294967296.
  rewrite u64_small by (unfold is_u64; dlia). rewrite (lor_disjoint_add _ _ 32) by dlia. dlia.
Qed.

Lemma wp_write_msr s msr value (Q : unit → machine → Prop) : is_u64 value →
  Q tt (with_cpu (Msr.set_msr msr value (cpu s)) s) → wp (Msr.write_msr msr value) Q s.
Proof.
  intros Hu HQ. unfold Msr.write_msr, Msr.wrmsr. wp_steps.
  replace (Z.shiftl _ 32 + _) with value; [done |]. unfold is_u64, u32 in *.
  rewrite Z.shiftr_div_pow2, Z.shiftl_mul_pow2 by lia. change (2 ^ 32) with 4294967296. dlia.
Qed.

(** [enable_nx] sets one bit of one register. *)
Lemma wp_enable_nx s (Q : unit → machine → Prop) : is_u64 (efer s) →
  (∀ s', s' = s ∨ s' = with_cpu (Msr.set_msr Msr.kEferMsr (efer s') (cpu s)) s →
     efer s' = Z.setbit (efer s) 11 → Q tt s') → wp Msr.enable_nx Q s.
Proof.
  intros Hu HQ. apply wp_bind, wp_read_msr; [done |]. fold (efer s).
  change Msr.kEferNxe with (Z.shiftl 1 11). rewrite land_bit_eqb by lia.
  rewrite Z.shiftl_1_l. rewrite <- Z.setbit_spec'. 
  destruct (Z.testbit (efer s) 11) eqn:H; simpl.
  - apply wp_ret, HQ; [by left |]. apply Z.bits_inj'. intros n Hn. rewrite Z.setbit_eqb by lia.
    destruct (Z.eqb_spec 11 n) as [<- |]; [by rewrite H | done].
  - apply wp_write_msr.
    + rewrite Z.setbit_spec'. apply lor_is_u64; [done | by unfold is_u64].
    + assert (efer (with_cpu (Msr.set_msr Msr.kEferMsr (Z.setbit (efer s) 11) (cpu s)) s) =
        Z.setbit (efer s) 11) as E by (unfold efer; simpl; by rewrite lookup_insert_eq).
      apply HQ; [right; by rewrite E | done].
Qed.

(** ** The whole construction *)

(** The least multiple of [n] not below [x]. *)
Definition round_up (x n : Z) : Z := (x + (n - 1)) / n * n.

(** The end of the memory the map describes, and the span of the direct map:
    that, in whole pages of 2 MiB.  Ends are 64-bit numbers. *)
Definition memory_top (regions : list Pmm.MemoryRegion) : Z :=
  foldr Z.max 0 (map (λ r, (Pmm.base r + Pmm.length r) mod 2 ^ 64) regions).
Definition direct_size (regions : list Pmm.MemoryRegion) : Z :=
  round_up (memory_top regions) 2097152.

Lemma memory_top_nonneg regions : 0 <= memory_top regions.
Proof. unfold memory_top. induction regions; simpl; lia. Qed.

(** The scan of the code finds that end. *)
Lemma highest_end_top regions : ∀ start, 0 <= start →
  highest_end regions start = Z.max start (memory_top regions).
Proof.
  induction regions as [| r rest IH]; intros start Hs; [unfold memory_top; simpl; lia |].
  change (memory_top (r :: rest)) with (Z.max (u64 (Pmm.base r + Pmm.length r)) (memory_top rest)).
  cbn [highest_end]. destruct (Z.ltb_spec start (u64 (Pmm.base r + Pmm.length r))); rewrite IH; lia.
Qed.

Lemma highest_end_eq regions : highest_end regions 0 = memory_top regions.
Proof. rewrite highest_end_top by done. pose proof (memory_top_nonneg regions). lia. Qed.

(** Every byte of every region lies below it. *)
Lemma memory_top_ge regions r : r ∈ regions →
  0 <= Pmm.base r → 0 <= Pmm.length r → Pmm.base r + Pmm.length r < two64 →
  Pmm.base r + Pmm.length r <= memory_top regions.
Proof.
  unfold memory_top, two64. intros Hin Hb Hl H64. induction regions as [| r' rest IH]; [set_solver |]; simpl.
  apply elem_of_cons in Hin as [<- | Hin]; [| specialize (IH Hin); lia]. rewrite Z.mod_small; lia.
Qed.

(** What the loader and the linker script guarantee. *)
Record layout_ok (regions : list Pmm.MemoryRegion) (h : Z) (L : KernelLayout) : Prop := {
  lo_some : 0 < memory_top regions ∧ memory_top regions + 2097152 <= 2 ^ 52;
  lo_hhdm : two64 - 2 ^ 47 <= h ∧ h mod 2097152 = 0;
  lo_apart : h + direct_size regions <= image_start L;
  lo_order : image_start L < text_start L ∧ text_start L < rodata_start L ∧
    rodata_start L < data_start L ∧ data_start L < data_end L ∧ data_end L + 4096 < two64;
  lo_aligned : image_start L mod 4096 = 0 ∧ text_start L mod 4096 = 0 ∧
    rodata_start L mod 4096 = 0 ∧ data_start L mod 4096 = 0;
  lo_bases : 0 <= virtual_base L <= image_start L ∧ virtual_base L mod 4096 = 0 ∧
    0 <= physical_base L ∧ physical_base L mod 4096 = 0 ∧
    data_end L - virtual_base L + physical_base L + 4096 <= 2 ^ 52
}.

Definition kWritableData : Z := PageFlags.or PageFlags.Writable PageFlags.NoExecute.

(** One segment of the image. *)
Definition image_segment (L : KernelLayout) (start last flags : Z) : segment :=
  mk_seg 1 start (start - virtual_base L + physical_base L) (last - start) flags.

(** The mappings of the kernel address space. *)
Definition kernel_segments (regions : list Pmm.MemoryRegion) (h : Z) (L : KernelLayout) : list segment :=
  [image_segment L (data_start L) (round_up (data_end L) 4096) kWritableData;
   image_segment L (rodata_start L) (data_start L) PageFlags.NoExecute;
   image_segment L (text_start L) (rodata_start L) PageFlags.None;
   image_segment L (image_start L) (text_start L) PageFlags.NoExecute;
   mk_seg 2 h 0 (direct_size regions) kWritableData].

(** A bound on the page tables the construction takes: the PML4 and the tables
    of each segment. *)
Definition segment_tables (segs : list segment) : Z :=
  foldr (λ g n, range_tables (sg_level g) (sg_virt g) (sg_size g) + n) 0 segs.
Definition tables_needed (regions : list Pmm.MemoryRegion) (h : Z) (L : KernelLayout) : Z :=
  1 + segment_tables (kernel_segments regions h L).

Lemma wp_image_segment s0 s root A F0 segs n ph L start last flags (Q : bool → machine → Prop) :
  space s0 root A F0 segs (range_tables 1 start (last - start) + n) s →
  seg_ok (image_segment L start last flags) → apart (image_segment L start last flags) segs → 0 <= n →
  (∀ s', space s0 root A F0 (image_segment L start last flags :: segs) n s' → Q true s') →
  wp (map_segment (mk_space (hhdm s0 + root) ph) L start last flags) Q s.
Proof.
  intros Hs Hok%proj2 Hap Hn HQ. simpl in Hok. unfold map_segment.
  pose proof Hok as (_ & _ & _ & Hs0 & Hh & Hp0 & Hp52 & _). unfold two64 in *.
  rewrite u64_add_l, !u64_small by (unfold is_u64; lia).
  pose proof Hs as (_ & _ & (_ & _ & _ & _ & _ & Eh)%touches_env%same_env_fields & _).
  unfold hhdm. rewrite <- Eh. eapply wp_map_segment; done.
Qed.

Lemma image_segment_ok L start last flags :
  virtual_base L <= start → virtual_base L mod 4096 = 0 → 0 <= physical_base L →
  physical_base L mod 4096 = 0 → two64 - 2 ^ 47 <= start → start < last → last < two64 →
  start mod 4096 = 0 → last mod 4096 = 0 → last - virtual_base L + physical_base L <= 2 ^ 52 →
  flag_bits flags → Z.testbit flags 7 = false → seg_ok (image_segment L start last flags).
Proof.
  intros. split; [by left |]. simpl. unfold range_ok. rewrite psize_1.
  split_and!; try done; try lia; dlia.
Qed.

Lemma data_end_rounded regions h L : layout_ok regions h L →
  round_up (data_end L) 4096 = (data_end L + 4095) / 4096 * 4096.
Proof. done. Qed.

Lemma data_end_align regions h L : layout_ok regions h L →
  align_up (data_end L) kPageSize = round_up (data_end L) 4096.
Proof.
  intros [_ _ _ Ho _ Hb]. apply (align_up_eq _ 12); unfold two64 in *; lia.
Qed.

Lemma direct_size_eq regions h L : layout_ok regions h L →
  direct_size regions = (memory_top regions + 2097151) / 2097152 * 2097152.
Proof. done. Qed.

Lemma direct_size_align regions h L : layout_ok regions h L →
  align_up (highest_end regions 0) kLargePageSize = direct_size regions.
Proof. intros [Hs _ _ _ _ _]. rewrite highest_end_eq. apply (align_up_eq _ 21); unfold two64; lia. Qed.

Lemma kernel_segments_ok regions h L : layout_ok regions h L →
  Forall seg_ok (kernel_segments regions h L).
Proof.
  intros Hl. pose proof (data_end_rounded _ _ _ Hl) as Hd. pose proof (direct_size_eq _ _ _ Hl) as Hz.
  pose proof Hl as [[? ?] [? ?] Hap (? & ? & ? & ? & ?) (? & ? & ? & ?) (? & ? & ? & ? & ?)].
  unfold two64 in *.
  unfold kernel_segments. rewrite Hd. repeat apply Forall_cons_2; [.. | done].
  all: try (apply image_segment_ok; unfold two64; try done; dlia).
  split; [by right |]. simpl. unfold range_ok. rewrite psize_2, Hz. unfold two64.
  split_and!; try done; dlia.
Qed.

Lemma segment_tables_nonneg segs : Forall seg_ok segs → 0 <= segment_tables segs.
Proof.
  induction 1 as [| g rest [Hl Hg] _ IH]; simpl; [done |].
  pose proof (range_tables_mono (sg_level g) (sg_virt g) (sg_size g) (sg_size g) (sg_size g) Hl
    (range_half _ _ _ _ _ Hg)). destruct Hg as (_ & _ & _ & ? & _). destruct Hl as [E | E]; rewrite E in *; lia.
Qed.

(** The four segments of the image, in the order they are mapped. *)
Lemma wp_map_image s0 s root A F0 ph regions h L (Q : bool → machine → Prop) :
  layout_ok regions h L →
  space s0 root A F0 [mk_seg 2 h 0 (direct_size regions) kWritableData]
    (segment_tables (take 4 (kernel_segments regions h L))) s →
  (∀ s', space s0 root A F0 (kernel_segments regions h L) 0 s' → Q true s') →
  wp (map_image (mk_space (hhdm s0 + root) ph) L) Q s.
Proof.
  intros Hl Hs HQ. pose proof (kernel_segments_ok _ _ _ Hl) as Hok. unfold kernel_segments in *.
  pose proof (Forall_take _ 1 _ Hok) as G1%segment_tables_nonneg.
  pose proof (Forall_take _ 2 _ Hok) as G2%segment_tables_nonneg.
  pose proof (Forall_take _ 3 _ Hok) as G3%segment_tables_nonneg.
  apply Forall_cons in Hok as [Kd Hok]. apply Forall_cons in Hok as [Kr Hok].
  apply Forall_cons in Hok as [Kt Hok]. apply Forall_cons in Hok as [Ki _].
  pose proof (data_end_rounded _ _ _ Hl) as Hd.
  pose proof Hl as [_ _ Hap (? & ? & ? & ? & ?) (? & ? & ? & ?) _].
  unfold map_image. cbv zeta. rewrite (data_end_align _ _ _ Hl).
  cbn [take segment_tables foldr image_segment sg_level sg_virt sg_size] in *.
  match type of Hs with context [range_tables 1 ?a ?b + (?c + (?d + (?e + 0)))] =>
    replace (range_tables 1 a b + (c + (d + (e + 0)))) with (e + (d + (c + (range_tables 1 a b + 0))))
      in Hs by lia end.
  apply wp_bind. eapply wp_image_segment; [exact Hs | done | | lia |].
  { repeat apply Forall_cons_2; [.. | by constructor]; simpl; lia. }
  intros s1 Hs1. cbn [negb]. apply wp_bind. eapply wp_image_segment; [exact Hs1 | done | | lia |].
  { repeat apply Forall_cons_2; [.. | by constructor]; simpl; lia. }
  intros s2 Hs2. cbn [negb]. apply wp_bind. eapply wp_image_segment; [exact Hs2 | done | | lia |].
  { repeat apply Forall_cons_2; [.. | by constructor]; simpl; lia. }
  intros s3 Hs3. cbn [negb]. apply wp_bind. eapply wp_image_segment; [exact Hs3 | done | | lia |].
  { repeat apply Forall_cons_2; [.. | by constructor]; simpl; dlia. }
  intros s4 Hs4. cbn [negb]. by apply wp_ret, HQ.
Qed.

Lemma wp_build s A F out regions h L (Q : bool * AddressSpace → machine → Prop) :
  bits s F → counted s F → layout s A → F ⊆ A → is_u64 (efer s) →
  regions ≠ [] → layout_ok regions h L → tables_needed regions h L <= Z.of_nat (size F) →
  (∀ s0 s' root, s0 = s ∨ s0 = with_cpu (Msr.set_msr Msr.kEferMsr (efer s0) (cpu s)) s →
     efer s0 = Z.setbit (efer s) 11 → (∃ f, lowest F f ∧ root = 4096 * f) →
     space s0 root A F (kernel_segments regions h L) 0 s' →
     Q (true, mk_space (hhdm s' + root) root) s') →
  wp (build_kernel_address_space out (Some regions) h L) Q s.
Proof.
  intros Hb Hc Hlay Hsub Hu Hne Hl Hsz HQ. pose proof (direct_size_eq _ _ _ Hl) as Hz.
  pose proof (kernel_segments_ok _ _ _ Hl) as Hok. pose proof (data_end_rounded _ _ _ Hl) as Hd.
  pose proof Hl as [[? ?] [? Hh2] Hap (? & ? & ? & ? & ?) (? & ? & ? & ?) (? & ? & ? & ? & ?)].
  unfold build_kernel_address_space. rewrite large_offset_test, Hh2. cbn [negb Z.eqb].
  destruct (Z.eqb_spec (Z.of_nat (List.length regions)) 0) as [Hlen |].
  { destruct regions; [done | simpl in Hlen; lia]. }
  apply wp_bind, wp_enable_nx; [done |]. intros s0 Hs0 Hef.
  assert (same_mem s s0) as Hm by (destruct Hs0 as [-> | ->]; done).
  apply wp_bind, (wp_create_address_space _ A F);
    [by apply (bits_mem s) | by rewrite <- Hm | by apply (layout_mem s) | done | |].
  { intros ->. pose proof (segment_tables_nonneg _ Hok).
    unfold tables_needed in Hsz. rewrite size_empty in Hsz. lia. }
  intros s1 root T F1 E1 V1 S1 N1 W1 K1 Hroot. 
  rewrite (direct_size_align _ _ _ Hl), highest_end_eq.
  destruct (Z.eqb_spec (memory_top regions) 0); [lia |]. fold kWritableData.
  assert (tables_needed regions h L = 1 + (segment_tables (take 4 (kernel_segments regions h L)) +
    range_tables 2 h (direct_size regions))) as Hneed by (unfold tables_needed; simpl; lia).
  pose proof (segment_tables_nonneg _ (Forall_take _ 4 _ Hok)) as Hpos.
  apply wp_bind. apply (wp_map_range_large s1 root T A F1); [done | | | |].
  - do 4 apply Forall_inv_tail in Hok. apply Forall_inv in Hok. exact (proj2 Hok).
  - lia.
  - intros s2 off _ _ Ht _. by rewrite K1 in Ht.
  - intros s2 Hdone _. cbn [negb]. apply wp_bind.
    assert (hhdm s1 = hhdm s0) as -> by (apply touches_env, same_env_fields in E1; unfold hhdm; tauto).
    apply (wp_map_image s0 s2 root A F root regions h); [done | |].
    + eapply (range_done_space 2 large_entry _ s1); [done | | exact E1 | exact S1 | | | exact Hdone].
      * do 4 apply Forall_inv_tail in Hok. by apply Forall_inv in Hok.
      * split; [done | intros v _; apply W1].
      * lia.
    + intros s3 Hs3. apply wp_ret.
      pose proof Hs3 as (_ & _ & (_ & _ & _ & _ & _ & Eh)%touches_env%same_env_fields & _).
      fold (hhdm s0) (hhdm s3) in Eh. rewrite <- Eh. by eapply HQ.
Qed.

(** *** How many frames that is *)

Definition image_size (L : KernelLayout) : Z := round_up (data_end L) 4096 - image_start L.

Definition frames_enough (regions : list Pmm.MemoryRegion) (L : KernelLayout) : Z :=
  let D := direct_size regions in
  let I := image_size L in
  29 + D / 1073741824 + D / 549755813888 + I / 2097152 + I / 1073741824 + I / 549755813888.

Lemma div_sum k a b c d : 0 < k → a / k + b / k + c / k + d / k <= (a + b + c + d) / k.
Proof.
  intros Hk. apply Z.div_le_lower_bound; [done |]. pose proof (Z.mul_div_le a k Hk).
  pose proof (Z.mul_div_le b k Hk). pose proof (Z.mul_div_le c k Hk). pose proof (Z.mul_div_le d k Hk). lia.
Qed.

(** One table a GiB and one a 512 GiB of memory, one a 2 MiB of image, and a
    few for the ends of the segments. *)
Lemma tables_needed_bound regions h L : layout_ok regions h L →
  tables_needed regions h L <= frames_enough regions L.
Proof.
  intros Hl. pose proof (kernel_segments_ok _ _ _ Hl) as Hok. unfold tables_needed, kernel_segments in *.
  assert (∀ g, seg_ok g → half (sg_virt g) (sg_size g) ∧ 0 < sg_size g) as Hseg.
  { intros g [_ Hg]. split; [by eapply range_half | by destruct Hg as (_ & _ & _ & ? & _)]. }
  repeat (apply Forall_cons in Hok as [[? ?]%Hseg Hok]). cbn [sg_virt sg_size image_segment] in *.
  cbn [segment_tables foldr sg_level sg_virt sg_size image_segment].
  unfold frames_enough, image_size. cbv zeta. set (E := round_up (data_end L) 4096) in *.
  replace (E - image_start L) with ((E - data_start L) + (data_start L - rodata_start L) +
    (rodata_start L - text_start L) + (text_start L - image_start L)) by lia.
  repeat match goal with
  | H : half ?v ?z, P : 0 < ?z |- _ => pose proof (range_tables_bound v z H P); clear H P
  end.
  match goal with |- context [(?a + ?b + ?c + ?d) / 2097152] =>
    pose proof (div_sum 2097152 a b c d ltac:(lia)); pose proof (div_sum 1073741824 a b c d ltac:(lia));
    pose proof (div_sum 549755813888 a b c d ltac:(lia)) end. lia.
Qed.

(** Addresses of the direct map and of the segments of the image. *)
Lemma direct_access regions h L v : layout_ok regions h L → h <= v < h + direct_size regions →
  canonical v ∧ seg_access (kernel_segments regions h L) v = Some (v - h, true, false).
Proof.
  intros Hl Hv. pose proof Hl as [_ [? _] Hap (? & ? & ? & ? & ?) _ _].
  split; [apply canonical_cases; unfold two64 in *; lia |].
  unfold kernel_segments. cbn [seg_access sg_virt sg_size sg_phys sg_flags image_segment].
  do 4 (rewrite decide_False by (unfold in_range; lia)).
  by rewrite decide_True by (unfold in_range; lia).
Qed.

Lemma image_access regions h L v : layout_ok regions h L →
  v ∈ [image_start L; text_start L; rodata_start L; data_start L] →
  canonical v ∧ is_u64 (v - virtual_base L + physical_base L) ∧ is_u64 (v - virtual_base L) ∧
  ∃ w x, seg_access (kernel_segments regions h L) v = Some (v - virtual_base L + physical_base L, w, x).
Proof.
  intros Hl Hv. pose proof (data_end_rounded _ _ _ Hl) as Hd.
  pose proof Hl as [_ [? _] Hap (? & ? & ? & ? & ?) _ (? & ? & ? & ? & ?)].
  pose proof (direct_size_eq _ _ _ Hl) as Hz. destruct (lo_some _ _ _ Hl).
  assert (0 < direct_size regions) by (rewrite Hz; dlia).
  assert (data_end L <= round_up (data_end L) 4096) by (rewrite Hd; dlia).
  rewrite !elem_of_cons, elem_of_nil in Hv.
  assert (image_start L <= v < data_end L) as Hr by (destruct Hv as [-> | [-> | [-> | [-> | []]]]]; lia).
  unfold is_u64, two64 in *. split_and!; try lia; [apply canonical_cases; unfold two64; lia |].
  unfold kernel_segments. cbn [seg_access sg_virt sg_size sg_phys sg_flags image_segment].
  destruct Hv as [-> | [-> | [-> | [-> | []]]]].
  all: repeat (rewrite decide_False by (unfold in_range; lia)).
  all: rewrite decide_True by (unfold in_range; lia); do 2 eexists; do 3 f_equal; lia.
Qed.

End WithDevice.
