(* ===== verification/Linker.v ===== *)
(** The image: where linker.lds puts the sections of the kernel, as the symbols
    [kmain] reads, and why the layout it hands to the memory managers is one
    they accept. *)

From Stdlib Require Import ZArith Lia.
From stdpp Require Import base numbers list gmap.
From S2P Require Import Prelude Descriptors Machine Pmm Paging Mmu Vmm Boot VmmInv VmmSteps VmmMap VmmRange KernelSpace.
Local Open Scope Z_scope.

Module Linker.

(** An output section: the alignment and the size of what the compiler put in
    it.  Both are the toolchain's, so they are arguments. *)
Record section := mk_section { sec_align : Z; sec_size : Z }.

Record sections := {
  limine_requests : section;
  text : section;
  rodata : section;
  init_array : section;
  data : section;
  bss : section
}.

(** MAXPAGESIZE, as the Makefile sets it with -z max-page-size. *)
Definition MAXPAGESIZE : Z := 0x1000.

Definition ALIGN (dot alignment : Z) : Z := (dot + alignment - 1) / alignment * alignment.

(** A section starts at its own alignment; the location counter moves past it. *)
Definition start (dot : Z) (s : section) : Z := ALIGN dot (sec_align s).
Definition place (dot : Z) (s : section) : Z := start dot s + sec_size s.

Definition image_base : Z := 0xffffffff80000000.

(** The SECTIONS command, top to bottom, and the symbols it defines. *)
Definition link (ss : sections) (gdt idt : Z) (isr_stub_table : Z → Z) : Boot.Symbols :=
  let requests_start := start image_base (limine_requests ss) in
  let requests_end := place image_base (limine_requests ss) in
  let dot := ALIGN requests_end MAXPAGESIZE in
  let text_start := start dot (text ss) in
  let text_end := place dot (text ss) in
  let dot := ALIGN text_end MAXPAGESIZE in
  let rodata_start := start dot (rodata ss) in
  let dot := place dot (rodata ss) in
  let rodata_end := place dot (init_array ss) in
  let dot := ALIGN rodata_end MAXPAGESIZE in
  let data_start := start dot (data ss) in
  let dot := place dot (data ss) in
  let data_end := place dot (bss ss) in
  {| Boot.sym_text_start := text_start;
     Boot.sym_text_end := text_end;
     Boot.sym_rodata_start := rodata_start;
     Boot.sym_rodata_end := rodata_end;
     Boot.sym_data_start := data_start;
     Boot.sym_data_end := data_end;
     Boot.sym_requests_start := requests_start;
     Boot.sym_gdt := gdt;
     Boot.sym_idt := idt;
     Boot.sym_isr_stub_table := isr_stub_table |}.

(** ** Facts about alignment *)

Lemma ALIGN_bounds dot a : 0 < a → dot <= ALIGN dot a < dot + a.
Proof. unfold ALIGN. intros Ha. pose proof (Z.div_mod (dot + a - 1) a). pose proof (Z.mod_pos_bound (dot + a - 1) a). nia. Qed.

(** An alignment that divides the page leaves a page boundary where it is. *)
Lemma ALIGN_page dot a : 0 < a → (a | MAXPAGESIZE) → dot mod MAXPAGESIZE = 0 → ALIGN dot a = dot.
Proof.
  intros Ha [k Hk] Hm. unfold MAXPAGESIZE in *. assert ((a | dot)) as [j ->].
  { apply Z.mod_divide in Hm as [j ->]; [| lia]. exists (j * k). rewrite Hk. lia. }
  unfold ALIGN. replace (j * a + a - 1) with (a - 1 + j * a) by lia.
  rewrite Z.div_add, Z.div_small by lia. lia.
Qed.

Lemma ALIGN_mod dot : ALIGN dot MAXPAGESIZE mod 4096 = 0.
Proof. apply Z.mod_mul. done. Qed.

(** What the compiler delivers: sections aligned to at most a page. *)
Definition section_ok (s : section) : Prop :=
  0 < sec_align s ∧ (sec_align s | MAXPAGESIZE) ∧ 0 <= sec_size s.

Record linkable (ss : sections) : Prop := {
  lk_sections : Forall section_ok
    [limine_requests ss; text ss; rodata ss; init_array ss; data ss; bss ss];
  (** There are requests, code, constants and data. *)
  lk_some : 0 < sec_size (limine_requests ss) ∧ 0 < sec_size (text ss) ∧
    0 < sec_size (rodata ss) ∧ 0 < sec_size (data ss) + sec_size (bss ss);
  (** The image stays in the top 2 GiB. *)
  lk_fits : sec_size (limine_requests ss) + sec_size (text ss) + sec_size (rodata ss) +
    sec_size (init_array ss) + sec_size (data ss) + sec_size (bss ss) <= 0x7fff0000
}.

(** A section that starts on a page boundary starts there. *)
Lemma start_page dot s : section_ok s → dot mod 4096 = 0 → start dot s = dot.
Proof. intros (? & ? & ?) Hm. by apply ALIGN_page. Qed.

Lemma place_bounds dot s : section_ok s →
  dot + sec_size s <= place dot s < dot + sec_size s + 4096.
Proof.
  intros (Ha & Hd & Hs). unfold place, start. pose proof (ALIGN_bounds dot (sec_align s) Ha).
  apply Z.divide_pos_le in Hd; unfold MAXPAGESIZE in *; lia.
Qed.

(** The symbols of a linked image, in order, each start on a page. *)
Record ordered (sy : Boot.Symbols) : Prop := {
  or_base : Boot.sym_requests_start sy = image_base;
  or_order : image_base < Boot.sym_text_start sy ∧
    Boot.sym_text_start sy < Boot.sym_text_end sy ∧ Boot.sym_text_end sy <= Boot.sym_rodata_start sy ∧
    Boot.sym_rodata_start sy < Boot.sym_rodata_end sy ∧ Boot.sym_rodata_end sy <= Boot.sym_data_start sy ∧
    Boot.sym_data_start sy < Boot.sym_data_end sy;
  or_aligned : Boot.sym_text_start sy mod 4096 = 0 ∧ Boot.sym_rodata_start sy mod 4096 = 0 ∧
    Boot.sym_data_start sy mod 4096 = 0;
  or_end : Boot.sym_data_end sy + 4096 < two64
}.

Lemma page_after dot : dot <= ALIGN dot MAXPAGESIZE < dot + 4096.
Proof. by apply ALIGN_bounds. Qed.

Lemma link_ordered ss gdt idt stubs : linkable ss → ordered (link ss gdt idt stubs).
Proof.
  intros [Hs (S1 & S2 & S3 & S4) Hfit]. unfold link. cbv zeta.
  repeat (apply Forall_cons in Hs as [? Hs]).
  rewrite (start_page image_base), !(start_page (ALIGN _ MAXPAGESIZE)) by (done || apply ALIGN_mod).
  pose proof (place_bounds image_base (limine_requests ss) ltac:(done)) as B1.
  set (e1 := place image_base _) in *. pose proof (page_after e1) as P1. set (d1 := ALIGN e1 _) in *.
  pose proof (place_bounds d1 (text ss) ltac:(done)) as B2.
  set (e2 := place d1 _) in *. pose proof (page_after e2) as P2. set (d2 := ALIGN e2 _) in *.
  pose proof (place_bounds d2 (rodata ss) ltac:(done)) as B3. set (e3 := place d2 _) in *.
  pose proof (place_bounds e3 (init_array ss) ltac:(done)) as B4.
  set (e4 := place e3 _) in *. pose proof (page_after e4) as P4. set (d4 := ALIGN e4 _) in *.
  pose proof (place_bounds d4 (data ss) ltac:(done)) as B5. set (e5 := place d4 _) in *.
  pose proof (place_bounds e5 (bss ss) ltac:(done)) as B6. set (e6 := place e5 _) in *.
  assert (0 <= sec_size (init_array ss) ∧ 0 <= sec_size (data ss) ∧ 0 <= sec_size (bss ss)) by
    (unfold section_ok in *; tauto).
  assert (d1 mod 4096 = 0 ∧ d2 mod 4096 = 0 ∧ d4 mod 4096 = 0) by (split_and!; apply ALIGN_mod).
  clearbody d1 d2 d4 e1 e2 e3 e4 e5 e6. unfold image_base, two64 in *. split; simpl; unfold image_base, two64; try done; lia.
Qed.

(** The layout [kmain] passes on, when the loader puts the image where it was
    linked and the memory map fits below it. *)
Lemma link_layout regions h sy pb : ordered sy →
  0 < memory_top regions ∧ memory_top regions + 2097152 <= 2 ^ 52 →
  two64 - 2 ^ 47 <= h ∧ h mod 2097152 = 0 →
  h + direct_size regions <= image_base →
  0 <= pb ∧ pb mod 4096 = 0 ∧ pb + 2 ^ 31 <= 2 ^ 52 →
  layout_ok regions h (Boot.kernel_layout sy image_base pb).
Proof.
  intros [Hb Ho Ha He] Hm Hh Hap Hp. unfold image_base, two64 in *.
  destruct Ha as (? & ? & ?), Hp as (? & ? & ?).
  split; simpl; rewrite ?Hb; unfold image_base, two64 in *; split_and?; try done; lia.
Qed.

(** ** The rights of the sections *)

(** The section an address belongs to decides what may be done with it. *)
Lemma section_rights regions h sy pb v : ordered sy →
  layout_ok regions h (Boot.kernel_layout sy image_base pb) →
  let access := seg_access (kernel_segments regions h (Boot.kernel_layout sy image_base pb)) v in
  let p := v - image_base + pb in
  (image_base <= v < Boot.sym_text_start sy → access = Some (p, false, false)) ∧
  (Boot.sym_text_start sy <= v < Boot.sym_text_end sy → access = Some (p, false, true)) ∧
  (Boot.sym_rodata_start sy <= v < Boot.sym_rodata_end sy → access = Some (p, false, false)) ∧
  (Boot.sym_data_start sy <= v < Boot.sym_data_end sy → access = Some (p, true, false)).
Proof.
  intros [Hb Ho Ha He] Hl. pose proof (data_end_rounded _ _ _ Hl) as Hd.
  assert (Boot.sym_data_end sy <= round_up (Boot.sym_data_end sy) 4096) as Hr
    by (simpl in Hd; rewrite Hd; dlia).
  unfold kernel_segments.
  cbn [seg_access sg_virt sg_size sg_phys sg_flags image_segment Boot.kernel_layout Vmm.virtual_base
    Vmm.physical_base Vmm.image_start Vmm.text_start Vmm.rodata_start Vmm.data_start Vmm.data_end].
  rewrite Hb. split_and!; intros Hv; repeat (rewrite decide_False by (unfold in_range; lia));
    rewrite decide_True by (unfold in_range; lia); do 3 f_equal; lia.
Qed.

End Linker.
