(* ===== verification/Screen.v ===== *)
(** The framebuffer: where each pixel is stored, and [draw_framebuffer] drawing
    every one of them. *)

From Stdlib Require Import ZArith Lia.
From stdpp Require Import base numbers list gmap.
From S2P Require Import Prelude Descriptors Machine Serial Print Console Cpu Pmm Paging Mmu Vmm Boot.
Import Boot.
Local Open Scope Z_scope.

Section WithDevice.
Context {PD : PortDevice}.
Implicit Types s : machine.

(** A framebuffer that lies inside the address space, four bytes a pixel. *)
Record fb_ok (f : limine_framebuffer) : Prop := {
  fo_size : 0 < fb_width f < 2 ^ 32 ∧ 0 < fb_height f < 2 ^ 32;
  fo_pitch : 4 * fb_width f <= fb_pitch f;
  fo_address : 0 <= fb_address f ∧ fb_address f mod 4 = 0 ∧
    fb_address f + fb_pitch f * fb_height f <= two64
}.

Definition on_screen (f : limine_framebuffer) (x y : Z) : Prop :=
  0 <= x < fb_width f ∧ 0 <= y < fb_height f.

Lemma pixel_offset f x y : fb_ok f → on_screen f x y →
  pixel_address f x y = fb_address f + 4 * (y * (fb_pitch f / 4) + x) ∧
  0 <= 4 * (y * (fb_pitch f / 4) + x) ∧
  4 * (y * (fb_pitch f / 4) + x) + 4 <= fb_pitch f * fb_height f.
Proof.
  intros [[Hw Hh] Hp (Ha & _ & Hb)] [Hx Hy]. set (q := fb_pitch f / 4).
  assert (fb_width f <= q ∧ 4 * q <= fb_pitch f) as [Hq1 Hq2] by (subst q; dlia).
  assert (0 <= y * q ∧ y * q + q <= q * fb_height f) as [Hyq Hyq2] by nia.
  assert (4 * (q * fb_height f) <= fb_pitch f * fb_height f) by nia.
  unfold two64 in *. split; [| lia]. unfold pixel_address. fold q.
  rewrite (u64_small (y * q)) by (unfold is_u64; lia).
  rewrite (u64_small (y * q + x)) by (unfold is_u64; lia).
  rewrite (u64_small (4 * _)) by (unfold is_u64; lia). apply u64_small. unfold is_u64. lia.
Qed.

(** Different pixels are stored at different addresses. *)
Lemma pixel_address_inj f x y x' y' : fb_ok f → on_screen f x y → on_screen f x' y' →
  pixel_address f x y = pixel_address f x' y' → x = x' ∧ y = y'.
Proof.
  intros Hf H1 H2. destruct (pixel_offset f x y Hf H1) as [-> _].
  destruct (pixel_offset f x' y' Hf H2) as [-> _]. intros Heq.
  destruct Hf as [[Hw Hh] Hp _], H1 as [Hx Hy], H2 as [Hx' Hy']. set (q := fb_pitch f / 4) in *.
  assert (fb_width f <= q) as Hq by (subst q; dlia).
  assert (y * q + x = y' * q + x') as He by lia.
  assert (y = (y * q + x) / q) as E1 by (apply (Z.div_unique_pos _ _ _ x); lia).
  assert (y' = (y' * q + x') / q) as E2 by (apply (Z.div_unique_pos _ _ _ x'); lia).
  assert (y = y') as -> by congruence. split; [lia | done].
Qed.

Definition row_drawn f v y n : Prop :=
  ∀ x, 0 <= x < n → (v : gmap Z Z) !! pixel_address f x y = Some (pixel f x y).

Lemma row_drawn_insert f v y n x' y' : fb_ok f → 0 <= y < fb_height f → n <= fb_width f →
  on_screen f x' y' → y ≠ y' ∨ n <= x' → row_drawn f v y n →
  row_drawn f (<[pixel_address f x' y' := pixel f x' y']> v) y n.
Proof.
  intros Hf Hy Hn Hs Hne Hr x Hx. rewrite lookup_insert_ne; [by apply Hr |].
  intros Heq. apply pixel_address_inj in Heq as [-> ->]; [| done.. | split; lia]. lia.
Qed.

(** Nothing but pixels of the screen differs. *)
Definition drawn_on f (v v' : gmap Z Z) : Prop :=
  ∀ a, (∀ x y, on_screen f x y → a ≠ pixel_address f x y) → v' !! a = v !! a.

Lemma drawn_on_insert f v v' x y p : on_screen f x y → drawn_on f v v' →
  drawn_on f v (<[pixel_address f x y := p]> v').
Proof. intros Hs Hd a Ha. rewrite lookup_insert_ne; [by apply Hd |]. intros E. by apply (Ha x y Hs). Qed.

Lemma wp_draw f s (Q : unit → machine → Prop) : fb_ok f →
  (∀ x y, on_screen f x y → writable s (pixel_address f x y) = true) →
  (∀ v, (∀ y, 0 <= y < fb_height f → row_drawn f v y (fb_width f)) → drawn_on f (video s) v →
     Q tt (with_video v s)) →
  wp (draw_framebuffer f) Q s.
Proof.
  intros Hf Hacc HQ. pose proof Hf as [[Hw Hh] Hp (Ha & Ham & Hb)].
  apply (wp_for_each (λ j s', ∃ v, s' = with_video v s ∧ drawn_on f (video s) v ∧
    ∀ y, 0 <= y < j → row_drawn f v y (fb_width f)));
    [lia | lia | unfold two64; lia | apply Z.mod_1_r | | |].
  - exists (video s). split_and!; [by destruct s | done | lia].
  - intros y s1 Hy (v1 & -> & Hd1 & Hv1).
    apply (wp_for_each (λ j s', ∃ v, s' = with_video v s ∧ drawn_on f (video s) v ∧
      (∀ y', 0 <= y' < y → row_drawn f v y' (fb_width f)) ∧ row_drawn f v y j));
      [lia | lia | unfold two64; lia | apply Z.mod_1_r | | |].
    + exists v1. split_and!; [done | done | done |]. intros x Hx. lia.
    + intros x s2 Hx (v2 & -> & Hd2 & Hv2 & Hrow). assert (on_screen f x y) as Hs by done.
      apply wp_store32; [by apply Hacc | |].
      { destruct (pixel_offset f x y Hf Hs) as [-> _]. dlia. }
      exists (<[pixel_address f x y := pixel f x y]> v2). split_and!; [done | by apply drawn_on_insert | |].
      * intros y' Hy'. apply row_drawn_insert; try done; [lia | lia | auto].
      * intros x' Hx'. destruct (decide (x' = x)) as [-> |]; [by rewrite lookup_insert_eq |].
        apply (row_drawn_insert f v2 y x); try done; try lia.
    + intros s2 (v2 & -> & Hd2 & Hv2 & Hrow). exists v2. split_and!; [done | done |].
      intros y' Hy'. destruct (decide (y' = y)) as [-> |]; [done | apply Hv2; lia].
  - intros s' (v & -> & Hd & Hv). by apply HQ.
Qed.

End WithDevice.
