(* ===== verification/BootLog.v ===== *)
(** What the kernel prints while it boots, as a function of what the boot
    loader delivered, and the parts of [kmain] proved to say exactly that, on
    any [Console]. *)

From Stdlib Require Import ZArith Lia Ascii String.
From stdpp Require Import base numbers list gmap sets fin_sets.
From S2P Require Import Prelude Descriptors Machine Serial Print Console Cpu Report Pmm PmmInv PmmInit PmmBoot Paging Mmu Vmm Boot VmmInv VmmSteps VmmMap VmmRange KernelSpace Screen.
Import Boot Interrupts.
Local Open Scope Z_scope.

(** ** Texts *)

Definition segment_line (name : string) (L : Vmm.KernelLayout) (first last : Z) : list ascii :=
  text (name ++ " virt=")%string ++ ptr first ++ text "-" ++ ptr last ++
  text " size=" ++ dec (u64 (last - first)) ++
  text " phys=" ++ ptr (virtual_to_physical L first) ++ text "-" ++
  ptr (virtual_to_physical L last) ++ text nl.

Definition segments_text (syms : Symbols) (L : Vmm.KernelLayout) : list ascii :=
  segment_line ".text:  " L (sym_text_start syms) (sym_text_end syms) ++
  segment_line ".rodata:" L (sym_rodata_start syms) (sym_rodata_end syms) ++
  segment_line ".data:  " L (sym_data_start syms) (sym_data_end syms).

(** A check that succeeds: the translation is the expected one. *)
Definition check_line (name : string) (address physical : Z) : list ascii :=
  text name ++ ptr address ++ text " -> " ++ ptr physical ++ text " (expect " ++ ptr physical ++
  text (line ")").

Definition checks_text (root : Z) (L : Vmm.KernelLayout) (fb : limine_framebuffer) (h : Z) : list ascii :=
  labelled "pml4 physical:   " (ptr root) ++
  (text "direct map:      " ++ ptr (u64 (h + 0x1000)) ++ text " -> " ++ ptr 0x1000 ++
   text (line " (expect 0x1000)")) ++
  check_line "framebuffer:     " (fb_address fb) (u64 (fb_address fb - h)) ++
  check_line "image:           " (Vmm.image_start L) (virtual_to_physical L (Vmm.image_start L)) ++
  check_line ".text:           " (Vmm.text_start L) (virtual_to_physical L (Vmm.text_start L)) ++
  check_line ".data:           " (Vmm.data_start L) (virtual_to_physical L (Vmm.data_start L)).

(** The frame of the intentional write through a null pointer: exception 14,
    a write (bit 1) to a page that is not present, taken in the kernel's
    segments. *)
Definition null_fault (ctx : FaultContext) : InterruptFrame :=
  let g := ctx_registers ctx in
  mk_frame (g_r15 g) (g_r14 g) (g_r13 g) (g_r12 g) (g_r11 g) (g_r10 g) (g_r9 g) (g_r8 g)
    (g_rbp g) (g_rdi g) (g_rsi g) (g_rdx g) (g_rcx g) (g_rbx g) (g_rax g) 14 2
    (ctx_rip ctx) Gdt.kKernelCodeSelector (ctx_rflags ctx) (ctx_rsp ctx) Gdt.kKernelDataSelector.

(** What is said up to the construction of the address space, and then [rest]. *)
Definition start_text (syms : Symbols) (regions : list Pmm.MemoryRegion) (h vb pb phys : Z)
    (rest : list ascii) : list ascii :=
  text (line "WaterBuffalo booting") ++ text (line "framebuffer acquired") ++
  labelled "kernel virtual base:  " (ptr vb) ++ labelled "kernel physical base: " (ptr pb) ++
  text (line "kernel physical base verified") ++ segments_text syms (kernel_layout syms vb pb) ++
  init_text regions h phys (Z.of_nat (size (initial_free regions phys))) ++ rest.

(** Everything a successful boot says. *)
Definition boot_text (syms : Symbols) (fb : limine_framebuffer) (regions : list Pmm.MemoryRegion)
    (h vb pb phys root : Z) (ctx : FaultContext) : list ascii :=
  start_text syms regions h vb pb phys (
    checks_text root (kernel_layout syms vb pb) fb h ++ text (line "loading cr3...") ++
    text (line "cr3 loaded") ++ text (line "done") ++ report (null_fault ctx) 0).

(** ** Refusals *)

(** The regions a map denotes, when every type is known. *)
Fixpoint regions_of (entries : list limine_memmap_entry) : option (list Pmm.MemoryRegion) :=
  match entries with
  | [] => Some []
  | e :: rest =>
      type ← region_type (me_type e);
      regions ← regions_of rest;
      Some (Pmm.mk_region (me_base e) (me_length e) type :: regions)
  end.

(** What is said when the boot is refused before the memory managers start:
    the first check that fails decides, and the lines said on the way to it come
    first.  The boot protocol's types are 0 to 7; type 6 is the kernel and its
    modules.  Ends of entries are 64-bit numbers. *)
Fixpoint unknown_type (entries : list limine_memmap_entry) : option Z :=
  match entries with
  | [] => None
  | e :: rest => if decide (0 <= me_type e <= 7) then unknown_type rest else Some (me_type e)
  end.

Definition has_kernel (pb : Z) (e : limine_memmap_entry) : Prop :=
  me_type e = 6 ∧ me_base e <= pb < (me_base e + me_length e) mod 2 ^ 64.
#[global] Instance has_kernel_dec pb e : Decision (has_kernel pb e).
Proof. unfold has_kernel. apply _. Defined.

Definition memmap_refusal (entries : list limine_memmap_entry) : option (list ascii) :=
  if 64 <? Z.of_nat (List.length entries) then Some (text (line "fatal: memory map has too many entries"))
  else (λ t, labelled "fatal: unknown memory map type: " (dec t)) <$> unknown_type entries.

Definition base_refusal (entries : list limine_memmap_entry) (vb pb : Z) : option (list ascii) :=
  if decide (Exists (has_kernel pb) entries) then None else Some (
    labelled "kernel virtual base:  " (ptr vb) ++ labelled "kernel physical base: " (ptr pb) ++
    text (line "fatal: kernel physical base is not inside KERNEL_AND_MODULES region")).

Definition refusal (info : Limine) : option (list ascii) :=
  if negb (base_revision_supported info) then Some (text (line "fatal: bootloader rejected base revision"))
  else match framebuffer_response info with
  | None | Some [] => Some (text (line "fatal: no framebuffer from bootloader"))
  | Some (_ :: _) =>
      app (text (line "framebuffer acquired")) <$>
      match memmap_response info, hhdm_response info, kernel_address_response info with
      | None, _, _ => Some (text (line "fatal: no memory map from bootloader"))
      | _, None, _ => Some (text (line "fatal: no HHDM response from bootloader"))
      | _, _, None => Some (text (line "fatal: no kernel address response from bootloader"))
      | Some entries, Some _, Some (vb, pb) =>
          match memmap_refusal entries with Some t => Some t | None => base_refusal entries vb pb end
      end
  end.

(** The checks of the code are those. *)
Lemma region_type_known t : is_Some (region_type t) ↔ 0 <= t <= 7.
Proof.
  split.
  - intros [ty Ht]. destruct (decide (0 <= t <= 7)) as [| Hn]; [done | exfalso].
    destruct t as [| t | t]; [lia | | done].
    do 3 (destruct t as [t | t |]; try done; try lia).
  - intros Ht. assert (t = 0 ∨ t = 1 ∨ t = 2 ∨ t = 3 ∨ t = 4 ∨ t = 5 ∨ t = 6 ∨ t = 7) as Hc by lia.
    by repeat (destruct Hc as [-> | Hc]; [by eexists |]); subst t; eexists.
Qed.

Lemma region_type_kernel t : region_type t = Some Pmm.KernelAndModules ↔ t = 6.
Proof.
  split; [| by intros ->]. intros Ht.
  assert (0 <= t <= 7) as Hr by (apply region_type_known; by eexists).
  assert (t = 0 ∨ t = 1 ∨ t = 2 ∨ t = 3 ∨ t = 4 ∨ t = 5 ∨ t = 6 ∨ t = 7) as Hc by lia.
  by repeat (destruct Hc as [-> | Hc]; [done |]); subst t.
Qed.

Lemma unknown_regions entries : unknown_type entries = None ↔ is_Some (regions_of entries).
Proof.
  induction entries as [| e rest IH]; simpl; [by split; [eauto |] |]. pose proof (region_type_known (me_type e)) as Hk.
  case_decide as Hd; [apply Hk in Hd as [ty ->] |].
  - rewrite IH. destruct (regions_of rest); simpl; split; intros [? ?]; eauto; done.
  - destruct (region_type (me_type e)) eqn:E; [by destruct Hd; apply Hk; eexists |].
    by split; [| intros [? ?]].
Qed.

Lemma base_valid_kernel entries pb : ∀ regions, regions_of entries = Some regions →
  kernel_base_valid regions pb = true ↔ Exists (has_kernel pb) entries.
Proof.
  induction entries as [| e rest IH]; intros regions Hr; simpl in Hr.
  { injection Hr as <-. rewrite Exists_nil. done. }
  destruct (region_type (me_type e)) as [ty |] eqn:Ety; [| done].
  destruct (regions_of rest) as [rs |]; [| done]. injection Hr as <-. rewrite Exists_cons, <- (IH rs) by done.
  unfold has_kernel. pose proof (region_type_kernel (me_type e)) as Hk. rewrite Ety in Hk.
  cbn [kernel_base_valid Pmm.type Pmm.base Pmm.length]. unfold u64. change (2 ^ 64) with 18446744073709551616.
  case_decide as Hd.
  - destruct ((me_base e <=? pb) && (pb <? (me_base e + me_length e) mod 18446744073709551616)) eqn:Eb.
    + split; [| done]. intros _. left. rewrite andb_true_iff, Z.leb_le, Z.ltb_lt in Eb.
      split; [apply Hk; by rewrite Hd | done].
    + rewrite andb_false_iff, Z.leb_gt, Z.ltb_ge in Eb. split; [by right | intros [(_ & ?) |]; [lia | done]].
  - split; [by right |]. intros [(E6 & _) |]; [| done]. destruct Hd. apply Hk in E6. congruence.
Qed.

Section Said.
Context `{CN : Console}.
Implicit Types (s : machine) (F A : gset Z) (T : gmap Z (nat * Z)).

#[local] Opaque Print.numeral Print.pointer_text.

Lemma tells_print_segments s0 s syms L (Q : unit → machine → Prop) :
  Serial.only_device s0 s → c_up s →
  (∀ s', Serial.only_device s0 s' → c_up s' → Q tt s') →
  tells (print_segments syms L) (segments_text syms L) Q s.
Proof.
  intros H U HQ. unfold print_segments, segments_text, print_segment. do 3 say. by apply HQ.
Qed.

(** ** The checks before the switch *)

Section Checks.
Context (s0 : machine) (root ph : Z) (T : gmap Z (nat * Z)) (A F : gset Z) (segs : list segment).
Context (Hvm : vm s0 root T A F) (Hd : described s0 root segs).

(** What the tables give for an address, from any state that has said more. *)
Lemma tells_translate s v p w x (Q : Z → machine → Prop) :
  Serial.only_device s0 s → canonical v → seg_access segs v = Some (p, w, x) → Q p s →
  tells (Vmm.translate (Vmm.mk_space (hhdm s0 + root) ph) v) [] Q s.
Proof using All.
  intros [d ->]%Serial.only_device_ex Hc Hp HQ. apply tells_silent.
  change (hhdm s0) with (hhdm (with_device d s0)).
  apply (wp_translate_described (with_device d s0) root T A F segs); [| | done |].
  - by apply (vm_mem s0).
  - by apply (described_mem s0).
  - by rewrite Hp.
Qed.

Lemma tells_print_translation s name a p w x (Q : unit → machine → Prop) :
  Serial.only_device s0 s → c_up s → canonical a → seg_access segs a = Some (p, w, x) →
  Print.render (line (name ++ "%p -> %p (expect %p)")) [va_int a; va_int p; va_int p] =
    Some (check_line name a p) →
  (∀ s', Serial.only_device s0 s' → c_up s' → Q tt s') →
  tells (print_translation (Vmm.mk_space (hhdm s0 + root) ph) name a p) (check_line name a p) Q s.
Proof using All.
  intros H U Hc Hp Hr HQ. apply tells_bind_nil, (tells_translate s a p w x); [done.. |].
  by apply (tells_kprintf s0).
Qed.

End Checks.

Lemma tells_print_translations s0 root ph T A F regions h L fb s (Q : unit → machine → Prop) :
  vm s0 root T A F → described s0 root (kernel_segments regions h L) → layout_ok regions h L →
  h <= fb_address fb < h + direct_size regions →
  Serial.only_device s0 s → c_up s → (∀ s', Serial.only_device s0 s' → c_up s' → Q tt s') →
  tells (print_translations (Vmm.mk_space (hhdm s0 + root) ph) L fb h) (checks_text ph L fb h) Q s.
Proof.
  intros Hvm Hd Hl Hfb H U HQ. unfold print_translations, checks_text.
  assert (∀ a, a ∈ [Vmm.image_start L; Vmm.text_start L; Vmm.rodata_start L; Vmm.data_start L] →
    ∃ w x, canonical a ∧
      seg_access (kernel_segments regions h L) a = Some (virtual_to_physical L a, w, x)) as Himg.
  { intros a Ha. destruct (image_access _ _ _ _ Hl Ha) as (Hc & H1 & H2 & w & x & E). exists w, x.
    unfold virtual_to_physical. by rewrite (u64_small (a - _)), u64_small. }
  pose proof Hl as [[Hpos _] [Hh _] Hap (? & ? & ? & ? & ?) _ _].
  pose proof (direct_size_eq _ _ _ Hl) as Hz.
  assert (2097152 <= direct_size regions) as Hds by (rewrite Hz; dlia). unfold two64 in *.
  rewrite (u64_small (h + 0x1000)), (u64_small (fb_address fb - h)) by (unfold is_u64; lia).
  say. destruct (direct_access regions h L (h + 0x1000) Hl) as [C1 A1]; [lia |].
  apply tells_bind_nil. eapply (tells_translate s0 root ph T A F); [done.. |].
  replace (h + 0x1000 - h) with 0x1000 by lia. say.
  destruct (direct_access regions h L (fb_address fb) Hl) as [C2 A2]; [lia |].
  apply tells_bind. eapply (tells_print_translation s0 root ph T A F); [done.. |]. clear s H U. intros s H U.
  destruct (Himg (Vmm.image_start L)) as (? & ? & C3 & A3); [set_solver |].
  apply tells_bind. eapply (tells_print_translation s0 root ph T A F); [done.. |]. clear s H U. intros s H U.
  destruct (Himg (Vmm.text_start L)) as (? & ? & C4 & A4); [set_solver |].
  apply tells_bind. eapply (tells_print_translation s0 root ph T A F); [done.. |]. clear s H U. intros s H U.
  destruct (Himg (Vmm.data_start L)) as (? & ? & C5 & A5); [set_solver |].
  eapply (tells_print_translation s0 root ph T A F); done.
Qed.

End Said.
