(* ===== verification/BootRun.v ===== *)
(** A whole run of [kmain] on any [Console]: the start, the checks, the memory
    managers, the switch of address space and the end, with everything said on
    the way. *)

From Stdlib Require Import ZArith Lia Ascii String.
From stdpp Require Import base numbers list gmap sets fin_sets.
From S2P Require Import Prelude Descriptors Machine Serial Print Console Cpu Report Pmm PmmInv PmmInit PmmBoot Paging Mmu Vmm Boot VmmInv VmmSteps VmmMap VmmRange KernelSpace Screen BootLog.
Import Boot Interrupts.
Local Open Scope Z_scope.

Section WithDevice.
Context {PD : PortDevice}.
Implicit Types (s : machine) (F A : gset Z) (T : gmap Z (nat * Z)).

(** ** States that agree on what the memory managers see *)

(** Memory, the allocator and the registers the managers use are as they
    were; segments, console and devices may differ. *)
Definition quiet s s' : Prop :=
  same_mem s s' ∧ efer s' = efer s ∧ cr3 (cpu s') = cr3 (cpu s) ∧ video s' = video s.

#[global] Instance quiet_preorder : PreOrder quiet.
Proof.
  split.
  - intros s. split_and!; done.
  - intros x y z (Hm1 & ? & ? & ?) (Hm2 & ? & ? & ?). split_and!; [by etrans | congruence..].
Qed.

Lemma quiet_device s s' : Serial.only_device s s' → quiet s s'.
Proof. intros ->. by split_and!. Qed.

(** ** The memory map *)

Lemma wp_translate_entries entries : ∀ regions s (Q : list Pmm.MemoryRegion → machine → Prop),
  regions_of entries = Some regions → Q regions s → wp (translate_entries entries) Q s.
Proof.
  induction entries as [| e rest IH]; intros regions s Q Hr HQ; simpl in *.
  - injection Hr as <-. by apply wp_ret.
  - destruct (region_type (me_type e)) as [type |]; [| done]. simpl in Hr.
    destruct (regions_of rest) as [rs |]; [| done]. injection Hr as <-.
    apply wp_bind, (IH rs); [done |]. by apply wp_ret.
Qed.

(** ** What a boot needs and leaves *)

(** Responses that pass every check. *)
Record delivered info fb entries regions h vb pb : Prop := {
  dl_revision : base_revision_supported info = true;
  dl_framebuffer : ∃ rest, framebuffer_response info = Some (fb :: rest);
  dl_memmap : memmap_response info = Some entries ∧ Z.of_nat (List.length entries) <= 64 ∧
    regions_of entries = Some regions;
  dl_hhdm : hhdm_response info = Some h;
  dl_kernel : kernel_address_response info = Some (vb, pb) ∧ kernel_base_valid regions pb = true
}.

(** What a correct boot loader delivers to a kernel linked as it should be. *)
Record bootable s syms info fb entries regions h vb pb phys : Prop := {
  bt_delivered : delivered info fb entries regions h vb pb;
  bt_idt : List.length (idt_table s) = 256%nat;
  bt_efer : is_u64 (efer s);
  bt_allocator : boot_ok s regions h phys ∧ disjoint_map regions;
  bt_layout : layout_ok regions h (kernel_layout syms vb pb);
  bt_tables : tables_needed regions h (kernel_layout syms vb pb) <=
    Z.of_nat (size (initial_free regions phys));
  bt_screen : fb_ok fb;
  bt_screen_region : ∃ r, r ∈ regions ∧ 0 <= Pmm.base r ∧ 0 <= Pmm.length r ∧
    Pmm.base r + Pmm.length r < two64 ∧ h + Pmm.base r <= fb_address fb ∧
    fb_address fb + fb_pitch fb * fb_height fb <= h + Pmm.base r + Pmm.length r;
  bt_screen_access : ∀ x y, on_screen fb x y → writable s (pixel_address fb x y) = true
}.

Lemma boot_ok_quiet s s' regions h phys : quiet s s' → boot_ok s regions h phys →
  boot_ok s' regions h phys.
Proof.
  intros ((Ha & _ & _) & _) [H1 H2 H3 H4 H5 H6 H7]. split; try done. unfold writable. by rewrite Ha.
Qed.

(** What the machine looks like when it stops. *)
Record running root segs fb s : Prop := {
  run_cr3 : cr3 (cpu s) = root;
  run_cr2 : cr2 (cpu s) = 0;
  run_space : ∀ v, canonical v → hw_access s root v = seg_access segs v;
  run_screen : ∀ x y, on_screen fb x y → video s !! pixel_address fb x y = Some (pixel fb x y)
}.

(** An address of the direct map whose memory the map gives as usable. *)
Definition in_usable (regions : list Pmm.MemoryRegion) (h a : Z) : Prop :=
  ∃ r, r ∈ regions ∧ usable r ∧ h + Pmm.base r <= a < h + Pmm.base r + Pmm.length r.

(** What a boot has written: usable memory and pixels. *)
Record confined s regions h fb s' : Prop := {
  cf_cells : ∀ a, ~ in_usable regions h a → cell s' a = cell s a;
  cf_video : drawn_on fb (video s) (video s')
}.

(** The allocator owns nothing else. *)
Lemma held_usable s0 s regions h phys a : boot_ok s0 regions h phys → sized s regions h phys →
  held s (initial_free regions phys) a → in_usable regions h a.
Proof.
  intros Hb (Eb & _ & Ew & _ & Eh). unfold held. rewrite Eb, Ew, Eh.
  pose proof (boot_ok_sizes _ _ _ _ Hb) as Hsz. cbv zeta in Hsz. intros [Ha | (f & Hf & Ha)].
  - destruct (boot_ok_region _ _ _ _ Hb) as (r & Hin & Hu & Hr & Hr0 & Hrl & _).
    exists r. split_and!; [done | done | lia..].
  - unfold initial_free in Hf. apply elem_of_difference in Hf as [Hf _].
    apply elem_of_usable_frames in Hf as (r & Hin & Hu & [H1 H2]%elem_of_frames_of).
    exists r. split_and!; [done | done | lia..].
Qed.

Lemma kernel_null_unmapped regions h L : layout_ok regions h L →
  seg_access (kernel_segments regions h L) 0 = None.
Proof.
  intros Hlo. pose proof (direct_size_eq _ _ _ Hlo) as Hz.
  pose proof Hlo as [[? ?] [? ?] Hap (? & ? & ? & ? & ?) _ _].
  unfold kernel_segments, two64 in *.
  cbn [seg_access sg_virt sg_size sg_phys sg_flags image_segment].
  assert (0 < direct_size regions) by (rewrite Hz; dlia).
  by do 5 (rewrite decide_False by (unfold in_range; lia)).
Qed.

End WithDevice.

(** ** The run *)

Section Said.
Context `{CN : Console}.
Implicit Types (s : machine) (F A : gset Z) (T : gmap Z (nat * Z)).

#[local] Opaque Print.numeral Print.pointer_text.

Lemma tells_start_console syms s (Q : unit → machine → Prop) :
  List.length (idt_table s) = 256%nat →
  (∀ s', quiet s s' → c_up s' → seg_cs (cpu s') = Gdt.kKernelCodeSelector →
     seg_ss (cpu s') = Gdt.kKernelDataSelector → Q tt s') →
  tells (start_console syms) (text (line "WaterBuffalo booting")) Q s.
Proof.
  intros Hlen HQ. unfold start_console, Cpu.gdt_init, Cpu.on_cpu, Cpu.idt_init.
  apply tells_skip, wp_bind, wp_modify, wp_bind, wp_modify, wp_modify. split; [done |].
  apply tells_skip, wp_bind, (Cpu.wp_fill_gates (λ _, Idt.empty_entry)).
  { simpl. rewrite Hlen. lia. } { unfold two64; lia. }
  intros t1 L1 _ _. apply wp_bind, (Cpu.wp_fill_gates (λ i,
    Idt.make_entry (sym_isr_stub_table syms i) Gdt.kKernelCodeSelector 0 0x8E)).
  { simpl in *. rewrite L1, Hlen. lia. } { unfold two64; lia. }
  intros t2 _ _ _. apply wp_modify. split; [done |]. apply tells_bind_nil.
  eapply wp_mono; [apply c_start |]. intros ok s1 ((b & d & ->) & U & Hs). split; [exact Hs |].
  apply tells_skip, wp_modify. split; [done |]. speak U. apply HQ; [| done | done | done].
  split_and!; try done. unfold efer. simpl. by rewrite !lookup_insert_ne.
Qed.

Lemma tells_check_responses s info fb rest entries h ka
    (Q : limine_framebuffer * list limine_memmap_entry * Z * (Z * Z) → machine → Prop) :
  c_up s → base_revision_supported info = true → framebuffer_response info = Some (fb :: rest) →
  memmap_response info = Some entries → hhdm_response info = Some h →
  kernel_address_response info = Some ka →
  (∀ s', Serial.only_device s s' → c_up s' → Q (fb, entries, h, ka) s') →
  tells (check_responses info) (text (line "framebuffer acquired")) Q s.
Proof.
  intros U H1 H2 H3 H4 H5 HQ. unfold check_responses. rewrite H1, H2, H3, H4, H5. cbn [negb].
  rewrite <- (app_nil_r (text _)). speak U. by apply tells_ret, HQ.
Qed.

(** ** Refusals *)

Lemma ends_fatal {B} s0 s message t : quiet s0 s → c_up s →
  Print.render (line message) [] = Some t → ends (fatal (A := B) message) t (quiet s0) s.
Proof.
  intros Hq U Ht. rewrite <- (app_nil_r t). apply ends_bind, (tells_kprintf s); [done.. |].
  intros s' H' _. apply ends_halt. etrans; [exact Hq | by apply quiet_device].
Qed.

Lemma ends_translate_entries s0 entries : ∀ s ty, quiet s0 s → c_up s → unknown_type entries = Some ty →
  ends (translate_entries entries) (labelled "fatal: unknown memory map type: " (dec ty)) (quiet s0) s.
Proof.
  induction entries as [| e rest IH]; intros s ty Hq U Hty; simpl in *; [done |].
  pose proof (region_type_known (me_type e)) as Hk. case_decide as Hd.
  { apply Hk in Hd as [type ->]. by apply ends_bind_l, IH. }
  destruct (region_type (me_type e)) as [type |]; [by destruct Hd; apply Hk; eexists |].
  injection Hty as <-. rewrite <- (app_nil_r (labelled _ _)). speak U. apply ends_halt.
  etrans; [exact Hq | by apply quiet_device].
Qed.

Lemma ends_memmap_refused {B} s0 s1 s entries vb pb t (k : list Pmm.MemoryRegion → M B) :
  (∀ s2, Serial.only_device s1 s2 → quiet s0 s2) → Serial.only_device s1 s → c_up s →
  match memmap_refusal entries with Some t => Some t | None => base_refusal entries vb pb end = Some t →
  ends (let! regions := translate_memmap entries in
        verify_base regions vb pb ;; k regions) t (quiet s0) s.
Proof.
  intros Hq H U Ht. unfold translate_memmap, memmap_refusal in *.
  destruct (64 <? Z.of_nat (List.length entries)).
  { injection Ht as <-. apply ends_bind_l, ends_fatal; by auto. }
  destruct (unknown_type entries) as [ty |] eqn:Eu; simpl in Ht.
  { injection Ht as <-. apply ends_bind_l, ends_translate_entries; by auto. }
  apply unknown_regions in Eu as [regions Hr]. unfold base_refusal in Ht.
  case_decide as Hn; [done |]. apply (inj Some) in Ht as <-.
  assert (kernel_base_valid regions pb = false) as Hk
    by (apply not_true_is_false; by rewrite (base_valid_kernel entries)).
  apply ends_silent, (wp_translate_entries entries regions); [done |]. split; [done |].
  apply ends_bind_l. unfold verify_base. do 2 say. rewrite Hk. apply ends_fatal; by auto.
Qed.

Lemma ends_kmain_refused s syms info ctx space t :
  List.length (idt_table s) = 256%nat → refusal info = Some t →
  ends (kmain syms info ctx space) (text (line "WaterBuffalo booting") ++ t) (quiet s) s.
Proof.
  intros Hidt Href. unfold kmain. apply ends_bind, tells_start_console; [done |].
  intros s1 Q1 U1 _ _. unfold refusal in Href.
  assert (∀ s2, Serial.only_device s1 s2 → quiet s s2) as Hq
    by (intros s2 H2; etrans; [exact Q1 | by apply quiet_device]).
  destruct (base_revision_supported info) eqn:E1; cbn [negb] in Href.
  2:{ injection Href as <-. apply ends_bind_l. unfold check_responses. rewrite E1. by apply ends_fatal. }
  destruct (framebuffer_response info) as [[| fb rest] |] eqn:E2.
  1,3: injection Href as <-; apply ends_bind_l; unfold check_responses; rewrite E1, E2;
    by apply ends_fatal.
  apply fmap_Some in Href as (t' & Href & ->).
  destruct (memmap_response info) as [entries |] eqn:E3, (hhdm_response info) as [h |] eqn:E4,
    (kernel_address_response info) as [[vb pb] |] eqn:E5; simplify_eq.
  2-8: apply ends_bind_l; unfold check_responses; rewrite E1, E2, ?E3, ?E4, ?E5; cbn [negb];
    speak U1; apply ends_fatal; [by apply Hq | done | done].
  apply ends_bind, (tells_check_responses s1 info fb rest entries h (vb, pb)); [done.. |].
  intros s2 H U. cbv iota beta. by apply (ends_memmap_refused s s1).
Qed.

(** The page fault that ends the run. *)
Lemma ends_write_null {B} ctx (k : unit → M B) (Q : machine → Prop) s : c_up s →
  seg_cs (cpu s) = Gdt.kKernelCodeSelector → seg_ss (cpu s) = Gdt.kKernelDataSelector →
  hw_access s (cr3 (cpu s)) 0 = None →
  (∀ d, Q (with_device d (with_cpu (set_cr2 0 (cpu s)) s))) →
  ends (bind (write_null ctx) k) (report (null_fault ctx) 0) Q s.
Proof.
  intros U Hcs Hss Hn HQ. apply ends_bind_l, ends_silent, wp_gets. split; [done |].
  change (id s) with s. rewrite Hn. apply ends_silent, wp_modify. split; [done |].
  rewrite Hcs, Hss. cbv zeta.
  match goal with |- context [frame_at ?stack] =>
    replace (frame_at stack) with (Some (null_fault ctx)) by reflexivity end.
  eapply ends_mono; [exact (ends_isr_handler (null_fault ctx) _ (c_up_same s
    (with_cpu (set_cr2 0 (cpu s)) s) (conj eq_refl (conj eq_refl eq_refl)) U)) |].
  intros s' [[d ->]%Serial.only_device_ex _]. apply HQ.
Qed.

(** From the finished address space to the end. *)
Lemma ends_switch s root T A F regions h L fb ctx : c_up s → vm s root T A F →
  seg_cs (cpu s) = Gdt.kKernelCodeSelector → seg_ss (cpu s) = Gdt.kKernelDataSelector →
  described s root (kernel_segments regions h L) → layout_ok regions h L →
  fb_ok fb → (∀ x y, on_screen fb x y → writable s (pixel_address fb x y) = true) →
  h <= fb_address fb → fb_address fb + fb_pitch fb * fb_height fb <= h + direct_size regions →
  ends (run_kernel (Vmm.mk_space (hhdm s + root) root) L fb h ctx)
    (checks_text root L fb h ++ text (line "loading cr3...") ++ text (line "cr3 loaded") ++
     text (line "done") ++ report (null_fault ctx) 0)
    (λ s', running root (kernel_segments regions h L) fb s' ∧ cells s' = cells s ∧
       drawn_on fb (video s) (video s')) s.
Proof.
  intros U Hvm Hcs Hss Hd Hl Hfb Hacc Hlow Hhigh.
  assert (∀ v, canonical v → hw_access s root v = seg_access (kernel_segments regions h L) v) as Hhw
    by (intros v Hv; by eapply described_access; [apply Hvm | |]).
  apply ends_bind, (tells_print_translations s root root T A F regions); [done.. | | done | done |].
  { destruct Hfb as [[? ?] ? ?]. nia. }
  intros s1 [d1 ->]%Serial.only_device_ex U1. speak U1.
  apply ends_silent, wp_modify. split; [done |]. speak U1.
  apply ends_silent, wp_draw; [done | |].
  - intros x y Hs. specialize (Hacc x y Hs). revert Hacc. unfold writable.
    cbn [access with_device with_access with_cpu]. destruct (access s _) as [[] |]; [intros _ | done..].
    rewrite (hw_access_cells s) by done.
    destruct (pixel_offset fb x y Hfb Hs) as (-> & H1 & H2).
    destruct (direct_access regions h L (fb_address fb + 4 * (y * (fb_pitch fb / 4) + x)) Hl)
      as [Hc E]; [lia |]. rewrite Hhw, E by done. done.
  - intros v Hv Hdr. split; [done |]. speak U1. apply ends_write_null; [done | done | done | |].
    + rewrite (hw_access_cells s) by done. cbn [cpu cr3 with_device with_video with_access with_cpu Vmm.set_cr3].
      rewrite Hhw; [by apply kernel_null_unmapped | by apply canonical_cases; unfold two64; lia].
    + intros d5. split; [| done]. split; [done | done | |].
      * intros a Ha. rewrite (hw_access_cells s) by done. by apply Hhw.
      * intros x y [Hx Hy]. by apply Hv.
Qed.

(** The framebuffer lies in the direct map. *)
Lemma screen_direct s syms info fb entries regions h vb pb phys :
  bootable s syms info fb entries regions h vb pb phys →
  h <= fb_address fb ∧ fb_address fb + fb_pitch fb * fb_height fb <= h + direct_size regions.
Proof.
  intros Hb. pose proof (bt_layout _ _ _ _ _ _ _ _ _ _ Hb) as Hlo.
  destruct (bt_screen_region _ _ _ _ _ _ _ _ _ _ Hb) as (r & Hin & Hb0 & Hl0 & H64 & Hlow & Hhigh).
  pose proof (memory_top_ge regions r Hin Hb0 Hl0 H64) as Hhe.
  pose proof (direct_size_eq _ _ _ Hlo) as Hz.
  assert (memory_top regions <= direct_size regions) by (rewrite Hz; dlia). lia.
Qed.

(** What is known when the address space is about to be built. *)
Record managed s regions h phys s' : Prop := {
  mg_access : access s' = access s;
  mg_efer : efer s' = efer s;
  mg_cr3 : cr3 (cpu s') = cr3 (cpu s);
  mg_video : video s' = video s;
  mg_cs : seg_cs (cpu s') = Gdt.kKernelCodeSelector;
  mg_ss : seg_ss (cpu s') = Gdt.kKernelDataSelector;
  mg_sized : sized s' regions h phys;
  mg_cells : ∀ a, ~ held s' ∅ a → cell s' a = cell s a;
  mg_init : bits s' (initial_free regions phys) ∧ counted s' (initial_free regions phys) ∧
    layout s' (initial_free regions phys)
}.

Lemma managed_cells s regions h phys s' a : boot_ok s regions h phys → managed s regions h phys s' →
  ~ in_usable regions h a → cell s' a = cell s a.
Proof.
  intros Hok Hm Ha. apply (mg_cells _ _ _ _ _ Hm). intros Ho. apply Ha, (held_usable s s' _ _ phys); [done | |].
  - apply Hm.
  - destruct Ho as [| (f & ? & _)]; [by left | set_solver].
Qed.

(** The run up to there. *)
Lemma ends_kmain_start s syms info ctx space fb entries regions h vb pb phys t (Q : machine → Prop) :
  delivered info fb entries regions h vb pb → List.length (idt_table s) = 256%nat →
  boot_ok s regions h phys → disjoint_map regions →
  (∀ s', managed s regions h phys s' → c_up s' →
     ends (let! space := build_space space regions h (kernel_layout syms vb pb) in
           run_kernel space (kernel_layout syms vb pb) fb h ctx) t Q s') →
  ends (kmain syms info ctx space) (start_text syms regions h vb pb phys t) Q s.
Proof.
  intros [Hrev [rest Hfb] (Hmm & Hlen & Hreg) Hhh [Hka Hkb]] Hidt Hok Hdj HQ.
  unfold kmain, start_text. apply ends_bind, tells_start_console; [done |]. intros s1 Q1 U1 Hcs Hss.
  apply ends_bind, (tells_check_responses s1 info fb rest entries h (vb, pb)); [done.. |].
  intros s2 H U. cbv iota beta. apply ends_silent. unfold translate_memmap.
  destruct (Z.ltb_spec 64 (Z.of_nat (List.length entries))); [lia |].
  apply (wp_translate_entries entries regions); [done |]. split; [done |].
  apply ends_bind_assoc. say. apply ends_bind_assoc. say.
  rewrite Hkb. cbn [negb]. say. cbv zeta.
  apply ends_bind, (tells_print_segments s1); [done.. |]. clear s2 H U. intros s6 H6 U6.
  assert (quiet s s6) as Q6 by (etrans; [exact Q1 | by apply quiet_device]).
  assert (cpu s6 = cpu s1) as C6 by (by rewrite H6).
  apply ends_bind, tells_init; [done | by apply (boot_ok_quiet s) | done |].
  intros s7 [Ha7 Hc7 Hv7 Hm7 Hz7 Hb7 Hn7 Hl7] U7. destruct Q6 as ((Ea & Em & _) & Ee & Ec & Ev).
  apply HQ; [| done]. split; try done.
  - congruence.
  - unfold efer at 1. by rewrite Hc7.
  - congruence.
  - congruence.
  - by rewrite Hc7, C6.
  - by rewrite Hc7, C6.
  - intros a Ha. rewrite Hm7 by done. unfold cell. by rewrite Em.
Qed.

(** The whole run. *)
Lemma ends_kmain s syms info ctx space fb entries regions h vb pb phys root :
  bootable s syms info fb entries regions h vb pb phys →
  (∃ f, lowest (initial_free regions phys) f ∧ root = 4096 * f) →
  ends (kmain syms info ctx space) (boot_text syms fb regions h vb pb phys root ctx)
    (λ s', running root (kernel_segments regions h (kernel_layout syms vb pb)) fb s' ∧
       confined s regions h fb s') s.
Proof.
  intros Hb (f0 & Hf0 & Hroot). pose proof Hb as [Hdl Hidt Hef [Hok Hdj] Hlo Htab Hscr _ Hacc].
  assert (regions ≠ []) as Hne by (intros ->; by destruct Hlo as [[? _] _ _ _ _ _]).
  set (L := kernel_layout syms vb pb) in *.
  apply (ends_kmain_start s syms info ctx space fb entries); [done.. |]. fold L.
  intros s7 Hm7 U7. pose proof Hm7 as [Ha7 He7 _ Hv7 Hcs7 Hss7 Hz7 _ (Hb7 & Hn7 & Hl7)].
  apply ends_bind_assoc, ends_silent, (wp_build s7 (initial_free regions phys) (initial_free regions phys));
    [done | done | done | done | by rewrite He7 | done | done | done |].
  intros s8 s9 root' Hm8 _ (f & Hf & Hroot') (T & F' & E9 & V9 & _ & _ & Hd9). cbn [negb].
  assert (root' = root) as ->
    by (rewrite Hroot, Hroot'; f_equal; by apply (lowest_unique (initial_free regions phys))).
  pose proof (touches_env _ _ _ E9) as (Ha9 & _ & Hc9 & _ & _ & Hk9 & Hi9 & Hv9 & Hdev9).
  assert (same_console s7 s9 ∧ access s9 = access s7 ∧ video s9 = video s7 ∧
    seg_cs (cpu s9) = seg_cs (cpu s7) ∧ seg_ss (cpu s9) = seg_ss (cpu s7)) as (Hsc & Ea & Ev & Ecs & Ess)
    by (unfold same_console; rewrite Ha9, Hc9, Hk9, Hi9, Hv9, Hdev9; destruct Hm8 as [-> | ->]; by split_and!).
  destruct (screen_direct _ _ _ _ _ _ _ _ _ _ Hb). split; [apply Hsc |].
  eapply ends_mono; [apply (ends_switch s9 root T (initial_free regions phys) F' regions h L fb); try done |].
  - by apply (c_up_same s7).
  - by rewrite Ecs.
  - by rewrite Ess.
  - intros x y Hxy. unfold writable. rewrite Ea, Ha7. by apply Hacc.
  - intros s' (Hr & Hc' & Hd'). split; [done |]. rewrite Ev, Hv7 in Hd'. split; [| done].
    intros a Ha. rewrite <- (managed_cells s regions h phys s7 a) by done.
    unfold cell at 1. rewrite Hc'. fold (cell s9 a). rewrite (touches_cells _ _ _ E9).
    + by destruct Hm8 as [-> | ->].
    + intros Ho. apply Ha, (held_usable s s7 _ _ phys); [done | done |].
      revert Ho. by destruct Hm8 as [-> | ->].
Qed.

(** A direct map that is not 2 MiB aligned: the space is not built, and that is
    said. *)
Lemma ends_kmain_unbuilt s syms info ctx space fb entries regions h vb pb phys :
  delivered info fb entries regions h vb pb → List.length (idt_table s) = 256%nat →
  boot_ok s regions h phys → disjoint_map regions → h mod 2097152 ≠ 0 →
  ends (kmain syms info ctx space) (start_text syms regions h vb pb phys
    (text (line "FATAL: failed to build kernel address space")))
    (λ s', cr3 (cpu s') = cr3 (cpu s) ∧ video s' = video s ∧
       ∀ a, ~ in_usable regions h a → cell s' a = cell s a) s.
Proof.
  intros Hdl Hidt Hok Hdj Hh.
  apply (ends_kmain_start s syms info ctx space fb entries); [done.. |].
  intros s7 Hm7 U7. pose proof Hm7 as [Ha7 He7 Hc7 Hv7 _ _ _ _ _]. apply ends_bind_assoc, ends_silent. unfold wp.
  unfold Vmm.build_kernel_address_space. rewrite large_offset_test.
  destruct (Z.eqb_spec (h mod 2097152) 0); [done |].
  destruct (Z.of_nat (List.length regions) =? 0); cbn [negb ret]; (split; [done |]);
    (eapply ends_mono; [by apply ends_bind_l, (ends_fatal s7) |]); intros s' ((_ & Em & _) & _ & Ec & Ev);
    (split_and!; [congruence | congruence |]); intros a Hn; unfold cell at 1; rewrite Em;
    by apply (managed_cells s regions h phys).
Qed.

End Said.
