(* ===== verification/Sample.v ===== *)
(** A small machine: 512 KiB of address space, of which the first page is reserved,
    a direct map in the higher half and the UART of [Console].  The theorems
    that have hypotheses are applied to it, which shows that the hypotheses
    can hold together. *)

From Stdlib Require Import ZArith Lia Ascii String.
From stdpp Require Import base numbers list gmap sets fin_sets.
From S2P Require Import Prelude Descriptors Machine Serial Print Console Pmm PmmInv PmmInit PmmSpec Paging Mmu Vmm VmmInv.
Local Open Scope Z_scope.
#[local] Existing Instance Uart.uart_device.
#[local] Existing Instance Uart.uart_transmitter.

Module Sample.
Import Pmm.

(** The direct map. *)
Definition h : Z := 0xFFFF800000000000.

Definition regions : list MemoryRegion :=
  [mk_region 0 0x1000 Reserved; mk_region 0x1000 0x3F000 Usable].

Definition reset_cpu : cpu_state :=
  mk_cpu 0 0 ∅ (Gdt.mk_pointer 0 0) (Idt.mk_pointer 0 0) 0 0 0 0 0 0.

Definition ram (a : Z) : option bool :=
  if (h <=? a) && (a <? h + 0x80000) then Some true else None.

(** As the boot loader leaves it, with the console up. *)
Definition booted : machine :=
  mk_machine ram ∅ (mk_pmm 0 0 0 0 0 0 0) reset_cpu Gdt.gdt [] (Some serial_putc) true ∅
    (Uart.mk_uart 3 15 1 [] []).

(** With the allocator initialised, except for the frames below [first]: the
    bitmap is in frame 1. *)
Definition ready (first : Z) : machine :=
  mk_machine ram {[h + 0x1000 := 2 ^ first - 1]}
    (mk_pmm (h + 0x1000) 0x1000 1 8 64 (64 - first) h) reset_cpu Gdt.gdt [] (Some serial_putc) true ∅
    (Uart.mk_uart 3 15 1 [] []).

Lemma booted_up : up booted.
Proof. done. Qed.

Lemma ram_ok a : h <= a → a < h + 0x80000 → ram a = Some true.
Proof. intros. unfold ram. case_match; [done | lia]. Qed.

Lemma ram_writable s a : access s = ram → h <= a → a < h + 0x80000 → writable s a = true.
Proof. intros Hs H1 H2. unfold writable. by rewrite Hs, ram_ok. Qed.

Lemma booted_ok : boot_ok booted regions h 0x1000.
Proof.
  split; try done.
  - intros r [-> | [-> | []%elem_of_nil]%elem_of_cons]%elem_of_cons Hu; done.
  - intros r a [-> | [-> | []%elem_of_nil]%elem_of_cons]%elem_of_cons Hu Ha1 Ha2; [done |].
    simpl in *. apply ram_writable; [done | lia..].
Qed.

Lemma regions_disjoint : disjoint_map regions.
Proof. simpl. split_and!; try done. Qed.

Lemma low_mask_bit first n : 0 <= first → 0 <= n →
  Z.testbit (2 ^ first - 1) n = (n <? first).
Proof.
  intros. change (2 ^ first - 1) with (Z.pred (2 ^ first)).
  rewrite <- Z.ones_equiv, Z.testbit_ones_nonneg by lia. done.
Qed.

Lemma ready_bits first : 0 <= first <= 64 → bits (ready first) (frame_range first 64).
Proof.
  intros Hf. assert (is_u64 (2 ^ first - 1)) as Hu.
  { unfold is_u64. change 18446744073709551616 with (2 ^ 64).
    pose proof (Z.pow_le_mono_r 2 first 64). pose proof (Z.pow_pos_nonneg 2 first). lia. }
  split; try done; simpl.
  - intros w Hw. by replace w with 0 by lia.
  - intros w Hw. replace w with 0 by lia. unfold cell. simpl. by rewrite lookup_singleton_eq.
  - intros f Hf'. rewrite elem_of_frame_range. unfold bit_word, cell. simpl.
    rewrite Z.div_small, Z.mod_small, Z.add_0_r, lookup_singleton_eq by lia. simpl.
    rewrite low_mask_bit by lia. lia.
  - intros f. rewrite elem_of_frame_range. lia.
Qed.

Lemma size_frame_range a b : a <= b → Z.of_nat (size (frame_range a b)) = b - a.
Proof.
  intros. unfold frame_range. rewrite size_list_to_set by apply NoDup_seqZ.
  rewrite length_seqZ. lia.
Qed.

Lemma ready_allocator first : 0 <= first <= 64 → allocator (ready first) 64 (frame_range first 64).
Proof.
  intros Hf. split_and!; [by apply ready_bits | | done]. unfold counted. simpl.
  by rewrite size_frame_range by lia.
Qed.

Lemma ready_layout first : layout (ready first) (frame_range 2 64).
Proof.
  split; try done; simpl.
  - intros f. rewrite elem_of_frame_range. lia.
  - intros f i. rewrite elem_of_frame_range. intros Hf Hi. unfold addr_ok. simpl.
    rewrite ram_writable by (done || lia). apply Z.eqb_eq. unfold h. dlia.
  - intros f. rewrite elem_of_frame_range. lia.
Qed.

(** An empty address space, its PML4 in frame 2. *)
Definition root : Z := 0x2000.
Definition labels : gmap Z (nat * Z) := {[root := (4%nat, 0)]}.

Lemma ready_ent first i : 0 <= i < 512 → ent (ready first) root i = 0.
Proof.
  intros Hi. unfold ent, cell, ready. simpl. rewrite lookup_singleton_ne; [done |].
  unfold hhdm, root. simpl. lia.
Qed.

Lemma ready_vm first : 3 <= first <= 64 →
  vm (ready first) root labels (frame_range 2 64) (frame_range first 64).
Proof.
  intros Hf. assert (∀ p lb, labels !! p = Some lb → p = root ∧ lb = (4%nat, 0)) as Hsing
    by (unfold labels; by intros p lb [<- <-]%lookup_singleton_Some).
  destruct (ready_allocator first) as (Hb & Hc & _); [lia |]. split; try done.
  - apply ready_layout.
  - intros f. rewrite !elem_of_frame_range. lia.
  - split.
    + done.
    + intros p l n [-> [= -> ->]]%Hsing. lia.
    + intros p lb i [-> _]%Hsing Hi. by rewrite ready_ent.
    + intros p lb i [-> _]%Hsing Hi _. by rewrite ready_ent.
    + intros p l n i [-> _]%Hsing Hi _. by rewrite ready_ent.
    + intros p l n i [-> _]%Hsing Hi _. by rewrite ready_ent.
  - intros p lb [-> _]%Hsing. rewrite !elem_of_frame_range. change (root / 4096) with 2. split; [done | lia].
Qed.

Lemma ready_free first : 3 <= first <= 60 → (3 ≤ size (frame_range first 64))%nat.
Proof. intros Hf. pose proof (size_frame_range first 64). lia. Qed.

End Sample.
