(* ===== verification/PmmTheorems.v ===== *)
(** The theorems about the frame allocator. *)

From Stdlib Require Import ZArith Lia Ascii String.
From stdpp Require Import base numbers list gmap sets fin_sets.
From S2P Require Import Prelude Descriptors Machine Serial Print Console Pmm PmmInv PmmInit PmmBoot PmmSpec Paging Mmu Vmm VmmInv Sample.
Import Pmm.
Local Open Scope Z_scope.

Section WithDevice.
Context {PD : PortDevice}.
Implicit Types (s : machine) (F A O U : gset Z).

(** C2: from a memory map that can hold the bitmap and whose usable regions
    share no frame, [pmm::init] returns with an allocator in which exactly the
    frames that lie wholly inside a usable region and outside the bitmap are
    free, counted exactly, reachable through the direct map and apart from the
    bitmap, and has written no memory but the bitmap. *)
Theorem init_exact s regions h phys :
  boot_ok s regions h phys → disjoint_map regions →
  wp (init regions h) (λ _ s',
    allocator s' (frames_for (highest_usable regions)) (initial_free regions phys) ∧
    layout s' (initial_free regions phys) ∧
    g_hhdm_offset (pmm s') = h ∧ bitmap_phys (pmm s') = phys ∧
    ∀ a, ~ held s' ∅ a → cell s' a = cell s a) s.
Proof.
  intros Hb Hd. eapply wp_mono; [apply (tells_init (CN := any_console) s regions h phys
    (λ _ s', initialised s regions h phys s')); by auto |].
  intros _ s' [_ [_ _ _ ? (_ & ? & _ & ? & ?) ? ? ?]]. unfold allocator. tauto.
Qed.

(** C30: with no usable memory, or with no usable region as long as the pages
    the bitmap needs, however large the regions of other types are,
    [pmm::init] stops the CPU and has written no memory.  The bitmap has one bit
    for each frame up to the end of the highest usable region. *)
Theorem init_fatal s regions h : map_wf regions →
  (∀ r, r ∈ regions → usable r → base r + length r = 0) ∨
  (∀ r, r ∈ regions → usable r → length r < 4096 * pages_for (highest_usable regions)) →
  halts (init regions h) (λ s', cells s' = cells s) s.
Proof.
  intros Hwf Hbad. pose proof (highest_usable_nonneg regions). pose proof (highest_usable_bound _ Hwf).
  assert (highest_usable regions = 0 ∨ find_bitmap regions (pages_for (highest_usable regions)) = None).
  { destruct Hbad as [Hnone | Hsmall]; [left; by apply highest_usable_zero | right].
    apply find_bitmap_None; [unfold pages_for, words_for, frames_for, two64 in *; dlia |].
    intros r Hr Hu. specialize (Hsmall r Hr Hu). lia. }
  destruct (ends_init (CN := any_console) s regions h (λ s', cells s' = cells s))
    as (s' & E & _ & Hs'); [done.. |]. by exists s'.
Qed.

(** C3: over any sequence of [alloc_frame] and [free_frame] calls, the
    allocator answers like the specification, a set of free frames from which
    the least is taken, and its bitmap and its counter represent that set
    throughout; bad releases change nothing. *)
Theorem allocator_refines s n F rs : allocator s n F → Forall request_ok rs →
  wp (serve_all rs) (λ out s',
    out = (spec_run n F rs).1 ∧ allocator s' n (spec_run n F rs).2) s.
Proof. intros Ha Hok. by apply (wp_serve_all n rs s F). Qed.

(** [k] allocations from an allocator with at least [k] free frames
    return [k] different frames, all of them free before, and leave exactly
    the others free. *)
Theorem allocations_distinct s n F k : allocator s n F → (k ≤ size F)%nat →
  wp (serve_all (replicate k Alloc)) (λ out s', ∃ F',
    List.length out = k ∧ NoDup out ∧ F' ⊆ F ∧
    (∀ a, a ∈ out ↔ ∃ f, a = 4096 * f ∧ f ∈ F ∧ f ∉ F') ∧ allocator s' n F') s.
Proof.
  intros Ha Hk. apply (wp_serve_all n _ s F); [done | by apply Forall_replicate |]. intros s' Ha'.
  destruct (spec_run n F (replicate k Alloc)) as [out F'] eqn:Hr.
  destruct (spec_run_alloc _ _ _ _ _ Hk Hr) as (Hl & Hnd & Hin & Hsub). simpl in *. by exists F'.
Qed.

(** C39: [alloc_frame] returns 0 exactly when nothing is free or frame 0 is: in
    the first case nothing has changed, in the second frame 0 has been taken,
    and a caller cannot tell the two apart. *)
Theorem alloc_frame_zero s n F : allocator s n F →
  wp alloc_frame (λ a s', (a = 0 ↔ F = ∅ ∨ 0 ∈ F) ∧ (F = ∅ → s' = s) ∧
    (0 ∈ F → allocator s' n (F ∖ {[0]}))) s.
Proof.
  intros Ha. destruct (decide (F = ∅)) as [-> | Hne].
  - apply wp_alloc_frame with ∅; [apply Ha | by intros f v [[]%not_elem_of_empty _] |].
    intros _. split_and!; [set_solver | done | set_solver].
  - destruct (lowest_exists F Hne) as (f & Hf). pose proof Hf as [Hin Hmin].
    apply (wp_serve s n F Alloc); [done.. |]. intros s' Ha'. simpl in *.
    rewrite (least_lowest _ _ Hf) in Ha' |- *.
    assert (0 ∈ F → f = 0) as Hz.
    { intros H0. pose proof (bits_valid _ _ (proj1 Ha) f Hin). specialize (Hmin 0 H0). lia. }
    split_and!; [| done |].
    + split; [| intros [| H0]; [done | simpl; rewrite Hz by done; lia]].
      intros E. right. by replace f with 0 in Hin by (simpl in E; lia).
    + intros H0. by rewrite Hz in Ha' by done.
Qed.

(** Giving back the frame just allocated restores the set of free frames
    and the counter. *)
Theorem alloc_free_roundtrip s n F : allocator s n F → F ≠ ∅ →
  wp (let! a := alloc_frame in free_frame a ;; ret a)
    (λ a s', (∃ f, a = 4096 * f ∧ f ∈ F) ∧ allocator s' n F) s.
Proof.
  intros Ha Hne. apply wp_bind, (wp_serve s n F Alloc); [done.. |]. intros s1 Ha1. simpl in *.
  destruct (least F) as [f |] eqn:Hf; [| by apply least_None in Hf]. simpl in *.
  apply least_in in Hf. pose proof (bits_valid _ _ (proj1 Ha) f Hf) as Hv.
  pose proof (bits_phys _ _ (proj1 Ha)). unfold two64 in *. destruct Ha as (_ & _ & Hn).
  assert ((4096 * f) / 4096 = f) as Hd by (rewrite Z.mul_comm; by apply Z.div_mul).
  apply wp_bind. destruct Ha1 as (Hb1 & Hc1 & Hn1).
  apply wp_free_frame with (F ∖ {[f]}); rewrite ?Hd; [done | unfold is_u64; lia | |].
  - intros Hbad. exfalso. rewrite Z.mul_comm, Z.mod_mul in Hbad by lia. rewrite Hn1 in Hbad.
    destruct Hbad as [? | [? | ?]]; [lia | lia | set_solver].
  - intros _ _ Hnot v Hb2. apply wp_ret. split; [eauto |].
    assert (F ∖ {[f]} ∪ {[f]} = F) as HF
      by (apply leibniz_equiv; rewrite (union_comm _ {[f]}), <- union_difference; set_solver).
    pose proof (counted_after_free s1 (F ∖ {[f]}) f v Hc1 Hnot Hb1 ltac:(lia)) as Hc2.
    rewrite HF in Hb2, Hc2. by split_and!.
Qed.

(** [virtual_to_physical] undoes [physical_to_virtual] for every 64-bit
    address and every direct map, wrap-around included. *)
Theorem physical_virtual_roundtrip s p : is_u64 p →
  wp (let! v := physical_to_virtual p in virtual_to_physical v) (λ q s', q = p ∧ s' = s) s.
Proof.
  intros Hp. unfold physical_to_virtual, virtual_to_physical. wp_steps. split; [| done].
  rewrite u64_sub_l. replace (g_hhdm_offset (pmm s) + p - g_hhdm_offset (pmm s)) with p by lia.
  by apply u64_small.
Qed.

(** ** Ownership *)

(** A client holds the frames [O]: it may allocate, and release a frame it
    holds. *)
Inductive client_step : machine * gset Z → machine * gset Z → Prop :=
| client_alloc s O a s' :
    free_frame_count (pmm s) ≠ 0 → alloc_frame s = Ok a s' →
    client_step (s, O) (s', O ∪ {[a / 4096]})
| client_fail s O a s' :
    free_frame_count (pmm s) = 0 → alloc_frame s = Ok a s' →
    client_step (s, O) (s', O)
| client_free s O f s' :
    f ∈ O → free_frame (4096 * f) s = Ok tt s' →
    client_step (s, O) (s', O ∖ {[f]}).

(** The frames held and the free ones partition [U]. *)
Definition owned n U (c : machine * gset Z) : Prop :=
  ∃ F, allocator c.1 n F ∧ c.2 ## F ∧ c.2 ∪ F = U.

Lemma counted_empty s F : counted s F → (free_frame_count (pmm s) = 0 ↔ F = ∅).
Proof.
  unfold counted. intros ->. split; [| by intros ->].
  intros Hz. apply leibniz_equiv, size_empty_iff. lia.
Qed.

Lemma alloc_frame_runs s n F a s' : allocator s n F → alloc_frame s = Ok a s' →
  a = (spec_step n F Alloc).1 ∧ allocator s' n (spec_step n F Alloc).2.
Proof.
  intros Ha Hr. apply (wp_run _ (λ a s', a = (spec_step n F Alloc).1 ∧
    allocator s' n (spec_step n F Alloc).2) _ _ _) in Hr; [done |].
  by apply (wp_serve s n F Alloc).
Qed.

Lemma owned_alloc n U s O a s' : owned n U (s, O) → free_frame_count (pmm s) ≠ 0 →
  alloc_frame s = Ok a s' → a / 4096 ∈ U ∧ (a / 4096 ∉ O) ∧ owned n U (s', O ∪ {[a / 4096]}).
Proof.
  intros (F & Ha & Hd & HU) Hc Hr. simpl in *.
  destruct (alloc_frame_runs _ _ _ _ _ Ha Hr) as [-> Ha']. simpl in *.
  destruct (least F) as [f |] eqn:Hf.
  2:{ apply least_None in Hf. by destruct Hc; apply (counted_empty s F); [apply Ha |]. }
  apply least_in in Hf. simpl in *. rewrite (Z.mul_comm 4096), Z.div_mul by done.
  split_and!; [set_solver | set_solver |]. exists (F ∖ {[f]}). simpl.
  split_and!; [done | set_solver |]. apply leibniz_equiv. rewrite <- HU.
  intros g. rewrite !elem_of_union, elem_of_difference, elem_of_singleton.
  destruct (decide (g = f)) as [-> |]; tauto.
Qed.

Lemma owned_free n U s O f s' : owned n U (s, O) → f ∈ O → 0 <= f < n → n * 4096 <= two64 →
  free_frame (4096 * f) s = Ok tt s' → owned n U (s', O ∖ {[f]}).
Proof.
  intros (F & Ha & Hd & HU) Hf Hn H64 Hr. simpl in *.
  assert (wp (free_frame (4096 * f)) (λ _ s', allocator s' n (F ∪ {[f]})) s) as Hwp.
  { unfold two64 in *. destruct Ha as (Hb & Hc & Hn').
    assert ((4096 * f) / 4096 = f) as Hdf by (rewrite Z.mul_comm; by apply Z.div_mul).
    apply wp_free_frame with F; rewrite ?Hdf; [done | unfold is_u64; lia | |].
    - intros Hbad. exfalso. rewrite Z.mul_comm, Z.mod_mul, Hn' in Hbad by lia.
      destruct Hbad as [? | [? | ?]]; [lia | lia | set_solver].
    - intros _ _ Hnot v Hb'. split_and!; [done | | done]. by apply counted_after_free; [.. | lia]. }
  apply (wp_run _ _ _ _ _ Hwp) in Hr. exists (F ∪ {[f]}). simpl.
  split_and!; [done | set_solver |]. apply leibniz_equiv. rewrite <- HU.
  intros g. rewrite !elem_of_union, elem_of_difference, elem_of_singleton.
  destruct (decide (g = f)) as [-> |]; tauto.
Qed.

Lemma client_step_owned n U c c' : (∀ f, f ∈ U → 0 <= f < n) → n * 4096 <= two64 →
  owned n U c → client_step c c' → owned n U c'.
Proof.
  intros Hn H64 Ho Hs. destruct Hs as [s O a s' Hc Hr | s O a s' Hc Hr | s O f s' Hf Hr].
  - by apply (owned_alloc n U s O a s').
  - destruct Ho as (F & Ha & Hd & HU). simpl in *.
    apply (counted_empty s F) in Hc as ->; [| apply Ha].
    destruct (alloc_frame_runs _ _ _ _ _ Ha Hr) as [_ Ha']. by exists ∅.
  - apply (owned_free n U s O f s'); try done. apply Hn. destruct Ho as (F & _ & _ & <-). set_solver.
Qed.

(** C11: along every run of a client that releases only frames it holds, the
    frames held and the free frames partition the initial free set, and an
    allocation that finds a free frame never returns one the client holds. *)
Theorem ownership_invariant s0 n U s O : allocator s0 n U →
  rtc client_step (s0, ∅) (s, O) →
  owned n U (s, O) ∧
  ∀ a s', free_frame_count (pmm s) ≠ 0 → alloc_frame s = Ok a s' → a / 4096 ∈ U ∧ (a / 4096 ∉ O).
Proof.
  intros Ha Hrun. assert (owned n U (s, O)) as Ho.
  { assert (owned n U (s0, ∅)) as H0 by (exists U; split_and!; [done | set_solver | set_solver]).
    assert (∀ f, f ∈ U → 0 <= f < n) as Hn
      by (intros f Hf; destruct Ha as (Hb & _ & <-); by apply (bits_valid _ _ Hb)).
    assert (n * 4096 <= two64) as H64
      by (destruct Ha as (Hb & _ & <-); pose proof (bits_phys _ _ Hb); lia).
    induction Hrun as [| c1 c2 c3 Hs _ IH]; [done | by eapply IH, client_step_owned]. }
  split; [done |]. intros a s' Hc Hr.
  by destruct (owned_alloc _ _ _ _ _ _ Ho Hc Hr) as (? & ? & _).
Qed.

End WithDevice.

(** ** The hypotheses hold on the sample machine *)

#[local] Existing Instance Uart.uart_device.
#[local] Existing Instance Uart.uart_transmitter.

Lemma init_exact_witness :
  wp (init Sample.regions Sample.h) (λ _ s',
    allocator s' 64 (initial_free Sample.regions 0x1000) ∧
    layout s' (initial_free Sample.regions 0x1000) ∧
    g_hhdm_offset (pmm s') = Sample.h ∧ bitmap_phys (pmm s') = 0x1000 ∧
    ∀ a, ~ held s' ∅ a → cell s' a = cell Sample.booted a) Sample.booted.
Proof.
  exact (init_exact Sample.booted Sample.regions Sample.h 0x1000
    Sample.booted_ok Sample.regions_disjoint).
Defined.

(** The bitmap of 128 MiB and a page takes two pages; the usable region has one,
    the reserved one plenty. *)
Lemma init_fatal_witness :
  halts (init [mk_region 0 0x1000 Reserved] Sample.h) (λ s', cells s' = ∅) Sample.booted ∧
  halts (init [mk_region 0 0x8000000 Reserved; mk_region 0x8000000 0x1000 Usable] Sample.h)
    (λ s', cells s' = ∅) Sample.booted.
Proof.
  split.
  - apply (init_fatal Sample.booted [mk_region 0 0x1000 Reserved] Sample.h).
    + intros r [-> | []%elem_of_nil]%elem_of_cons Hu. discriminate Hu.
    + left. intros r [-> | []%elem_of_nil]%elem_of_cons Hu. discriminate Hu.
  - apply (init_fatal Sample.booted
      [mk_region 0 0x8000000 Reserved; mk_region 0x8000000 0x1000 Usable] Sample.h).
    + intros r [-> | [-> | []%elem_of_nil]%elem_of_cons]%elem_of_cons Hu; [discriminate Hu | by split_and!].
    + right. intros r [-> | [-> | []%elem_of_nil]%elem_of_cons]%elem_of_cons Hu; [discriminate Hu | reflexivity].
Defined.

Lemma allocator_refines_witness :
  wp (serve_all [Alloc; Alloc; Free 0x3000; Alloc; Free 5]) (λ out s',
    out = [0x3000; 0x4000; 0; 0x3000; 0] ∧
    allocator s' 64 (spec_run 64 (frame_range 3 64) [Alloc; Alloc; Free 0x3000; Alloc; Free 5]).2)
    (Sample.ready 3).
Proof.
  apply (allocator_refines (Sample.ready 3) 64 (frame_range 3 64)
    [Alloc; Alloc; Free 0x3000; Alloc; Free 5]).
  - apply Sample.ready_allocator. lia.
  - repeat constructor; cbv; discriminate.
Defined.

Lemma allocations_distinct_witness :
  wp (serve_all (replicate 5 Alloc)) (λ out s', ∃ F',
    List.length out = 5%nat ∧ NoDup out ∧ F' ⊆ frame_range 3 64 ∧
    (∀ a, a ∈ out ↔ ∃ f, a = 4096 * f ∧ f ∈ frame_range 3 64 ∧ f ∉ F') ∧
    allocator s' 64 F') (Sample.ready 3).
Proof.
  apply (allocations_distinct (Sample.ready 3) 64 (frame_range 3 64) 5).
  - apply Sample.ready_allocator. lia.
  - pose proof (Sample.size_frame_range 3 64). lia.
Defined.

Lemma alloc_frame_zero_witness :
  wp alloc_frame (λ a s', a = 0 ∧ allocator s' 64 (frame_range 0 64 ∖ {[0]})) (Sample.ready 0) ∧
  wp alloc_frame (λ a s', a = 0 ∧ s' = Sample.ready 64) (Sample.ready 64) ∧
  wp alloc_frame (λ a _, a ≠ 0) (Sample.ready 3).
Proof.
  split_and!.
  - eapply wp_mono; [apply (alloc_frame_zero (Sample.ready 0) 64 (frame_range 0 64));
      apply Sample.ready_allocator; lia |].
    assert (0 ∈ frame_range 0 64) as H0 by (apply elem_of_frame_range; lia).
    intros a s' (Ha & _ & Hs). split; [apply Ha; by right | by apply Hs].
  - eapply wp_mono; [apply (alloc_frame_zero (Sample.ready 64) 64 (frame_range 64 64));
      apply Sample.ready_allocator; lia |].
    intros a s' (Ha & Hs & _). split; [apply Ha; by left | by apply Hs].
  - eapply wp_mono; [apply (alloc_frame_zero (Sample.ready 3) 64 (frame_range 3 64));
      apply Sample.ready_allocator; lia |].
    intros a s' (Ha & _) [E | E]%Ha; [| apply elem_of_frame_range in E; lia].
    apply (not_elem_of_empty (C := gset Z) 5). rewrite <- E. apply elem_of_frame_range. lia.
Defined.

Lemma alloc_free_roundtrip_witness :
  wp (let! a := alloc_frame in free_frame a ;; ret a)
    (λ a s', (∃ f, a = 4096 * f ∧ f ∈ frame_range 3 64) ∧ allocator s' 64 (frame_range 3 64))
    (Sample.ready 3).
Proof.
  apply (alloc_free_roundtrip (Sample.ready 3) 64 (frame_range 3 64)).
  - apply Sample.ready_allocator. lia.
  - intros Hz. apply (not_elem_of_empty (C := gset Z) 5). rewrite <- Hz.
    apply elem_of_frame_range. lia.
Defined.

Lemma physical_virtual_roundtrip_witness :
  wp (let! v := physical_to_virtual 0xB8000 in virtual_to_physical v)
    (λ q s', q = 0xB8000 ∧ s' = Sample.ready 3) (Sample.ready 3).
Proof. apply (physical_virtual_roundtrip (Sample.ready 3) 0xB8000). unfold is_u64. lia. Defined.

(** One allocation from the sample machine. *)
Lemma ownership_invariant_witness : ∃ s, owned 64 (frame_range 3 64) (s, {[3]}).
Proof.
  assert (allocator (Sample.ready 3) 64 (frame_range 3 64)) as Ha by (apply Sample.ready_allocator; lia).
  assert (wp alloc_frame (λ a _, a = 0x3000) (Sample.ready 3)) as (a & s' & Hr & ->)%wp_inv
    by (by apply (wp_serve (Sample.ready 3) 64 (frame_range 3 64) Alloc)).
  exists s'. apply (ownership_invariant (Sample.ready 3) 64 (frame_range 3 64) s' {[3]}).
  - exact Ha.
  - apply rtc_once. replace {[3]} with (∅ ∪ {[0x3000 / 4096]} : gset Z) by set_solver.
    by apply client_alloc.
Defined.
