(* ===== verification/VmmTheorems.v ===== *)
(** The theorems about page-table entries, virtual addresses and the mapping
    operations. *)

From Stdlib Require Import ZArith Lia Ascii String.
From stdpp Require Import base numbers list gmap sets fin_sets.
From S2P Require Import Prelude Descriptors Machine Serial Print Console Pmm PmmInv PmmInit PmmSpec Paging Mmu Vmm VmmInv VmmSteps VmmMap VmmRange Sample.
Import Vmm.
Local Open Scope Z_scope.

(** ** Encodings *)

(** An entry made of a page address and flags gives both back, and every
    64-bit entry is made of its address and its flags. *)
Theorem page_entry_roundtrip p flags e : page_address p → flag_bits flags → is_u64 e →
  page_entry_address (make_page_entry p flags) = p ∧
  page_entry_flags (make_page_entry p flags) = flags ∧
  make_page_entry (page_entry_address e) (page_entry_flags e) = e.
Proof.
  intros. split_and!;
    [by apply page_entry_address_make | by apply page_entry_flags_make | by apply make_page_entry_split].
Qed.

Lemma decompose_wf v : va_wf (decompose_address v).
Proof. rewrite decompose_fields. unfold va_wf. simpl. dlia. Qed.

Lemma va_low_decompose v : va_low (decompose_address v) = v mod 2 ^ 48.
Proof. rewrite decompose_fields. unfold va_low. simpl. dlia. Qed.

(** C31: [reassemble_address] undoes [decompose_address] exactly on the
    canonical addresses, and [decompose_address] undoes [reassemble_address]
    on all well-formed indices; what it builds is always canonical. *)
Theorem address_roundtrip v a : is_u64 v → va_wf a →
  (reassemble_address (decompose_address v) = v ↔ is_canonical v = true) ∧
  decompose_address (reassemble_address a) = a ∧
  is_canonical (reassemble_address a) = true.
Proof.
  intros Hv Ha. rewrite !reassemble_eq by (done || apply decompose_wf). rewrite va_low_decompose.
  assert (0 <= va_low a < 2 ^ 48) as Hr by (unfold va_low; destruct Ha as (? & ? & ? & ? & ?); lia).
  change (2 ^ 48) with 281474976710656 in *. change (2 ^ 47) with 140737488355328.
  split_and!.
  - rewrite is_canonical_iff by done. unfold is_u64, two64 in *. change (2 ^ 47) with 140737488355328.
    destruct (Z.ltb_spec (v mod 281474976710656) 140737488355328); dlia.
  - rewrite decompose_fields. unfold two64. destruct a as [a4 a3 a2 a1 a0].
    unfold va_wf, va_low in *. simpl in *. destruct Ha as (? & ? & ? & ? & ?).
    case_match; f_equal; dlia.
  - apply is_canonical_iff; [unfold is_u64, two64 | unfold two64; change (2 ^ 47) with 140737488355328];
      destruct (Z.ltb_spec (va_low a) 140737488355328); lia.
Qed.

(** Rounding up to a power of two gives the least multiple that is not
    below the value, as long as it fits in 64 bits. *)
Theorem align_up_least value k : 0 <= k < 64 → 0 <= value → value + 2 ^ k <= two64 →
  let r := align_up value (2 ^ k) in
  r mod 2 ^ k = 0 ∧ value <= r ∧ ∀ m, m mod 2 ^ k = 0 → value <= m → r <= m.
Proof.
  intros Hk Hv Hb r. subst r. rewrite align_up_eq by done. assert (0 < 2 ^ k) as Hp by lia.
  pose proof (Z.div_mod (value + (2 ^ k - 1)) (2 ^ k) ltac:(lia)).
  pose proof (Z.mod_pos_bound (value + (2 ^ k - 1)) (2 ^ k) ltac:(lia)).
  split_and!; [apply Z.mod_mul; lia | lia |].
  intros m Hm Hvm. apply Z.div_exact in Hm; [| lia].
  assert ((value + (2 ^ k - 1)) / 2 ^ k < m / 2 ^ k + 1) by (apply Z.div_lt_upper_bound; lia). nia.
Qed.

Section WithDevice.
Context {PD : PortDevice}.
Implicit Types (s : machine) (F A : gset Z) (T : gmap Z (nat * Z)).

(** ** Translation *)

(** C16: on a well-formed table tree [translate] returns, without changing
    anything, the physical address the four-level walk gives, for 4 KiB, 2 MiB
    and 1 GiB leaves alike, and 0 when a level is not present or the address is
    not canonical. *)
Theorem translate_walks s root T A F phys v : vm s root T A F →
  translate (mk_space (hhdm s + root) phys) v s =
    Ok (if is_canonical v then translation s root v else 0) s.
Proof.
  intros Hvm. assert (wp (translate (mk_space (hhdm s + root) phys) v)
    (λ r s', r = (if is_canonical v then translation s root v else 0) ∧ s' = s) s) as Hwp
    by (by apply (wp_translate s root T A F)).
  by apply wp_inv in Hwp as (r & s' & -> & -> & ->).
Qed.

(** ** One page *)

(** The outcome of a page mapping: with the slot free, the page is mapped and
    every other translation is as it was; with the slot taken, every
    translation is.  The frames spent are those of the tables that were
    missing. *)
Definition page_outcome (lv : nat) s root A F virt entry (taken ok : bool) s' : Prop :=
  ok = negb taken ∧ touches A s s' ∧
  (∃ T' F', vm s' root T' A F' ∧ F' ⊆ F ∧ (size F ≤ size F' + missing s lv 4 root virt)%nat) ∧
  ∀ v, canonical v → walk s' 4 root v =
    if negb taken && bool_decide (v / psize lv = virt / psize lv) then Some (lv, entry)
    else walk s 4 root v.

Lemma wp_mapper_outcome (op : Z → Z → Z → Z → M bool) lv entry `{!PageMapper op lv entry}
    s root T A F virt phys flags :
  vm s root T A F → is_u64 virt → args_ok (shift lv) virt phys flags →
  (missing s lv 4 root virt ≤ size F)%nat →
  wp (op (hhdm s + root) virt phys flags)
    (page_outcome lv s root A F virt (entry phys flags) (slot_taken s lv 4 root virt)) s.
Proof.
  intros Hvm Hu Ha Hsz. apply (pm_map s root T A F); [done.. | |].
  - intros s' [E V Ht _ W]. rewrite Ht. split_and!; auto.
  - intros s' [E V Ht _ W _ _]. rewrite Ht. split_and!; [done.. |].
    intros v Hc. rewrite W. cbn [negb andb].
    assert (canonical virt) as Hcv by (by split; [| apply Ha]).
    pose proof (pre_canonical lv v virt pm_level Hc Hcv) as Hpre.
    case_decide; case_bool_decide; [done | tauto | tauto | done].
Qed.

(** C5: [map_page] with good arguments and a frame for each table the path
    lacks maps a free page, giving it [phys] and its flags, and refuses a page
    that already translates; no other translation changes, no other frame is
    spent, the allocator and the tables stay well-formed, and nothing is written
    but the bitmap, the allocator's frames and the frame count. *)
Theorem map_page_correct s root T A F virt phys flags :
  vm s root T A F → is_u64 virt → args_ok 12 virt phys flags →
  (missing s 1 4 root virt ≤ size F)%nat →
  wp (map_page (hhdm s + root) virt phys flags)
    (page_outcome 1 s root A F virt (make_page_entry phys (leaf_flags flags))
       (bool_decide (walk s 4 root virt ≠ None))) s.
Proof.
  intros Hvm Hu Ha Hsz.
  replace (bool_decide (walk s 4 root virt ≠ None)) with (slot_taken s 1 4 root virt).
  - by apply (wp_mapper_outcome map_page 1 small_entry s root T).
  - apply eq_bool_prop_intro. rewrite bool_decide_spec, Is_true_true.
    apply (slot_taken_walk s root T), Hvm.
Qed.

(** C21: [map_page_large] does the same with a 2 MiB leaf; its slot is taken
    when a 1 GiB page covers it or its page-directory entry is in use. *)
Theorem map_page_large_correct s root T A F virt phys flags :
  vm s root T A F → is_u64 virt → args_ok 21 virt phys flags →
  (missing s 2 4 root virt ≤ size F)%nat →
  wp (map_page_large (hhdm s + root) virt phys flags)
    (page_outcome 2 s root A F virt (make_page_entry phys (large_flags flags))
       (slot_taken s 2 4 root virt)) s.
Proof.
  intros Hvm Hu Ha Hsz. by apply (wp_mapper_outcome map_page_large 2 large_entry s root T).
Qed.

(** C23: after a page has been mapped, [translate] takes every byte of it to
    the corresponding byte of the frame. *)
Theorem map_then_translate s root T A F virt phys flags ph o :
  vm s root T A F → is_u64 virt → args_ok 12 virt phys flags →
  (missing s 1 4 root virt ≤ size F)%nat →
  walk s 4 root virt = None → 0 <= o < 4096 →
  wp (let! ok := map_page (hhdm s + root) virt phys flags in
      let! a := translate (mk_space (hhdm s + root) ph) (virt + o) in
      ret (ok, a)) (λ r _, r = (true, phys + o)) s.
Proof.
  intros Hvm Hu Ha Hsz Hfree Ho. assert (slot_taken s 1 4 root virt = false) as Hst.
  { destruct (slot_taken s 1 4 root virt) eqn:E; [| done].
    by apply (slot_taken_walk s root T) in E; [| apply Hvm]. }
  apply wp_bind. eapply wp_mono; [by apply (wp_mapper_outcome map_page 1 small_entry s root T) |].
  intros ok s' (-> & E & (T' & F' & V & _) & W). rewrite Hst in *. cbn [negb andb] in W |- *.
  assert (hhdm s = hhdm s') as -> by (apply touches_env, same_env_fields in E; unfold hhdm; symmetry; tauto).
  apply wp_bind, (wp_translate s' root T' A F'); [done |]. apply wp_ret. f_equal.
  destruct Ha as (Hc & Hv & Hp & Hp52 & Hf & H7). change (2 ^ 12) with 4096 in *.
  assert (canonical (virt + o)) as [Hou Hoc].
  { apply is_canonical_iff in Hc; [| done]. apply canonical_cases.
    unfold is_u64, two64 in *. change (2 ^ 47) with 140737488355328 in *. dlia. }
  rewrite Hoc. unfold translation. rewrite W by done. rewrite psize_1.
  rewrite bool_decide_true by dlia. rewrite small_entry_address by (done || by split). dlia.
Qed.

(** Bad arguments, as a lemma for the runs below. *)
#[global] Instance args_ok_dec k virt phys flags : Decision (args_ok k virt phys flags).
Proof. unfold args_ok, flag_bits, is_u64. apply _. Defined.

Lemma map_page_guards s pml4 virt phys flags : is_u64 phys →
  pml4 = 0 ∨ is_canonical virt = false ∨ virt mod 4096 ≠ 0 ∨ phys mod 4096 ≠ 0 ∨
    2 ^ 52 <= phys ∨ Z.testbit flags 7 = true →
  map_page pml4 virt phys flags s = Ok false s.
Proof.
  intros Hu Hbad. unfold map_page. destruct (Z.eqb_spec pml4 0); [done |].
  destruct (is_canonical virt); [| done]. cbn [negb]. rewrite !page_offset_test.
  destruct (Z.eqb_spec (virt mod 4096) 0); [| done]. cbn [negb].
  destruct (Z.eqb_spec (phys mod 4096) 0); [| done]. cbn [negb].
  rewrite address_bits_test by done. destruct (Z.ltb_spec phys (2 ^ 52)); [| done]. cbn [negb].
  rewrite huge_test, negb_involutive. destruct (Z.testbit flags 7); [done |].
  destruct Hbad as [? | [? | [? | [? | [? | ?]]]]]; done || lia.
Qed.

Lemma map_page_bad s pml4 virt phys flags : is_u64 phys → flag_bits flags →
  ~ args_ok 12 virt phys flags → map_page pml4 virt phys flags s = Ok false s.
Proof.
  intros Hu Hf Hna. apply map_page_guards; [done |]. change (2 ^ 12) with 4096 in *.
  unfold args_ok in Hna. change (2 ^ 12) with 4096 in Hna.
  destruct (is_canonical virt); [| auto]. destruct (decide (virt mod 4096 = 0)); [| auto].
  destruct (decide (phys mod 4096 = 0)); [| auto]. destruct (Z.testbit flags 7); [tauto |].
  right. right. right. right. left. unfold is_u64 in Hu.
  destruct (Z_lt_le_dec phys (2 ^ 52)); [| done]. exfalso. apply Hna. split_and!; done || lia.
Qed.

(** [map_page] with a null table, an address that is not canonical, an
    unaligned or too large address, or the [Huge] flag returns false and
    changes nothing at all. *)
Theorem map_page_rejects s pml4 virt phys flags : is_u64 phys →
  pml4 = 0 ∨ is_canonical virt = false ∨ virt mod 4096 ≠ 0 ∨ phys mod 4096 ≠ 0 ∨
    2 ^ 52 <= phys ∨ Z.testbit flags 7 = true →
  map_page pml4 virt phys flags s = Ok false s.
Proof. apply map_page_guards. Qed.

(** ** Ranges *)

(** The outcome of mapping a range: the pages before [stop] are mapped to
    consecutive physical pages and every other translation is as it was.  The
    whole range is mapped on success; otherwise [stop] is the first page whose
    slot was taken. *)
Definition range_outcome (lv : nat) (entry : Z → Z → Z) s root A F virt phys size' flags
    (ok : bool) s' : Prop :=
  touches A s s' ∧
  (∃ T' F', vm s' root T' A F' ∧ F' ⊆ F ∧
     Z.of_nat (size F) <= Z.of_nat (size F') + range_tables lv virt size') ∧
  ∃ stop, mapped lv entry root virt phys flags stop s s' ∧
    (∀ o, 0 <= o < stop → o mod psize lv = 0 → slot_taken s lv 4 root (virt + o) = false) ∧
    (∀ v, canonical v → in_range virt stop v → translation s' root v = phys + (v - virt)) ∧
    if ok then stop = size'
    else 0 <= stop < size' ∧ stop mod psize lv = 0 ∧ slot_taken s lv 4 root (virt + stop) = true.

(** C17: [map_range] over a good range either maps the whole range page by page
    or stops at the first page that is taken, with the pages before it mapped
    and left mapped; it spends at most one frame for each table that serves the
    range. *)
Theorem map_range_correct s root T A F ph virt phys size' flags :
  vm s root T A F → range_ok 1 virt phys size' flags →
  range_tables 1 virt size' <= Z.of_nat (size F) →
  wp (map_range (mk_space (hhdm s + root) ph) virt phys size' flags)
    (range_outcome 1 small_entry s root A F virt phys size' flags) s.
Proof.
  intros Hvm Hok Hsz. apply (wp_map_range s root T A F); [done.. | |].
  - intros s' off Ho Hom Ht (T' & F' & E & V & Sub & N & Hm & _ & Hfree).
    split_and!; [done | eauto |]. exists off. split_and!; try done; try lia.
    intros v. eapply mapped_small; [done | lia | done].
  - intros s' (T' & F' & E & V & Sub & N & Hm & _ & Hfree) _.
    split_and!; [done | eauto |]. exists size'. split_and!; try done.
    intros v. by eapply mapped_small.
Qed.

(** C22: [map_range_large], on a good range and with frames for its tables, maps
    the whole range with 2 MiB pages, or, if some page is taken, exactly the pages
    before the first such one and says false; every address of the mapped part
    translates to its image and every other translation is as it was. *)
Theorem map_range_large_correct s root T A F ph virt phys size' flags :
  vm s root T A F → range_ok 2 virt phys size' flags →
  range_tables 2 virt size' <= Z.of_nat (size F) →
  wp (map_range_large (mk_space (hhdm s + root) ph) virt phys size' flags)
    (range_outcome 2 large_entry s root A F virt phys size' flags) s.
Proof.
  intros Hvm Hok Hsz. apply (wp_map_range_large s root T A F); [done.. | |].
  - intros s' off Ho Hom Ht (T' & F' & E & V & Sub & N & Hm & _ & Hfree).
    split_and!; [done | eauto |]. exists off. split_and!; try done; try lia.
    intros v. eapply mapped_large; [done | lia | done].
  - intros s' (T' & F' & E & V & Sub & N & Hm & _ & Hfree) _.
    split_and!; [done | eauto |]. exists size'. split_and!; try done.
    intros v. by eapply mapped_large.
Qed.

(** The guards of a range, one after the other. *)
Ltac reject_range space size' virt :=
  destruct (Z.eqb_spec (pml4 space) 0); [done |];
  destruct (Z.eqb_spec size' 0); [done |]; cbv zeta; rewrite ?page_offset_test, ?large_offset_test;
  do 3 (match goal with |- context [?x mod ?n =? 0] => destruct (Z.eqb_spec (x mod n) 0) end;
    [| done]; cbn [negb]);
  unfold UINT64_MAX, is_u64, two64 in *; rewrite u64_small by (unfold is_u64; lia);
  do 2 (match goal with |- context [18446744073709551615 - ?x <? ?y] =>
    destruct (Z.ltb_spec (18446744073709551615 - x) y) end; [done |]);
  destruct (is_canonical virt); [| done]; cbn [negb];
  rewrite u64_sub_l, u64_small by (unfold is_u64; lia);
  destruct (is_canonical (virt + size' - 1)); [| done];
  exfalso; intuition (done || lia).

(** The arguments a range operation refuses, for pages of [n] bytes. *)
Definition range_refused (n : Z) space virt phys size' : Prop :=
  pml4 space = 0 ∨ size' = 0 ∨ virt mod n ≠ 0 ∨ phys mod n ≠ 0 ∨ size' mod n ≠ 0 ∨
    two64 <= virt + size' ∨ two64 <= phys + size' ∨ is_canonical virt = false ∨
    is_canonical (virt + size' - 1) = false.

Lemma range_rejects s space virt phys size' flags :
  is_u64 virt → is_u64 phys → is_u64 size' → range_refused 4096 space virt phys size' →
  map_range space virt phys size' flags s = Ok false s.
Proof. intros Hv Hp Hs Hbad. unfold map_range, range_refused in *. reject_range space size' virt. Qed.

Lemma range_large_rejects s space virt phys size' flags :
  is_u64 virt → is_u64 phys → is_u64 size' → range_refused 2097152 space virt phys size' →
  map_range_large space virt phys size' flags s = Ok false s.
Proof. intros Hv Hp Hs Hbad. unfold map_range_large, range_refused in *. reject_range space size' virt. Qed.

(** [map_range] and [map_range_large] refuse an empty range, a range that
    wraps around or reaches the last byte of either address space, unaligned
    bounds, and bounds that are not canonical, and change nothing. *)
Theorem map_range_rejects s space virt phys size' flags :
  is_u64 virt → is_u64 phys → is_u64 size' →
  (range_refused 4096 space virt phys size' → map_range space virt phys size' flags s = Ok false s) ∧
  (range_refused 2097152 space virt phys size' →
     map_range_large space virt phys size' flags s = Ok false s).
Proof. intros Hv Hp Hs. split; [by apply range_rejects | by apply range_large_rejects]. Qed.

(** ** Address spaces *)

(** With a frame free, [create_address_space] returns a space in which no
    address translates, whose PML4 is in an allocated frame. *)
Theorem create_address_space_empty s A F :
  bits s F → counted s F → layout s A → F ⊆ A → F ≠ ∅ →
  wp create_address_space (λ r s', ∃ root T F',
    r = Some (mk_space (hhdm s' + root) root) ∧ touches A s s' ∧ vm s' root T A F' ∧ F' ⊆ F ∧
    ∀ v, translation s' root v = 0 ∧ walk s' 4 root v = None) s.
Proof.
  intros Hb Hc Hl Hsub Hne. apply (wp_create_address_space s A F); [done.. |].
  intros s' root T F' E V Sub _ W _ _. exists root, T, F'. split_and!; try done.
  intros v. unfold translation. by rewrite W.
Qed.

(** ** Runs *)

(** The flag [Huge] says nothing to the operations on large pages. *)
Lemma map_page_large_huge pml4 virt phys flags :
  map_page_large pml4 virt phys (without_huge flags) = map_page_large pml4 virt phys flags.
Proof.
  unfold map_page_large. fold (large_flags flags) (large_flags (without_huge flags)).
  by rewrite large_flags_huge, intermediate_flags_huge.
Qed.

Lemma map_range_large_huge space virt phys n flags :
  map_range_large space virt phys n (without_huge flags) = map_range_large space virt phys n flags.
Proof.
  unfold map_range_large, map_page_large. fold (large_flags flags) (large_flags (without_huge flags)).
  by rewrite large_flags_huge, intermediate_flags_huge.
Qed.

Lemma map_page_large_bad s pml4 virt phys flags : is_u64 phys → flag_bits flags →
  Z.testbit flags 7 = false → ~ args_ok 21 virt phys flags →
  map_page_large pml4 virt phys flags s = Ok false s.
Proof.
  intros Hu Hf H7 Hna. unfold args_ok in Hna. change (2 ^ 21) with 2097152 in Hna.
  unfold map_page_large. cbv zeta. rewrite !large_offset_test.
  destruct (pml4 =? 0); [done |]. destruct (is_canonical virt); [| done]. cbn [negb].
  destruct (Z.eqb_spec (virt mod 2097152) 0); [| done]. cbn [negb].
  destruct (Z.eqb_spec (phys mod 2097152) 0) as [Hp |]; [| done]. cbn [negb].
  rewrite address_bits_test by (done || dlia). destruct (Z.ltb_spec phys (2 ^ 52)); [| done].
  exfalso. apply Hna. unfold is_u64 in Hu. split_and!; done || lia.
Qed.

(** A kernel that maps pages: any 64-bit addresses, good or bad, and any flags,
    as long as the tables that are missing can be allocated. *)
Inductive map_step (root : Z) : machine → machine → Prop :=
| step_page s virt phys flags ok s' :
    is_u64 virt → is_u64 phys → flag_bits flags →
    Z.of_nat (missing s 1 4 root virt) <= free_frame_count (pmm s) →
    map_page (hhdm s + root) virt phys flags s = Ok ok s' → map_step root s s'
| step_large s virt phys flags ok s' :
    is_u64 virt → is_u64 phys → flag_bits flags →
    Z.of_nat (missing s 2 4 root virt) <= free_frame_count (pmm s) →
    map_page_large (hhdm s + root) virt phys flags s = Ok ok s' → map_step root s s'.

(** What a run preserves: the invariant, and every mapping made so far. *)
Definition preserved (root : Z) A s s' : Prop :=
  (∃ T F, vm s' root T A F) ∧
  ∀ v x, canonical v → walk s 4 root v = Some x → walk s' 4 root v = Some x.

Lemma outcome_preserved lv s root T A F virt e (ok : bool) s' :
  (lv = 1 ∨ lv = 2)%nat → vm s root T A F → canonical virt →
  page_outcome lv s root A F virt e (slot_taken s lv 4 root virt) ok s' → preserved root A s s'.
Proof.
  intros Hlv Hvm Hcv (_ & _ & (T' & F' & V & _) & W). split; [eauto |]. intros v x Hc Hx.
  rewrite W by done. destruct (slot_taken s lv 4 root virt) eqn:Ht; [done |]. cbn [negb andb].
  case_bool_decide as Hp; [| done]. exfalso.
  apply (pre_canonical lv v virt Hlv Hc Hcv) in Hp.
  assert (slot_taken s lv 4 root v = true) as Hv
    by (apply walk_slot_taken; [destruct Hlv; lia | destruct Hlv; lia | by rewrite Hx]).
  rewrite (slot_taken_pre s lv v virt) in Hv by (done || destruct Hlv; lia). congruence.
Qed.

Lemma map_step_preserved root A T F s s' : vm s root T A F → map_step root s s' →
  preserved root A s s'.
Proof.
  intros Hvm Hs. assert (preserved root A s s) as Hrefl by (split; eauto).
  destruct Hs as [s virt phys flags ok s' Hv Hp Hf Hfree Hop | s virt phys flags ok s' Hv Hp Hf Hfree Hop].
  all: rewrite (vm_counted _ _ _ _ _ Hvm) in Hfree.
  - destruct (decide (args_ok 12 virt phys flags)) as [Ha | Hna].
    + eapply (outcome_preserved 1); [by left | done | by split; [| apply Ha] |].
      eapply wp_run; [| exact Hop]. by apply (wp_mapper_outcome map_page 1 small_entry s root T); [.. | lia].
    + rewrite map_page_bad in Hop by done. by injection Hop as <- <-.
  - rewrite <- map_page_large_huge in Hop. destruct (without_huge_spec flags Hf) as [Hf' H7].
    destruct (decide (args_ok 21 virt phys (without_huge flags))) as [Ha | Hna].
    + eapply (outcome_preserved 2); [by right | done | by split; [| apply Ha] |].
      eapply wp_run; [| exact Hop]. by apply (wp_mapper_outcome map_page_large 2 large_entry s root T); [.. | lia].
    + rewrite map_page_large_bad in Hop by done. by injection Hop as <- <-.
Qed.

(** C12: along every run of mappings of 4 KiB and 2 MiB pages, of any 64-bit
    addresses and any flags, in which every step finds free frames for the tables
    it is missing, the tables and the allocator stay well-formed, and an address
    that translates keeps its translation: no mapping is ever replaced.  Without
    that condition it fails: a step with no frame left takes physical frame 0
    ([map_page_exhausted]). *)
Theorem mappings_stable root A T F s s' : vm s root T A F → rtc (map_step root) s s' →
  preserved root A s s'.
Proof.
  intros Hvm Hrun. revert T F Hvm.
  induction Hrun as [s | s1 s2 s3 Hs _ IH]; intros T F Hvm; [by split; eauto |].
  destruct (map_step_preserved _ _ _ _ _ _ Hvm Hs) as [(T2 & F2 & V2) W2].
  destruct (IH _ _ V2) as [V3 W3]. split; [done |]. auto.
Qed.

End WithDevice.

(** ** The hypotheses hold on the sample machine *)

#[local] Existing Instance Uart.uart_device.

Definition sample_flags : Z := PageFlags.or PageFlags.Writable PageFlags.NoExecute.

Lemma sample_args : args_ok 12 0x400000 0x5000 sample_flags.
Proof. by apply (bool_decide_unpack _). Qed.

Lemma sample_large_args : args_ok 21 0x400000 0x200000 sample_flags.
Proof. by apply (bool_decide_unpack _). Qed.

Lemma sample_vm : vm (Sample.ready 3) Sample.root Sample.labels (frame_range 2 64) (frame_range 3 64).
Proof. apply Sample.ready_vm. lia. Qed.

Lemma sample_walk v : walk (Sample.ready 3) 4 Sample.root v = None.
Proof. apply walk_empty. intros. by apply Sample.ready_ent. Qed.

Lemma sample_size k : (k ≤ 61)%nat → (k ≤ size (frame_range 3 64))%nat.
Proof. intros. pose proof (Sample.size_frame_range 3 64). lia. Qed.

Lemma sample_missing k v : (1 ≤ k)%nat →
  (missing (Sample.ready 3) k 4 Sample.root v ≤ size (frame_range 3 64))%nat.
Proof. intros. etrans; [apply missing_le |]. etrans; [| by apply (sample_size 3); lia]. lia. Qed.

Lemma page_entry_roundtrip_witness :
  page_entry_address (make_page_entry 0x5000 sample_flags) = 0x5000 ∧
  page_entry_flags (make_page_entry 0x5000 sample_flags) = sample_flags ∧
  make_page_entry (page_entry_address 0x5063) (page_entry_flags 0x5063) = 0x5063.
Proof. apply (page_entry_roundtrip 0x5000 sample_flags 0x5063); done. Defined.

Lemma address_roundtrip_witness :
  (reassemble_address (decompose_address 0xFFFF800000001234) = 0xFFFF800000001234 ↔
     is_canonical 0xFFFF800000001234 = true) ∧
  decompose_address (reassemble_address (mk_va 256 0 0 1 0x234)) = mk_va 256 0 0 1 0x234 ∧
  is_canonical (reassemble_address (mk_va 256 0 0 1 0x234)) = true.
Proof. apply (address_roundtrip 0xFFFF800000001234 (mk_va 256 0 0 1 0x234)); done. Defined.

Lemma align_up_least_witness :
  align_up 5000 (2 ^ 12) mod 2 ^ 12 = 0 ∧ 5000 <= align_up 5000 (2 ^ 12) ∧
  ∀ m, m mod 2 ^ 12 = 0 → 5000 <= m → align_up 5000 (2 ^ 12) <= m.
Proof. apply (align_up_least 5000 12); unfold two64; lia. Defined.

Lemma translate_walks_witness :
  translate (mk_space (Sample.h + Sample.root) Sample.root) 0x400000 (Sample.ready 3) =
    Ok (if is_canonical 0x400000 then translation (Sample.ready 3) Sample.root 0x400000 else 0)
      (Sample.ready 3).
Proof.
  exact (translate_walks (Sample.ready 3) Sample.root Sample.labels _ _ Sample.root 0x400000 sample_vm).
Defined.

Lemma map_page_correct_witness :
  wp (map_page (Sample.h + Sample.root) 0x400000 0x5000 sample_flags)
    (page_outcome 1 (Sample.ready 3) Sample.root (frame_range 2 64) (frame_range 3 64) 0x400000
       (make_page_entry 0x5000 (leaf_flags sample_flags))
       (bool_decide (walk (Sample.ready 3) 4 Sample.root 0x400000 ≠ None))) (Sample.ready 3).
Proof.
  apply (map_page_correct (Sample.ready 3) Sample.root Sample.labels);
    [exact sample_vm | done | exact sample_args | apply sample_missing; lia].
Defined.

Lemma map_page_large_correct_witness :
  wp (map_page_large (Sample.h + Sample.root) 0x400000 0x200000 sample_flags)
    (page_outcome 2 (Sample.ready 3) Sample.root (frame_range 2 64) (frame_range 3 64) 0x400000
       (make_page_entry 0x200000 (large_flags sample_flags))
       (slot_taken (Sample.ready 3) 2 4 Sample.root 0x400000)) (Sample.ready 3).
Proof.
  apply (map_page_large_correct (Sample.ready 3) Sample.root Sample.labels);
    [exact sample_vm | done | exact sample_large_args | apply sample_missing; lia].
Defined.

Lemma map_then_translate_witness :
  wp (let! ok := map_page (Sample.h + Sample.root) 0x400000 0x5000 sample_flags in
      let! a := translate (mk_space (Sample.h + Sample.root) Sample.root) (0x400000 + 0x123) in
      ret (ok, a)) (λ r _, r = (true, 0x5000 + 0x123)) (Sample.ready 3).
Proof.
  apply (map_then_translate (Sample.ready 3) Sample.root Sample.labels
    (frame_range 2 64) (frame_range 3 64));
    [exact sample_vm | done | exact sample_args | apply sample_missing; lia | apply sample_walk | lia].
Defined.

Lemma map_page_rejects_witness :
  map_page (Sample.h + Sample.root) 0x400001 0x5000 sample_flags (Sample.ready 3) =
    Ok false (Sample.ready 3).
Proof. apply map_page_rejects; [done |]. right. right. left. done. Defined.

Lemma map_range_correct_witness :
  wp (map_range (mk_space (Sample.h + Sample.root) 0) 0x400000 0x5000 0x3000 sample_flags)
    (range_outcome 1 small_entry (Sample.ready 3) Sample.root (frame_range 2 64) (frame_range 3 64)
       0x400000 0x5000 0x3000 sample_flags) (Sample.ready 3).
Proof.
  apply (map_range_correct (Sample.ready 3) Sample.root Sample.labels); [exact sample_vm | |].
  - unfold range_ok, two64. split_and!; try done; lia.
  - rewrite Sample.size_frame_range by lia. done.
Defined.

Lemma map_range_large_correct_witness :
  wp (map_range_large (mk_space (Sample.h + Sample.root) 0) 0x40000000 0x200000 0x400000 sample_flags)
    (range_outcome 2 large_entry (Sample.ready 3) Sample.root (frame_range 2 64) (frame_range 3 64)
       0x40000000 0x200000 0x400000 sample_flags) (Sample.ready 3).
Proof.
  apply (map_range_large_correct (Sample.ready 3) Sample.root Sample.labels); [exact sample_vm | |].
  - unfold range_ok, two64. split_and!; try done; lia.
  - rewrite Sample.size_frame_range by lia. done.
Defined.

Lemma map_range_rejects_witness :
  map_range (mk_space (Sample.h + Sample.root) 0) 0xFFFFFFFFFFFFF000 0x5000 0x1000 sample_flags
    (Sample.ready 3) = Ok false (Sample.ready 3) ∧
  map_range_large (mk_space (Sample.h + Sample.root) 0) 0x200000 0x1000 0x200000 sample_flags
    (Sample.ready 3) = Ok false (Sample.ready 3).
Proof.
  split.
  - apply map_range_rejects; [done.. |]. do 5 right. left. unfold two64. lia.
  - apply map_range_rejects; [done.. |]. do 3 right. left. done.
Defined.

Lemma create_address_space_empty_witness :
  wp create_address_space (λ r s', ∃ root T F',
    r = Some (mk_space (hhdm s' + root) root) ∧ touches (frame_range 2 64) (Sample.ready 3) s' ∧
    vm s' root T (frame_range 2 64) F' ∧ F' ⊆ frame_range 3 64 ∧
    ∀ v, translation s' root v = 0 ∧ walk s' 4 root v = None) (Sample.ready 3).
Proof.
  apply (create_address_space_empty (Sample.ready 3) (frame_range 2 64) (frame_range 3 64));
    [apply sample_vm | apply sample_vm | apply sample_vm | apply sample_vm |].
  intros Hz. pose proof (Sample.size_frame_range 3 64) as Hs. rewrite Hz, size_empty in Hs. lia.
Defined.

Lemma mappings_stable_witness : ∃ s', map_step Sample.root (Sample.ready 3) s' ∧
  preserved Sample.root (frame_range 2 64) (Sample.ready 3) s'.
Proof.
  pose proof (wp_mapper_outcome map_page 1 small_entry (Sample.ready 3) Sample.root Sample.labels
    _ _ 0x400000 0x5000 sample_flags sample_vm ltac:(done) sample_args
    (sample_missing 1 _ ltac:(lia))) as (ok & s' & Hr & _)%wp_inv.
  assert (map_step Sample.root (Sample.ready 3) s') as Hs.
  { refine (step_page Sample.root (Sample.ready 3) 0x400000 0x5000 sample_flags ok s' _ _ _ _ Hr); clear Hr.
    - done.
    - done.
    - done.
    - change (free_frame_count _) with 61. pose proof (missing_le (Sample.ready 3) 1 0x400000 4 Sample.root). lia. }
  exists s'. split; [exact Hs |].
  apply (mappings_stable Sample.root (frame_range 2 64) Sample.labels (frame_range 3 64));
    [exact sample_vm | by apply rtc_once].
Defined.
