(* ===== verification/VmmSpec.v ===== *)
(** The virtual memory manager's contract.

    The specification knows no tables: an address space is a finite map from
    pages of 4 KiB and 2 MiB to physical pages and flags, a mapping is refused
    exactly when it overlaps one that is there or its arguments are bad, and a
    range is mapped page by page up to the first refusal.  The operations on page
    tables refine it over every sequence of requests with 64-bit arguments, as
    long as there are free frames for the tables the requests may need; with none
    left the code behaves differently ([map_page_exhausted]). *)

From Stdlib Require Import ZArith Lia.
From stdpp Require Import base numbers list gmap sets fin_sets.
From S2P Require Import Prelude Descriptors Machine Serial Print Console Pmm PmmInv PmmInit Paging Mmu Vmm VmmInv VmmSteps VmmMap VmmRange Sample VmmTheorems.
Import Vmm.
Local Open Scope Z_scope.

(** ** Specification *)

(** What a page is mapped to. *)
Record leaf := mk_leaf { lf_phys : Z; lf_flags : Z }.

(** The pages mapped, by level (1 for 4 KiB, 2 for 2 MiB) and number. *)
Abbreviation pages := (gmap (nat * Z) leaf).

(** The page an address lies in. *)
Definition page_of (σ : pages) (v : Z) : option (nat * leaf) :=
  match σ !! (2%nat, v / psize 2) with
  | Some x => Some (2%nat, x)
  | None => pair 1%nat <$> σ !! (1%nat, v / psize 1)
  end.

Definition page_base (lv : nat) (v : Z) : Z := v / psize lv * psize lv.

(** Whether any part of the page of [v] at level [lv] is mapped. *)
Definition overlaps (σ : pages) (lv : nat) (v : Z) : bool :=
  existsb (λ i, bool_decide (is_Some (page_of σ (page_base lv v + 4096 * i)))) (seqZ 0 (psize lv / 4096)).

Definition spec_page (lv : nat) (σ : pages) (virt phys flags : Z) : bool * pages :=
  if decide (args_ok (shift lv) virt phys flags) then
    if overlaps σ lv virt then (false, σ)
    else (true, <[(lv, virt / psize lv) := mk_leaf phys flags]> σ)
  else (false, σ).

(** [n] consecutive pages, up to the first refusal. *)
Fixpoint spec_pages (lv : nat) (σ : pages) (virt phys flags : Z) (n : nat) : bool * pages :=
  match n with
  | O => (true, σ)
  | S n' =>
      let '(ok, σ1) := spec_page lv σ virt phys flags in
      if ok then spec_pages lv σ1 (virt + psize lv) (phys + psize lv) flags n' else (false, σ1)
  end.

(** A range is looked at if it is not empty, its bounds are pages, neither it
    nor its image reaches the top of the 64-bit numbers, and both its ends are
    canonical.  What lies between may still be refused: a page past the 52-bit
    physical limit or in the hole between the two halves of the address space. *)
Definition range_accepted (lv : nat) (virt phys n : Z) : Prop :=
  0 < n ∧ virt mod psize lv = 0 ∧ phys mod psize lv = 0 ∧ n mod psize lv = 0 ∧
  virt + n < two64 ∧ phys + n < two64 ∧ is_canonical virt = true ∧ is_canonical (virt + n - 1) = true.
#[global] Instance range_accepted_dec lv virt phys n : Decision (range_accepted lv virt phys n).
Proof. unfold range_accepted. apply _. Defined.

Definition spec_range (lv : nat) (σ : pages) (virt phys n flags : Z) : bool * pages :=
  if decide (range_accepted lv virt phys n)
  then spec_pages lv σ virt phys flags (Z.to_nat (n / psize lv)) else (false, σ).

Definition spec_translate (σ : pages) (v : Z) : Z :=
  if is_canonical v then
    match page_of σ v with
    | Some (lv, x) => lf_phys x + v mod psize lv
    | None => 0
    end
  else 0.

Inductive vm_request :=
| MapPage (virt phys flags : Z)
| MapPageLarge (virt phys flags : Z)
| MapRange (virt phys size flags : Z)
| MapRangeLarge (virt phys size flags : Z)
| Translate (virt : Z).

Inductive answer := Mapped (ok : bool) | Address (phys : Z).

(** Every large page is [Huge], whether its flags say so or not; a small page
    must not be. *)
Definition space_step (σ : pages) (r : vm_request) : answer * pages :=
  let mapped '(ok, σ') := (Mapped ok, σ') in
  match r with
  | MapPage v p f => mapped (spec_page 1 σ v p f)
  | MapPageLarge v p f => mapped (spec_page 2 σ v p (without_huge f))
  | MapRange v p n f => mapped (spec_range 1 σ v p n f)
  | MapRangeLarge v p n f => mapped (spec_range 2 σ v p n (without_huge f))
  | Translate v => (Address (spec_translate σ v), σ)
  end.

Fixpoint space_run (σ : pages) (rs : list vm_request) : list answer * pages :=
  match rs with
  | [] => ([], σ)
  | r :: rest =>
      let '(a, σ1) := space_step σ r in
      let '(out, σ2) := space_run σ1 rest in (a :: out, σ2)
  end.

(** The arguments: any 64-bit values, with flags that are flags. *)
Definition request_fits (r : vm_request) : Prop :=
  match r with
  | MapPage v p f | MapPageLarge v p f => is_u64 v ∧ is_u64 p ∧ flag_bits f
  | MapRange v p n f | MapRangeLarge v p n f => is_u64 v ∧ is_u64 p ∧ is_u64 n ∧ flag_bits f
  | Translate v => is_u64 v
  end.
#[global] Instance request_fits_dec r : Decision (request_fits r).
Proof. destruct r; unfold request_fits, flag_bits, is_u64; apply _. Defined.

(** The part of an accepted range before its first page with bad arguments. *)
Definition mappable (virt phys n flags : Z) : Z :=
  if Z.testbit flags 7 then 0
  else Z.max 0 (Z.min (Z.min n (2 ^ 52 - phys)) (if virt <? 2 ^ 47 then 2 ^ 47 - virt else n)).

(** The frames a request may need for tables. *)
Definition range_cost (lv : nat) (virt phys n flags : Z) : Z :=
  let m := mappable virt phys n flags in
  if decide (range_accepted lv virt phys n) then if m =? 0 then 0 else range_tables lv virt m else 0.
Definition request_cost (r : vm_request) : Z :=
  match r with
  | MapPage _ _ _ => 3
  | MapPageLarge _ _ _ => 2
  | MapRange v p n f => range_cost 1 v p n f
  | MapRangeLarge v p n f => range_cost 2 v p n (without_huge f)
  | Translate _ => 0
  end.

Definition total_cost (rs : list vm_request) : Z := foldr (λ r n, request_cost r + n) 0 rs.

(** *** Pages *)

Definition page_level (lv : nat) : Prop := lv = 1%nat ∨ lv = 2%nat.

Lemma page_level_psize lv : page_level lv → 0 < psize lv ∧ (4096 | psize lv) ∧ (psize lv | 2097152).
Proof. intros [-> | ->]; rewrite ?psize_1, ?psize_2; split_and!; try lia; apply Z.mod_divide; done. Qed.

(** The pieces of a page lie in it, and in the address space. *)
Lemma page_piece lv v i : page_level lv → 0 <= i < psize lv / 4096 →
  (page_base lv v + 4096 * i) / psize lv = v / psize lv ∧
  (canonical v → canonical (page_base lv v + 4096 * i)).
Proof.
  intros Hlv Hi. rewrite !canonical_cases. unfold page_base, two64.
  change (2 ^ 47) with 140737488355328.
  destruct Hlv as [-> | ->]; rewrite ?psize_1, ?psize_2 in *; split; dlia.
Qed.

Lemma page_piece_0 lv v : page_level lv → 0 <= 0 < psize lv / 4096 ∧ page_base lv v + 4096 * 0 = page_base lv v.
Proof. intros [-> | ->]; split; try done; lia. Qed.

Lemma overlaps_true σ lv v : overlaps σ lv v = true ↔
  ∃ i, 0 <= i < psize lv / 4096 ∧ is_Some (page_of σ (page_base lv v + 4096 * i)).
Proof.
  unfold overlaps. rewrite existsb_exists. setoid_rewrite <- list_elem_of_In.
  split; intros (i & Hi); exists i; rewrite elem_of_seqZ, bool_decide_eq_true in *; split; lia || tauto.
Qed.

Lemma overlaps_false σ lv v i : overlaps σ lv v = false → 0 <= i < psize lv / 4096 →
  page_of σ (page_base lv v + 4096 * i) = None.
Proof.
  intros Ho Hi. apply eq_None_not_Some. intros Hs. apply not_true_iff_false in Ho.
  apply Ho, overlaps_true. eauto.
Qed.

(** Mapping a page that is free changes the addresses of that page only. *)
Lemma page_of_insert σ lv virt x v : page_level lv → overlaps σ lv virt = false →
  page_of (<[(lv, virt / psize lv) := x]> σ) v =
    if decide (v / psize lv = virt / psize lv) then Some (lv, x) else page_of σ v.
Proof.
  intros Hlv Hfree. unfold page_of. destruct Hlv as [-> | ->].
  - rewrite lookup_insert_ne by done. case_decide as Hd.
    + destruct (page_piece_0 1 virt ltac:(by left)) as [H0 Hb].
      pose proof (overlaps_false _ _ _ _ Hfree H0) as Hn. rewrite Hb in Hn. unfold page_of in Hn.
      assert (page_base 1 virt / psize 2 = v / psize 2) as He.
      { unfold page_base. rewrite psize_1, psize_2 in *. dlia. }
      rewrite He in Hn. destruct (σ !! (2%nat, v / psize 2)); [done |].
      by rewrite Hd, lookup_insert_eq.
    + by rewrite lookup_insert_ne by congruence.
  - case_decide as Hd; [by rewrite Hd, lookup_insert_eq |].
    by rewrite !lookup_insert_ne by congruence.
Qed.

Lemma overlaps_insert σ lv virt x v : page_level lv → overlaps σ lv virt = false →
  v / psize lv ≠ virt / psize lv →
  overlaps (<[(lv, virt / psize lv) := x]> σ) lv v = overlaps σ lv v.
Proof.
  intros Hlv Hfree Hne. apply eq_bool_prop_intro. rewrite !Is_true_true, !overlaps_true.
  split; intros (i & Hi & Hs); exists i; (split; [done |]);
    rewrite page_of_insert, decide_False in * by (done || by rewrite (proj1 (page_piece lv v i Hlv Hi)));
    done.
Qed.

(** A leaf that an entry can hold. *)
Definition leaf_ok (k : nat * Z) (x : leaf) : Prop :=
  page_address (lf_phys x) ∧ flag_bits (lf_flags x) ∧ lf_phys x mod psize k.1 = 0.
Definition pages_ok (σ : pages) : Prop := map_Forall leaf_ok σ.

Lemma page_of_ok σ v lv x : pages_ok σ → page_of σ v = Some (lv, x) → page_level lv ∧ leaf_ok (lv, 0) x.
Proof.
  intros Hok. unfold page_of. destruct (σ !! (2%nat, v / psize 2)) eqn:H2.
  - intros [= <- <-]. split; [by right |]. exact (Hok _ _ H2).
  - intros (y & H1 & [= -> ->])%fmap_Some. split; [by left |]. exact (Hok _ _ H1).
Qed.

Lemma leaf_ok_insert σ lv virt phys flags n : pages_ok σ → page_level lv →
  args_ok (shift lv) virt phys flags → pages_ok (<[(lv, n) := mk_leaf phys flags]> σ).
Proof.
  intros Hok Hlv (_ & _ & Hp & Hp52 & Hf & _). apply map_Forall_insert_2; [| done].
  split_and!; [| done | done]. split; [done |].
  destruct Hlv as [-> | ->]; [exact Hp | change (2 ^ shift 2) with 2097152 in Hp; simpl; dlia].
Qed.

(** *** Ranges *)

(** A page and its successors. *)
Lemma page_first lv virt v : page_level lv → virt mod psize lv = 0 →
  v / psize lv = virt / psize lv ↔ in_range virt (psize lv) v.
Proof.
  intros Hlv Hv. unfold in_range. destruct Hlv as [-> | ->]; rewrite ?psize_1, ?psize_2 in *; dlia.
Qed.

Lemma page_next lv virt i : page_level lv → 0 <= i →
  (virt + psize lv + i * psize lv) / psize lv ≠ virt / psize lv.
Proof.
  intros Hlv Hi. destruct (page_level_psize lv Hlv) as (Hps & _).
  replace (virt + psize lv + i * psize lv) with (virt + (1 + i) * psize lv) by lia.
  rewrite Z.div_add by lia. lia.
Qed.

(** What a range of [n] bytes maps, on top of [old]. *)
Definition range_page_of (lv : nat) (virt phys n flags v : Z) (old : option (nat * leaf)) :=
  if decide (in_range virt n v)
  then Some (lv, mk_leaf (phys + (v - virt) / psize lv * psize lv) flags) else old.

Lemma range_page_of_cons lv virt phys flags k v old : page_level lv → virt mod psize lv = 0 → 0 <= k →
  range_page_of lv (virt + psize lv) (phys + psize lv) (k * psize lv) flags v
    (if decide (v / psize lv = virt / psize lv) then Some (lv, mk_leaf phys flags) else old) =
  range_page_of lv virt phys ((k + 1) * psize lv) flags v old.
Proof.
  intros Hlv Hv Hk. destruct (page_level_psize lv Hlv) as (Hps & _).
  pose proof (page_first lv virt v Hlv Hv) as Hp. unfold range_page_of, in_range in *.
  case_decide as H1.
  - rewrite decide_True by lia. do 3 f_equal.
    replace (v - virt) with (v - (virt + psize lv) + 1 * psize lv) by lia.
    rewrite Z.div_add by lia. lia.
  - case_decide as H2.
    + rewrite decide_True by nia. rewrite Z.div_small by lia. do 3 f_equal. lia.
    + rewrite decide_False by nia. done.
Qed.

(** The [k] pages before the first one that is refused. *)
Lemma spec_pages_stop lv n : page_level lv → ∀ k σ virt phys flags, (k ≤ n)%nat → pages_ok σ →
  virt mod psize lv = 0 →
  (∀ i, 0 <= i < Z.of_nat k → args_ok (shift lv) (virt + i * psize lv) (phys + i * psize lv) flags) →
  (∀ i, 0 <= i < Z.of_nat k → overlaps σ lv (virt + i * psize lv) = false) →
  ((k < n)%nat → ~ args_ok (shift lv) (virt + Z.of_nat k * psize lv) (phys + Z.of_nat k * psize lv) flags ∨
     overlaps σ lv (virt + Z.of_nat k * psize lv) = true) →
  ∃ σ', spec_pages lv σ virt phys flags n = (bool_decide (k = n), σ') ∧ pages_ok σ' ∧
    ∀ v, page_of σ' v = range_page_of lv virt phys (Z.of_nat k * psize lv) flags v (page_of σ v).
Proof.
  intros Hlv. induction n as [| n IH]; intros k σ virt phys flags Hk Hok Hv Hargs Hfree Hstop;
    cbn [spec_pages].
  { replace k with 0%nat by lia. exists σ. split_and!; [done.. |]. intros v.
    unfold range_page_of. by rewrite decide_False by (unfold in_range; lia). }
  destruct k as [| k].
  { rewrite !Z.mul_0_l, !Z.add_0_r in Hstop. specialize (Hstop ltac:(lia)).
    assert (spec_page lv σ virt phys flags = (false, σ)) as ->.
    { unfold spec_page. destruct Hstop as [Hna | Ho]; [by rewrite decide_False |]. rewrite Ho. by case_decide. }
    exists σ. split_and!; [done.. |]. intros v.
    unfold range_page_of. by rewrite decide_False by (unfold in_range; lia). }
  pose proof (Hargs 0 ltac:(lia)) as Ha0. rewrite !Z.mul_0_l, !Z.add_0_r in Ha0.
  unfold spec_page. rewrite decide_True by done.
  pose proof (Hfree 0 ltac:(lia)) as Hf0. rewrite Z.mul_0_l, Z.add_0_r in Hf0. rewrite Hf0.
  assert (∀ a i, a + psize lv + i * psize lv = a + (i + 1) * psize lv) as Hnext by lia.
  assert (∀ i, 0 <= i → overlaps (<[(lv, virt / psize lv) := mk_leaf phys flags]> σ) lv
    (virt + psize lv + i * psize lv) = overlaps σ lv (virt + (i + 1) * psize lv)) as Hov.
  { intros i Hi. rewrite overlaps_insert by (done || by apply page_next). by rewrite Hnext. }
  destruct (IH k (<[(lv, virt / psize lv) := mk_leaf phys flags]> σ) (virt + psize lv) (phys + psize lv)
    flags) as (σ' & Hs & Hok' & Hl).
  - lia.
  - by eapply leaf_ok_insert.
  - destruct (page_level_psize lv Hlv) as (Hps & _).
    by rewrite <- Z.add_mod_idemp_r, Z_mod_same_full, Z.add_0_r by lia.
  - intros i Hi. rewrite !Hnext. apply Hargs. lia.
  - intros i Hi. rewrite Hov by lia. apply Hfree. lia.
  - intros Hlt. rewrite Hov, !Hnext by lia. replace (Z.of_nat k + 1) with (Z.of_nat (S k)) by lia. apply Hstop. lia.
  - exists σ'. rewrite Hs. split_and!; [by f_equal; apply bool_decide_ext; lia | done |].
    intros v. rewrite Hl, page_of_insert, range_page_of_cons by (done || lia). do 3 f_equal; lia.
Qed.

(** Up to there every page has good arguments, and the next one has not. *)
Lemma mappable_spec lv virt phys n flags : page_level lv → is_u64 virt → is_u64 phys → flag_bits flags →
  range_accepted lv virt phys n →
  let m := mappable virt phys n flags in
  0 <= m <= n ∧ m mod psize lv = 0 ∧ (0 < m → range_ok lv virt phys m flags) ∧
  (m < n → ~ args_ok (shift lv) (virt + m) (phys + m) flags).
Proof.
  intros Hlv Hv Hp Hf (Hn0 & Hvm & Hpm & Hnm & Hvn & Hpn & Hc & _) m.
  destruct (page_level_psize lv Hlv) as (Hps & _). unfold is_u64, two64 in *.
  apply is_canonical_iff in Hc; [| done]. unfold two64 in *.
  destruct (Z.testbit flags 7) eqn:H7.
  { assert (m = 0) as -> by (subst m; unfold mappable; by rewrite H7).
    split_and!; [lia | lia | apply Zmod_0_l | lia |]. intros _ (_ & _ & _ & _ & _ & H7'). congruence. }
  assert (m = Z.max 0 (Z.min (Z.min n (2 ^ 52 - phys)) (if virt <? 2 ^ 47 then 2 ^ 47 - virt else n))) as Em
    by (subst m; unfold mappable; by rewrite H7).
  clearbody m. change (2 ^ 47) with 140737488355328 in *. change (2 ^ 52) with 4503599627370496 in *.
  assert (m mod psize lv = 0) as Hmm
    by (destruct Hlv as [-> | ->]; rewrite ?psize_1, ?psize_2 in *;
        destruct (Z.ltb_spec virt 140737488355328); dlia).
  split_and!; [lia | destruct (virt <? 140737488355328); lia | done | |].
  - intros Hm0. unfold range_ok, two64. change (2 ^ 47) with 140737488355328. change (2 ^ 52) with 4503599627370496.
    destruct (Z.ltb_spec virt 140737488355328); split_and!; try done; lia.
  - intros Hlt (Hc' & _ & _ & Hp' & _). change (2 ^ 52) with 4503599627370496 in Hp'.
    apply is_canonical_iff in Hc'; [| unfold is_u64; lia]. unfold two64 in *. change (2 ^ 47) with 140737488355328 in *.
    destruct (Z.ltb_spec virt 140737488355328); lia.
Qed.

Lemma range_ok_prefix lv virt phys n m flags : range_ok lv virt phys n flags → 0 < m <= n →
  m mod psize lv = 0 → range_ok lv virt phys m flags.
Proof.
  intros (? & ? & ? & ? & Hh & ? & ? & ? & ?) Hm Hmm. unfold range_ok. split_and!; try done; lia.
Qed.

Lemma range_cost_nonneg lv v p n f : page_level lv → is_u64 v → is_u64 p → flag_bits f →
  0 <= range_cost lv v p n f.
Proof.
  intros Hlv Hv Hp Hf. unfold range_cost. case_decide as Hacc; [| done].
  destruct (mappable_spec lv v p n f Hlv Hv Hp Hf Hacc) as (Hm & _ & Hok & _).
  destruct (Z.eqb_spec (mappable v p n f) 0); [done |]. specialize (Hok ltac:(lia)).
  pose proof (range_tables_mono lv v (mappable v p n f) (mappable v p n f) (mappable v p n f) Hlv
    (range_half lv _ _ _ _ Hok) ltac:(lia) ltac:(lia)). destruct Hlv; lia.
Qed.

Section WithDevice.
Context {PD : PortDevice}.
Implicit Types (s : machine) (F A : gset Z) (T : gmap Z (nat * Z)) (σ : pages).

(** ** Implementation *)

(** The entry that holds a leaf. *)
Definition leaf_entry (lv : nat) (x : leaf) : Z :=
  match lv with
  | 1%nat => small_entry (lf_phys x) (lf_flags x)
  | _ => large_entry (lf_phys x) (lf_flags x)
  end.

(** The tables under [root] hold the pages [σ], and [F] is free. *)
Record represents s root A σ F : Prop := {
  rp_vm : ∃ T, vm s root T A F;
  rp_tidy : tidy s root;
  rp_ok : pages_ok σ;
  rp_walk : ∀ v, canonical v →
    walk s 4 root v = (λ '(lv, x), (lv, leaf_entry lv x)) <$> page_of σ v
}.

Lemma rp_some s root A σ F v : represents s root A σ F → canonical v →
  walk s 4 root v ≠ None ↔ is_Some (page_of σ v).
Proof.
  intros Hr Hc. rewrite (rp_walk _ _ _ _ _ Hr v Hc), <- not_eq_None_Some, fmap_None. done.
Qed.

(** A slot is taken exactly when the page overlaps one that is mapped. *)
Lemma rp_taken s root A σ F lv v : represents s root A σ F → page_level lv → canonical v →
  slot_taken s lv 4 root v = overlaps σ lv v.
Proof.
  intros Hr Hlv Hc. apply eq_bool_prop_intro. rewrite !Is_true_true, overlaps_true.
  destruct (rp_vm _ _ _ _ _ Hr) as [T Hvm]. assert (1 ≤ lv ≤ 4)%nat as Hl by (destruct Hlv; lia).
  assert (∀ i, 0 <= i < psize lv / 4096 → canonical (page_base lv v + 4096 * i) ∧
    pre (lv - 1) (page_base lv v + 4096 * i) = pre (lv - 1) v) as Hpiece.
  { intros i Hi. destruct (page_piece lv v i Hlv Hi) as [Hp Hpc]. split; [auto |].
    apply pre_canonical; auto. }
  split.
  - intros Ht. assert (∃ i, 0 <= i < psize lv / 4096 ∧
      slot_taken s 1 4 root (page_base lv v + 4096 * i) = true) as (i & Hi & Hs).
    { destruct Hlv as [-> | ->].
      - exists 0. destruct (page_piece_0 1 v) as [H0 _]; [by left |]. split; [done |].
        rewrite (slot_taken_pre s 1 _ v); [done | lia | by apply Hpiece | lia | lia].
      - destruct (rp_tidy _ _ _ _ _ Hr v Ht) as (w & Hw & Hx). pose proof (lidx_range 1 w) as Hi.
        exists (lidx 1 w). split; [done |]. destruct (Hpiece (lidx 1 w) Hi) as [_ Hp].
        rewrite (slot_taken_pre s 1 _ w); [| lia | | lia | lia].
        { apply (slot_taken_walk s root T); [apply Hvm | done]. }
        simpl in Hp |- *. rewrite !(pre_step 0), Hp, Hw by lia. f_equal.
        unfold lidx, page_base. rewrite psize_2. change (shift 1) with 12. dlia. }
    exists i. split; [done |]. apply (rp_some s root A σ F); [done | by apply Hpiece |].
    by apply (slot_taken_walk s root T); [apply Hvm |].
  - intros (i & Hi & Hs). destruct (Hpiece i Hi) as [Hci Hp].
    rewrite <- (slot_taken_pre s lv _ v ltac:(lia) Hp) by lia.
    apply walk_slot_taken; [lia.. |]. by apply (rp_some s root A σ F).
Qed.

(** [s'] follows from [s] by an operation that cost at most [n] frames and
    left the pages [σ']. *)
Definition advances s root A F (n : Z) σ' s' : Prop :=
  touches A s s' ∧ ∃ F', Z.of_nat (size F) <= Z.of_nat (size F') + n ∧ represents s' root A σ' F'.

Lemma advances_refl s root A F n σ : 0 <= n → represents s root A σ F → advances s root A F n σ s.
Proof. intros Hn Hr. split; [done |]. exists F. split; [lia | done]. Qed.

(** *** One page *)

Section Mapper.
Context (op : Z → Z → Z → Z → M bool) (lv : nat) (entry : Z → Z → Z).
Context `{PM : !PageMapper op lv entry}.
Context (Hentry : ∀ x, leaf_entry lv x = entry (lf_phys x) (lf_flags x)).

Lemma wp_spec_page s root A σ F virt phys flags (Q : bool → machine → Prop) :
  represents s root A σ F → is_u64 virt → args_ok (shift lv) virt phys flags →
  4 - Z.of_nat lv <= Z.of_nat (size F) →
  (∀ s', advances s root A F (4 - Z.of_nat lv) (spec_page lv σ virt phys flags).2 s' →
     Q (spec_page lv σ virt phys flags).1 s') →
  wp (op (hhdm s + root) virt phys flags) Q s.
Proof using PM Hentry.
  intros Hr Hu Ha Hsz HQ. pose proof pm_level as Hlv. destruct (rp_vm _ _ _ _ _ Hr) as [T Hvm].
  pose proof (missing_le s lv virt 4 root) as Hmiss. assert (canonical virt) as Hcv by (by split; [| apply Ha]).
  pose proof (rp_taken _ _ _ _ _ _ _ Hr Hlv Hcv) as Htk.
  unfold spec_page in HQ. rewrite decide_True in HQ by done.
  apply (pm_map s root T A F); [done | done | lia | |].
  - intros s' [E (T' & F' & V & Sub & N) Ht Td W]. rewrite Ht in Htk. rewrite <- Htk in HQ. cbn [fst snd] in HQ.
    apply HQ. split; [done |]. exists F'. split; [lia |].
    split; [eauto | apply Td, Hr | apply Hr |]. intros v Hc. rewrite W. by apply Hr.
  - intros s' [E (T' & F' & V & Sub & N) Ht Td W _ _]. rewrite Ht in Htk. rewrite <- Htk in HQ. cbn [fst snd] in HQ.
    apply HQ. split; [done |]. exists F'. split; [lia |].
    split; [eauto | apply Td, Hr | eapply leaf_ok_insert; [apply Hr | done..] |].
    intros v Hc. rewrite W, page_of_insert by done.
    pose proof (pre_canonical lv v virt Hlv Hc Hcv) as Hpre.
    destruct (decide (pre (lv - 1) v = pre (lv - 1) virt)) as [Hp | Hp].
    + rewrite decide_True by tauto. simpl. by rewrite Hentry.
    + rewrite decide_False by tauto. by apply Hr.
Qed.

(** *** Ranges *)

(** Where a range stops is where the specification stops. *)
Lemma range_done_advances s root A σ F virt phys n flags off k s' :
  represents s root A σ F → range_accepted lv virt phys n →
  off = 0 ∨ range_ok lv virt phys off flags → 0 <= off <= n → off mod psize lv = 0 →
  (off < n → ~ args_ok (shift lv) (virt + off) (phys + off) flags ∨
     canonical (virt + off) ∧ slot_taken s lv 4 root (virt + off) = true) →
  range_done lv entry s root A F virt phys flags off k s' →
  advances s root A F k (spec_range lv σ virt phys n flags).2 s' ∧
  (spec_range lv σ virt phys n flags).1 = bool_decide (off = n).
Proof using PM Hentry.
  intros Hr Hacc Hoff Ho Hom Hstop (T' & F' & E & V & Sub & N & [Hin Hout] & Td & Hfree).
  pose proof pm_level as Hlv. destruct (page_level_psize lv Hlv) as (Hps & _).
  pose proof Hacc as (Hn0 & Hv & _ & Hn & _). unfold spec_range. rewrite decide_True by done.
  assert (∀ o, 0 <= o < off → o mod psize lv = 0 → canonical (virt + o) ∧
    args_ok (shift lv) (virt + o) (phys + o) flags) as Hpage.
  { intros o Hro Hmo. destruct Hoff as [-> | Hok]; [lia |].
    by destruct (range_page lv _ _ _ _ o Hok Hro Hmo) as (Hc & Ha & _). }
  apply Z.mod_divide in Hom as [k' ->]; [| lia]. pose proof Hn as [m ->]%Z.mod_divide; [| lia].
  assert (0 <= k' <= m) as Hkm by nia. rewrite Z.div_mul by lia.
  destruct (spec_pages_stop lv (Z.to_nat m) Hlv (Z.to_nat k') σ virt phys flags)
    as (σ' & Hs & Hok' & Hl).
  - lia.
  - apply Hr.
  - done.
  - intros i Hi. apply Hpage; [nia | apply Z.mod_mul; lia].
  - intros i Hi. assert (i * psize lv mod psize lv = 0) as Him by (apply Z.mod_mul; lia).
    destruct (Hpage (i * psize lv) ltac:(nia) Him) as [Hc _].
    rewrite <- (rp_taken s root A σ F) by done. apply Hfree; [nia | done].
  - intros Hlt. rewrite Z2Nat.id by lia. destruct (Hstop ltac:(nia)) as [| [Hc Ht]]; [by left | right].
    by rewrite <- (rp_taken s root A σ F).
  - rewrite Hs. rewrite Z2Nat.id in Hl by lia. simpl. split.
    2:{ apply bool_decide_ext. nia. }
    split; [done |]. exists F'. split; [lia |]. split; [eauto | apply Td, Hr | done |].
    intros v Hc. rewrite Hl. unfold range_page_of. destruct (decide (in_range virt (k' * psize lv) v)).
    + rewrite Hin by done. simpl. by rewrite Hentry.
    + rewrite Hout by done. by apply Hr.
Qed.

(** Before the first page, nothing is done. *)
Lemma range_done_0 s root T A F virt phys flags k : vm s root T A F → 0 <= k →
  range_done lv entry s root A F virt phys flags 0 k s.
Proof.
  intros Hvm Hk. exists T, F. split_and!; [done | done | done | lia | | done | lia].
  split; [unfold in_range; lia | done].
Qed.

(** A loop of a range comes to a page with bad arguments. *)
Lemma wp_loop_refused s pml4 virt phys n flags off (Q : option bool → machine → Prop) :
  is_u64 virt → is_u64 phys → virt + n < two64 → phys + n < two64 → 0 <= off < n →
  off mod psize lv = 0 → n mod psize lv = 0 →
  op pml4 (virt + off) (phys + off) flags s = Ok false s → Q (Some false) s →
  wp (for_range off n (psize lv) (λ offset,
        let! ok := op pml4 (virt + offset)%u64 (phys + offset)%u64 flags in
        if negb ok then ret (Some false) else ret None)) Q s.
Proof using PM.
  unfold is_u64, two64. intros Hv Hp Hvn Hpn Ho Hom Hn Hbad HQ. pose proof (psize_pos lv) as Hps.
  apply (wp_for_range (λ j s', j = off ∧ s' = s)); [lia | lia | unfold two64; lia | | done | | lia].
  { by rewrite Zminus_mod, Hom, Hn. }
  intros j s' _ [-> ->]. rewrite !u64_small by (unfold is_u64; lia).
  apply wp_bind. eapply wp_exec; [exact Hbad |]. by apply wp_ret.
Qed.

(** A range operation: accepted ranges are mapped page by page, others refused. *)
Lemma wp_spec_range s root A σ F virt phys n flags (range : M bool) (Q : bool → machine → Prop) :
  represents s root A σ F → is_u64 virt → is_u64 phys → flag_bits flags →
  (∀ s' v p, is_u64 p → ~ args_ok (shift lv) v p flags → op (hhdm s + root) v p flags s' = Ok false s') →
  (range_accepted lv virt phys n → ∀ Q' : bool → machine → Prop,
     wp (for_range 0 n (psize lv) (λ offset,
        let! ok := op (hhdm s + root) (virt + offset)%u64 (phys + offset)%u64 flags in
        if negb ok then ret (Some false) else ret None))
       (λ r s', Q' (default true r) s') s → wp range Q' s) →
  (~ range_accepted lv virt phys n → range s = Ok false s) →
  range_cost lv virt phys n flags <= Z.of_nat (size F) →
  (∀ s', advances s root A F (range_cost lv virt phys n flags) (spec_range lv σ virt phys n flags).2 s' →
     Q (spec_range lv σ virt phys n flags).1 s') →
  wp range Q s.
Proof using PM Hentry.
  intros Hr Hv Hp Hf Hop Hgood Hbad Hsz HQ. unfold range_cost in *.
  destruct (decide (range_accepted lv virt phys n)) as [Hacc | Hna].
  2:{ eapply wp_exec; [by apply Hbad |]. unfold spec_range in HQ. rewrite decide_False in HQ by done.
      by apply HQ, advances_refl. }
  pose proof pm_level as Hlv. destruct (rp_vm _ _ _ _ _ Hr) as [T Hvm].
  destruct (mappable_spec lv virt phys n flags Hlv Hv Hp Hf Hacc) as (Hm & Hmm & Hok & Hstop).
  pose proof Hacc as (Hn0 & _ & _ & Hn & Hvn & Hpn & _ & Hce). set (m := mappable virt phys n flags) in *.
  set (c := if m =? 0 then 0 else range_tables lv virt m) in *.
  assert (∀ s', range_done lv entry s root A F virt phys flags m c s' →
    Q (bool_decide (m = n)) s') as Hdone.
  { intros s' Hd. destruct (range_done_advances s root A σ F virt phys n flags m c s') as [Ha He];
      [done | done | destruct (Z.eq_dec m 0); [by left | right; apply Hok; lia] | lia | done | | done |].
    - intros Hlt. left. by apply Hstop.
    - rewrite <- He. by apply HQ. }
  apply Hgood; [done |]. apply (wp_for_range_split _ m); [apply psize_pos | lia | unfold is_u64, two64 in *; lia | done | done |].
  assert (∀ s', range_done lv entry s root A F virt phys flags m c s' →
    wp (for_range m n (psize lv) (λ offset,
        let! ok := op (hhdm s + root) (virt + offset)%u64 (phys + offset)%u64 flags in
        if negb ok then ret (Some false) else ret None)) (λ r s', Q (default true r) s') s') as Hrest.
  { intros s' Hd. specialize (Hdone s' Hd). destruct (Z.eq_dec m n) as [E | Hne].
    - rewrite bool_decide_true in Hdone by done. rewrite E. by apply wp_for_range_empty.
    - rewrite bool_decide_false in Hdone by done. apply wp_loop_refused; try done; [lia | apply Hop].
      + unfold is_u64, two64 in *. lia.
      + apply Hstop. lia. }
  destruct (Z.eq_dec m 0) as [E | Hne].
  { rewrite E in Hrest |- *. apply wp_for_range_empty, Hrest, (range_done_0 s root T); [done |].
    subst c. by rewrite E. }
  assert (c = range_tables lv virt m) as Ec by (subst c; by destruct (Z.eqb_spec m 0)).
  rewrite Ec in *. apply (wp_range_loop op lv entry s root T A F virt phys m flags); [done | apply Hok; lia | lia | |].
  - intros s' off Ho Hoom Ht Hd. cbn [default].
    destruct (range_page lv _ _ _ _ off (Hok ltac:(lia)) Ho Hoom) as (Hc & _ & Hle).
    destruct (range_done_advances s root A σ F virt phys n flags off (range_tables lv virt m) s') as [Ha He];
      [done | done | | lia | done | by right | done |].
    { destruct (Z.eq_dec off 0); [by left | right]. eapply range_ok_prefix; [by apply Hok; lia | lia | done]. }
    rewrite bool_decide_false in He by lia. rewrite <- He. by apply HQ.
  - intros s' Hd _. by apply Hrest.
Qed.

End Mapper.

(** *** Refused arguments *)

Lemma range_not_accepted lv space virt phys n : is_u64 virt → is_u64 phys → is_u64 n →
  ~ range_accepted lv virt phys n → range_refused (psize lv) space virt phys n.
Proof.
  intros Hv Hp Hn Hna. unfold range_accepted, range_refused in *. unfold is_u64, two64 in *.
  destruct (decide (n = 0)); [tauto |]. destruct (decide (virt mod psize lv = 0)); [| tauto].
  destruct (decide (phys mod psize lv = 0)); [| tauto]. destruct (decide (n mod psize lv = 0)); [| tauto].
  destruct (decide (18446744073709551616 <= virt + n)); [tauto |].
  destruct (decide (18446744073709551616 <= phys + n)); [tauto |].
  destruct (is_canonical virt); [| tauto]. destruct (is_canonical (virt + n - 1)); [| tauto].
  exfalso. apply Hna. split_and!; done || lia.
Qed.

(** The guards accept the others. *)
Lemma accepted_guards lv virt phys n : is_u64 virt → is_u64 phys → range_accepted lv virt phys n →
  (n =? 0) = false ∧ (u64 (UINT64_MAX - n) <? virt) = false ∧
  (u64 (UINT64_MAX - n) <? phys) = false ∧ is_canonical virt = true ∧
  is_canonical (u64 (u64 (virt + n) - 1)) = true.
Proof.
  unfold is_u64, two64, UINT64_MAX. intros Hv Hp (Hn0 & _ & _ & _ & Hvn & Hpn & Hc & Hce). unfold two64 in *.
  rewrite u64_sub_l, !(u64_small (_ - _)) by (unfold is_u64; lia). split_and!; done || lia.
Qed.

Lemma map_range_runs s pml4 ph virt phys n flags (Q : bool → machine → Prop) : pml4 ≠ 0 →
  is_u64 virt → is_u64 phys → range_accepted 1 virt phys n →
  wp (for_range 0 n (psize 1) (λ offset,
      let! ok := map_page pml4 (virt + offset)%u64 (phys + offset)%u64 flags in
      if negb ok then ret (Some false) else ret None)) (λ r s', Q (default true r) s') s →
  wp (map_range (mk_space pml4 ph) virt phys n flags) Q s.
Proof.
  intros Hz Hv Hp Hacc Hwp. unfold map_range. cbn [Vmm.pml4]. destruct (Z.eqb_spec pml4 0); [done |].
  rewrite !page_offset_test. destruct (accepted_guards 1 virt phys n Hv Hp Hacc) as (-> & -> & -> & -> & ->).
  pose proof Hacc as (_ & Hv1 & Hp1 & Hn1 & _). rewrite psize_1 in *. rewrite Hv1, Hp1, Hn1. cbn [negb Z.eqb].
  apply wp_bind. eapply wp_mono; [exact Hwp |]. intros [b |] s' HQ; by apply wp_ret.
Qed.

Lemma map_range_large_runs s pml4 ph virt phys n flags (Q : bool → machine → Prop) : pml4 ≠ 0 →
  is_u64 virt → is_u64 phys → range_accepted 2 virt phys n →
  wp (for_range 0 n (psize 2) (λ offset,
      let! ok := map_page_large pml4 (virt + offset)%u64 (phys + offset)%u64 flags in
      if negb ok then ret (Some false) else ret None)) (λ r s', Q (default true r) s') s →
  wp (map_range_large (mk_space pml4 ph) virt phys n flags) Q s.
Proof.
  intros Hz Hv Hp Hacc Hwp. unfold map_range_large. cbn [Vmm.pml4]. cbv zeta. destruct (Z.eqb_spec pml4 0); [done |].
  rewrite !large_offset_test. destruct (accepted_guards 2 virt phys n Hv Hp Hacc) as (-> & -> & -> & -> & ->).
  pose proof Hacc as (_ & Hv1 & Hp1 & Hn1 & _). rewrite psize_2 in *. rewrite Hv1, Hp1, Hn1. cbn [negb Z.eqb].
  apply wp_bind. eapply wp_mono; [exact Hwp |]. intros [b |] s' HQ; by apply wp_ret.
Qed.

(** *** Requests *)

Definition answer_request (space : AddressSpace) (r : vm_request) : M answer :=
  match r with
  | MapPage v p f => let! ok := map_page (pml4 space) v p f in ret (Mapped ok)
  | MapPageLarge v p f => let! ok := map_page_large (pml4 space) v p f in ret (Mapped ok)
  | MapRange v p n f => let! ok := map_range space v p n f in ret (Mapped ok)
  | MapRangeLarge v p n f => let! ok := map_range_large space v p n f in ret (Mapped ok)
  | Translate v => let! a := translate space v in ret (Address a)
  end.

Fixpoint answer_all (space : AddressSpace) (rs : list vm_request) : M (list answer) :=
  match rs with
  | [] => ret []
  | r :: rest =>
      let! a := answer_request space r in let! out := answer_all space rest in ret (a :: out)
  end.

Lemma request_cost_nonneg r : request_fits r → 0 <= request_cost r.
Proof.
  destruct r; cbn [request_cost request_fits]; try lia; intros (? & ? & ? & ?).
  - apply range_cost_nonneg; [by left | done..].
  - apply range_cost_nonneg; [by right | done | done | by apply without_huge_spec].
Qed.

Lemma total_cost_nonneg rs : Forall request_fits rs → 0 <= total_cost rs.
Proof.
  induction 1 as [| r rs Hr _ IH]; [done |]. pose proof (request_cost_nonneg r Hr).
  cbn [total_cost foldr]. fold (total_cost rs). lia.
Qed.

(** What a page of the specification translates to. *)
Lemma rp_translation s root A σ F v : represents s root A σ F → is_u64 v →
  (if is_canonical v then translation s root v else 0) = spec_translate σ v.
Proof.
  intros Hr Hu. unfold spec_translate, translation. destruct (is_canonical v) eqn:Hc; [| done].
  rewrite (rp_walk _ _ _ _ _ Hr v (conj Hu Hc)). destruct (page_of σ v) as [[lv x] |] eqn:Hx; [| done].
  cbn [fmap option_fmap option_map].
  destruct (page_of_ok _ _ _ _ (rp_ok _ _ _ _ _ Hr) Hx) as [Hlv (Hp & Hf & Hm)]. simpl in Hm.
  destruct Hlv as [-> | ->]; [by apply small_entry_address | by apply large_entry_address].
Qed.

Lemma wp_answer s root ph A σ F r (Q : answer → machine → Prop) :
  represents s root A σ F → request_fits r → request_cost r <= Z.of_nat (size F) →
  (∀ s', advances s root A F (request_cost r) (space_step σ r).2 s' → Q (space_step σ r).1 s') →
  wp (answer_request (mk_space (hhdm s + root) ph) r) Q s.
Proof.
  intros Hr Hok Hsz HQ. destruct (rp_vm _ _ _ _ _ Hr) as [T Hvm].
  assert (hhdm s + root ≠ 0) as Hz by (by apply Z.eqb_neq, (root_nonzero s root T A F)).
  destruct r as [v p f | v p f | v p n f | v p n f | v]; cbn [answer_request request_cost space_step] in *.
  1,2,3,4: apply wp_bind.
  - destruct Hok as (Hv & Hp & Hf). destruct (decide (args_ok 12 v p f)) as [Ha | Hna].
    + apply (wp_spec_page map_page 1 small_entry ltac:(done) s root A σ F); [done.. |].
      intros s' Hs. apply wp_ret. destruct (spec_page 1 σ v p f). by apply HQ.
    + eapply wp_exec; [by apply map_page_bad |]. unfold spec_page in HQ. rewrite decide_False in HQ by done.
      by apply wp_ret, HQ, advances_refl.
  - destruct Hok as (Hv & Hp & Hf). rewrite <- map_page_large_huge.
    destruct (without_huge_spec f Hf) as [Hf' H7].
    destruct (decide (args_ok 21 v p (without_huge f))) as [Ha | Hna].
    + apply (wp_spec_page map_page_large 2 large_entry ltac:(done) s root A σ F); [done.. |].
      intros s' Hs. apply wp_ret. destruct (spec_page 2 σ v p (without_huge f)). by apply HQ.
    + eapply wp_exec; [by apply map_page_large_bad |]. unfold spec_page in HQ.
      rewrite decide_False in HQ by done. by apply wp_ret, HQ, advances_refl.
  - destruct Hok as (Hv & Hp & Hn & Hf).
    apply (wp_spec_range map_page 1 small_entry ltac:(done) s root A σ F v p n f); [done.. | | | | done |].
    + intros s' v' p' Hp' Hna. by apply map_page_bad.
    + intros Hacc Q' Hwp. by apply map_range_runs.
    + intros Hna. by apply range_rejects, (range_not_accepted 1).
    + intros s' Hs. apply wp_ret. destruct (spec_range 1 σ v p n f). by apply HQ.
  - destruct Hok as (Hv & Hp & Hn & Hf). destruct (without_huge_spec f Hf) as [Hf' H7].
    rewrite <- map_range_large_huge.
    apply (wp_spec_range map_page_large 2 large_entry ltac:(done) s root A σ F v p n (without_huge f));
      [done.. | | | | done |].
    + intros s' v' p' Hp' Hna. by apply map_page_large_bad.
    + intros Hacc Q' Hwp. by apply map_range_large_runs.
    + intros Hna. by apply range_large_rejects, (range_not_accepted 2).
    + intros s' Hs. apply wp_ret. destruct (spec_range 2 σ v p n (without_huge f)). by apply HQ.
  - apply wp_bind, (wp_translate s root T A F); [done |]. rewrite (rp_translation s root A σ F) by done.
    by apply wp_ret, HQ, advances_refl.
Qed.

Lemma wp_answer_all root ph A rs : ∀ s σ F (Q : list answer → machine → Prop),
  represents s root A σ F → Forall request_fits rs → total_cost rs <= Z.of_nat (size F) →
  (∀ s', advances s root A F (total_cost rs) (space_run σ rs).2 s' → Q (space_run σ rs).1 s') →
  wp (answer_all (mk_space (hhdm s + root) ph) rs) Q s.
Proof.
  induction rs as [| r rest IH]; intros s σ F Q Hr Hok Hsz HQ; cbn [answer_all space_run] in *.
  { by apply wp_ret, HQ, advances_refl. }
  apply Forall_cons in Hok as [Hro Hok]. cbn [total_cost foldr] in Hsz, HQ.
  fold (total_cost rest) in *. pose proof (request_cost_nonneg r Hro) as Hr0.
  pose proof (total_cost_nonneg rest Hok) as Hrest0.
  apply wp_bind, (wp_answer s root ph A σ F); [done | done | lia |]. intros s1 (E1 & F1 & N1 & R1).
  destruct (space_step σ r) as [a σ1]. cbn [fst snd] in *.
  assert (hhdm s = hhdm s1) as -> by (apply touches_env, same_env_fields in E1; unfold hhdm; symmetry; tauto).
  apply wp_bind, (IH s1 σ1 F1); [done | done | lia |]. intros s2 (E2 & F2 & N2 & R2). apply wp_ret.
  destruct (space_run σ1 rest) as [out σ2]. apply HQ. split; [by etrans |]. exists F2. split; [lia | done].
Qed.

(** A new address space holds no page. *)
Lemma wp_create_represents s A F (Q : option AddressSpace → machine → Prop) :
  bits s F → counted s F → layout s A → F ⊆ A → F ≠ ∅ →
  (∀ s' root, advances s root A F 1 ∅ s' → Q (Some (mk_space (hhdm s' + root) root)) s') →
  wp create_address_space Q s.
Proof.
  intros Hb Hc Hl Hsub Hne HQ. apply (wp_create_address_space s A F); [done.. |].
  intros s' root T F' E V Sub N W Ht _. apply HQ. split; [done |]. exists F'. split; [lia |].
  split; [eauto | | apply map_Forall_empty |].
  - intros v Hv. by rewrite Ht in Hv.
  - intros v _. rewrite W. unfold page_of. by rewrite !lookup_empty.
Qed.

(** ** The theorem *)

(** A client that creates an address space and works with it. *)
Definition session (rs : list vm_request) : M (option (list answer)) :=
  let! space := create_address_space in
  match space with
  | None => ret None
  | Some space => let! out := answer_all space rs in ret (Some out)
  end.

(** C4: an address space is a finite map from pages to physical pages.  A new
    space, and any sequence of mappings of pages and ranges of both sizes and
    of translations in it, with any 64-bit addresses and sizes and any flags,
    answers as that map does: a page is refused exactly when it overlaps one that
    is mapped or its arguments are bad, a range that passes the guards is mapped
    page by page up to its first refusal (at the latest at the 52-bit physical
    limit), and every translation is the one of the page mapped there.  The
    tables hold exactly the pages of the map throughout, the frames spent are
    bounded by the tables of the requests, and no memory is written but the
    bitmap and the allocator's frames.  The condition is that there are free
    frames for the PML4 and for all the tables the requests may need. *)
Theorem address_space_refines s A F rs :
  bits s F → counted s F → layout s A → F ⊆ A →
  Forall request_fits rs → 1 + total_cost rs <= Z.of_nat (size F) →
  wp (session rs) (λ out s', out = Some (space_run ∅ rs).1 ∧
    ∃ root, advances s root A F (1 + total_cost rs) (space_run ∅ rs).2 s') s.
Proof.
  intros Hb Hc Hl Hsub Hok Hsz.
  pose proof (total_cost_nonneg rs Hok) as Hpos.
  apply wp_bind, (wp_create_represents s A F); [done.. | |].
  { intros ->. rewrite size_empty in Hsz. lia. }
  intros s1 root (E1 & F1 & N1 & R1).
  apply wp_bind, (wp_answer_all root root A rs s1 ∅ F1); [done | done | lia |].
  intros s2 (E2 & F2 & N2 & R2). apply wp_ret. split; [done |]. exists root.
  split; [by etrans |]. exists F2. split; [lia | done].
Qed.

End WithDevice.

(** ** The hypotheses hold on the sample machine *)

#[local] Existing Instance Uart.uart_device.

(** A page, a large page over it, a large page beside it that asks for [Huge], a
    range that runs into the large page, an unaligned page, a small page that
    asks for [Huge], a range that runs past the physical limit, and what they
    translate to. *)
Definition sample_requests : list vm_request :=
  [MapPage 0x400000 0x5000 sample_flags;
   MapPageLarge 0x400000 0x600000 sample_flags;
   MapPageLarge 0x600000 0x800000 (PageFlags.or sample_flags PageFlags.Huge);
   MapRange 0x5FE000 0x10000 0x3000 sample_flags;
   MapPage 0x400001 0x5000 sample_flags;
   MapPage 0x401000 0x5000 (PageFlags.or sample_flags PageFlags.Huge);
   MapRange 0x402000 0xFFFFFFFFFF000 0x3000 sample_flags;
   Translate 0x400123; Translate 0x601234; Translate 0x5FF010; Translate 0x401000;
   Translate 0x402345; Translate 0x403000].

Definition sample_answers : list answer :=
  [Mapped true; Mapped false; Mapped true; Mapped false; Mapped false;
   Mapped false; Mapped false;
   Address 0x5123; Address 0x801234; Address 0x11010; Address 0; Address 0xFFFFFFFFFF345; Address 0].

Lemma sample_spec_run : (space_run ∅ sample_requests).1 = sample_answers.
Proof. vm_compute. reflexivity. Qed.

Lemma address_space_refines_witness :
  wp (session sample_requests) (λ out _, out = Some sample_answers) (Sample.ready 3).
Proof.
  eapply wp_mono.
  - apply (address_space_refines (Sample.ready 3) (frame_range 2 64) (frame_range 3 64));
      [apply sample_vm | apply sample_vm | apply sample_vm | apply sample_vm | |].
    + by apply (bool_decide_unpack _).
    + rewrite Sample.size_frame_range by lia. done.
  - intros out s' [-> _]. by rewrite sample_spec_run.
Defined.
