(* ===== verification/Exhaustion.v ===== *)
(** What happens when the frames run out.

    [alloc_frame] answers 0 and [allocate_table] looks for UINT64_MAX, so the
    tables of a mapping are all put in physical frame 0, one over the other.
    The effect is followed up to [map_page], and up to the kernel's address
    space for a boot that has no frame left for it. *)

From Stdlib Require Import ZArith Lia.
From stdpp Require Import base numbers list gmap sets fin_sets.
From S2P Require Import Prelude Descriptors Machine Serial Print Console Pmm PmmInv PmmInit PmmSpec Paging Mmu Vmm VmmInv VmmSteps VmmMap VmmRange KernelSpace Sample.
Import Vmm.
Local Open Scope Z_scope.

Section WithDevice.
Context {PD : PortDevice}.
Implicit Types (s : machine) (A : gset Z) (T : gmap Z (nat * Z)).

(** No frame is free, and frame 0 can be reached and does not hold the bitmap. *)
Record spent s : Prop := {
  sp_bits : bits s ∅;
  sp_hhdm : 0 < hhdm s ∧ hhdm s + 4096 <= two64;
  sp_zero : ∀ i, 0 <= i < 512 → addr_ok s (hhdm s + 8 * i) = true;
  sp_bitmap : hhdm s + 4096 <= bitmap (pmm s)
}.

Lemma spent_cells s s' : only_cells s s' → spent s →
  (∀ w, 0 <= w < bitmap_words (pmm s) →
     cell s' (bitmap (pmm s) + 8 * w) = cell s (bitmap (pmm s) + 8 * w)) → spent s'.
Proof.
  intros Hoc [H1 H2 H3 H4] Hsame. pose proof (bits_cells s s' ∅ Hoc H1 Hsame) as Hb.
  assert (pmm s' = pmm s) as Hp by (by rewrite Hoc). unfold hhdm in *.
  split; unfold hhdm; rewrite ?Hp; try done.
  intros i Hi. rewrite (only_cells_addr_ok s) by done. auto.
Qed.

Lemma zero_entry s i : spent s → 0 <= i < 512 → entry_at (hhdm s) i = hhdm s + 8 * i.
Proof. intros [_ ? _ _] Hi. unfold entry_at, two64 in *. by u64_simpl. Qed.

(** Frame 0 is cleared and handed out. *)
Lemma wp_allocate_spent s (Q : option AllocatedTable → machine → Prop) : spent s →
  (∀ s', only_cells s s' → spent s' → (∀ i, 0 <= i < 512 → cell s' (hhdm s + 8 * i) = 0) →
     (∀ a, hhdm s + 4096 <= a → cell s' a = cell s a) → Q (Some (mk_table 0 (hhdm s))) s') →
  wp allocate_table Q s.
Proof.
  intros Hs HQ. pose proof Hs as [Hb [Hh Hh2] Hok Hbm]. unfold allocate_table, two64 in *.
  apply wp_bind, wp_alloc_frame with ∅; [done | by intros f v [[]%not_elem_of_empty _] | intros _].
  cbn [Z.eqb UINT64_MAX]. apply wp_bind, wp_gets. fold (hhdm s).
  rewrite Z.add_0_r, u64_small by (unfold is_u64; lia). apply wp_bind.
  apply (wp_for_each (λ i s', only_cells s s' ∧ (∀ j, 0 <= j < i → cell s' (hhdm s + 8 * j) = 0) ∧
    (∀ a, hhdm s + 4096 <= a → cell s' a = cell s a)));
    unfold kPageTableEntries, two64; [lia | lia | lia | apply Z.mod_1_r | | |].
  - split_and!; [done | lia | done].
  - intros i s' Hi (Hoc & Hz & Hk). rewrite zero_entry by done.
    apply wp_store64; [by rewrite (only_cells_addr_ok s s'); [apply Hok |] |].
    split_and!; [by etrans | |].
    + intros j Hj. rewrite cell_set_cell. case_decide; [done |]. apply Hz. lia.
    + intros a Ha. rewrite cell_set_cell, decide_False by lia. auto.
  - intros s' (Hoc & Hz & Hk). apply wp_ret, HQ; [done | | done | done].
    apply (spent_cells s); [done | done |]. intros w Hw. apply Hk. lia.
Qed.

(** A missing table: the entry is made to point to frame 0, just cleared. *)
Lemma wp_ensure_spent s e m (Q : Z → machine → Prop) : spent s → addr_ok s e = true → cell s e = 0 →
  (∀ w, 0 <= w < bitmap_words (pmm s) → e ≠ bitmap (pmm s) + 8 * w) →
  (∀ s', only_cells s s' → spent s' → cell s' e = make_page_entry 0 m →
     (∀ i, 0 <= i < 512 → hhdm s + 8 * i ≠ e → cell s' (hhdm s + 8 * i) = 0) →
     (∀ a, hhdm s + 4096 <= a → a ≠ e → cell s' a = cell s a) → Q (hhdm s) s') →
  wp (ensure_table e m) Q s.
Proof.
  intros Hs He Hz Hap HQ. unfold ensure_table. cbv zeta. apply wp_bind, wp_load64; [done |].
  rewrite Hz. cbn [Z.land Z.eqb negb]. apply wp_bind, wp_allocate_spent; [done |].
  intros s1 Hoc Hs1 Hz1 Hk1. apply wp_bind, wp_store64; [by rewrite (only_cells_addr_ok s) |].
  apply wp_ret. apply HQ.
  - by etrans.
  - apply (spent_cells s1); [done | done |]. intros w Hw. rewrite cell_set_cell, decide_False; [done |].
    assert (pmm s1 = pmm s) as Hp by (by rewrite Hoc). rewrite Hp in *. auto.
  - by rewrite cell_set_cell_eq.
  - intros i Hi Hne. rewrite cell_set_cell, decide_False by congruence. auto.
  - intros a Ha Hne. rewrite cell_set_cell, decide_False by congruence. auto.
Qed.

(** The same when the entry is itself in frame 0: it is all that is left there. *)
Lemma wp_ensure_zero s i m (Q : Z → machine → Prop) : spent s → 0 <= i < 512 →
  cell s (hhdm s + 8 * i) = 0 →
  (∀ s', hhdm s' = hhdm s → spent s' → cell s' (hhdm s + 8 * i) = make_page_entry 0 m →
     (∀ j, 0 <= j < 512 → j ≠ i → cell s' (hhdm s + 8 * j) = 0) →
     (∀ a, hhdm s + 4096 <= a → cell s' a = cell s a) → Q (hhdm s) s') →
  wp (ensure_table (entry_at (hhdm s) i) m) Q s.
Proof.
  intros Hs Hi Hz HQ. pose proof (sp_bitmap _ Hs). rewrite zero_entry by done.
  apply wp_ensure_spent; [done | by apply (sp_zero _ Hs) | done | lia |].
  intros s' Hoc Hs' He Hz' Hk. apply HQ; [by rewrite Hoc | done | done | |].
  - intros j Hj Hne. apply Hz'; lia.
  - intros a Ha. apply Hk; lia.
Qed.

(** Frame 0 as its own page directory: where the indices of an address at two
    levels are the same, the entry that links the directory is the entry of the
    page, and the page is refused. *)
Lemma wp_map_large_spent s virt phys flags (Q : bool → machine → Prop) :
  spent s → args_ok 21 virt phys flags → (∀ i, 0 <= i < 512 → cell s (hhdm s + 8 * i) = 0) →
  lidx 3 virt = lidx 2 virt → lidx 4 virt ≠ lidx 3 virt →
  (∀ s', only_cells s s' → Q false s') → wp (map_page_large (hhdm s) virt phys flags) Q s.
Proof.
  intros Hs (Hcan & Hva & Hpa & Hp52 & Hfl & Hf7) Hz E32 N43 HQ.
  change (2 ^ 21) with 2097152 in *. assert (is_u64 phys) as Hpu by (unfold is_u64; lia).
  pose proof (sp_hhdm _ Hs) as [Hh _]. pose proof (sp_bitmap _ Hs) as Hbm.
  pose proof (lidx_range 3 virt). pose proof (lidx_range 4 virt).
  unfold map_page_large. cbv zeta. destruct (Z.eqb_spec (hhdm s) 0); [lia |].
  rewrite Hcan, !large_offset_test, Hva, Hpa, Z.eqb_refl. cbn [negb].
  rewrite address_bits_test, (proj2 (Z.ltb_lt _ _)) by (done || dlia). cbn [negb].
  rewrite decompose_lidx. cbn [pml4_index pdpt_index pd_index pt_index].
  pose proof (intermediate_flags_middle flags) as Hm. apply wp_bind. rewrite zero_entry by done.
  apply wp_ensure_spent; [done | by apply (sp_zero _ Hs) | by apply Hz | lia |].
  intros s1 O1 Hs1 _ Hz1 _. destruct (Z.eqb_spec (hhdm s) 0); [lia |]. apply wp_bind.
  assert (hhdm s1 = hhdm s) as H1 by (by rewrite O1). pose proof (sp_bitmap _ Hs1) as Hbm1.
  rewrite <- H1, zero_entry by done.
  apply wp_ensure_spent; [done | by apply (sp_zero _ Hs1) | rewrite H1; apply Hz1; lia | lia |].
  intros s2 O2 Hs2 Hlink _ _. destruct (Z.eqb_spec (hhdm s1) 0); [lia |].
  assert (hhdm s2 = hhdm s1) as H2 by (by rewrite O2).
  rewrite <- H2, <- E32, zero_entry by done. apply wp_bind, wp_load64; [by apply (sp_zero _ Hs2) |].
  rewrite H2, Hlink, present_test, negb_involutive, make_page_entry_bit by (done || lia).
  rewrite (proj1 (middle_bits _ 0 Hm)). apply wp_ret, HQ. by etrans.
Qed.

(** The kernel's address space, with no frame left and a direct map aligned
    so that its indices in the PDPT and in the directory are the same: refused,
    with nothing changed but memory and EFER. *)
Lemma wp_build_spent s out regions h L (Q : bool * AddressSpace → machine → Prop) :
  spent s → hhdm s = h → is_u64 (efer s) → regions ≠ [] → layout_ok regions h L → lidx 3 h = lidx 2 h →
  lidx 4 h ≠ lidx 3 h →
  (∀ s0 s', s0 = s ∨ s0 = with_cpu (Msr.set_msr Msr.kEferMsr (efer s0) (cpu s)) s →
     only_cells s0 s' → Q (false, mk_space h 0) s') →
  wp (build_kernel_address_space out (Some regions) h L) Q s.
Proof.
  intros Hs Hhh Hu Hne Hl E32 N43 HQ. pose proof (kernel_segments_ok _ _ _ Hl) as Hok.
  pose proof Hl as [[? ?] [? Hh2] _ _ _ _].
  unfold build_kernel_address_space. rewrite large_offset_test, Hh2. cbn [negb Z.eqb].
  destruct (Z.eqb_spec (Z.of_nat (List.length regions)) 0) as [Hlen |].
  { destruct regions; [done | simpl in Hlen; lia]. }
  apply wp_bind, wp_enable_nx; [done |]. intros s0 Hs0 _.
  assert (spent s0 ∧ hhdm s0 = h) as [Hsp0 Hh0].
  { destruct Hs as [B1 B2 B3 B4]. destruct Hs0 as [-> | ->]; (split; [split |]); try done;
      by apply (bits_mem s). }
  apply wp_bind. unfold create_address_space. apply wp_bind, wp_allocate_spent; [done |].
  intros s1 O1 Hs1 Hz1 _. apply wp_ret. cbn [virtual_address physical]. rewrite Hh0 in *.
  rewrite (direct_size_align _ _ _ Hl), highest_end_eq.
  destruct (Z.eqb_spec (memory_top regions) 0); [lia |]. fold kWritableData.
  do 4 apply Forall_inv_tail in Hok. apply Forall_inv in Hok as [_ Hr]. simpl in Hr.
  assert (hhdm s1 = h) as Hh1 by (rewrite <- Hh0; by rewrite O1).
  pose proof Hr as (_ & _ & Hn & Hn0 & Hhalf & _ & Hn52 & _).
  destruct (range_page 2 _ _ _ _ 0 Hr ltac:(lia) ltac:(done)) as (_ & Hargs & _). rewrite !Z.add_0_r in Hargs.
  assert (u64 (h + 0) = h) as Hu0 by (rewrite Z.add_0_r; apply u64_small; unfold is_u64, two64 in *; lia).
  apply wp_bind. unfold map_range_large. cbn [pml4]. cbv zeta. destruct (Z.eqb_spec h 0); [unfold two64 in *; lia |].
  destruct (range_guards 2 _ _ _ _ Hr) as (-> & -> & -> & -> & ->).
  rewrite !large_offset_test, Hh2. rewrite psize_2 in Hn. rewrite Hn. cbn [negb Z.eqb]. apply wp_bind.
  apply (wp_for_range (λ j s', j = 0 ∧ s' = s1)); [done | lia | unfold two64 in *; lia |
    by rewrite Z.sub_0_r | done | | intros s' [? _]; lia].
  intros j s' _ [-> ->]. rewrite Hu0. apply wp_bind. rewrite <- Hh1 at 1.
  apply wp_map_large_spent; [done | done | by rewrite Hh1 | by rewrite ?Hh1 | by rewrite ?Hh1 |].
  intros s2 O2. apply wp_ret, wp_ret, wp_ret. apply (HQ s0); [done | by etrans].
Qed.

(** With no frame left, [allocate_table] still reports success: it takes
    the allocator's 0 for a frame and clears physical frame 0, which nobody
    has given it. *)
Theorem allocate_table_exhausted s : spent s →
  wp allocate_table (λ t s', t = Some (mk_table 0 (hhdm s)) ∧
    ∀ i, 0 <= i < 512 → cell s' (hhdm s + 8 * i) = 0) s.
Proof. intros Hs. by apply wp_allocate_spent. Qed.

(** A PML4 entry that points to frame 0, whose entry for the page is empty. *)
Lemma walk_through_zero s root virt m : middle m → ent s root (lidx 4 virt) = make_page_entry 0 m →
  ent s 0 (lidx 3 virt) = 0 → walk s 4 root virt = None.
Proof.
  intros Hm R4 R3. assert (page_address 0) as Hp0 by done. cbn [walk].
  rewrite R4, !make_page_entry_bit, page_entry_address_make by (done || lia || by apply middle_flag_bits).
  replace (Z.testbit m 0) with true by (by destruct Hm as [-> | ->]).
  replace (Z.testbit m 7) with false by (by destruct Hm as [-> | ->]). cbn [negb andb orb Nat.eqb].
  by rewrite R3.
Qed.

(** C38: with no frame left, [map_page] of a page whose PML4 entry is empty
    reports success and maps nothing.  The PML4 entry is made to point to
    physical frame 0, which is then cleared and used as the PDPT, cleared again
    and used as the directory, and cleared again and used as the page table: what
    is left in it is the link of the page table, at the index in the directory,
    and the entry of the page, and the link of the directory is gone, so the page
    does not translate.  No other word above frame 0 has changed.  This is for a
    page whose indices in the PDPT, the directory and the page table are pairwise
    different, on a machine where frame 0 was not given to the allocator and can
    be reached through the direct map, below the bitmap. *)
Theorem map_page_exhausted s root T A virt phys flags :
  vm s root T A ∅ → spent s → 0 ∉ A → args_ok 12 virt phys flags →
  ent s root (lidx 4 virt) = 0 →
  lidx 3 virt ≠ lidx 2 virt → lidx 3 virt ≠ lidx 1 virt → lidx 2 virt ≠ lidx 1 virt →
  let link := make_page_entry 0 (intermediate_flags flags) in
  wp (map_page (hhdm s + root) virt phys flags) (λ ok s', ok = true ∧ walk s' 4 root virt = None ∧
    ent s' root (lidx 4 virt) = link ∧
    (∀ i, 0 <= i < 512 → ent s' 0 i =
       if decide (i = lidx 1 virt) then small_entry phys flags
       else if decide (i = lidx 2 virt) then link else 0) ∧
    (∀ a, hhdm s + 4096 <= a → a ≠ hhdm s + root + 8 * lidx 4 virt → cell s' a = cell s a)) s.
Proof.
  intros Hvm Hs H0A (Hcan & Hva & Hpa & Hp52 & Hfl & Hf7) Hroot N32 N31 N21 link.
  change (2 ^ 12) with 4096 in *. assert (is_u64 phys) as Hpu by (unfold is_u64; lia).
  destruct (vm_table_frame _ _ _ _ _ _ _ Hvm (t_root _ _ _ (vm_tables _ _ _ _ _ Hvm))) as (f & -> & Hf & _).
  pose proof (lidx_range 1 virt). pose proof (lidx_range 2 virt). pose proof (lidx_range 3 virt).
  pose proof (lidx_range 4 virt) as H4. pose proof (vm_layout _ _ _ _ _ Hvm) as Hl.
  pose proof (frame_bounds _ _ _ _ Hl Hf H4) as (Hh & Hf0 & _ & H64 & Hok4).
  assert (f ≠ 0) by (intros ->; done). pose proof (sp_bitmap _ Hs) as Hbm.
  pose proof (lay_apart _ _ Hl f Hf) as Hap. pose proof (lay_bitmap _ _ Hl) as Hbp. fold (hhdm s) in Hbp.
  unfold map_page. rewrite (root_nonzero _ _ _ _ _ Hvm), Hcan, !page_offset_test, Hva, Hpa, Z.eqb_refl.
  cbn [negb]. rewrite address_bits_test, (proj2 (Z.ltb_lt _ _)) by (done || lia). cbn [negb].
  rewrite huge_test, Hf7. cbn [negb]. rewrite decompose_lidx.
  cbn [pml4_index pdpt_index pd_index pt_index]. rewrite (entry_at_frame _ A) by done.
  set (m := intermediate_flags flags). set (e4 := hhdm s + 4096 * f + 8 * lidx 4 virt) in *.
  apply wp_bind, wp_ensure_spent; [done | done | done | lia |].
  intros s1 O1 P1 E1 Z1 K1. assert (hhdm s1 = hhdm s) as Hh1 by (by rewrite O1).
  destruct (Z.eqb_spec (hhdm s) 0) as [| Hnz]; [lia |].
  rewrite <- Hh1 in Hnz |- *. apply wp_bind, wp_ensure_zero; [done | done | |].
  { rewrite Hh1. apply Z1; lia. }
  intros s2 Hh2 P2 _ Z2 K2. rewrite (proj2 (Z.eqb_neq _ _) Hnz). rewrite <- Hh2 in Hnz, Z2, K2 |- *.
  apply wp_bind, wp_ensure_zero; [done | done | apply Z2; lia |].
  intros s3 Hh3 P3 L3 Z3 K3. rewrite (proj2 (Z.eqb_neq _ _) Hnz). rewrite <- Hh3 in Hnz, Z3, L3 |- *.
  rewrite zero_entry by done. apply wp_bind, wp_load64; [by apply (sp_zero _ P3) |].
  rewrite Z3 by lia. cbn [Z.land Z.eqb negb].
  apply wp_bind, wp_store64; [by apply (sp_zero _ P3) |]. apply wp_ret. split; [done |].
  assert (hhdm s3 = hhdm s) as Hh' by congruence.
  change (make_page_entry phys _) with (small_entry phys flags).
  set (s4 := set_cell _ _ s3). assert (hhdm s4 = hhdm s) as Hh4 by done.
  assert (∀ a, hhdm s + 4096 <= a → cell s4 a = cell s1 a) as K4
    by (intros a Ha; subst s4; rewrite cell_set_cell, decide_False by lia; rewrite K3, K2 by lia; done).
  assert (ent s4 (4096 * f) (lidx 4 virt) = link) as R4 by (unfold ent; rewrite Hh4; fold e4; rewrite K4 by lia; done).
  assert (∀ i, 0 <= i < 512 → ent s4 0 i = if decide (i = lidx 1 virt) then small_entry phys flags
    else if decide (i = lidx 2 virt) then link else 0) as R0.
  { intros i Hi. unfold ent. rewrite Hh4, Z.add_0_r. subst s4. rewrite cell_set_cell, Hh'.
    destruct (decide (i = lidx 1 virt)) as [-> | N1]; [by rewrite decide_True | rewrite decide_False by lia].
    rewrite <- Hh'. destruct (decide (i = lidx 2 virt)) as [-> | N2]; [done | by apply Z3]. }
  split_and!; [| done | done | intros a Ha Hne; rewrite Hh' in Ha; rewrite K4 by done; by apply K1].
  apply (walk_through_zero s4 _ _ m); [apply intermediate_flags_middle | exact R4 |]. by rewrite R0, !decide_False by done.
Qed.

End WithDevice.

(** ** On the sample machine *)

#[local] Existing Instance Uart.uart_device.

Lemma sample_spent : spent (Sample.ready 64).
Proof.
  split; [exact (Sample.ready_bits 64 ltac:(lia)) | done | | done].
  intros i Hi. unfold addr_ok. change (hhdm (Sample.ready 64)) with Sample.h.
  rewrite Sample.ram_writable by (done || lia). apply Z.eqb_eq. unfold Sample.h. dlia.
Qed.

Lemma allocate_table_exhausted_witness :
  wp allocate_table (λ t s', t = Some (mk_table 0 Sample.h) ∧
    ∀ i, 0 <= i < 512 → cell s' (Sample.h + 8 * i) = 0) (Sample.ready 64).
Proof. apply (allocate_table_exhausted (Sample.ready 64)). exact sample_spent. Defined.

Lemma map_page_exhausted_witness :
  wp (map_page (Sample.h + Sample.root) 0x40403000 0x5000 PageFlags.Writable)
    (λ ok s', ok = true ∧ walk s' 4 Sample.root 0x40403000 = None ∧
      ent s' Sample.root 0 = 3 ∧ ent s' 0 3 = 0x5003 ∧ ent s' 0 2 = 3 ∧ ent s' 0 1 = 0) (Sample.ready 64).
Proof.
  eapply wp_mono; [apply (map_page_exhausted (Sample.ready 64) Sample.root Sample.labels (frame_range 2 64)) |].
  - exact (Sample.ready_vm 64 ltac:(lia)).
  - exact sample_spent.
  - rewrite elem_of_frame_range. lia.
  - done.
  - apply Sample.ready_ent. done.
  - done.
  - done.
  - done.
  - intros ok s' (-> & Hw & Hr & H0 & _). split_and!; [done | exact Hw | exact Hr | ..].
    + exact (H0 3 ltac:(lia)).
    + exact (H0 2 ltac:(lia)).
    + exact (H0 1 ltac:(lia)).
Defined.
