(* ===== verification/KernelTheorems.v ===== *)
(** The theorems about the address space the kernel runs in. *)

From Stdlib Require Import ZArith Lia Ascii String.
From stdpp Require Import base numbers list gmap sets fin_sets.
From S2P Require Import Prelude Descriptors Machine Serial Print Console Pmm PmmInv PmmInit PmmSpec Paging Mmu Vmm Boot VmmInv VmmSteps VmmMap VmmRange KernelSpace Linker Sample.
Import Vmm.
Local Open Scope Z_scope.

(** The segments of a description, one by one. *)
Lemma seg_access_in segs v p w x : seg_access segs v = Some (p, w, x) →
  ∃ g, g ∈ segs ∧ in_range (sg_virt g) (sg_size g) v ∧ p = sg_phys g + (v - sg_virt g) ∧
    w = Z.testbit (sg_flags g) 1 ∧ x = negb (Z.testbit (sg_flags g) 63).
Proof.
  induction segs as [| g rest IH]; simpl; [done |]. case_decide as Hr.
  - intros [= <- <- <-]. exists g. set_solver.
  - intros (g' & Hin & H)%IH. exists g'. set_solver.
Qed.

Lemma seg_access_None segs v : seg_access segs v = None ↔
  Forall (λ g, ~ in_range (sg_virt g) (sg_size g) v) segs.
Proof.
  induction segs as [| g rest IH]; simpl; [by split |]. rewrite Forall_cons, <- IH.
  case_decide; [| tauto]. split; [done | tauto].
Qed.

Section WithDevice.
Context {PD : PortDevice}.
Implicit Types (s : machine) (F A : gset Z) (T : gmap Z (nat * Z)).

(** [enable_nx] sets bit 11 of EFER, leaves its other bits alone and
    touches no other state, whether or not the bit was set. *)
Theorem enable_nx_sets_nxe s : is_u64 (efer s) →
  wp Msr.enable_nx (λ _ s', efer s' = Z.setbit (efer s) 11 ∧ same_mem s s' ∧
    (∀ r, r ≠ Msr.kEferMsr → msrs (cpu s') !! r = msrs (cpu s) !! r)) s.
Proof.
  intros Hu. apply wp_enable_nx; [done |]. intros s' Hs He. split_and!; [done | |].
  - by destruct Hs as [-> | ->].
  - intros r Hr. destruct Hs as [-> | ->]; [done |]. simpl. by rewrite lookup_insert_ne.
Qed.

(** Without a memory map, or with a direct map that is not 2 MiB aligned,
    [build_kernel_address_space] returns false and changes nothing. *)
Theorem build_rejects s out regions h L :
  regions = None ∨ regions = Some [] ∨ h mod 2097152 ≠ 0 →
  build_kernel_address_space out regions h L s = Ok (false, out) s.
Proof.
  intros Hbad. destruct regions as [regions |]; [| done]. unfold build_kernel_address_space.
  destruct (Z.eqb_spec (Z.of_nat (List.length regions)) 0) as [| Hl]; [done |].
  rewrite large_offset_test. destruct (Z.eqb_spec (h mod 2097152) 0); [| done].
  destruct Hbad as [? | [[= ->] | ?]]; done.
Qed.

Section Build.
Context (s : machine) (A F : gset Z) (out : AddressSpace).
Context (regions : list Pmm.MemoryRegion) (h : Z) (L : KernelLayout).
(** The allocator is up, EFER is a 64-bit register, the layout is one the
    loader and the linker script can produce, and there are frames enough. *)
Context (Hb : bits s F) (Hc : counted s F) (Hl : layout s A) (Hsub : F ⊆ A).
Context (Hu : is_u64 (efer s)) (Hne : regions ≠ []) (Hlo : layout_ok regions h L).
Context (Hsz : tables_needed regions h L <= Z.of_nat (size F)).

(** The state the construction leaves, described. *)
Definition built (r : bool * AddressSpace) (s' : machine) (root : Z) : Prop :=
  r = (true, mk_space (hhdm s' + root) root) ∧ efer s' = Z.setbit (efer s) 11 ∧
  ((∃ T F', vm s' root T A F' ∧ F' ⊆ F) ∧ ∀ a, ~ held s A a → cell s' a = cell s a) ∧
  ∀ v, canonical v → hw_access s' root v = seg_access (kernel_segments regions h L) v.

Lemma build_built : wp (build_kernel_address_space out (Some regions) h L)
  (λ r s', ∃ root, built r s' root) s.
Proof using All.
  apply (wp_build s A F); [done.. |].
  intros s0 s' root Hs0 He _ (T & F' & [E C] & V & Sub & _ & Hd). exists root. split_and!; [done | | eauto | |].
  - rewrite <- He. unfold efer. destruct E as (_ & _ & -> & _). done.
  - intros a Ha. rewrite C; by destruct Hs0 as [-> | ->].
  - intros v Hcv. eapply described_access; [apply V | done..].
Qed.

(** What [translate] answers in the space built. *)
Lemma built_translate r s' root v : built r s' root → canonical v →
  translate r.2 v s' = Ok (match seg_access (kernel_segments regions h L) v with
    | Some (p, _, _) => p | None => 0 end) s'.
Proof using All.
  intros (-> & _ & ((T & F' & V & _) & _) & Hacc) Hcv. cbn [snd].
  assert (wp (translate (mk_space (hhdm s' + root) root) v) (λ a s2,
    a = (match seg_access (kernel_segments regions h L) v with
      | Some (p, _, _) => p | None => 0 end) ∧ s2 = s') s') as Hwp.
  { apply (wp_translate s' root T A F'); [done |]. split; [| done].
    rewrite <- Hacc, (proj2 Hcv) by done. unfold hw_access.
    rewrite (hw_walk_leaf s' root T) with (n := 0) by apply V.
    unfold translation. by destruct (walk s' 4 root v) as [[]|]. }
  by apply wp_inv in Hwp as (a & s2 & -> & -> & ->).
Qed.

(** What the processor and [translate] find in the direct map. *)
Lemma built_direct a : 0 <= a < direct_size regions →
  wp (build_kernel_address_space out (Some regions) h L)
    (λ r s', hw_access s' (pml4_physical r.2) (h + a) = Some (a, true, false) ∧
       translate r.2 (h + a) s' = Ok a s') s.
Proof using All.
  intros Ha. destruct (direct_access regions h L (h + a) Hlo) as [Hcv Hsa]; [lia |].
  replace (h + a - h) with a in Hsa by lia.
  eapply wp_mono; [apply build_built |]. intros r s' (root & Hbt).
  rewrite (built_translate _ _ _ _ Hbt Hcv), Hsa. destruct Hbt as (-> & _ & _ & Hacc).
  simpl. by rewrite Hacc, Hsa.
Qed.

(** C1: [build_kernel_address_space] succeeds and produces a space in which
    the processor sees exactly the direct map and the four segments of the
    image, each at its address with its rights, and nothing else; NXE is set,
    so the no-execute bits count; and no memory is written but the bitmap and
    the allocator's frames. *)
Theorem build_exact : wp (build_kernel_address_space out (Some regions) h L)
  (λ r s', ∃ root, r = (true, mk_space (hhdm s' + root) root) ∧ Z.testbit (efer s') 11 = true ∧
    ((∃ T F', vm s' root T A F' ∧ F' ⊆ F) ∧ ∀ a, ~ held s A a → cell s' a = cell s a) ∧
    ∀ v, canonical v → hw_access s' root v = seg_access (kernel_segments regions h L) v) s.
Proof using All.
  eapply wp_mono; [apply build_built |]. intros r s' (root & Hr & He & Hvm & Hacc).
  exists root. split; [done |]. split; [| done]. rewrite He. by apply Z.setbit_eq.
Qed.

(** C14: no address of the kernel's space is both writable and executable, and
    the executable ones are exactly those of the text segment. *)
Theorem build_w_xor_x : wp (build_kernel_address_space out (Some regions) h L)
  (λ r s', ∀ v p w x, canonical v → hw_access s' (pml4_physical r.2) v = Some (p, w, x) →
    (w && x = false) ∧ (x = true ↔ in_range (text_start L) (rodata_start L - text_start L) v)) s.
Proof using All.
  eapply wp_mono; [apply build_built |]. intros r s' (root & -> & _ & _ & Hacc) v p w x Hcv Hv.
  simpl in Hv. rewrite Hacc in Hv by done.
  pose proof (kernel_segments_ok _ _ _ Hlo) as Hok.
  pose proof Hlo as [_ _ Hap (? & ? & ? & ? & ?) _ _].
  apply seg_access_in in Hv as (g & Hin & Hr & -> & -> & ->). unfold in_range in *.
  unfold kernel_segments in Hin. rewrite !elem_of_cons, elem_of_nil in Hin.
  destruct Hin as [-> | [-> | [-> | [-> | [-> | []]]]]]; simpl in *.
  all: split; [done |]; split; [first [done | lia] |]; first [done | intros; lia].
Qed.

(** The direct map is the identity: every byte of every region of the
    memory map translates, at its offset in the direct map, to itself, and
    can be written but not executed. *)
Theorem build_direct_map g a : g ∈ regions → 0 <= Pmm.base g → 0 <= Pmm.length g →
  Pmm.base g + Pmm.length g < two64 → Pmm.base g <= a < Pmm.base g + Pmm.length g →
  wp (build_kernel_address_space out (Some regions) h L)
    (λ r s', hw_access s' (pml4_physical r.2) (h + a) = Some (a, true, false) ∧
       translate r.2 (h + a) s' = Ok a s') s.
Proof using All.
  intros Hg Hb0 Hl0 H64 Ha. pose proof (memory_top_ge regions g Hg Hb0 Hl0 H64) as Hhe.
  apply built_direct. pose proof (direct_size_eq _ _ _ Hlo) as Hz. rewrite Hz. dlia.
Qed.

(** Nothing below the direct map is mapped, the null page included, so a
    null dereference faults; [translate] answers 0 there. *)
Theorem build_low_unmapped v : canonical v → v < h →
  wp (build_kernel_address_space out (Some regions) h L)
    (λ r s', hw_access s' (pml4_physical r.2) v = None ∧ translate r.2 v s' = Ok 0 s') s.
Proof using All.
  intros Hcv Hv. pose proof (direct_size_eq _ _ _ Hlo) as Hz.
  pose proof Hlo as [[? ?] _ Hap (? & ? & ? & ? & ?) _ _].
  assert (seg_access (kernel_segments regions h L) v = None) as Hsa.
  { apply seg_access_None. assert (0 < direct_size regions) by (rewrite Hz; dlia).
    repeat apply Forall_cons_2; [.. | done]; unfold in_range; simpl; lia. }
  eapply wp_mono; [apply build_built |]. intros r s' (root & Hbt).
  rewrite (built_translate _ _ _ _ Hbt Hcv), Hsa. destruct Hbt as (-> & _ & _ & Hacc).
  simpl. by rewrite Hacc, Hsa.
Qed.

(** C40: the first page of the direct map does map physical frame 0, and
    [translate] answers 0 for it, as it does for an address that is not
    mapped. *)
Theorem build_maps_frame_zero : wp (build_kernel_address_space out (Some regions) h L)
  (λ r s', hw_access s' (pml4_physical r.2) h = Some (0, true, false) ∧
     translate r.2 h s' = Ok 0 s') s.
Proof using All.
  pose proof (direct_size_eq _ _ _ Hlo) as Hz. pose proof (lo_some _ _ _ Hlo).
  eapply wp_mono; [apply (built_direct 0); rewrite Hz; dlia |]. by rewrite Z.add_0_r.
Qed.

End Build.

(** C15: a machine with a free frame for every GiB and every 512 GiB of the
    direct map, which spans its memory map rounded up to 2 MiB, for every 2 MiB,
    every GiB and every 512 GiB of the image, and 29 more, can build its address
    space: [build_kernel_address_space] returns true. *)
Theorem build_frames s A F out regions h L :
  bits s F → counted s F → layout s A → F ⊆ A → is_u64 (efer s) → regions ≠ [] →
  layout_ok regions h L → frames_enough regions L <= Z.of_nat (size F) →
  wp (build_kernel_address_space out (Some regions) h L) (λ r s', r.1 = true) s.
Proof.
  intros Hb Hc Hl Hsub Hu Hne Hlo Hsz. pose proof (tables_needed_bound _ _ _ Hlo).
  eapply wp_mono; [apply (build_built s A F out regions h L); (done || lia) |]. by intros r s' (root & -> & _).
Qed.

(** ** The linked image *)

(** C10: when the kernel is linked by the linker script and loaded where it
    was linked, the space built gives each section its rights: the code can be
    executed and not written, the constants and the boot requests only read,
    the data written and not executed, each byte at its place in the image. *)
Theorem linked_image_rights s A F out regions h ss gdt idt stubs pb :
  bits s F → counted s F → layout s A → F ⊆ A → is_u64 (efer s) → regions ≠ [] →
  Linker.linkable ss →
  0 < memory_top regions ∧ memory_top regions + 2097152 <= 2 ^ 52 →
  two64 - 2 ^ 47 <= h ∧ h mod 2097152 = 0 →
  h + direct_size regions <= Linker.image_base →
  0 <= pb ∧ pb mod 4096 = 0 ∧ pb + 2 ^ 31 <= 2 ^ 52 →
  let sy := Linker.link ss gdt idt stubs in
  let L := Boot.kernel_layout sy Linker.image_base pb in
  tables_needed regions h L <= Z.of_nat (size F) →
  wp (build_kernel_address_space out (Some regions) h L) (λ r s', r.1 = true ∧
    ∀ v, let access := hw_access s' (pml4_physical r.2) v in
      let p := v - Linker.image_base + pb in
      (Linker.image_base <= v < Boot.sym_text_start sy → access = Some (p, false, false)) ∧
      (Boot.sym_text_start sy <= v < Boot.sym_text_end sy → access = Some (p, false, true)) ∧
      (Boot.sym_rodata_start sy <= v < Boot.sym_rodata_end sy → access = Some (p, false, false)) ∧
      (Boot.sym_data_start sy <= v < Boot.sym_data_end sy → access = Some (p, true, false))) s.
Proof.
  intros Hb Hc Hl Hsub Hu Hne Hss Hm Hh Hap Hp sy L Hsz.
  pose proof (Linker.link_ordered ss gdt idt stubs Hss) as Hor. fold sy in Hor.
  pose proof (Linker.link_layout regions h sy pb Hor Hm Hh Hap Hp) as Hlo. fold L in Hlo.
  eapply wp_mono; [apply (build_built s A F out regions h L); done |].
  intros r s' (root & -> & _ & _ & Hacc). split; [done |]. intros v.
  assert (Linker.image_base <= v < Boot.sym_data_end sy → hw_access s' root v = seg_access (kernel_segments regions h L) v)
    as Hv.
  { intros Hv. apply Hacc, canonical_cases. pose proof (Linker.or_end _ Hor). unfold Linker.image_base, two64 in *. lia. }
  pose proof (Linker.or_order _ Hor). pose proof (Linker.section_rights regions h sy pb v Hor Hlo) as Hr.
  cbv zeta in Hr |- *. cbn [snd pml4_physical]. fold L in Hr. destruct Hr as (R1 & R2 & R3 & R4).
  split_and!; intros Hin; rewrite Hv by lia; auto.
Qed.

End WithDevice.

(** ** The hypotheses hold on the sample machine *)

#[local] Existing Instance Uart.uart_device.

Definition sample_layout : KernelLayout := {|
  virtual_base := 0xFFFFFFFF80000000;
  physical_base := 0x10000;
  image_start := 0xFFFFFFFF80000000;
  text_start := 0xFFFFFFFF80001000;
  rodata_start := 0xFFFFFFFF80002000;
  data_start := 0xFFFFFFFF80003000;
  data_end := 0xFFFFFFFF80003800
|}.

Lemma sample_layout_ok : layout_ok Sample.regions Sample.h sample_layout.
Proof. split; unfold two64; try done; split_and!; done. Qed.

Lemma sample_tables :
  tables_needed Sample.regions Sample.h sample_layout <= Z.of_nat (size (frame_range 2 64)).
Proof. rewrite Sample.size_frame_range by lia. vm_compute. discriminate. Qed.

Lemma sample_bits : bits (Sample.ready 2) (frame_range 2 64).
Proof. apply Sample.ready_bits. lia. Qed.

Lemma sample_counted : counted (Sample.ready 2) (frame_range 2 64).
Proof. apply Sample.ready_allocator. lia. Qed.

Lemma sample_efer : is_u64 (efer (Sample.ready 2)).
Proof. done. Qed.

Lemma sample_regions : Sample.regions ≠ [].
Proof. done. Qed.

(** The sample, as the arguments of the theorems above. *)
Abbreviation on_sample t := (t (Sample.ready 2) (frame_range 2 64) (frame_range 2 64) (mk_space 0 0)
  Sample.regions Sample.h sample_layout sample_bits sample_counted (Sample.ready_layout 2)
  (reflexivity _) sample_efer sample_regions sample_layout_ok sample_tables) (only parsing).

Abbreviation sample_build :=
  (build_kernel_address_space (mk_space 0 0) (Some Sample.regions) Sample.h sample_layout)
  (only parsing).

Lemma enable_nx_sets_nxe_witness :
  wp Msr.enable_nx (λ _ s', efer s' = Z.setbit (efer (Sample.ready 2)) 11 ∧
    same_mem (Sample.ready 2) s' ∧
    (∀ r, r ≠ Msr.kEferMsr → msrs (cpu s') !! r = msrs (cpu (Sample.ready 2)) !! r)) (Sample.ready 2).
Proof. exact (enable_nx_sets_nxe (Sample.ready 2) sample_efer). Defined.

Lemma build_rejects_witness :
  build_kernel_address_space (mk_space 0 0) (Some Sample.regions) 0x1000 sample_layout (Sample.ready 2) =
    Ok (false, mk_space 0 0) (Sample.ready 2).
Proof. apply build_rejects. right. right. done. Defined.

Lemma build_exact_witness : wp sample_build
  (λ r s', ∃ root, r = (true, mk_space (hhdm s' + root) root) ∧ Z.testbit (efer s') 11 = true ∧
    ((∃ T F', vm s' root T (frame_range 2 64) F' ∧ F' ⊆ frame_range 2 64) ∧
     ∀ a, ~ held (Sample.ready 2) (frame_range 2 64) a → cell s' a = cell (Sample.ready 2) a) ∧
    ∀ v, canonical v → hw_access s' root v =
      seg_access (kernel_segments Sample.regions Sample.h sample_layout) v) (Sample.ready 2).
Proof. exact (on_sample build_exact). Defined.

Lemma sample_frames_enough : frames_enough Sample.regions sample_layout <= Z.of_nat (size (frame_range 2 64)).
Proof. vm_compute. discriminate. Qed.

Lemma build_frames_witness : wp sample_build (λ r s', r.1 = true) (Sample.ready 2).
Proof.
  exact (build_frames (Sample.ready 2) (frame_range 2 64) (frame_range 2 64) (mk_space 0 0)
    Sample.regions Sample.h sample_layout sample_bits sample_counted (Sample.ready_layout 2)
    (reflexivity _) sample_efer sample_regions sample_layout_ok sample_frames_enough).
Defined.

Lemma build_w_xor_x_witness : wp sample_build
  (λ r s', ∀ v p w x, canonical v → hw_access s' (pml4_physical r.2) v = Some (p, w, x) →
    (w && x = false) ∧ (x = true ↔ in_range 0xFFFFFFFF80001000 0x1000 v)) (Sample.ready 2).
Proof. exact (on_sample build_w_xor_x). Defined.

Lemma build_direct_map_witness : wp sample_build
  (λ r s', hw_access s' (pml4_physical r.2) (Sample.h + 0x1234) = Some (0x1234, true, false) ∧
     translate r.2 (Sample.h + 0x1234) s' = Ok 0x1234 s') (Sample.ready 2).
Proof.
  apply (on_sample build_direct_map (Pmm.mk_region 0x1000 0x3F000 Pmm.Usable) 0x1234).
  - right. left.
  - done.
  - done.
  - done.
  - simpl. lia.
Defined.

Lemma build_low_unmapped_witness : wp sample_build
  (λ r s', hw_access s' (pml4_physical r.2) 0 = None ∧ translate r.2 0 s' = Ok 0 s') (Sample.ready 2).
Proof. apply (on_sample build_low_unmapped 0); done. Defined.

Lemma build_maps_frame_zero_witness : wp sample_build
  (λ r s', hw_access s' (pml4_physical r.2) Sample.h = Some (0, true, false) ∧
     translate r.2 Sample.h s' = Ok 0 s') (Sample.ready 2).
Proof. exact (on_sample build_maps_frame_zero). Defined.

(** Sections a little over a page, without constructors. *)
Definition sample_sections : Linker.sections := {|
  Linker.limine_requests := Linker.mk_section 8 0x120;
  Linker.text := Linker.mk_section 16 0x1234;
  Linker.rodata := Linker.mk_section 32 0x800;
  Linker.init_array := Linker.mk_section 1 0;
  Linker.data := Linker.mk_section 32 0x48;
  Linker.bss := Linker.mk_section 4096 0x1010
|}.

Lemma sample_linkable : Linker.linkable sample_sections.
Proof.
  split; [| done | done]. repeat (apply Forall_cons_2; [split_and!; [done | | done] |]); [.. | done].
  all: apply Z.mod_divide; done.
Qed.

Lemma sample_linked_tables :
  tables_needed Sample.regions Sample.h (Boot.kernel_layout
    (Linker.link sample_sections 0 0 (λ _, 0)) Linker.image_base 0x10000) <=
  Z.of_nat (size (frame_range 2 64)).
Proof. vm_compute. discriminate. Qed.

Lemma linked_image_rights_witness : wp
  (build_kernel_address_space (mk_space 0 0) (Some Sample.regions) Sample.h
    (Boot.kernel_layout (Linker.link sample_sections 0 0 (λ _, 0)) Linker.image_base 0x10000))
  (λ r s', r.1 = true ∧
    hw_access s' (pml4_physical r.2) 0xFFFFFFFF80002000 = Some (0x12000, false, true)) (Sample.ready 2).
Proof.
  refine (wp_mono _ _ _ _ (linked_image_rights (Sample.ready 2) (frame_range 2 64) (frame_range 2 64)
    (mk_space 0 0) Sample.regions Sample.h sample_sections 0 0 (λ _, 0) 0x10000 sample_bits sample_counted
    (Sample.ready_layout 2) (reflexivity _) sample_efer sample_regions sample_linkable _ _ _ _
    sample_linked_tables) _); [done | done | done | done |].
  intros r s' [Hr Hv]. split; [exact Hr |]. apply (Hv 0xFFFFFFFF80002000). done.
Defined.
