(* ===== verification/ConsoleTheorems.v ===== *)
(** The theorems about formatted output and the serial console. *)

From Stdlib Require Import ZArith Lia Ascii String.
From stdpp Require Import base numbers list gmap sets fin_sets.
From S2P Require Import Prelude Descriptors Machine Serial Print Console Pmm PmmInv PmmInit PmmSpec Paging Mmu Vmm VmmInv Sample.
Local Open Scope Z_scope.

(** ** Numerals *)

(** The digit a byte of ASCII stands for. *)
Definition digit_value (b : Z) : option Z :=
  if (48 <=? b) && (b <=? 57) then Some (b - 48)
  else if (97 <=? b) && (b <=? 102) then Some (b - 87)
  else None.

(** [bs], read as a number in base [base], most significant digit first, is
    [v]. *)
Definition reads (base : Z) (bs : list Z) (v : Z) : Prop :=
  ∃ ds, mapM digit_value bs = Some ds ∧ Forall (λ d, 0 <= d < base) ds ∧
    Print.value_of base ds = v.

(** With no digit to spare. *)
Definition numeral_of (base : Z) (bs : list Z) (v : Z) : Prop :=
  reads base bs v ∧ bs ≠ [] ∧ (head bs = Some 48 → bs = [48]).

Lemma digit_byte d : 0 <= d < 16 →
  digit_value (byte_of (Print.digit d)) = Some d ∧ wire [Print.digit d] = [byte_of (Print.digit d)].
Proof.
  intros Hd.
  assert (Forall (λ d, digit_value (byte_of (Print.digit d)) = Some d ∧
    wire [Print.digit d] = [byte_of (Print.digit d)]) (seqZ 0 16)) as Hall by (by repeat constructor).
  rewrite Forall_forall in Hall. apply Hall, elem_of_seqZ. lia.
Qed.

(** The bytes of a list of digits, read back. *)
Lemma wire_digits ds : Forall (λ d, 0 <= d < 16) ds →
  wire (map Print.digit ds) = map (λ d, byte_of (Print.digit d)) ds ∧
  mapM digit_value (wire (map Print.digit ds)) = Some ds.
Proof.
  induction 1 as [| d ds Hd _ [IH1 IH2]]; [done |]. destruct (digit_byte d Hd) as [E1 E2].
  cbn [map]. rewrite wire_cons, E2. cbn [app]. split; [by f_equal |].
  simpl. rewrite E1. simpl. by rewrite IH2.
Qed.

Lemma numeral_reads base v : 2 <= base <= 16 → is_u64 v →
  numeral_of base (wire (Print.numeral base v)) v.
Proof.
  intros Hb Hv. destruct (Print.numeral_spec base v Hb Hv) as (ds & Ed & Ev & Fd & Hz). rewrite Ed.
  assert (Forall (λ d, 0 <= d < 16) ds) as F16 by (eapply Forall_impl; [exact Fd |]; simpl; lia).
  destruct (wire_digits ds F16) as [Ew Em]. split; [by exists ds |]. rewrite Ew.
  destruct (Z.eq_dec v 0) as [-> | Hne].
  - change (Print.numeral base 0) with (map Print.digit [0]) in Ed.
    assert (ds = [0]) as ->; [| done]. destruct ds as [| d []]; try done. injection Ed as Ed.
    apply Forall_inv in F16. by rewrite (Print.digit_inj d 0).
  - destruct ds as [| d ds]; [by simpl in Ev |]. split; [done |]. simpl. intros [= E48].
    apply Forall_inv in F16. destruct (digit_byte d F16) as [Hd _]. rewrite E48 in Hd.
    injection Hd as <-. by destruct (Hz Hne).
Qed.

(** The nibbles [%p] prints, read back. *)
Lemma nibbles_value v k : 0 <= v →
  Print.value_of 16 (map (λ i, (v / 16 ^ Z.of_nat i) mod 16) (rev (seq 0 k))) =
    v mod 16 ^ Z.of_nat k.
Proof.
  intros Hv. unfold Print.value_of.
  enough (∀ m, fold_left (λ n d, n * 16 + d) (map (λ i, (v / 16 ^ Z.of_nat i) mod 16) (rev (seq 0 k))) m =
    m * 16 ^ Z.of_nat k + v mod 16 ^ Z.of_nat k) as H by (by rewrite H).
  induction k as [| k IH]; intros m; [simpl; rewrite Z.mod_1_r; lia |].
  rewrite seq_S, rev_app_distr. cbn [rev app map fold_left]. rewrite IH.
  rewrite Nat2Z.inj_succ, Z.pow_succ_r by lia. rewrite (Z.mul_comm 16), Z.rem_mul_r by lia. rewrite Nat.add_0_l. ring.
Qed.

Section WithDevice.
Context {PD : PortDevice}.
Implicit Types s : machine.

(** The digit loops stay inside their buffers: printing any 64-bit number
    in decimal or hexadecimal, or any [int], emits exactly its numeral and
    never writes past the 24 or the 16 characters reserved. *)
Theorem emit_numbers s v : is_u64 v →
  Print.emit_unsigned v 10 s = Print.emit_list (Print.numeral 10 v) s ∧
  Print.emit_hex v s = Print.emit_list (Print.numeral 16 v) s ∧
  Print.emit_signed (s32 v) s = Print.emit_list (Print.signed_numeral (s32 v)) s.
Proof.
  intros Hv. split_and!; [by apply Print.emit_unsigned_numeral | by apply Print.emit_hex_numeral |].
  apply Print.emit_signed_numeral.
Qed.

(** ** The driver *)

(** [serial::init] refuses the baud rates whose divisor does not fit the
    latch, without touching the device or the driver's state. *)
Lemma init_rejects s baud : 0 <= baud → baud < 2 ∨ 115200 < baud →
  Serial.init baud s = Ok false s.
Proof.
  intros H0 Hb. unfold Serial.init. destruct (Z.eqb_spec baud 0); [done |].
  destruct (decide (baud = 1)) as [-> | Hne]; [done |].
  rewrite Z.div_small by lia. done.
Qed.

(** C35: [serial::init] returns for every baud rate and whatever the device
    answers.  For a rate from 2 to 115200 it returns true exactly when it leaves
    the driver initialised, and touches nothing but the device and that flag; for
    any other rate it returns false and changes nothing at all, so that a driver
    that was initialised stays so. *)
Theorem serial_init_result s baud : 0 <= baud →
  (2 <= baud <= 115200 →
     wp (Serial.init baud) (λ ok s', initialized s' = ok ∧ Serial.only_serial s s') s) ∧
  (baud < 2 ∨ 115200 < baud → Serial.init baud s = Ok false s).
Proof. intros H0. split; [apply Serial.wp_init | by apply init_rejects]. Qed.

(** *** Polling, exactly *)

(** The first read of the status register that shows a bit. *)
Definition first_shown (mask : Z) (d : pdev) (n : nat) : Prop :=
  status_bit mask (polls n d) = true ∧ ∀ m, (m < n)%nat → status_bit mask (polls m d) = false.

(** The loop of [wait_for] after [k] reads that did not show the bit. *)
Lemma wp_wait_polls mask timeout s (Q : bool → machine → Prop) : 0 <= timeout < two64 →
  (∀ n, Z.of_nat n < timeout → first_shown mask (device s) n →
     Q true (with_device (polls (S n) (device s)) s)) →
  ((∀ n, Z.of_nat n < timeout → status_bit mask (polls n (device s)) = false) →
     Q false (with_device (polls (Z.to_nat timeout) (device s)) s)) →
  wp (Serial.wait_for mask timeout) Q s.
Proof.
  intros Ht Hyes Hno. apply wp_bind.
  apply (wp_for_range (λ j s', s' = with_device (polls (Z.to_nat j) (device s)) s ∧
    ∀ m, Z.of_nat m < j → status_bit mask (polls m (device s)) = false));
    [lia | lia | lia | apply Z.mod_1_r | | |].
  - split; [by destruct s | lia].
  - intros j s' Hj [-> Hm]. apply wp_bind, Serial.wp_inb. simpl. intros v d Hv.
    assert (status_bit mask (polls (Z.to_nat j) (device s)) = negb (Z.land (u8 v) mask =? 0)) as Hsb
      by (unfold status_bit; by rewrite Hv).
    assert (d = polls (S (Z.to_nat j)) (device s)) as -> by (simpl; by rewrite Hv).
    destruct (negb (Z.land (u8 v) mask =? 0)); apply wp_ret.
    + apply wp_ret, (Hyes (Z.to_nat j)); [lia |]. split; [done |]. intros m Hlt. apply Hm. lia.
    + split; [by replace (Z.to_nat (j + 1)) with (S (Z.to_nat j)) by lia |]. intros m Hlt.
      destruct (decide (m = Z.to_nat j)) as [-> |]; [done | apply Hm; lia].
  - intros s' [-> Hm]. apply wp_ret. by apply Hno.
Qed.

(** C34: [serial::getc], for every device.  With the driver down it returns -1
    and touches nothing.  With the driver up it reads the status register until
    the first read that shows data, then returns the byte of the data register;
    after 100000 reads without data it returns -1.  Nothing but the device
    changes. *)
Theorem serial_getc_exact s n :
  (initialized s = false → Serial.getc s = Ok (-1) s) ∧
  (initialized s = true → Z.of_nat n < Serial.RX_TIMEOUT → first_shown Serial.LSR_DR (device s) n →
     let '(v, d) := port_in (Serial.reg Serial.Data) (polls (S n) (device s)) in
     Serial.getc s = Ok (u8 v) (with_device d s)) ∧
  (initialized s = true →
     (∀ m, Z.of_nat m < Serial.RX_TIMEOUT → status_bit Serial.LSR_DR (polls m (device s)) = false) →
     Serial.getc s = Ok (-1) (with_device (polls (Z.to_nat Serial.RX_TIMEOUT) (device s)) s)).
Proof.
  assert (0 <= Serial.RX_TIMEOUT < two64) as Ht by (unfold Serial.RX_TIMEOUT, two64; lia).
  split_and!.
  - intros Hi. unfold Serial.getc, bind, gets. by rewrite Hi.
  - intros Hi Hn [Hbit Hfirst].
    destruct (port_in (Serial.reg Serial.Data) (polls (S n) (device s))) as [v d] eqn:Hv.
    assert (wp Serial.getc (λ r s', r = u8 v ∧ s' = with_device d s) s) as (r & s' & -> & -> & ->)%wp_inv; [| done].
    unfold Serial.getc. wp_step. apply wp_gets. rewrite Hi. cbn [negb]. apply wp_bind, wp_wait_polls; [done | |].
    + intros m Hm [Hbm Hfm]. assert (m = n) as ->.
      { destruct (Nat.lt_trichotomy m n) as [Hlt | [-> | Hlt]]; [| done |];
          [rewrite Hfirst in Hbm by done | rewrite Hfm in Hbit by done]; done. }
      cbn [negb]. apply Serial.wp_inb. cbn [device with_device]. rewrite Hv. by intros ? ? [= <- <-].
    + intros Hno. by rewrite Hno in Hbit.
  - intros Hi Hno.
    assert (wp Serial.getc (λ r s', r = -1 ∧ s' = with_device (polls (Z.to_nat Serial.RX_TIMEOUT) (device s)) s) s)
      as (r & s' & -> & -> & ->)%wp_inv; [| done].
    unfold Serial.getc. wp_step. apply wp_gets. rewrite Hi. cbn [negb]. apply wp_bind, wp_wait_polls; [done | |].
    + intros m Hm [Hbm _]. by rewrite Hno in Hbm.
    + intros _. by apply wp_ret.
Qed.

(** With a transmitter that never becomes free a character is dropped, after
    100000 reads of the status register. *)
Theorem serial_putc_drops s c : initialized s = true → c ≠ char_nl →
  (∀ m, Z.of_nat m < Serial.TX_TIMEOUT → status_bit Serial.LSR_THRE (polls m (device s)) = false) →
  wp (Serial.putc c) (λ _ s', s' = with_device (polls (Z.to_nat Serial.TX_TIMEOUT) (device s)) s) s.
Proof.
  intros Hi Hc Hno. unfold Serial.putc. cbn [Serial.putc_rec]. wp_step. apply wp_gets. rewrite Hi. cbn [negb].
  rewrite (proj2 (Ascii.eqb_neq _ _) Hc). apply wp_bind, wp_ret, wp_bind, wp_wait_polls;
    [unfold Serial.TX_TIMEOUT, two64; lia | | done].
  intros m Hm [Hbm _]. by rewrite Hno in Hbm.
Qed.

(** A driver that is not initialised drops its output: [write] sends
    nothing. *)
Theorem serial_write_down s str : initialized s = false → Serial.write str s = Ok tt s.
Proof.
  intros Hi. destruct str as [str |]; [| done]. simpl.
  induction str as [| c str IH]; [done |]. simpl. unfold bind at 1, Serial.putc. simpl.
  unfold bind at 1, gets. by rewrite Hi.
Qed.

End WithDevice.

Section Transmission.
Context `{TX : Transmitter}.
Implicit Types s : machine.

Definition faults {A} (m : M A) (Q : machine → Prop) s : Prop := ∃ s', m s = Fault s' ∧ Q s'.

(** C20: with the console up, [kprintf] sends to the UART exactly the text its
    format and arguments denote, every newline preceded by a carriage return,
    in order and with nothing lost, and changes nothing but the device, for
    every format and every list of arguments.  It returns exactly when the
    arguments fit the format; otherwise it has sent the text up to the
    conversion whose argument is missing or of the wrong kind, or, for a format
    that ends in [%l], everything including the terminator, and it reads past
    its arguments or its format. *)
Theorem kprintf_exact s format ap : up s → output_sink s = Some serial_putc →
  let '(t, ok) := Print.transcript format ap in
  (Print.render format ap = if ok then Some t else None) ∧
  if ok then wp (Print.kprintf (Some format) ap) (λ _ s', transmitted s (wire t) s') s
  else faults (Print.kprintf (Some format) ap) (λ s', transmitted s (wire t) s') s.
Proof.
  intros Hup Hk. pose proof (Print.kprintf_loop_transcript format ap s) as Hloop.
  pose proof (Print.render_transcript format ap) as Hr.
  destruct (Print.transcript format ap) as [t ok]. cbn [fst snd] in *. split; [done |].
  assert (wp (Print.emit_list t) (λ _ s', transmitted s (wire t) s') s) as (u & s' & He & Hs)%wp_inv
    by (by apply wp_emit_list_sent).
  unfold bind in Hloop. rewrite He in Hloop. unfold Print.kprintf.
  destruct ok; [by eapply wp_exec | by exists s'].
Qed.

(** C32: with the console up, the routines that print numbers send bytes which,
    read as ASCII digits, most significant first, give the number back: decimal
    and hexadecimal for every 64-bit value, with no leading zero, a minus sign
    and the magnitude for every [int], the most negative one included, and
    exactly sixteen hexadecimal digits for a pointer.  No digit is lost and
    nothing but the device changes. *)
Theorem numbers_read_back s v : up s → output_sink s = Some serial_putc → is_u64 v →
  wp (Print.emit_unsigned v 10) (λ _ s', ∃ bs, transmitted s bs s' ∧ numeral_of 10 bs v) s ∧
  wp (Print.emit_hex v) (λ _ s', ∃ bs, transmitted s bs s' ∧ numeral_of 16 bs v) s ∧
  wp (Print.emit_signed (s32 v)) (λ _ s', ∃ bs, numeral_of 10 bs (Z.abs (s32 v)) ∧
    transmitted s (if s32 v <? 0 then 45 :: bs else bs) s') s ∧
  wp (Print.emit_nibbles 16 v) (λ _ s', ∃ bs, transmitted s bs s' ∧ reads 16 bs v ∧ length bs = 16%nat) s.
Proof.
  intros Hup Hk Hv. split_and!.
  - rewrite Print.emit_unsigned_numeral by done. apply wp_emit_list_sent; [done.. |].
    intros s' Ht. eexists. split; [exact Ht | apply numeral_reads; [lia | done]].
  - rewrite Print.emit_hex_numeral by done. apply wp_emit_list_sent; [done.. |].
    intros s' Ht. eexists. split; [exact Ht | apply numeral_reads; [lia | done]].
  - rewrite Print.emit_signed_numeral. apply wp_emit_list_sent; [done.. |].
    intros s' Ht. exists (wire (Print.numeral 10 (Z.abs (s32 v)))).
    pose proof (s32_range v) as Hr. split; [apply numeral_reads; [lia | unfold is_u64; lia] |].
    revert Ht. unfold Print.signed_numeral. destruct (Z.ltb_spec (s32 v) 0).
    + by rewrite Z.abs_neq by lia.
    + by rewrite Z.abs_eq by lia.
  - rewrite Print.emit_nibbles_text. apply wp_emit_list_sent; [done.. |]. intros s' Ht.
    rewrite <- (map_map (λ i, (v / 16 ^ Z.of_nat i) mod 16) Print.digit) in Ht.
    assert (Forall (λ d, 0 <= d < 16) (map (λ i, (v / 16 ^ Z.of_nat i) mod 16) (rev (seq 0 16)))) as Hf
      by (apply Forall_map, Forall_forall; intros i _; simpl; dlia).
    destruct (wire_digits _ Hf) as [Ew Em]. eexists. split; [exact Ht |]. split.
    + eexists. split; [exact Em |]. split; [exact Hf |]. unfold is_u64 in Hv.
      rewrite nibbles_value, Z.mod_small by (simpl; lia). done.
    + by rewrite Ew, !length_map.
Qed.

(** [serial::write] sends its string the same way. *)
Theorem serial_write_sends s str : up s →
  wp (Serial.write (Some str)) (λ _ s', transmitted s (wire (list_ascii_of_string str)) s') s.
Proof. intros Hup. by apply (wp_write_chars_sent str). Qed.

(** C33: [serial::init] brings a 16550 up from any state its registers may be
    in, at every rate at which the test byte has time to come back within the
    driver's 100000 reads of the line status: the loopback test succeeds, the
    driver is up, the line is left at 8N1 with the divisor of the requested
    rate, out of loopback with DTR, RTS, OUT1 and OUT2 set and nothing in the
    receiver, no byte of the test leaves the machine, and nothing but the device
    and the driver's flag has changed. *)
Theorem serial_init_up `{RG : !Registers} s baud : 2 <= baud <= 115200 →
  character_polls * (115200 / baud) < Serial.LOOPBACK_TIMEOUT →
  wp (Serial.init baud) (λ ok s', ok = true ∧ Serial.only_serial s s' ∧ up s' ∧
    sent (device s') = sent (device s) ∧
    line_of (device s') = mk_line 0x03 0x0F (115200 / baud) []) s.
Proof. apply wp_init_up. Qed.

End Transmission.

(** ** The hypotheses hold on the sample machine *)

#[local] Existing Instance Uart.uart_device.
#[local] Existing Instance Uart.uart_transmitter.
#[local] Existing Instance Uart.uart_registers.

(** The most negative [int]. *)
Lemma numbers_read_back_witness :
  wp (Print.emit_unsigned 0x80000000 10)
    (λ _ s', ∃ bs, transmitted Sample.booted bs s' ∧ numeral_of 10 bs 0x80000000) Sample.booted ∧
  wp (Print.emit_signed (-2147483648))
    (λ _ s', ∃ bs, numeral_of 10 bs 2147483648 ∧ transmitted Sample.booted (45 :: bs) s') Sample.booted.
Proof.
  destruct (numbers_read_back Sample.booted 0x80000000 Sample.booted_up eq_refl ltac:(done)) as (H1 & _ & H3 & _).
  split; [exact H1 | exact H3].
Defined.

Lemma emit_numbers_witness :
  Print.emit_unsigned UINT64_MAX 10 Sample.booted =
    Print.emit_list (Print.numeral 10 UINT64_MAX) Sample.booted ∧
  Print.emit_hex UINT64_MAX Sample.booted =
    Print.emit_list (Print.numeral 16 UINT64_MAX) Sample.booted ∧
  Print.emit_signed (s32 UINT64_MAX) Sample.booted =
    Print.emit_list (Print.signed_numeral (s32 UINT64_MAX)) Sample.booted.
Proof. apply (emit_numbers Sample.booted UINT64_MAX). done. Defined.

Lemma serial_init_result_witness :
  wp (Serial.init 115200) (λ ok s', initialized s' = ok ∧ Serial.only_serial Sample.booted s') Sample.booted ∧
  Serial.init 1 Sample.booted = Ok false Sample.booted ∧
  Serial.init 0 Sample.booted = Ok false Sample.booted.
Proof.
  split_and!; [apply (proj1 (serial_init_result Sample.booted 115200 ltac:(lia)))
              | apply (proj2 (serial_init_result Sample.booted 1 ltac:(lia)))
              | apply (proj2 (serial_init_result Sample.booted 0 ltac:(lia)))]; lia.
Defined.

(** A byte has arrived; and nothing has. *)
Definition one_byte : machine :=
  with_device (Uart.mk_uart 3 0x0F 1 [0x41] []) Sample.booted.

Lemma quiet n : polls n (device Sample.booted) = device Sample.booted.
Proof. induction n as [| n IH]; [done |]. cbn [polls]. by rewrite IH. Qed.

Lemma serial_getc_exact_witness :
  Serial.getc one_byte = Ok 0x41 (with_device (Uart.mk_uart 3 0x0F 1 [] []) one_byte) ∧
  Serial.getc Sample.booted = Ok (-1) Sample.booted ∧
  Serial.getc (with_initialized false Sample.booted) = Ok (-1) (with_initialized false Sample.booted).
Proof.
  split_and!.
  - refine (proj1 (proj2 (serial_getc_exact one_byte 0)) eq_refl eq_refl _). split; [done | lia].
  - rewrite (proj2 (proj2 (serial_getc_exact Sample.booted 0)) eq_refl).
    + by rewrite quiet.
    + intros m _. by rewrite quiet.
  - exact (proj1 (serial_getc_exact (with_initialized false Sample.booted) 0) eq_refl).
Defined.

Lemma serial_write_down_witness :
  Serial.write (Some "hello"%string) (with_initialized false Sample.booted) =
    Ok tt (with_initialized false Sample.booted).
Proof. apply serial_write_down. done. Defined.

Lemma serial_init_up_witness :
  wp (Serial.init 9600) (λ ok s', ok = true ∧ Serial.only_serial Sample.booted s' ∧ up s' ∧
    sent (device s') = [] ∧ line_of (device s') = mk_line 0x03 0x0F 12 []) Sample.booted.
Proof. exact (serial_init_up Sample.booted 9600 ltac:(lia) ltac:(done)). Defined.

Lemma kprintf_exact_witness :
  wp (Print.kprintf (Some ("x=%d" ++ String char_nl "")%string) [va_int (-5)])
    (λ _ s', transmitted Sample.booted [120; 61; 45; 53; 13; 10] s') Sample.booted ∧
  faults (Print.kprintf (Some "a%l"%string) [])
    (λ s', transmitted Sample.booted [97; 37; 108; 0] s') Sample.booted ∧
  faults (Print.kprintf (Some "%u %s"%string) [va_int 7])
    (λ s', transmitted Sample.booted [55; 32] s') Sample.booted.
Proof.
  split_and!.
  - exact (proj2 (kprintf_exact Sample.booted ("x=%d" ++ String char_nl "")%string [va_int (-5)]
      Sample.booted_up eq_refl)).
  - exact (proj2 (kprintf_exact Sample.booted "a%l"%string [] Sample.booted_up eq_refl)).
  - exact (proj2 (kprintf_exact Sample.booted "%u %s"%string [va_int 7] Sample.booted_up eq_refl)).
Defined.

Lemma serial_write_sends_witness :
  wp (Serial.write (Some "ok"%string)) (λ _ s', transmitted Sample.booted [111; 107] s') Sample.booted.
Proof. apply (serial_write_sends Sample.booted "ok"). exact Sample.booted_up. Defined.
