(* ===== verification/Packed.v ===== *)
(** The packed structures the processor reads, byte by byte: a gate of the
    interrupt table (src/src/arch/x86_64/idt.hpp) and the operands of [lgdt] and
    [lidt] (gdt.cpp, idt.hpp).

    A packed structure is the concatenation of its fields, least significant
    byte first.  The processor's side takes the bytes as one number and finds
    its fields at fixed bits. *)

From Stdlib Require Import ZArith Lia.
From stdpp Require Import base numbers list.
From S2P Require Import Prelude Descriptors.
Local Open Scope Z_scope.

Module Packed.

(** ** Little-endian numbers *)

Fixpoint le (n : nat) (v : Z) : list Z :=
  match n with O => [] | S n' => v mod 256 :: le n' (v / 256) end.

Definition number (l : list Z) : Z := foldr (λ b acc, b + 256 * acc) 0 l.

Lemma le_length n v : List.length (le n v) = n.
Proof. revert v. induction n as [| n IH]; intros v; simpl; [done | by rewrite IH]. Qed.

Lemma number_le n : ∀ v, 0 <= v < 256 ^ Z.of_nat n → number (le n v) = v.
Proof.
  induction n as [| n IH]; intros v Hv; simpl in *; [lia |]. fold (number (le n (v / 256))).
  rewrite Nat2Z.inj_succ, Z.pow_succ_r in Hv by lia.
  rewrite IH by (split; [apply Z.div_pos; lia | apply Z.div_lt_upper_bound; lia]).
  pose proof (Z.div_mod v 256). lia.
Qed.

Lemma number_app l1 l2 : number (l1 ++ l2) = number l1 + 256 ^ Z.of_nat (List.length l1) * number l2.
Proof.
  induction l1 as [| b l1 IH]; [unfold number at 2; simpl; lia |].
  cbn [app number foldr List.length]. fold (number (l1 ++ l2)) (number l1).
  rewrite IH, Nat2Z.inj_succ, Z.pow_succ_r by lia. lia.
Qed.

(** ** The structures *)

Definition entry_bytes (e : Idt.Entry) : list Z :=
  le 2 (Idt.offset_low e) ++ le 2 (Idt.selector e) ++ le 1 (Idt.ist e) ++ le 1 (Idt.type_attr e) ++
  le 2 (Idt.offset_mid e) ++ le 4 (Idt.offset_high e) ++ le 4 (Idt.zero e).

Definition gdt_pointer_bytes (p : Gdt.GdtPointer) : list Z :=
  le 2 (Gdt.gp_limit p) ++ le 8 (Gdt.gp_base p).

Definition idt_pointer_bytes (p : Idt.Pointer) : list Z :=
  le 2 (Idt.limit p) ++ le 8 (Idt.base p).

(** ** What the processor reads *)

(** Bits [first] to [first + width - 1] of a number. *)
Definition field (first width : Z) (n : Z) : Z := (n / 2 ^ first) mod 2 ^ width.

(** A long-mode gate: where it leads, the selector, the stack table index, the
    type, the privilege level and the present bit. *)
Record hw_gate := mk_hw_gate {
  hw_offset : Z; hw_selector : Z; hw_ist : Z; hw_type : Z; hw_dpl : Z; hw_present : Z
}.

Definition decode_gate (bytes : list Z) : hw_gate :=
  let n := number bytes in
  mk_hw_gate (field 0 16 n + 2 ^ 16 * field 48 16 n + 2 ^ 32 * field 64 32 n)
    (field 16 16 n) (field 32 3 n) (field 40 4 n) (field 45 2 n) (field 47 1 n).

(** The limit and the base of a table. *)
Definition decode_table (bytes : list Z) : Z * Z :=
  let n := number bytes in (field 0 16 n, field 16 64 n).

Lemma entry_number low sel ist attr mid high :
  0 <= low < 65536 → 0 <= sel < 65536 → 0 <= ist < 256 → 0 <= attr < 256 → 0 <= mid < 65536 →
  0 <= high < 4294967296 →
  number (entry_bytes (Idt.mk_entry low sel ist attr mid high 0)) =
    low + 2 ^ 16 * (sel + 2 ^ 16 * (ist + 2 ^ 8 * (attr + 2 ^ 8 * (mid + 2 ^ 16 * high)))).
Proof.
  intros. unfold entry_bytes. cbn [Idt.offset_low Idt.selector Idt.ist Idt.type_attr Idt.offset_mid
    Idt.offset_high Idt.zero]. rewrite !number_app, !le_length, !number_le by (simpl; lia).
  simpl. lia.
Qed.

Lemma pointer_number limit base : 0 <= limit < 65536 → is_u64 base →
  decode_table (le 2 limit ++ le 8 base) = (limit, base).
Proof.
  intros Hl Hb. unfold decode_table, field, is_u64, two64 in *.
  rewrite number_app, le_length, !number_le by (simpl; lia).
  change (256 ^ Z.of_nat 2) with 65536. change (2 ^ 0) with 1. change (2 ^ 16) with 65536.
  change (2 ^ 64) with 18446744073709551616. rewrite Z.div_1_r. f_equal; dlia.
Qed.

Lemma make_entry_bytes handler sel ist attr :
  is_u64 handler → 0 <= sel < 65536 → 0 <= ist < 8 → 0 <= attr < 256 →
  decode_gate (entry_bytes (Idt.make_entry handler sel ist attr)) =
    mk_hw_gate handler sel ist (attr mod 16) ((attr / 32) mod 4) (attr / 128).
Proof.
  intros Hh Hs Hi Ha. unfold Idt.make_entry, is_u64, two64 in *. autorewrite with masks.
  rewrite !Z.shiftr_div_pow2 by lia. unfold u8, u16, u32.
  change (2 ^ 16) with 65536. change (2 ^ 32) with 4294967296.
  assert ((ist mod 8) mod 256 = ist) as -> by dlia.
  unfold decode_gate. rewrite entry_number by dlia. unfold field.
  set (low := (handler mod 65536) mod 65536). set (mid := (handler / 65536) mod 65536 mod 65536).
  set (high := (handler / 4294967296) mod 4294967296 mod 4294967296).
  assert (low + 65536 * mid + 4294967296 * high = handler ∧ 0 <= low < 65536 ∧ 0 <= mid < 65536 ∧
    0 <= high < 4294967296) as (Hsum & Hlow & Hmid & Hhigh) by (unfold low, mid, high; dlia).
  clearbody low mid high.
  change (2 ^ 0) with 1. change (2 ^ 16) with 65536. change (2 ^ 48) with 281474976710656.
  change (2 ^ 64) with 18446744073709551616. change (2 ^ 32) with 4294967296. change (2 ^ 3) with 8.
  change (2 ^ 40) with 1099511627776. change (2 ^ 4) with 16. change (2 ^ 45) with 35184372088832.
  change (2 ^ 2) with 4. change (2 ^ 47) with 140737488355328. change (2 ^ 1) with 2. change (2 ^ 8) with 256.
  f_equal; clear Hh; dlia.
Qed.

End Packed.
