(* ===== verification/CpuTheorems.v ===== *)
(** The theorems about descriptors, gates, the interrupt frame and the
    exception report. *)

From Stdlib Require Import ZArith Lia Ascii String.
From stdpp Require Import base numbers list gmap sets fin_sets.
From S2P Require Import Prelude Descriptors Machine Serial Print Console Cpu Report Packed Pmm PmmInv PmmInit PmmSpec Paging Mmu Vmm VmmInv Sample.
Local Open Scope Z_scope.

(** ** Segment descriptors *)

(** The fields of a descriptor, where the processor finds them. *)
Definition base_of (d : Z) : Z := (d / 2 ^ 16) mod 2 ^ 24 + 2 ^ 24 * (d / 2 ^ 56).
Definition limit_of (d : Z) : Z := d mod 2 ^ 16 + 2 ^ 16 * ((d / 2 ^ 48) mod 16).
Definition access_of (d : Z) : Z := (d / 2 ^ 40) mod 256.
Definition flags_of (d : Z) : Z := (d / 2 ^ 52) mod 16.

Lemma make_descriptor_sum base limit access flags :
  0 <= base < 2 ^ 32 → 0 <= limit < 2 ^ 20 → 0 <= access < 256 → 0 <= flags < 16 →
  Gdt.make_descriptor base limit access flags =
    limit mod 2 ^ 16 + 2 ^ 16 * (base mod 2 ^ 24) + 2 ^ 40 * access +
    2 ^ 48 * (limit / 2 ^ 16) + 2 ^ 52 * flags + 2 ^ 56 * (base / 2 ^ 24).
Proof.
  intros Hb Hl Ha Hf. unfold Gdt.make_descriptor. autorewrite with masks.
  rewrite !Z.shiftr_div_pow2, !Z.shiftl_mul_pow2 by lia.
  rewrite (Z.mod_small (limit / 2 ^ 16)), (Z.mod_small flags), (Z.mod_small (base / 2 ^ 24)) by dlia.
  rewrite !u64_small by (unfold is_u64; dlia). rewrite Z.lor_0_l.
  rewrite (lor_low_add (limit mod 65536) _ 16) by dlia.
  rewrite (lor_low_add _ (access * 2 ^ 40) 40) by dlia.
  rewrite (lor_low_add _ (limit / 2 ^ 16 * 2 ^ 48) 48) by dlia.
  rewrite (lor_low_add _ (flags * 2 ^ 52) 52) by dlia.
  rewrite (lor_low_add _ (base / 2 ^ 24 * 2 ^ 56) 56) by dlia. dlia.
Qed.

(** [make_descriptor] puts base, limit, access byte and flags where the
    processor looks for them, with nothing lost and no field running into
    another. *)
Theorem descriptor_fields base limit access flags :
  0 <= base < 2 ^ 32 → 0 <= limit < 2 ^ 20 → 0 <= access < 256 → 0 <= flags < 16 →
  let d := Gdt.make_descriptor base limit access flags in
  base_of d = base ∧ limit_of d = limit ∧ access_of d = access ∧ flags_of d = flags ∧ is_u64 d.
Proof.
  intros Hb Hl Ha Hf d. subst d. rewrite make_descriptor_sum by done.
  unfold base_of, limit_of, access_of, flags_of, is_u64. split_and!; dlia.
Qed.

(** What a selector needs: the privilege level in its low bits, and an entry of
    the table with the right type. *)
Definition descriptor_at (t : list Z) (sel : Z) : option Z := t !! Z.to_nat (sel / 8).
Definition present (d : Z) : bool := Z.testbit (access_of d) 7.
Definition ring (d : Z) : Z := (access_of d / 32) mod 4.
Definition code64 (d : Z) : bool :=
  Z.testbit (access_of d) 4 && Z.testbit (access_of d) 3 &&
  Z.testbit (flags_of d) 1 && negb (Z.testbit (flags_of d) 2).
Definition accessed (d : Z) : bool := Z.testbit (access_of d) 0.
Definition data_writable (d : Z) : bool :=
  Z.testbit (access_of d) 4 && negb (Z.testbit (access_of d) 3) && Z.testbit (access_of d) 1.

Definition good_code (t : list Z) (sel dpl : Z) : bool :=
  match descriptor_at t sel with
  | Some d => present d && (ring d =? dpl) && code64 d
  | None => false
  end.
Definition good_data (t : list Z) (sel dpl : Z) : bool :=
  match descriptor_at t sel with
  | Some d => present d && (ring d =? dpl) && data_writable d
  | None => false
  end.

(** ** Gates *)

(** Where a gate sends the processor. *)
Definition gate_offset (e : Idt.Entry) : Z :=
  Idt.offset_low e + 2 ^ 16 * Idt.offset_mid e + 2 ^ 32 * Idt.offset_high e.

Lemma make_entry_offset handler sel ist attr : is_u64 handler →
  gate_offset (Idt.make_entry handler sel ist attr) = handler.
Proof.
  intros Hu. unfold gate_offset, Idt.make_entry, is_u64 in *. cbn [Idt.offset_low Idt.offset_mid Idt.offset_high].
  autorewrite with masks. rewrite !Z.shiftr_div_pow2 by lia. unfold u16, u32. dlia.
Qed.

Section WithDevice.
Context {PD : PortDevice}.
Implicit Types s : machine.

(** C26: after [gdt::init] every segment register holds a selector of the new
    table whose descriptor, in the table as the processor leaves it, is present,
    of ring 0 and of the right kind, the
    operand of [lgdt], read from its packed bytes, covers exactly the five
    entries, the FS and GS bases are 0 and no other MSR has changed, and the user
    selectors are the ones SYSRET derives from one base.  The loads have set the
    Accessed bit of the two kernel descriptors and changed nothing else of the
    table. *)
Theorem gdt_init_segments s address : is_u64 address → gdt_table s = Gdt.gdt →
  wp (Cpu.gdt_init address) (λ _ s', ∃ c t, s' = with_gdt_table t (with_cpu c s) ∧
    Packed.decode_table (Packed.gdt_pointer_bytes (gdtr c)) = (39, address) ∧
    idtr c = idtr (cpu s) ∧ cr3 c = cr3 (cpu s) ∧
    good_code t (seg_cs c) 0 = true ∧
    Forall (λ sel, good_data t sel 0 = true) [seg_ds c; seg_es c; seg_fs c; seg_gs c; seg_ss c] ∧
    msrs c !! Cpu.kFsBaseMsr = Some 0 ∧ msrs c !! Cpu.kGsBaseMsr = Some 0 ∧
    (∀ r, r ∉ [Cpu.kFsBaseMsr; Cpu.kGsBaseMsr] → msrs c !! r = msrs (cpu s) !! r) ∧
    good_code t Gdt.kUserCodeSelector 3 = true ∧ good_data t Gdt.kUserDataSelector 3 = true ∧
    (∃ star, Gdt.kUserDataSelector = star + 8 ∧ Gdt.kUserCodeSelector = star + 16) ∧
    accessed <$> t = [false; true; true; false; false] ∧
    (λ d, Z.clearbit d 40) <$> t = Gdt.gdt) s.
Proof.
  intros Ha Ht. unfold Cpu.gdt_init, Cpu.on_cpu, Cpu.mark_accessed. wp_steps. simpl. rewrite Ht.
  eexists _, _. split; [reflexivity |].
  split; [by apply Packed.pointer_number |]. split_and!; try reflexivity; simpl.
  - by repeat constructor.
  - by rewrite lookup_insert_ne, lookup_insert_eq.
  - by rewrite lookup_insert_eq.
  - intros r Hr. by rewrite !lookup_insert_ne by (intros <-; apply Hr; set_solver).
  - by exists 0x10.
Qed.

(** *** The interrupt table *)

(** The table [idt::init] leaves. *)
Definition gates (stubs : Z → Z) (t : list Idt.Entry) : Prop :=
  List.length t = 256%nat ∧
  (∀ i, 0 <= i < 32 → ∃ e, t !! Z.to_nat i = Some e ∧ gate_offset e = stubs i ∧
     Packed.decode_gate (Packed.entry_bytes e) =
       Packed.mk_hw_gate (stubs i) Gdt.kKernelCodeSelector 0 14 0 1) ∧
  (∀ i, 32 <= i < 256 → ∃ e, t !! Z.to_nat i = Some e ∧
     Packed.hw_present (Packed.decode_gate (Packed.entry_bytes e)) = 0).

Lemma wp_idt_init s stubs address (Q : unit → machine → Prop) : List.length (idt_table s) = 256%nat →
  (∀ i, is_u64 (stubs i)) →
  (∀ t, gates stubs t → Q tt (with_cpu (Cpu.lidt (Idt.mk_pointer 4095 address) (cpu s)) (with_idt_table t s))) →
  wp (Cpu.idt_init stubs address) Q s.
Proof.
  intros Hlen Hst HQ. unfold Cpu.idt_init. apply wp_bind.
  apply (Cpu.wp_fill_gates (λ _, Idt.empty_entry)); [rewrite Hlen; lia | unfold two64; lia |].
  intros t1 L1 E1 _. apply wp_bind.
  apply (Cpu.wp_fill_gates (λ i, Idt.make_entry (stubs i) Gdt.kKernelCodeSelector 0 0x8E));
    [simpl; lia | unfold two64; lia |].
  cbn [idt_table with_idt_table]. intros t2 L2 E2 H2. apply wp_modify. apply (HQ t2).
  split_and!; [congruence | |].
  - intros i Hi. eexists. rewrite E2 by done.
    split_and!; [done | by apply make_entry_offset | by apply Packed.make_entry_bytes].
  - intros i Hi. exists Idt.empty_entry. rewrite H2 by lia. split; [apply E1; lia | done].
Qed.

(** C25: after [idt::init], read as the processor reads the packed bytes: the
    operand of [lidt] gives the table and a limit that covers its 256 gates; the
    first 32 lead to the 32 stubs through the kernel code segment as present
    ring-0 interrupt gates on the current stack, and the other 224 are not
    present. *)
Theorem idt_init_gates s stubs address : List.length (idt_table s) = 256%nat →
  (∀ i, is_u64 (stubs i)) → is_u64 address →
  wp (Cpu.idt_init stubs address) (λ _ s',
    Packed.decode_table (Packed.idt_pointer_bytes (idtr (cpu s'))) = (4095, address) ∧
    gates stubs (idt_table s')) s.
Proof.
  intros Hlen Hst Ha. apply wp_idt_init; [done.. |]. intros t Ht. split; [| done].
  by apply Packed.pointer_number.
Qed.

End WithDevice.

(** ** The interrupt frame *)

Import Interrupts.

(** What the processor pushes before it enters the gate of a vector. *)
Definition pushes_error_code (v : Z) : bool :=
  (v =? 8) || ((10 <=? v) && (v <=? 14)) || (v =? 17) || (v =? 21) || (v =? 29) || (v =? 30).

Definition delivery (v err : Z) (ip c fl sp st : Z) (stack : list Z) : list Z :=
  (if pushes_error_code v then [err] else []) ++ [ip; c; fl; sp; st] ++ stack.

Lemma isr_error_iff v : 0 <= v < 32 → v ∈ isr_error ↔ pushes_error_code v = true.
Proof.
  intros Hv. unfold isr_error. rewrite !elem_of_cons, elem_of_nil. unfold pushes_error_code. lia.
Qed.

(** For each of the 32 exceptions, the stub and [isr_common] leave on the
    stack exactly the [InterruptFrame] that [isr_handler] reads: the vector,
    the error code or 0, the return state and every register in its field; and
    the way back restores every register and finds the return state for
    [iretq]. *)
Theorem interrupt_frame_layout v err ip c fl sp st stack g : 0 <= v < 32 →
  let at_handler := isr_common_push g (isr_stub v (delivery v err ip c fl sp st stack)) in
  frame_at at_handler =
    Some (mk_frame (g_r15 g) (g_r14 g) (g_r13 g) (g_r12 g) (g_r11 g) (g_r10 g) (g_r9 g) (g_r8 g)
            (g_rbp g) (g_rdi g) (g_rsi g) (g_rdx g) (g_rcx g) (g_rbx g) (g_rax g)
            v (if pushes_error_code v then err else 0) ip c fl sp st) ∧
  isr_common_pop at_handler = Some (g, [ip; c; fl; sp; st] ++ stack).
Proof.
  intros Hv at_handler. subst at_handler. unfold isr_stub, delivery.
  pose proof (isr_error_iff v Hv) as Hi. destruct g.
  case_decide as Hd; [rewrite (proj1 Hi Hd); done |].
  destruct (pushes_error_code v); [tauto | done].
Qed.

(** The stubs of isr.S cover the 32 exception vectors, each once. *)
Theorem stubs_partition : isr_error ++ isr_no_error ≡ₚ seqZ 0 32.
Proof. by apply (bool_decide_unpack _). Qed.

(** ** The exception report *)

Section Transmission.
Context `{RG : Registers}.
Implicit Types s : machine.

(** [isr_handler] sends the complete report of the exception, then stops
    the CPU: it never returns to the code that faulted. *)
Theorem isr_handler_reports s f : up s → output_sink s = Some serial_putc →
  halts (isr_handler f) (λ s', transmitted s (wire (report f (cr2 (cpu s)))) s') s.
Proof.
  intros Hup Hk. destruct (ends_isr_handler (CN := wire_console) f s) as (s' & Hr & Hs & Hd & [[_ Ho] _]);
    [by split |]. by exists s'.
Qed.

End Transmission.

(** ** The hypotheses hold on the sample machine *)

#[local] Existing Instance Uart.uart_device.
#[local] Existing Instance Uart.uart_transmitter.
#[local] Existing Instance Uart.uart_registers.

Lemma descriptor_fields_witness :
  let d := Gdt.make_descriptor 0x12345678 0xFFFFF 0x9A 0xA in
  base_of d = 0x12345678 ∧ limit_of d = 0xFFFFF ∧ access_of d = 0x9A ∧ flags_of d = 0xA ∧ is_u64 d.
Proof. apply (descriptor_fields 0x12345678 0xFFFFF 0x9A 0xA); lia. Defined.

Definition sample_idt : machine := with_idt_table (replicate 256 Idt.empty_entry) Sample.booted.
Definition sample_stubs (i : Z) : Z := u64 (0xFFFFFFFF80001000 + 16 * i).

Lemma gdt_init_segments_witness :
  wp (Cpu.gdt_init 0xFFFFFFFF80003000) (λ _ s',
    Packed.decode_table (Packed.gdt_pointer_bytes (gdtr (cpu s'))) = (39, 0xFFFFFFFF80003000) ∧
    good_code (gdt_table s') (seg_cs (cpu s')) 0 = true ∧
    good_data (gdt_table s') (seg_ss (cpu s')) 0 = true) Sample.booted.
Proof.
  eapply wp_mono; [exact (gdt_init_segments Sample.booted 0xFFFFFFFF80003000 ltac:(done) eq_refl) |].
  intros ? s' (c & t & -> & H1 & _ & _ & H2 & H3 & _). split_and!; [exact H1 | exact H2 |].
  by do 4 apply Forall_inv_tail in H3; apply Forall_inv in H3.
Defined.

Lemma idt_init_gates_witness :
  wp (Cpu.idt_init sample_stubs 0xFFFFFFFF80003000) (λ _ s',
    Packed.decode_table (Packed.idt_pointer_bytes (idtr (cpu s'))) = (4095, 0xFFFFFFFF80003000) ∧
    gates sample_stubs (idt_table s')) sample_idt.
Proof.
  apply (idt_init_gates sample_idt sample_stubs 0xFFFFFFFF80003000); [done | | done].
  intros i. apply u64_range.
Defined.

Lemma interrupt_frame_layout_witness :
  let g := mk_regs 1 2 3 4 5 6 7 8 9 10 11 12 13 14 15 in
  let at_handler := isr_common_push g (isr_stub 14 (delivery 14 2 0x1000 8 0x202 0x8000 16 [])) in
  frame_at at_handler =
    Some (mk_frame 15 14 13 12 11 10 9 8 7 6 5 4 3 2 1 14 2 0x1000 8 0x202 0x8000 16) ∧
  isr_common_pop at_handler = Some (g, [0x1000; 8; 0x202; 0x8000; 16]).
Proof.
  apply (interrupt_frame_layout 14 2 0x1000 8 0x202 0x8000 16 []
    (mk_regs 1 2 3 4 5 6 7 8 9 10 11 12 13 14 15)). lia.
Defined.

Definition sample_frame : InterruptFrame :=
  mk_frame 15 14 13 12 11 10 9 8 7 6 5 4 3 2 1 14 2 0x1000 8 0x202 0x8000 16.

Lemma isr_handler_reports_witness :
  halts (isr_handler sample_frame)
    (λ s', transmitted Sample.booted (wire (report sample_frame 0)) s') Sample.booted.
Proof.
  apply (isr_handler_reports Sample.booted sample_frame); [exact Sample.booted_up | done].
Defined.
