(* ===== verification/Isr.v ===== *)
(** The entry and exit code of exceptions, instruction by instruction:
    src/src/arch/x86_64/isr.S.

    The processor is reduced to the general registers, RFLAGS, CS, SS and the
    64-bit words of memory; the position in the code is the list of instructions
    still to run.  [isr_handler] is compiled C++: the call runs a function of the
    state, which keeps what the System V ABI makes a callee keep.  The stack the
    code builds is the list of words of [Cpu.Interrupts]. *)

From Stdlib Require Import ZArith Lia Ascii String.
From stdpp Require Import base numbers list gmap.
From S2P Require Import Prelude Descriptors Machine Serial Print Console Cpu Report Paging Sample CpuTheorems.
Import Interrupts.
Local Open Scope Z_scope.

Module Isr.

(** ** The processor *)

Inductive reg :=
  RAX | RBX | RCX | RDX | RSI | RDI | RBP | RSP | R8 | R9 | R10 | R11 | R12 | R13 | R14 | R15.
#[global] Instance reg_eq_dec : EqDecision reg.
Proof. solve_decision. Defined.

Record core := mk_core {
  gpr : reg → Z;
  flags : Z;
  code_segment : Z;
  stack_segment : Z;
  mem : Z → Z
}.

Definition set_reg (r : reg) (v : Z) (c : core) : core :=
  mk_core (λ q, if decide (q = r) then v else gpr c q) (flags c) (code_segment c) (stack_segment c) (mem c).
Definition set_flags (f : Z) (c : core) : core :=
  mk_core (gpr c) f (code_segment c) (stack_segment c) (mem c).
Definition set_segments (code stack : Z) (c : core) : core :=
  mk_core (gpr c) (flags c) code stack (mem c).
Definition store (a w : Z) (c : core) : core :=
  mk_core (gpr c) (flags c) (code_segment c) (stack_segment c) (λ x, if decide (x = a) then w else mem c x).

Definition push (w : Z) (c : core) : core :=
  let sp := (gpr c RSP - 8)%u64 in store sp w (set_reg RSP sp c).
Definition pop (r : reg) (c : core) : core :=
  let sp := gpr c RSP in set_reg r (mem c sp) (set_reg RSP (sp + 8)%u64 c).

(** The bits of RFLAGS the code and the gates touch. *)
Definition flag_direction : Z := 0x400.
Definition flag_status : Z := 0x8D5.

(** An exception through an interrupt gate without a stack of its own: the
    stack pointer is aligned, the interrupted state is pushed with the image
    [fl] of RFLAGS, then the error code if the vector has one; TF, IF, NT, RF and
    VM are cleared. *)
Definition flag_gate : Z := 0x34300.
Definition deliver (v err fl rip selector : Z) (c : core) : core :=
  let sp := gpr c RSP in
  let c1 := push rip (push (code_segment c) (push fl (push sp (push (stack_segment c)
              (set_reg RSP (Z.ldiff sp 15) c))))) in
  let c2 := if pushes_error_code v then push err c1 else c1 in
  set_flags (Z.ldiff (flags c) flag_gate) (set_segments selector (stack_segment c) c2).

(** ** The code *)

Inductive label := isr_stub_ (vector : Z) | isr_common_.

Inductive instr :=
| pushq_imm (imm : Z) | pushq (r : reg) | popq (r : reg)
| movq (src dst : reg) | andq_imm (imm : Z) (dst : reg) | addq_imm (imm : Z) (dst : reg)
| cld | jmp (l : label) | call_isr_handler | iretq.

Definition ISR_NO_ERROR (vector : Z) : list instr :=
  [pushq_imm 0; pushq_imm vector; jmp isr_common_].
Definition ISR_ERROR (vector : Z) : list instr :=
  [pushq_imm vector; jmp isr_common_].

Definition isr_common : list instr :=
  [cld;
   pushq RAX; pushq RBX; pushq RCX; pushq RDX; pushq RSI; pushq RDI; pushq RBP;
   pushq R8; pushq R9; pushq R10; pushq R11; pushq R12; pushq R13; pushq R14; pushq R15;
   movq RSP RBX;
   andq_imm (-16) RSP;
   movq RBX RDI;
   call_isr_handler;
   movq RBX RSP;
   popq R15; popq R14; popq R13; popq R12; popq R11; popq R10; popq R9; popq R8;
   popq RBP; popq RDI; popq RSI; popq RDX; popq RCX; popq RBX; popq RAX;
   addq_imm 16 RSP;
   iretq].

(** The code at a label: the macros are expanded for two lists of vectors. *)
Definition code_of (l : label) : option (list instr) :=
  match l with
  | isr_stub_ v =>
      if decide (v ∈ isr_error) then Some (ISR_ERROR v)
      else if decide (v ∈ isr_no_error) then Some (ISR_NO_ERROR v) else None
  | isr_common_ => Some isr_common
  end.

Definition isr_stub_table : list label :=
  [isr_stub_ 0; isr_stub_ 1; isr_stub_ 2; isr_stub_ 3; isr_stub_ 4; isr_stub_ 5; isr_stub_ 6;
   isr_stub_ 7; isr_stub_ 8; isr_stub_ 9; isr_stub_ 10; isr_stub_ 11; isr_stub_ 12; isr_stub_ 13;
   isr_stub_ 14; isr_stub_ 15; isr_stub_ 16; isr_stub_ 17; isr_stub_ 18; isr_stub_ 19; isr_stub_ 20;
   isr_stub_ 21; isr_stub_ 22; isr_stub_ 23; isr_stub_ 24; isr_stub_ 25; isr_stub_ 26; isr_stub_ 27;
   isr_stub_ 28; isr_stub_ 29; isr_stub_ 30; isr_stub_ 31].

(** ** Running *)

(** [Resume] is the return to interrupted code at [rip]; [Never] a call that
    does not return; [Undefined] control that leaves the code. *)
Inductive next :=
| Next (c : core) (code : list instr)
| Resume (c : core) (rip : Z)
| Never
| Undefined.

Section Run.
(** The compiled [isr_handler], the status bits an arithmetic instruction
    leaves, and the address after the call. *)
Context (handler : core → option core) (alu : instr → core → Z) (return_address : Z).

Definition with_status (i : instr) (c0 c : core) : core :=
  set_flags (Z.lor (Z.ldiff (flags c) flag_status) (Z.land (alu i c0) flag_status)) c.

Definition step (c : core) (code : list instr) : next :=
  match code with
  | [] => Undefined
  | pushq_imm n :: k => Next (push (u64 n) c) k
  | pushq r :: k => Next (push (gpr c r) c) k
  | popq r :: k => Next (pop r c) k
  | movq src dst :: k => Next (set_reg dst (gpr c src) c) k
  | (andq_imm n dst as i) :: k =>
      Next (with_status i c (set_reg dst (Z.land (gpr c dst) (u64 n)) c)) k
  | (addq_imm n dst as i) :: k =>
      Next (with_status i c (set_reg dst (gpr c dst + n)%u64 c)) k
  | cld :: k => Next (set_flags (Z.ldiff (flags c) flag_direction) c) k
  | jmp l :: _ => match code_of l with Some k => Next c k | None => Undefined end
  | call_isr_handler :: k =>
      match handler (push return_address c) with Some c' => Next c' k | None => Never end
  | iretq :: _ =>
      let sp := gpr c RSP in
      let word i := mem c (u64 (sp + 8 * i)) in
      Resume (set_reg RSP (word 3) (set_flags (word 2) (set_segments (word 1) (word 4) c))) (word 0)
  end.

(** At most [n] instructions. *)
Fixpoint run (n : nat) (c : core) (code : list instr) : next :=
  match n with
  | O => Next c code
  | S n' => match step c code with Next c' k => run n' c' k | r => r end
  end.

End Run.

(** The struct [isr_handler] is given a pointer to, field by field. *)
Definition frame_read (m : Z → Z) (p : Z) : InterruptFrame :=
  let field i := m (p + 8 * i) in
  mk_frame (field 0) (field 1) (field 2) (field 3) (field 4) (field 5) (field 6) (field 7)
    (field 8) (field 9) (field 10) (field 11) (field 12) (field 13) (field 14)
    (field 15) (field 16) (field 17) (field 18) (field 19) (field 20) (field 21).

(** ** The stack, word by word *)

(** The words from [p] on, lowest address first. *)
Definition stack_is (m : Z → Z) (p : Z) (ws : list Z) : Prop :=
  ∀ i w, ws !! i = Some w → m (p + 8 * Z.of_nat i) = w.

Lemma stack_is_cons m p w ws : stack_is m p (w :: ws) ↔ m p = w ∧ stack_is m (p + 8) ws.
Proof.
  split.
  - intros H. split; [by rewrite <- (H 0%nat w eq_refl), Z.mul_0_r, Z.add_0_r |].
    intros i x Hi. rewrite <- (H (S i) x Hi). f_equal. lia.
  - intros [<- H] [| i] x Hi; simpl in Hi.
    + injection Hi as <-. f_equal. lia.
    + rewrite <- (H i x Hi). f_equal. lia.
Qed.

Lemma frame_read_at m p ws f : stack_is m p ws → frame_at ws = Some f → frame_read m p = f.
Proof.
  intros H Hf. do 22 (destruct ws as [| ? ws]; [done |]). injection Hf as <-.
  unfold frame_read. cbv zeta. f_equal;
    lazymatch goal with |- m (p + 8 * ?k) = _ => exact (H (Z.to_nat k) _ eq_refl) end.
Qed.

(** [c'] is [c] with the words [ws] on a stack that started at [a], and RFLAGS
    [f]: nothing at or above [a] has changed. *)
Record stacked (c : core) (a f : Z) (ws : list Z) (c' : core) : Prop := {
  st_rsp : gpr c' RSP = a - 8 * Z.of_nat (List.length ws);
  st_room : 0 <= a - 8 * Z.of_nat (List.length ws) ∧ a < two64;
  st_gpr : ∀ r, r ≠ RSP → gpr c' r = gpr c r;
  st_mem : ∀ x, a <= x → mem c' x = mem c x;
  st_words : stack_is (mem c') (a - 8 * Z.of_nat (List.length ws)) ws;
  st_flags : flags c' = f
}.

Lemma stacked_push c a f ws c' w : stacked c a f ws c' →
  8 * Z.of_nat (S (List.length ws)) <= a → stacked c a f (w :: ws) (push w c').
Proof.
  intros [Hs Hr Hg Hm Hw Hf] Ha. unfold push. cbn [List.length].
  rewrite Hs, u64_small by (unfold is_u64, two64 in *; lia).
  replace (a - 8 * Z.of_nat (List.length ws) - 8) with (a - 8 * Z.of_nat (S (List.length ws))) by lia.
  split; cbn [store set_reg gpr mem flags List.length]; [done | lia | | | | done].
  - intros r Hr'. rewrite decide_False by done. auto.
  - intros x Hx. rewrite decide_False by lia. auto.
  - apply stack_is_cons. rewrite decide_True by done. split; [done |]. intros i x Hi.
    rewrite decide_False by lia. rewrite <- (Hw i x Hi). f_equal. lia.
Qed.

Lemma stacked_flags c a f f' ws c' : stacked c a f ws c' → stacked c a f' ws (set_flags f' c').
Proof. intros [Hs Hr Hg Hm Hw Hf]. by split. Qed.

Lemma stacked_segments c a f ws c' x y : stacked c a f ws c' → stacked c a f ws (set_segments x y c').
Proof. intros [Hs Hr Hg Hm Hw Hf]. by split. Qed.

(** The stack pointer rounded down to a multiple of 16. *)
Lemma ldiff_15 x : Z.ldiff x 15 = x - x mod 16.
Proof.
  change 15 with (Z.ones 4). rewrite Z.ldiff_ones_r, Z.shiftl_mul_pow2, Z.shiftr_div_pow2 by lia.
  change (2 ^ 4) with 16. dlia.
Qed.

(** The room an exception needs below the interrupted stack pointer: the frame
    and the return address of the handler. *)
Definition room (c : core) : Prop := 192 <= gpr c RSP < two64.

Lemma stacked_deliver v err fl rip selector c : room c →
  stacked c (Z.ldiff (gpr c RSP) 15) (Z.ldiff (flags c) flag_gate)
    (delivery v err rip (code_segment c) fl (gpr c RSP) (stack_segment c) [])
    (deliver v err fl rip selector c).
Proof.
  intros [Hlo Hhi]. set (a := Z.ldiff (gpr c RSP) 15).
  assert (192 <= a < two64) as Ha.
  { subst a. rewrite ldiff_15. unfold two64 in *. dlia. }
  assert (stacked c a (flags c) [] (set_reg RSP a c)) as H0.
  { split; simpl; [lia | unfold two64 in *; lia | | done | by intros ? ? ? | done].
    intros r Hr. by rewrite decide_False. }
  unfold deliver, delivery. apply stacked_flags with (flags c), stacked_segments.
  assert (stacked c a (flags c) [rip; code_segment c; fl; gpr c RSP; stack_segment c]
    (push rip (push (code_segment c) (push fl (push (gpr c RSP) (push (stack_segment c)
       (set_reg RSP a c))))))) as H5.
  { do 5 (apply stacked_push; [| simpl; lia]). done. }
  destruct (pushes_error_code v); [apply stacked_push; [| simpl; lia] |]; done.
Qed.

(** ** Entry *)

(** The registers the list of words holds. *)
Definition regs_of (c : core) : registers :=
  mk_regs (gpr c RAX) (gpr c RBX) (gpr c RCX) (gpr c RDX) (gpr c RSI) (gpr c RDI) (gpr c RBP)
    (gpr c R8) (gpr c R9) (gpr c R10) (gpr c R11) (gpr c R12) (gpr c R13) (gpr c R14) (gpr c R15).

(** The stack an exception leads to, and where it ends up. *)
Definition entry_stack (v err fl rip : Z) (c : core) : list Z :=
  isr_common_push (regs_of c)
    (isr_stub v (delivery v err rip (code_segment c) fl (gpr c RSP) (stack_segment c) [])).
Definition frame_pointer (c : core) : Z := Z.ldiff (gpr c RSP) 15 - 176.

(** The state in which [isr_handler] is called. *)
Record entered (v err fl rip : Z) (c c1 : core) : Prop := {
  en_rdi : gpr c1 RDI = frame_pointer c;
  en_rbx : gpr c1 RBX = frame_pointer c;
  en_rsp : gpr c1 RSP = frame_pointer c;
  en_frame : stack_is (mem c1) (frame_pointer c) (entry_stack v err fl rip c);
  en_mem : ∀ x, gpr c RSP <= x → mem c1 x = mem c x;
  en_direction : Z.testbit (flags c1) 10 = false;
  en_interrupts : Z.testbit (flags c1) 9 = false
}.

(** The instructions before the call: the stub, then nineteen of
    [isr_common]; and those after it. *)
Definition entry_steps (v : Z) : nat := if pushes_error_code v then 21 else 22.
Definition isr_exit : list instr := skipn 20 isr_common.

Lemma frame_pointer_bounds c : room c →
  16 <= frame_pointer c ∧ frame_pointer c + 176 <= gpr c RSP ∧ frame_pointer c mod 16 = 0 ∧
  is_u64 (frame_pointer c).
Proof.
  intros [Hlo Hhi]. unfold frame_pointer, is_u64, two64 in *. rewrite ldiff_15. split_and!; dlia.
Qed.

Lemma entry_stack_length v err fl rip c : 0 <= v < 32 →
  List.length (entry_stack v err fl rip c) = 22%nat.
Proof.
  intros Hv. unfold entry_stack, isr_stub, delivery. pose proof (isr_error_iff v Hv) as Hi.
  case_decide as Hd; [by rewrite (proj1 Hi Hd) |]. destruct (pushes_error_code v); [tauto | done].
Qed.

(** Rounding the stack pointer down. *)
Lemma land_minus_16 x : is_u64 x → x mod 16 = 0 → Z.land x (u64 (-16)) = x.
Proof.
  intros Hu Hx. rewrite land_u64_r by done. change (-16) with (Z.lnot 15).
  rewrite <- Z.ldiff_land, ldiff_15. lia.
Qed.

Section Running.
Context (handler : core → option core) (alu : instr → core → Z) (return_address : Z).
Local Abbreviation run := (run handler alu return_address).

(** One instruction. *)
Lemma run_step n c code c' k : step handler alu return_address c code = Next c' k →
  run (S n) c code = run n c' k.
Proof. intros H. cbn [Isr.run]. by rewrite H. Qed.

Lemma run_pushq (P : next → Prop) c a f ws c' n r k : stacked c a f ws c' → r ≠ RSP →
  8 * Z.of_nat (S (List.length ws)) <= a →
  (∀ c'', stacked c a f (gpr c r :: ws) c'' → P (run n c'' k)) →
  P (run (S n) c' (pushq r :: k)).
Proof.
  intros Hs Hr Ha HP. erewrite run_step by reflexivity. rewrite (st_gpr _ _ _ _ _ Hs r Hr).
  by apply HP, stacked_push.
Qed.

Lemma run_pushq_imm (P : next → Prop) c a f ws c' n v k : stacked c a f ws c' → is_u64 v →
  8 * Z.of_nat (S (List.length ws)) <= a →
  (∀ c'', stacked c a f (v :: ws) c'' → P (run n c'' k)) →
  P (run (S n) c' (pushq_imm v :: k)).
Proof.
  intros Hs Hv Ha HP. erewrite run_step by reflexivity. rewrite u64_small by done. by apply HP, stacked_push.
Qed.

(** [isr_common] up to the call. *)
Lemma run_common (P : next → Prop) c a f ws c' n : stacked c a f ws c' →
  List.length ws = 7%nat → a mod 16 = 0 → 192 <= a → Z.testbit f 9 = false →
  (∀ c1, gpr c1 RDI = a - 176 → gpr c1 RBX = a - 176 → gpr c1 RSP = a - 176 →
     stack_is (mem c1) (a - 176) (isr_common_push (regs_of c) ws) →
     (∀ x, a <= x → mem c1 x = mem c x) →
     Z.testbit (flags c1) 10 = false → Z.testbit (flags c1) 9 = false →
     P (run n c1 (call_isr_handler :: isr_exit))) →
  P (run (19 + n) c' isr_common).
Proof.
  intros Hs Hlen Ha16 Ha Hf9 HP. unfold isr_common. cbn [Nat.add].
  erewrite run_step by reflexivity. rewrite (st_flags _ _ _ _ _ Hs).
  apply (stacked_flags c a f (Z.ldiff f flag_direction)) in Hs. revert Hs.
  generalize (set_flags (Z.ldiff f flag_direction) c'). clear c'. intros c' Hs.
  do 15 (eapply run_pushq; [exact Hs | done | simpl; lia |]; clear c' Hs; intros c' Hs).
  destruct Hs as [Hsp Hroom _ Hm Hw Hf]. cbn [List.length] in *. rewrite Hlen in *.
  change (8 * Z.of_nat 22) with 176 in *. do 3 (erewrite run_step by reflexivity). apply HP.
  - cbn. by rewrite Hsp.
  - cbn. by rewrite Hsp.
  - cbn. rewrite Hsp. apply land_minus_16; [unfold is_u64, two64 in *; lia | dlia].
  - exact Hw.
  - exact Hm.
  - cbn. rewrite Hf. by rewrite Z.lor_spec, Z.land_spec, !Z.ldiff_spec, !andb_false_r.
  - cbn. rewrite Hf. by rewrite Z.lor_spec, Z.land_spec, !Z.ldiff_spec, Hf9, !andb_false_r.
Qed.

(** From the delivery to the call. *)
Lemma run_entry (P : next → Prop) v err fl rip selector c n : 0 <= v < 32 → room c →
  (∀ c1, entered v err fl rip c c1 → P (run n c1 (call_isr_handler :: isr_exit))) →
  ∃ code, code_of (isr_stub_ v) = Some code ∧
    P (run (entry_steps v + n) (deliver v err fl rip selector c) code).
Proof.
  intros Hv Hroom HP. pose proof (stacked_deliver v err fl rip selector c Hroom) as Hs.
  pose proof (frame_pointer_bounds c Hroom) as (Hp & Hle & H16 & _). unfold frame_pointer in *.
  assert (∀ ws c', ws = isr_stub v (delivery v err rip (code_segment c) fl (gpr c RSP) (stack_segment c) []) →
    stacked c (Z.ldiff (gpr c RSP) 15) (Z.ldiff (flags c) flag_gate) ws c' →
    P (run (19 + n) c' isr_common)) as Hcommon.
  { intros ws c' -> Hs'. pose proof (entry_stack_length v err fl rip c Hv) as Hlen.
    eapply run_common; [exact Hs' | by injection Hlen | dlia | lia | |].
    - by rewrite Z.ldiff_spec, andb_false_r.
    - intros c1 H1 H2 H3 H4 H5 H6 H7. apply HP. split; try done. intros x Hx. apply H5.
      rewrite ldiff_15. dlia. }
  unfold code_of, entry_steps. pose proof (isr_error_iff v Hv) as Hi. unfold isr_stub in Hcommon.
  assert (is_u64 v) as Hvu by (unfold is_u64, two64; lia).
  case_decide as Hd.
  - eexists. split; [done |]. rewrite (proj1 Hi Hd). unfold ISR_ERROR. cbn [Nat.add].
    unfold delivery in *. rewrite (proj1 Hi Hd) in *.
    eapply run_pushq_imm; [exact Hs | done | simpl; lia |]. intros c' Hs'.
    erewrite run_step by reflexivity. by eapply Hcommon.
  - rewrite decide_True.
    2:{ assert (v ∈ isr_error ++ isr_no_error) as Hin by (rewrite stubs_partition, elem_of_seqZ; lia).
        rewrite elem_of_app in Hin. tauto. }
    assert (pushes_error_code v = false) as Hn by (destruct (pushes_error_code v); [tauto | done]).
    eexists. split; [done |]. unfold delivery, ISR_NO_ERROR in *. rewrite Hn in *. cbn [Nat.add].
    eapply run_pushq_imm; [exact Hs | done | simpl; lia |]. clear Hs. intros c' Hs.
    eapply run_pushq_imm; [exact Hs | done | simpl; lia |]. clear c' Hs. intros c' Hs.
    erewrite run_step by reflexivity. by eapply Hcommon.
Qed.

(** *** Exit *)

(** The words [ws] are still on the stack at [p]; the registers popped so far
    have the values [vals]. *)
Record popping (m : Z → Z) (p : Z) (ws : list Z) (vals : list (reg * Z)) (c : core) : Prop := {
  po_rsp : gpr c RSP = p;
  po_mem : mem c = m;
  po_room : 0 <= p ∧ p + 8 * Z.of_nat (List.length ws) < two64;
  po_words : stack_is m p ws;
  po_vals : Forall (λ rv, gpr c rv.1 = rv.2) vals
}.

Lemma run_popq (P : next → Prop) m p w ws vals c n r k : popping m p (w :: ws) vals c →
  RSP ∉ r :: vals.*1 → r ∉ vals.*1 →
  (∀ c', popping m (p + 8) ws ((r, w) :: vals) c' → P (run n c' k)) →
  P (run (S n) c (popq r :: k)).
Proof.
  intros [Hs Hm Hr Hw Hv] Hrsp Hnew HP. erewrite run_step by reflexivity. cbn [List.length] in Hr.
  apply stack_is_cons in Hw as [Hw Hws]. apply not_elem_of_cons in Hrsp as [Hne Hrsp]. apply HP.
  unfold pop. split; cbn [set_reg gpr mem].
  - rewrite decide_False, decide_True, Hs by done. apply u64_small. unfold is_u64, two64 in *. lia.
  - done.
  - lia.
  - done.
  - constructor; cbn [fst snd]; [rewrite decide_True by done; by rewrite Hs, Hm |].
    rewrite Forall_forall in Hv |- *. intros [q x] Hin.
    assert (q ∈ vals.*1) as Hq by (apply list_elem_of_fmap; by exists (q, x)). cbn [fst snd].
    rewrite !decide_False by (intros ->; done). exact (Hv _ Hin).
Qed.

(** From the return of the handler to the interrupted code. *)
Lemma run_exit (P : next → Prop) c2 p g x y ip cs fl sp ss n :
  gpr c2 RBX = p → 0 <= p → p + 176 < two64 →
  stack_is (mem c2) p (isr_common_push g [x; y; ip; cs; fl; sp; ss]) →
  (∀ c', regs_of c' = g → gpr c' RSP = sp → flags c' = fl → code_segment c' = cs →
     stack_segment c' = ss → mem c' = mem c2 → P (Resume c' ip)) →
  P (run (18 + n) c2 isr_exit).
Proof.
  intros Hb Hp0 Hp Hw HP. unfold isr_exit. cbn [skipn isr_common Nat.add].
  erewrite run_step by reflexivity. rewrite Hb.
  assert (popping (mem c2) p (isr_common_push g [x; y; ip; cs; fl; sp; ss]) [] (set_reg RSP p c2)) as Hs
    by (split; [done | done | simpl; lia | done | constructor]).
  revert Hs. generalize (set_reg RSP p c2). unfold isr_common_push. intros c Hs.
  do 15 (eapply run_popq; [exact Hs | by apply (bool_decide_unpack _) | by apply (bool_decide_unpack _) |];
    clear c Hs; intros c Hs).
  erewrite run_step by reflexivity. destruct Hs as [Hs Hm Hr Hws Hv]. revert Hs Hr Hws.
  match goal with |- gpr c RSP = ?q → _ => generalize q end. clear p Hb Hp0 Hp Hw. intros p Hs Hr Hws.
  cbn [List.length] in Hr. change (P (step handler alu return_address
    (with_status alu (addq_imm 16 RSP) c (set_reg RSP (gpr c RSP + 16)%u64 c)) [iretq])).
  set (c3 := with_status _ _ _ _).
  assert (gpr c3 RSP = p + 16) as Hsp.
  { subst c3. cbn. rewrite Hs. apply u64_small. unfold is_u64, two64 in *. lia. }
  assert (∀ i w, [ip; cs; fl; sp; ss] !! i = Some w → mem c3 (u64 (p + 16 + 8 * Z.of_nat i)) = w) as Hword.
  { intros i w Hi. apply lookup_lt_Some in Hi as Hlt. simpl in Hlt.
    rewrite u64_small by (unfold is_u64, two64 in *; lia). change (mem c3) with (mem c).
    rewrite Hm, <- (Hws (S (S i)) w Hi). f_equal. lia. }
  cbn [step]. rewrite Hsp, (Hword 0%nat _ eq_refl : mem c3 (u64 (p + 16 + 8 * 0)) = ip),
    (Hword 1%nat _ eq_refl : mem c3 (u64 (p + 16 + 8 * 1)) = cs),
    (Hword 2%nat _ eq_refl : mem c3 (u64 (p + 16 + 8 * 2)) = fl),
    (Hword 3%nat _ eq_refl : mem c3 (u64 (p + 16 + 8 * 3)) = sp),
    (Hword 4%nat _ eq_refl : mem c3 (u64 (p + 16 + 8 * 4)) = ss). apply HP; try done.
  assert (∀ r, r ≠ RSP → gpr (set_reg RSP sp (set_flags fl (set_segments cs ss c3))) r = gpr c r) as Hg.
  { intros r Hne. subst c3. cbn [set_reg set_flags set_segments with_status gpr].
    by rewrite !decide_False. }
  unfold regs_of. rewrite !Hg by done. repeat (apply Forall_cons in Hv as [? Hv]). cbn [fst snd] in *.
  repeat match goal with H : gpr c _ = _ |- _ => rewrite H; clear H end. by destruct g.
Qed.

End Running.
(** ** The theorems *)

(** The frame of an exception: the interrupted state, and the vector with its
    error code or 0. *)
Definition interrupted (v err fl rip : Z) (c : core) : InterruptFrame :=
  mk_frame (gpr c R15) (gpr c R14) (gpr c R13) (gpr c R12) (gpr c R11) (gpr c R10) (gpr c R9) (gpr c R8)
    (gpr c RBP) (gpr c RDI) (gpr c RSI) (gpr c RDX) (gpr c RCX) (gpr c RBX) (gpr c RAX)
    v (if pushes_error_code v then err else 0)
    rip (code_segment c) fl (gpr c RSP) (stack_segment c).

Lemma entered_frame v err fl rip c c1 : 0 <= v < 32 → entered v err fl rip c c1 →
  frame_read (mem c1) (gpr c1 RDI) = interrupted v err fl rip c.
Proof.
  intros Hv [Hdi _ _ Hf _ _ _]. rewrite Hdi. apply (frame_read_at _ _ _ _ Hf).
  by apply (interrupt_frame_layout v err rip _ fl _ _ [] (regs_of c)).
Qed.

(** What the ABI makes [isr_handler] keep when it returns, the return address
    popped, and the frame it was given as it was. *)
Record returns (c c' : core) : Prop := {
  rt_saved : ∀ r, r ∈ [RBX; RBP; R12; R13; R14; R15] → gpr c' r = gpr c r;
  rt_rsp : gpr c' RSP = u64 (gpr c RSP + 8);
  rt_frame : ∀ i, 0 <= i < 22 → mem c' (gpr c RDI + 8 * i) = mem c (gpr c RDI + 8 * i)
}.

(** The call, when the handler returns. *)
Lemma run_call handler alu ra (P : next → Prop) v err fl rip c c1 n :
  0 <= v < 32 → room c → entered v err fl rip c c1 →
  (∀ c0, ∃ c', handler c0 = Some c' ∧ returns c0 c') →
  (∀ c2, gpr c2 RBX = frame_pointer c →
     stack_is (mem c2) (frame_pointer c) (entry_stack v err fl rip c) →
     P (run handler alu ra n c2 isr_exit)) →
  P (run handler alu ra (S n) c1 (call_isr_handler :: isr_exit)).
Proof.
  intros Hv Hroom [Hdi Hbx Hsp Hf _ _ _] Hret HP. pose proof (frame_pointer_bounds c Hroom) as (Hp & _ & _ & Hu).
  destruct (Hret (push ra c1)) as (c2 & Hh & [Hsv _ Hfr]).
  rewrite (run_step handler alu ra n _ _ c2 isr_exit) by (cbn [step]; by rewrite Hh).
  apply HP; [by rewrite Hsv by set_solver |].
  intros i w Hi. apply lookup_lt_Some in Hi as Hlt. rewrite entry_stack_length in Hlt by done.
  rewrite <- (Hf i w Hi). specialize (Hfr (Z.of_nat i) ltac:(lia)).
  change (gpr (push ra c1) RDI) with (gpr c1 RDI) in Hfr. rewrite Hdi in Hfr. rewrite Hfr.
  unfold push. cbn [store mem set_reg]. rewrite decide_False; [done |]. rewrite Hsp.
  rewrite u64_small by (unfold is_u64, two64 in *; lia). lia.
Qed.

Section Theorems.
Context (handler : core → option core) (alu : instr → core → Z) (return_address : Z).

(** C19: whatever code an exception interrupts, the stub of its vector and
    [isr_common] reach the call of [isr_handler] with the stack aligned to 16
    bytes, the direction flag clear and interrupts off, and the pointer they
    pass leads to the [InterruptFrame] of the interrupted state: every
    register in its field, the vector, the error code or 0.  Nothing of the
    interrupted stack has been written. *)
Theorem isr_entry v err fl rip selector c : 0 <= v < 32 → room c →
  ∃ code c1, code_of (isr_stub_ v) = Some code ∧
    run handler alu return_address (entry_steps v) (deliver v err fl rip selector c) code =
      Next c1 (call_isr_handler :: isr_exit) ∧
    frame_read (mem c1) (gpr c1 RDI) = interrupted v err fl rip c ∧
    gpr c1 RSP mod 16 = 0 ∧ gpr c1 RSP <= gpr c1 RDI ∧
    Z.testbit (flags c1) 10 = false ∧ Z.testbit (flags c1) 9 = false ∧
    ∀ x, gpr c RSP <= x → mem c1 x = mem c x.
Proof.
  intros Hv Hroom. pose proof (frame_pointer_bounds c Hroom) as (_ & _ & H16 & _).
  destruct (run_entry handler alu return_address
    (λ r, ∃ c1, r = Next c1 (call_isr_handler :: isr_exit) ∧ entered v err fl rip c c1)
    v err fl rip selector c 0 Hv Hroom) as (code & Ht & c1 & Hrun & He); [by eauto |].
  rewrite Nat.add_0_r in Hrun. exists code, c1. pose proof He as [Hdi _ Hsp _ Hm Hd Hi].
  split_and!; [done | done | by apply entered_frame | congruence | lia | done..].
Qed.

(** C18: when [isr_handler] returns as the ABI has it and leaves the frame
    alone, [isr_common] resumes the interrupted code with every register, the
    flags, both segments and the stack pointer as they were; an exception whose
    handler returns is transparent. *)
Theorem isr_roundtrip v err fl rip selector c : 0 <= v < 32 → room c →
  (∀ c0, ∃ c', handler c0 = Some c' ∧ returns c0 c') →
  ∃ code c', code_of (isr_stub_ v) = Some code ∧
    run handler alu return_address (entry_steps v + 19) (deliver v err fl rip selector c) code =
      Resume c' rip ∧
    (∀ r, gpr c' r = gpr c r) ∧ flags c' = fl ∧
    code_segment c' = code_segment c ∧ stack_segment c' = stack_segment c.
Proof.
  intros Hv Hroom Hret. pose proof (frame_pointer_bounds c Hroom) as (Hp & Hle & _ & Hu).
  set (P r := ∃ c', r = Resume c' rip ∧ (∀ r, gpr c' r = gpr c r) ∧ flags c' = fl ∧
    code_segment c' = code_segment c ∧ stack_segment c' = stack_segment c).
  destruct (run_entry handler alu return_address P v err fl rip selector c 19 Hv Hroom)
    as (code & Ht & c' & H); [| by exists code, c'].
  intros c1 He. apply (run_call handler alu return_address P v err fl rip c c1 18); [done.. |].
  intros c2 Hb Hw.
  assert (∃ x y, entry_stack v err fl rip c = isr_common_push (regs_of c)
    [x; y; rip; code_segment c; fl; gpr c RSP; stack_segment c]) as (x & y & Hst).
  { unfold entry_stack, isr_stub, delivery. pose proof (isr_error_iff v Hv) as Hi.
    case_decide as Hd; [rewrite (proj1 Hi Hd) | destruct (pushes_error_code v); [tauto |]]; eexists _, _; done. }
  rewrite Hst in Hw. destruct Hroom as [_ Hhi]. unfold is_u64, two64 in *.
  apply (run_exit handler alu return_address P c2 _ _ _ _ _ _ _ _ _ 0 Hb ltac:(lia)
    ltac:(unfold two64; lia) Hw).
  intros c' Hg Hsp Hfl Hcs Hss _. exists c'. split_and!; try done.
  injection Hg as E1 E2 E3 E4 E5 E6 E7 E8 E9 E10 E11 E12 E13 E14 E15. by intros [].
Qed.

End Theorems.
(** ** From the gate to the report *)

(** [isr_stub_table[i]], and the code at an address, with [symbol] the
    addresses the linker gave the labels. *)
Definition stub_address (symbol : label → Z) (i : Z) : Z :=
  match isr_stub_table !! Z.to_nat i with Some l => symbol l | None => 0 end.

Definition code_at (symbol : label → Z) (a : Z) : option (list instr) :=
  match list_find (λ l, symbol l = a) isr_stub_table with Some (_, l) => code_of l | None => None end.

Lemma stub_table_lookup v : 0 <= v < 32 → isr_stub_table !! Z.to_nat v = Some (isr_stub_ v).
Proof.
  intros Hv. assert (isr_stub_table = isr_stub_ <$> seqZ 0 32) as -> by reflexivity.
  rewrite list_lookup_fmap, lookup_seqZ_lt by lia. simpl. do 2 f_equal. lia.
Qed.

Lemma code_at_stub symbol v : 0 <= v < 32 →
  (∀ u w, 0 <= u < 32 → 0 <= w < 32 → symbol (isr_stub_ u) = symbol (isr_stub_ w) → u = w) →
  code_at symbol (stub_address symbol v) = code_of (isr_stub_ v).
Proof.
  intros Hv Hinj. unfold stub_address, code_at. rewrite stub_table_lookup by done.
  rewrite (proj2 (list_find_Some (λ l, symbol l = symbol (isr_stub_ v)) isr_stub_table (Z.to_nat v)
    (isr_stub_ v))); [done |].
  split_and!; [by apply stub_table_lookup | done |]. intros j l Hj Hlt He.
  replace j with (Z.to_nat (Z.of_nat j)) in Hj by lia. rewrite stub_table_lookup in Hj by lia.
  injection Hj as <-. apply Hinj in He; lia.
Qed.

Section Path.
Context `{RG : Registers}.
Implicit Types s : machine.

(** C9: from the gate to the report.  After [idt::init] with the addresses of
    isr.S, every exception, at any point of any code with room on its stack,
    goes through its gate to the stub of its vector, which calls [isr_handler]
    with the frame of the interrupted state, and [isr_handler] sends the report
    of exactly that state and stops the CPU. *)
Theorem exception_path handler alu return_address symbol address s :
  List.length (idt_table s) = 256%nat → (∀ l, is_u64 (symbol l)) →
  (∀ u w, 0 <= u < 32 → 0 <= w < 32 → symbol (isr_stub_ u) = symbol (isr_stub_ w) → u = w) →
  up s → output_sink s = Some serial_putc →
  wp (Cpu.idt_init (stub_address symbol) address) (λ _ s',
    ∀ v err fl rip c, 0 <= v < 32 → room c →
    ∃ e code c1, idt_table s' !! Z.to_nat v = Some e ∧ code_at symbol (gate_offset e) = Some code ∧
      run handler alu return_address (entry_steps v) (deliver v err fl rip (Idt.selector e) c) code =
        Next c1 (call_isr_handler :: isr_exit) ∧
      halts (isr_handler (frame_read (mem c1) (gpr c1 RDI)))
        (λ s'', transmitted s' (wire (report (interrupted v err fl rip c) (cr2 (cpu s')))) s'') s') s.
Proof.
  intros Hlen Hu Hinj Hup Hsink. apply wp_idt_init; [done | |].
  { intros i. unfold stub_address. case_match; [apply Hu | by unfold is_u64]. }
  intros t (_ & Hg & _). set (s' := with_cpu _ _). intros v err fl rip c Hv Hroom.
  destruct (Hg v Hv) as (e & He & Hoff & _).
  destruct (run_entry handler alu return_address
    (λ r, ∃ c1, r = Next c1 (call_isr_handler :: isr_exit) ∧ entered v err fl rip c c1)
    v err fl rip (Idt.selector e) c 0 Hv Hroom) as (code & Ht & c1 & Hrun & Hen); [by eauto |].
  rewrite Nat.add_0_r in Hrun. exists e, code, c1.
  split_and!; [done | by rewrite Hoff, code_at_stub | done |].
  rewrite (entered_frame v err fl rip c c1) by done.
  destruct (ends_isr_handler (CN := wire_console) (interrupted v err fl rip c) s')
    as (s2 & Hr & Hs & Hd & [[_ Ho] _]); [by split |]. by exists s2.
Qed.

End Path.

(** ** The hypotheses hold on a concrete processor *)

Module SampleCore.

#[local] Existing Instance Uart.uart_device.
#[local] Existing Instance Uart.uart_transmitter.
#[local] Existing Instance Uart.uart_registers.

Definition regs (r : reg) : Z :=
  match r with
  | RSP => 0x8008 | RAX => 1 | RBX => 2 | RCX => 3 | RDX => 4 | RSI => 5 | RDI => 6 | RBP => 7
  | R8 => 8 | R9 => 9 | R10 => 10 | R11 => 11 | R12 => 12 | R13 => 13 | R14 => 14 | R15 => 15
  end.
Definition before : core := mk_core regs 0x602 8 16 (λ _, 0).

(** A handler that returns, having used the registers it may and the stack
    below its own. *)
Definition handler (c : core) : option core :=
  Some (set_reg RAX 0xAA (set_reg RDI 0xBB (set_reg RSP (u64 (gpr c RSP + 8)) c))).

Definition alu (i : instr) (c : core) : Z := 0x44.

Lemma handler_returns c0 : ∃ c', handler c0 = Some c' ∧ returns c0 c'.
Proof.
  eexists. split; [reflexivity |]. split; [| done | done].
  intros r Hr. cbn [set_reg gpr]. rewrite !decide_False; [done | |..];
    intros ->; revert Hr; by apply (bool_decide_unpack _).
Qed.

Lemma room_before : room before.
Proof. unfold room, two64. simpl. lia. Qed.

Lemma isr_entry_witness : ∃ code c1, code_of (isr_stub_ 14) = Some code ∧
  run handler alu 0 (entry_steps 14) (deliver 14 2 0x10602 0x1000 8 before) code =
    Next c1 (call_isr_handler :: isr_exit) ∧
  frame_read (mem c1) (gpr c1 RDI) =
    mk_frame 15 14 13 12 11 10 9 8 7 6 5 4 3 2 1 14 2 0x1000 8 0x10602 0x8008 16.
Proof.
  destruct (isr_entry handler alu 0 14 2 0x10602 0x1000 8 before) as (code & c1 & H1 & H2 & H3 & _);
    [lia | exact room_before |]. by exists code, c1.
Defined.

Lemma isr_roundtrip_witness : ∃ code c', code_of (isr_stub_ 3) = Some code ∧
  run handler alu 0 (entry_steps 3 + 19) (deliver 3 0 0x602 0x1000 8 before) code = Resume c' 0x1000 ∧
  ∀ r, gpr c' r = regs r.
Proof.
  destruct (isr_roundtrip handler alu 0 3 0 0x602 0x1000 8 before) as (code & c' & H1 & H2 & H3 & _);
    [lia | exact room_before | exact handler_returns |]. by exists code, c'.
Defined.

Definition symbol (l : label) : Z :=
  match l with isr_stub_ v => u64 (0xFFFFFFFF80001000 + 16 * v) | isr_common_ => 0xFFFFFFFF80002000 end.

Lemma exception_path_witness :
  wp (Cpu.idt_init (stub_address symbol) 0xFFFFFFFF80003000) (λ _ s',
    ∃ e code c1, idt_table s' !! 14%nat = Some e ∧ code_at symbol (gate_offset e) = Some code ∧
      run handler alu 0 (entry_steps 14) (deliver 14 2 0x10602 0x1000 (Idt.selector e) before) code =
        Next c1 (call_isr_handler :: isr_exit) ∧
      halts (isr_handler (frame_read (mem c1) (gpr c1 RDI)))
        (λ s'', transmitted s' (wire (report (interrupted 14 2 0x10602 0x1000 before) (cr2 (cpu s')))) s'')
        s') sample_idt.
Proof.
  eapply wp_mono.
  - apply (exception_path handler alu 0 symbol 0xFFFFFFFF80003000 sample_idt).
    + done.
    + intros []; [apply u64_range | done].
    + intros u w Hu Hw. unfold symbol. rewrite !u64_small by (unfold is_u64, two64; lia). lia.
    + exact Sample.booted_up.
    + done.
  - intros ? s' H. apply (H 14 2 0x10602 0x1000 before); [lia | exact room_before].
Defined.

End SampleCore.
End Isr.
