(* ===== verification/BootTheorems.v ===== *)
(** The theorems about the boot sequence: on what a correct boot loader
    delivers, [kmain] reaches its end, with the kernel's address space loaded,
    the framebuffer drawn, its whole log on the wire and no memory written but
    what is usable; on anything it checks for, it says so and stops before it
    touches memory; and on every input it ends, with all state of its type. *)

From Stdlib Require Import ZArith Lia Ascii String.
From stdpp Require Import base numbers list gmap sets fin_sets.
From S2P Require Import Prelude Descriptors Machine Serial Print Console Cpu Report Pmm PmmInv PmmInit PmmBoot PmmSpec Paging Mmu Vmm Boot TypeSafety VmmInv VmmSteps VmmMap VmmRange KernelSpace Screen BootLog BootRun Sample Exhaustion CpuTheorems.
Import Boot Interrupts.
Local Open Scope Z_scope.

(** There is a frame for the PML4. *)
Lemma bootable_root `{PD : PortDevice} s syms info fb entries regions h vb pb phys :
  bootable s syms info fb entries regions h vb pb phys → ∃ f, lowest (initial_free regions phys) f.
Proof.
  intros Hb. apply lowest_exists. intros E. pose proof (bt_tables _ _ _ _ _ _ _ _ _ _ Hb) as Ht.
  rewrite E, size_empty in Ht. unfold tables_needed in Ht.
  pose proof (segment_tables_nonneg _ (kernel_segments_ok _ _ _ (bt_layout _ _ _ _ _ _ _ _ _ _ Hb))).
  lia.
Qed.

Section AnyDevice.
Context {PD : PortDevice}.
Implicit Types s : machine.

(** C6: on what a correct boot loader delivers, [kmain] runs to its end
    whatever the serial device does: every check passes, the memory managers
    come up, CR3 holds a space in which the processor sees exactly the kernel's
    mappings, every pixel of the framebuffer has been drawn through it, and the
    intentional null write has been caught as a page fault at address 0. *)
Theorem kmain_boots s syms info ctx space fb entries regions h vb pb phys :
  bootable s syms info fb entries regions h vb pb phys →
  halts (kmain syms info ctx space) (λ s', ∃ root,
    running root (kernel_segments regions h (kernel_layout syms vb pb)) fb s') s.
Proof.
  intros Hb. destruct (bootable_root _ _ _ _ _ _ _ _ _ _ Hb) as [f Hf].
  destruct (ends_kmain (CN := any_console) s syms info ctx space fb entries regions h vb pb phys (4096 * f))
    as (s' & E & _ & Hs' & _); [done | by exists f |]. exists s'. split; [done |]. by exists (4096 * f).
Qed.

(** C8: a boot keeps to the memory that is there for it.  When [kmain] has run to
    its end, every word that is not in usable memory is as the boot loader left
    it: the kernel's image, its modules, the firmware's tables and the boot
    loader's own data; and of the video memory nothing but the pixels of the
    screen has been written. *)
Theorem kmain_confined s syms info ctx space fb entries regions h vb pb phys :
  bootable s syms info fb entries regions h vb pb phys →
  halts (kmain syms info ctx space) (confined s regions h fb) s.
Proof.
  intros Hb. destruct (bootable_root _ _ _ _ _ _ _ _ _ _ Hb) as [f Hf].
  destruct (ends_kmain (CN := any_console) s syms info ctx space fb entries regions h vb pb phys (4096 * f))
    as (s' & E & _ & _ & Hc); [done | by exists f |]. exact (ex_intro _ s' (conj E Hc)).
Qed.

(** What [kmain] checks before it starts the memory managers. *)
Definition refused (info : Limine) : Prop :=
  base_revision_supported info = false ∨
  framebuffer_response info = None ∨ framebuffer_response info = Some [] ∨
  memmap_response info = None ∨ hhdm_response info = None ∨
  kernel_address_response info = None ∨
  ∃ entries, memmap_response info = Some entries ∧
    (64 < Z.of_nat (List.length entries) ∨ is_Some (unknown_type entries) ∨
     ∃ vb pb, kernel_address_response info = Some (vb, pb) ∧ ~ Exists (has_kernel pb) entries).

Lemma refused_refusal info : refused info → is_Some (refusal info).
Proof.
  unfold refused, refusal, memmap_refusal, base_refusal. intros Href.
  destruct (base_revision_supported info); cbn [negb]; [| done].
  destruct (framebuffer_response info) as [[| fb rest] |]; [done | | done].
  destruct (memmap_response info) as [entries |], (hhdm_response info),
    (kernel_address_response info) as [[vb pb] |]; try done.
  destruct Href as [? | [? | [? | [? | [? | [? | (es & E & Hbad)]]]]]]; try done.
  injection E as ->. destruct (Z.ltb_spec 64 (Z.of_nat (List.length es))); [done |].
  destruct (unknown_type es) eqn:Eu; [done |].
  destruct Hbad as [? | [[? ?] | (vb' & pb' & E1 & E2)]]; [lia | done |].
  simplify_eq. cbn. by rewrite decide_False.
Qed.

(** When the boot loader does not deliver what [kmain] needs, or the
    memory map is too long, has an unknown type or does not contain the kernel,
    [kmain] stops before it has written any memory, drawn anything or loaded
    CR3. *)
Theorem kmain_refuses s syms info ctx space : List.length (idt_table s) = 256%nat → refused info →
  halts (kmain syms info ctx space) (quiet s) s.
Proof.
  intros Hidt [t Ht]%refused_refusal.
  destruct (ends_kmain_refused (CN := any_console) s syms info ctx space t) as (s' & E & _ & Hs'); [done.. |].
  exact (ex_intro _ s' (conj E Hs')).
Qed.

(** C13: every boot ends.  Whatever the boot loader delivers, whatever the memory
    holds and whatever device is behind the ports, no loop of [kmain] or of
    anything it calls runs for ever, and [kmain] does not return: the processor
    stops in one of the kernel's own halts, or faults. *)
Theorem kmain_ends s syms info ctx space :
  well_typed s → symbols_typed syms → limine_typed info → space_typed space →
  ∃ s', kmain syms info ctx space s = Halt s' ∨ kmain syms info ctx space s = Fault s'.
Proof.
  intros Hs Hy Hi Hsp. pose proof (typed_kmain syms info ctx space Hy Hi Hsp s Hs) as H.
  destruct (kmain _ _ _ _ s) as [? ? | s' | s' |]; [by destruct H | by exists s'; auto.. | done].
Qed.

End AnyDevice.

Section WorkingUart.
Context `{RG : Registers}.
Implicit Types s : machine.

(** C7: with a UART that works, the bytes that leave it during a boot are
    exactly the log: the banner, the bases and the segments of the image, the
    memory map and the allocator's figures, the translations of the new tables,
    each with the value expected, and the report of the intentional fault. *)
Theorem kmain_log s syms info ctx space fb entries regions h vb pb phys :
  bootable s syms info fb entries regions h vb pb phys →
  ∃ f, lowest (initial_free regions phys) f ∧
    halts (kmain syms info ctx space) (λ s', sent (device s') = sent (device s) ++
      wire (boot_text syms fb regions h vb pb phys (4096 * f) ctx)) s.
Proof.
  intros Hb. destruct (bootable_root _ _ _ _ _ _ _ _ _ _ Hb) as [f Hf]. exists f. split; [done |].
  destruct (ends_kmain (CN := wire_console) s syms info ctx space fb entries regions h vb pb phys (4096 * f))
    as (s' & E & Hs' & _); [done | by exists f |]. exact (ex_intro _ s' (conj E Hs')).
Qed.


(** C28: with a direct map that is not 2 MiB aligned the kernel's address
    space is refused: [kmain] brings up the allocator, says that the space could
    not be built and stops; CR3, the screen and all memory that is not usable are
    as they were. *)
Theorem kmain_unbuilt s syms info ctx space fb entries regions h vb pb phys :
  delivered info fb entries regions h vb pb → List.length (idt_table s) = 256%nat →
  boot_ok s regions h phys → disjoint_map regions → h mod 2097152 ≠ 0 →
  halts (kmain syms info ctx space) (λ s', cr3 (cpu s') = cr3 (cpu s) ∧ video s' = video s ∧
    (∀ a, ~ in_usable regions h a → cell s' a = cell s a) ∧
    sent (device s') = sent (device s) ++ wire (start_text syms regions h vb pb phys
      (text (line "FATAL: failed to build kernel address space")))) s.
Proof.
  intros Hdl Hidt Hok Hdj Hh.
  destruct (ends_kmain_unbuilt (CN := wire_console) s syms info ctx space fb entries regions h vb pb phys)
    as (s' & E & Hw & Hc & Hv & Hm); [done.. |].
  exact (ex_intro _ s' (conj E (conj Hc (conj Hv (conj Hm Hw))))).
Qed.

(** C29: when the bitmap takes the last usable frame nothing is left for the
    kernel's tables.  With the direct map where the boot loader puts it, its
    indices in the PDPT and in the directory the same, the mapping of its first
    page finds the entry that links frame 0 to itself and is refused: [kmain]
    says that the space could not be built and stops, with CR3 and the screen as
    they were. *)
Theorem kmain_no_frames s syms info ctx space fb entries regions h vb pb phys :
  delivered info fb entries regions h vb pb → List.length (idt_table s) = 256%nat →
  boot_ok s regions h phys → disjoint_map regions → is_u64 (efer s) →
  layout_ok regions h (kernel_layout syms vb pb) → initial_free regions phys = ∅ → 0 < phys →
  (∀ i, 0 <= i < 512 → writable s (h + 8 * i) = true) →
  lidx 3 h = lidx 2 h → lidx 4 h ≠ lidx 3 h →
  halts (kmain syms info ctx space) (λ s', cr3 (cpu s') = cr3 (cpu s) ∧ video s' = video s ∧
    sent (device s') = sent (device s) ++ wire (start_text syms regions h vb pb phys
      (text (line "FATAL: failed to build kernel address space")))) s.
Proof.
  intros Hdl Hidt Hok Hdj Hef Hlo Hfree Hph Hzero E32 N43.
  assert (ends (CN := wire_console) (kmain syms info ctx space) (start_text syms regions h vb pb phys
    (text (line "FATAL: failed to build kernel address space")))
    (λ s', cr3 (cpu s') = cr3 (cpu s) ∧ video s' = video s) s) as (s' & E & Hw & Hc & Hv).
  2:{ exact (ex_intro _ s' (conj E (conj Hc (conj Hv Hw)))). }
  apply (ends_kmain_start s syms info ctx space fb entries); [done.. |].
  intros s7 [Ha7 He7 Hc7 Hv7 _ _ (Hb7 & _ & _ & _ & Hh7) _ (B7 & _ & L7)] U7.
  pose proof Hok as [_ Hpos _ Hal (Hh0 & Hh8 & Hhf) _ _].
  assert (1 <= frames_for (highest_usable regions)) as Hff by (unfold frames_for; dlia).
  apply ends_bind_assoc, ends_silent.
  apply (wp_build_spent s7 space regions h); [| done | by rewrite He7 | | done | done | done |].
  - rewrite Hfree in B7. split; unfold hhdm; rewrite ?Hh7; [done | split; [done | lia] | | rewrite Hb7; dlia].
    intros i Hi. unfold addr_ok, writable. rewrite Ha7. fold (writable s (h + 8 * i)). rewrite Hzero by done. apply Z.eqb_eq. dlia.
  - intros ->. by destruct Hlo as [[? _] _ _ _ _ _].
  - intros s8 s9 Hm8 O9. cbn [negb].
    assert (device s9 = device s7 ∧ same_console s7 s9 ∧ cr3 (cpu s9) = cr3 (cpu s7) ∧ video s9 = video s7)
      as (Hd & Hsc & Hc9 & Hv9) by (rewrite O9; destruct Hm8 as [-> | ->]; by split_and!).
    split; [done |]. eapply ends_mono; [apply ends_bind_l, (ends_fatal s9); [done | by apply (c_up_same s7) | done] |].
    intros s' (_ & _ & Ec & Ev). split; congruence.
Qed.

End WorkingUart.

(** ** The hypotheses hold on the sample machine *)

#[local] Existing Instances Uart.uart_device Uart.uart_transmitter Uart.uart_registers.

Definition sample_entries : list limine_memmap_entry :=
  [mk_entry 0 0x1000 1; mk_entry 0x1000 0x3F000 0; mk_entry 0x40000 0x4000 6;
   mk_entry 0x44000 0x1000 7].

Definition sample_memmap : list Pmm.MemoryRegion :=
  [Pmm.mk_region 0 0x1000 Pmm.Reserved; Pmm.mk_region 0x1000 0x3F000 Pmm.Usable;
   Pmm.mk_region 0x40000 0x4000 Pmm.KernelAndModules;
   Pmm.mk_region 0x44000 0x1000 Pmm.Framebuffer].

Definition sample_fb : limine_framebuffer := mk_fb (Sample.h + 0x44000) 16 16 64.

Definition sample_info : Limine := {|
  base_revision_supported := true;
  framebuffer_response := Some [sample_fb];
  memmap_response := Some sample_entries;
  hhdm_response := Some Sample.h;
  kernel_address_response := Some (0xFFFFFFFF80000000, 0x40000)
|}.

Definition sample_symbols : Symbols := {|
  sym_text_start := 0xFFFFFFFF80001000;
  sym_text_end := 0xFFFFFFFF80001800;
  sym_rodata_start := 0xFFFFFFFF80002000;
  sym_rodata_end := 0xFFFFFFFF80002800;
  sym_data_start := 0xFFFFFFFF80003000;
  sym_data_end := 0xFFFFFFFF80003800;
  sym_requests_start := 0xFFFFFFFF80000000;
  sym_gdt := 0xFFFFFFFF80003000;
  sym_idt := 0xFFFFFFFF80003100;
  sym_isr_stub_table := sample_stubs
|}.

Definition sample_context : FaultContext := {|
  ctx_registers := mk_regs 1 2 3 4 5 6 7 8 9 10 11 12 13 14 15;
  ctx_rip := 0xFFFFFFFF80001234;
  ctx_rflags := 0x202;
  ctx_rsp := 0xFFFF800000008000
|}.

(** The direct map may start at either page. *)
Lemma sample_boot_ok_at h : h = Sample.h ∨ h = Sample.h + 0x1000 →
  boot_ok sample_idt sample_memmap h 0x1000.
Proof.
  intros Hh. split; try done.
  - refine (proj1 (Forall_forall (λ r, usable r → region_wf r) _) _). by repeat constructor.
  - by destruct Hh as [-> | ->].
  - intros r a Hr. revert r Hr.
    refine (proj1 (Forall_forall (λ r, usable r → Pmm.base r <= a → a + 8 <= Pmm.base r + Pmm.length r →
      writable sample_idt (h + a) = true) _) _).
    repeat constructor; intros Hu Ha1 Ha2; try discriminate Hu. simpl in *.
    apply Sample.ram_writable; [done | destruct Hh as [-> | ->]; lia..].
Qed.

Lemma sample_disjoint : disjoint_map sample_memmap.
Proof. simpl. split_and!; try done. Qed.

Lemma sample_boot_tables :
  tables_needed sample_memmap Sample.h (kernel_layout sample_symbols 0xFFFFFFFF80000000 0x40000) <=
    Z.of_nat (size (initial_free sample_memmap 0x1000)).
Proof. vm_compute. discriminate. Qed.

Lemma sample_delivered : delivered sample_info sample_fb sample_entries sample_memmap Sample.h
  0xFFFFFFFF80000000 0x40000.
Proof. split; try done. by exists []. Qed.

Lemma sample_bootable : bootable sample_idt sample_symbols sample_info sample_fb sample_entries
  sample_memmap Sample.h 0xFFFFFFFF80000000 0x40000 0x1000.
Proof.
  split; first [exact sample_delivered | exact sample_boot_tables | done | idtac].
  - split; [apply sample_boot_ok_at; by left | apply sample_disjoint].
  - exists (Pmm.mk_region 0x44000 0x1000 Pmm.Framebuffer). split; [by repeat constructor |]. done.
  - intros x y Hxy. assert (fb_ok sample_fb) as Hf by done.
    destruct (pixel_offset sample_fb x y Hf Hxy) as (-> & H1 & H2).
    change (fb_pitch sample_fb * fb_height sample_fb) with 1024 in H2.
    change (fb_address sample_fb) with (Sample.h + 0x44000). apply Sample.ram_writable; [done | lia..].
Qed.

Lemma kmain_boots_witness :
  halts (kmain sample_symbols sample_info sample_context (Vmm.mk_space 0 0)) (λ s', ∃ root,
    running root (kernel_segments sample_memmap Sample.h
      (kernel_layout sample_symbols 0xFFFFFFFF80000000 0x40000)) sample_fb s') sample_idt.
Proof.
  apply (kmain_boots sample_idt sample_symbols sample_info sample_context (Vmm.mk_space 0 0)
    sample_fb sample_entries sample_memmap Sample.h 0xFFFFFFFF80000000 0x40000 0x1000).
  exact sample_bootable.
Defined.

Lemma kmain_confined_witness :
  halts (kmain sample_symbols sample_info sample_context (Vmm.mk_space 0 0))
    (confined sample_idt sample_memmap Sample.h sample_fb) sample_idt.
Proof.
  apply (kmain_confined sample_idt sample_symbols sample_info sample_context (Vmm.mk_space 0 0)
    sample_fb sample_entries sample_memmap Sample.h 0xFFFFFFFF80000000 0x40000 0x1000).
  exact sample_bootable.
Defined.

Lemma sample_typed : well_typed sample_idt.
Proof.
  split; [done | done | | | done].
  - split; try done. by repeat (apply Forall_cons_2; [done |]).
  - split; [done |]. apply Forall_replicate. done.
Qed.

Lemma sample_limine_typed : limine_typed sample_info.
Proof. split; [intros ? [= <-]; by repeat constructor.. | by intros h [= <-]]. Qed.

Lemma kmain_ends_witness : ∃ s',
  kmain sample_symbols sample_info sample_context (Vmm.mk_space 0 0) sample_idt = Halt s' ∨
  kmain sample_symbols sample_info sample_context (Vmm.mk_space 0 0) sample_idt = Fault s'.
Proof. apply kmain_ends; [exact sample_typed | done | exact sample_limine_typed | done]. Defined.

Lemma kmain_refuses_witness :
  halts (kmain sample_symbols {|
      base_revision_supported := true;
      framebuffer_response := Some [sample_fb];
      memmap_response := None;
      hhdm_response := Some Sample.h;
      kernel_address_response := None
    |} sample_context (Vmm.mk_space 0 0)) (quiet sample_idt) sample_idt.
Proof. apply kmain_refuses; [reflexivity |]. right. right. right. left. reflexivity. Defined.

(** The log of the sample machine. *)
Example sample_log : string_of_list_ascii (boot_text sample_symbols sample_fb sample_memmap Sample.h
  0xFFFFFFFF80000000 0x40000 0x1000 0x2000 sample_context) =
"WaterBuffalo booting
framebuffer acquired
kernel virtual base:  0xffffffff80000000
kernel physical base: 0x0000000000040000
kernel physical base verified
.text:   virt=0xffffffff80001000-0xffffffff80001800 size=2048 phys=0x0000000000041000-0x0000000000041800
.rodata: virt=0xffffffff80002000-0xffffffff80002800 size=2048 phys=0x0000000000042000-0x0000000000042800
.data:   virt=0xffffffff80003000-0xffffffff80003800 size=2048 phys=0x0000000000043000-0x0000000000043800

Memory map:
  0x0000000000000000 - 0x0000000000001000  length=4096  type=RESERVED
  0x0000000000001000 - 0x0000000000040000  length=258048  type=USABLE
  0x0000000000040000 - 0x0000000000044000  length=16384  type=KERNEL_AND_MODULES
  0x0000000000044000 - 0x0000000000045000  length=4096  type=FRAMEBUFFER
Total usable memory: 258048 bytes
PMM:
  highest usable: 0x0000000000040000
  frame count:    64
  bitmap phys:    0x0000000000001000
  bitmap virt:    0xffff800000001000
  bitmap bytes:   8
  bitmap words:   1
  bitmap pages:   1
  free frames:    62
  free memory:    253952 bytes
  bitmap initialized
pml4 physical:   0x0000000000002000
direct map:      0xffff800000001000 -> 0x0000000000001000 (expect 0x1000)
framebuffer:     0xffff800000044000 -> 0x0000000000044000 (expect 0x0000000000044000)
image:           0xffffffff80000000 -> 0x0000000000040000 (expect 0x0000000000040000)
.text:           0xffffffff80001000 -> 0x0000000000041000 (expect 0x0000000000041000)
.data:           0xffffffff80003000 -> 0x0000000000043000 (expect 0x0000000000043000)
loading cr3...
cr3 loaded
done


*** EXCEPTION ***
Vector: 14
Exception: #PF Page Fault
Error code: 0x2
  Present: 0
  Write: 1
  User: 0
  Reserved-bit violation: 0
  Instruction fetch: 0
CR2:    0x0000000000000000
RIP:    0xffffffff80001234
CS:     0x8
RFLAGS: 0x202
RSP:    0xffff800000008000
SS:     0x10
RAX: 0x0000000000000001  RBX: 0x0000000000000002  RCX: 0x0000000000000003
RDX: 0x0000000000000004  RSI: 0x0000000000000005  RDI: 0x0000000000000006
RBP: 0x0000000000000007  R8:  0x0000000000000008  R9:  0x0000000000000009
R10: 0x000000000000000a  R11: 0x000000000000000b  R12: 0x000000000000000c
R13: 0x000000000000000d  R14: 0x000000000000000e  R15: 0x000000000000000f

System halted.
"%string.
Proof. vm_compute. reflexivity. Qed.

Lemma kmain_log_witness : ∃ f, lowest (initial_free sample_memmap 0x1000) f ∧
  halts (kmain sample_symbols sample_info sample_context (Vmm.mk_space 0 0)) (λ s',
    Uart.transmitted (device s') = wire (boot_text sample_symbols sample_fb sample_memmap Sample.h
      0xFFFFFFFF80000000 0x40000 0x1000 (4096 * f) sample_context)) sample_idt.
Proof.
  exact (kmain_log sample_idt sample_symbols sample_info sample_context (Vmm.mk_space 0 0)
    sample_fb sample_entries sample_memmap Sample.h 0xFFFFFFFF80000000 0x40000 0x1000 sample_bootable).
Defined.


(** The sample with its direct map a page higher. *)
Definition shifted_info : Limine := {|
  base_revision_supported := true;
  framebuffer_response := Some [sample_fb];
  memmap_response := Some sample_entries;
  hhdm_response := Some (Sample.h + 0x1000);
  kernel_address_response := Some (0xFFFFFFFF80000000, 0x40000)
|}.

Lemma kmain_unbuilt_witness :
  halts (kmain sample_symbols shifted_info sample_context (Vmm.mk_space 0 0)) (λ s',
    cr3 (cpu s') = 0 ∧ video s' = ∅ ∧
    (∀ a, ~ in_usable sample_memmap (Sample.h + 0x1000) a → cell s' a = cell sample_idt a) ∧
    sent (device s') = sent (device sample_idt) ++ wire (start_text sample_symbols sample_memmap
      (Sample.h + 0x1000) 0xFFFFFFFF80000000 0x40000 0x1000
      (text (line "FATAL: failed to build kernel address space")))) sample_idt.
Proof.
  apply (kmain_unbuilt sample_idt sample_symbols shifted_info sample_context (Vmm.mk_space 0 0)
    sample_fb sample_entries).
  - split; try done. by exists [].
  - done.
  - apply sample_boot_ok_at. by right.
  - exact sample_disjoint.
  - done.
Defined.

(** A machine with one usable frame, which the bitmap takes. *)
Definition tiny_entries : list limine_memmap_entry :=
  [mk_entry 0 0x1000 1; mk_entry 0x1000 0x1000 0; mk_entry 0x40000 0x4000 6;
   mk_entry 0x44000 0x1000 7].

Definition tiny_memmap : list Pmm.MemoryRegion :=
  [Pmm.mk_region 0 0x1000 Pmm.Reserved; Pmm.mk_region 0x1000 0x1000 Pmm.Usable;
   Pmm.mk_region 0x40000 0x4000 Pmm.KernelAndModules;
   Pmm.mk_region 0x44000 0x1000 Pmm.Framebuffer].

Definition tiny_info : Limine := {|
  base_revision_supported := true;
  framebuffer_response := Some [sample_fb];
  memmap_response := Some tiny_entries;
  hhdm_response := Some Sample.h;
  kernel_address_response := Some (0xFFFFFFFF80000000, 0x40000)
|}.

Lemma tiny_boot_ok : boot_ok sample_idt tiny_memmap Sample.h 0x1000.
Proof.
  split; try done.
  - refine (proj1 (Forall_forall (λ r, usable r → region_wf r) _) _). by repeat constructor.
  - intros r a Hr. revert r Hr.
    refine (proj1 (Forall_forall (λ r, usable r → Pmm.base r <= a → a + 8 <= Pmm.base r + Pmm.length r →
      writable sample_idt (Sample.h + a) = true) _) _).
    repeat constructor; intros Hu Ha1 Ha2; try discriminate Hu. simpl in *.
    apply Sample.ram_writable; [done | lia..].
Qed.

Lemma kmain_no_frames_witness :
  halts (kmain sample_symbols tiny_info sample_context (Vmm.mk_space 0 0)) (λ s',
    cr3 (cpu s') = 0 ∧ video s' = ∅ ∧
    sent (device s') = sent (device sample_idt) ++ wire (start_text sample_symbols tiny_memmap
      Sample.h 0xFFFFFFFF80000000 0x40000 0x1000
      (text (line "FATAL: failed to build kernel address space")))) sample_idt.
Proof.
  apply (kmain_no_frames sample_idt sample_symbols tiny_info sample_context (Vmm.mk_space 0 0)
    sample_fb tiny_entries).
  - split; try done. by exists [].
  - done.
  - exact tiny_boot_ok.
  - simpl. split_and!; try done.
  - done.
  - done.
  - vm_compute. reflexivity.
  - lia.
  - intros i Hi. apply Sample.ram_writable; [done | lia..].
  - done.
  - done.
Defined.
