(* ===== verification/Runner.v ===== *)
(** The test framework of the repository, tests/test.hpp and tests/runner.cpp:
    registration, the check macros and the runner that reports and sets the
    exit status.

    A test is a function of the framework's state; the bodies of the tests are
    in [HostTests].  Counters are [int]: [None] is an overflow, which C++ leaves
    undefined. *)

From Stdlib Require Import ZArith Lia Ascii String.
From stdpp Require Import base numbers list.
From S2P Require Import Prelude Descriptors Machine Serial Print.
Local Open Scope Z_scope.

Module Runner.

(** The function-local statics, and what [printf] has written. *)
Record harness := mk_harness { failures : Z; checks : Z; output : list ascii }.

Record Test := mk_test { name : string; fn : harness → option harness }.

(** [++] on an [int]. *)
Definition increment (n : Z) : option Z := if n <? 2147483647 then Some (n + 1) else None.

Definition printf (t : list ascii) (h : harness) : harness :=
  mk_harness (failures h) (checks h) (output h ++ t).

(** The constructor of [Registrar]: the newest test is the head. *)
Definition Registrar (t : Test) (registry : list Test) : list Test := t :: registry.

Definition str (s : string) : list ascii := list_ascii_of_string s.
Definition int (n : Z) : list ascii := Print.signed_numeral n.
Definition newline : list ascii := [char_nl].

Definition fail (file : string) (line : Z) (expr : string) (h : harness) : option harness :=
  f ← increment (failures h);
  Some (printf (str "    FAIL  " ++ str file ++ str ":" ++ int line ++ newline ++
                str "      " ++ str expr ++ newline) (mk_harness f (checks h) (output h))).

Definition fail_str (file : string) (line : Z) (expr got want : string) (h : harness) : option harness :=
  f ← increment (failures h);
  Some (printf (str "    FAIL  " ++ str file ++ str ":" ++ int line ++ newline ++
                str "      " ++ str expr ++ newline ++
                str "      got:  " ++ [ascii_of_nat 34] ++ str got ++ [ascii_of_nat 34] ++ newline ++
                str "      want: " ++ [ascii_of_nat 34] ++ str want ++ [ascii_of_nat 34] ++ newline)
          (mk_harness f (checks h) (output h))).

Definition CHECK (file : string) (line : Z) (expr : string) (holds : bool) (h : harness) : option harness :=
  c ← increment (checks h);
  let h := mk_harness (failures h) c (output h) in
  if negb holds then fail file line expr h else Some h.

Definition CHECK_STREQ (file : string) (line : Z) (expr got want : string) (h : harness) : option harness :=
  c ← increment (checks h);
  let h := mk_harness (failures h) c (output h) in
  if negb (String.eqb got want) then fail_str file line expr got want h else Some h.

(** [%-28s]. *)
Definition pad28 (s : string) : list ascii := str s ++ repeat " "%char (28 - String.length s).

Fixpoint run_tests (registry : list Test) (h : harness) : option harness :=
  match registry with
  | [] => Some h
  | t :: next =>
      let before := failures h in
      h ← fn t h;
      run_tests next (printf (str "  " ++ pad28 (name t) ++ str " " ++
        str (if failures h =? before then "ok" else "FAILED") ++ newline) h)
  end.

Definition plural (n : Z) : string := if n =? 1 then "" else "s".

(** The exit status is [failures() != 0]. *)
Definition run_all (registry : list Test) (h : harness) : option (Z * harness) :=
  let count := Z.of_nat (List.length registry) in
  let h := printf (str "running " ++ int count ++ str " test" ++ str (plural count) ++ newline ++ newline) h in
  h ← run_tests registry h;
  Some (if failures h =? 0 then 0 else 1,
        printf (newline ++ int (checks h) ++ str " checks, " ++ int (failures h) ++ str " failure" ++
                str (plural (failures h)) ++ newline) h).

(** ** What the exit status says *)

(** A body that makes the checks [l], some of which hold. *)
Inductive check := Check (line : Z) (expr : string) (holds : bool) | CheckStr (line : Z) (expr got want : string).
Definition holds (c : check) : bool :=
  match c with Check _ _ b => b | CheckStr _ _ got want => String.eqb got want end.
Definition perform (file : string) (c : check) : harness → option harness :=
  match c with
  | Check line expr b => CHECK file line expr b
  | CheckStr line expr got want => CHECK_STREQ file line expr got want
  end.
Fixpoint body (file : string) (l : list check) (h : harness) : option harness :=
  match l with [] => Some h | c :: rest => h ← perform file c h; body file rest h end.

Definition failed (l : list check) : Z := Z.of_nat (List.length (List.filter (λ c, negb (holds c)) l)).

Lemma failed_cons c l : failed (c :: l) = (if holds c then 0 else 1) + failed l.
Proof. unfold failed. simpl. destruct (holds c); simpl; lia. Qed.

Lemma failed_bounds l : 0 <= failed l <= Z.of_nat (List.length l).
Proof. unfold failed. pose proof (List.filter_length_le (λ c, negb (holds c)) l). lia. Qed.

Lemma failed_perm l l' : l ≡ₚ l' → failed l = failed l'.
Proof. induction 1; rewrite ?failed_cons; lia. Qed.

Lemma failed_zero l : (if failed l =? 0 then 0 else 1) = if forallb holds l then 0 else 1.
Proof.
  induction l as [| c l IH]; [done |]. rewrite failed_cons. simpl. pose proof (failed_bounds l).
  destruct (holds c); simpl; [done |]. destruct (Z.eqb_spec (1 + failed l) 0); lia.
Qed.

Lemma perform_counts file c h : 0 <= failures h → failures h < 2147483647 → checks h < 2147483647 →
  ∃ h', perform file c h = Some h' ∧ checks h' = checks h + 1 ∧
    failures h' = failures h + if holds c then 0 else 1.
Proof.
  intros H0 Hf Hc. destruct c as [line expr b | line expr got want]; simpl;
    [unfold CHECK, fail | unfold CHECK_STREQ, fail_str]; unfold increment.
  all: rewrite (proj2 (Z.ltb_lt _ _) Hc); cbn [mbind option_bind failures checks].
  all: rewrite (proj2 (Z.ltb_lt _ _) Hf); cbn [mbind option_bind].
  - destruct b; eexists; split; try reflexivity; simpl; lia.
  - destruct (String.eqb got want); eexists; split; try reflexivity; simpl; lia.
Qed.

Lemma body_counts file l : ∀ h, 0 <= failures h → failures h + Z.of_nat (List.length l) <= 2147483647 →
  checks h + Z.of_nat (List.length l) <= 2147483647 →
  ∃ h', body file l h = Some h' ∧ checks h' = checks h + Z.of_nat (List.length l) ∧
    failures h' = failures h + failed l.
Proof.
  induction l as [| c l IH]; intros h H0 Hf Hc; simpl List.length in *.
  { exists h. split_and!; [done | lia | unfold failed; simpl; lia]. }
  destruct (perform_counts file c h) as (h1 & E1 & C1 & F1); [lia.. |]. cbn [body]. rewrite E1.
  assert (failures h <= failures h1 <= failures h + 1) by (destruct (holds c); lia).
  destruct (IH h1) as (h2 & E2 & C2 & F2); [lia.. |]. exists h2. cbn [mbind option_bind].
  rewrite failed_cons. split_and!; [done | lia | lia].
Qed.

(** The tests of a file, as the static constructors register them. *)
Definition registered (tests : list (string * string * list check)) : list Test :=
  fold_left (λ r t, Registrar (mk_test t.1.2 (body t.1.1 t.2)) r) tests [].

Lemma registered_rev tests : registered tests =
  rev (map (λ t, mk_test t.1.2 (body t.1.1 t.2)) tests).
Proof.
  unfold registered. rewrite <- (app_nil_r (rev _)). generalize (@nil Test).
  induction tests as [| t tests IH]; intros r; simpl; [done |]. rewrite IH. unfold Registrar.
  by rewrite <- app_assoc.
Qed.

Lemma run_tests_counts tests : ∀ h, 0 <= failures h →
  let l := concat (map snd tests) in
  failures h + Z.of_nat (List.length l) <= 2147483647 → checks h + Z.of_nat (List.length l) <= 2147483647 →
  ∃ h', run_tests (map (λ t : string * string * list check, mk_test t.1.2 (body t.1.1 t.2)) tests) h = Some h' ∧
    checks h' = checks h + Z.of_nat (List.length l) ∧ failures h' = failures h + failed l.
Proof.
  induction tests as [| t tests IH]; intros h H0 l Hf Hc; subst l; cbn [map concat run_tests] in *.
  { exists h. split_and!; [done | simpl; lia | unfold failed; simpl; lia]. }
  rewrite length_app, Nat2Z.inj_add in *. cbn [fn].
  destruct (body_counts t.1.1 t.2 h) as (h1 & E1 & C1 & F1); [lia.. |]. rewrite E1.
  pose proof (failed_bounds t.2). cbn [mbind option_bind].
  match goal with |- context [run_tests _ ?x] => destruct (IH x) as (h2 & E2 & C2 & F2); [simpl; lia.. |] end.
  exists h2. split_and!; [done | simpl in C2; lia |]. simpl in F2. rewrite F2, F1. unfold failed.
  rewrite List.filter_app, length_app. lia.
Qed.

(** The build fails exactly when a check does: the runner executes the checks
    of every test, whatever the order of registration, and its exit status is 0
    if and only if all of them hold. *)
Theorem exit_status tests : let l := concat (map snd tests) in
  Z.of_nat (List.length l) <= 2147483647 →
  ∃ h, run_all (registered tests) (mk_harness 0 0 []) = Some (if forallb holds l then 0 else 1, h) ∧
    checks h = Z.of_nat (List.length l) ∧ failures h = failed l.
Proof.
  intros l Hl. assert (concat (map snd (rev tests)) ≡ₚ l) as Hp.
  { unfold l. rewrite map_rev. by rewrite <- (Permutation_rev (map snd tests)). }
  assert (failed (concat (map snd (rev tests))) = failed l) as Hf.
  { by apply failed_perm. }
  unfold run_all. rewrite registered_rev, <- map_rev.
  match goal with |- context [run_tests _ ?x] =>
    destruct (run_tests_counts (rev tests) x) as (h & E & C & F) end;
    [done | simpl; rewrite Hp; lia | simpl; rewrite Hp; lia |].
  cbn [failures checks printf] in C, F. rewrite Z.add_0_l in C, F. rewrite Hf in F. rewrite E.
  cbn [mbind option_bind]. rewrite F, failed_zero.
  eexists. split; [reflexivity |]. cbn [checks failures printf]. by rewrite C, Hp.
Qed.

End Runner.
