(* ===== verification/HostTests.v ===== *)
(** The repository's own tests, tests/test_pmm.cpp, test_vmm.cpp, test_print.cpp
    and test_string.cpp, run on the model: every check they make holds.

    A test is a computation that returns the conjunction of its checks.  The
    memory is the array [fake_ram] the tests use, at an address of the host. *)

From Stdlib Require Import ZArith Lia Ascii String.
From stdpp Require Import base numbers list gmap.
From S2P Require Import Prelude Descriptors Machine Serial Print Console LibString Pmm Paging Mmu Vmm Sample.
Local Open Scope Z_scope.
#[local] Existing Instance Uart.uart_device.

Module HostTests.

Definition fake_ram : Z := 0x7F0000010000.
Definition hhdm_offset : Z := fake_ram - 0x1000.

(** The process of the tests, with the bytes from [first] to the end of
    [fake_ram] accessible and no sink installed. *)
Definition host (first : Z) : machine :=
  mk_machine (λ a, if (first <=? a) && (a <? fake_ram + 0x10000) then Some true else None) ∅ (mk_pmm 0 0 0 0 0 0 0)
    Sample.reset_cpu Gdt.gdt [] None false ∅ Uart.reset.

Definition passes (test : M bool) (s : machine) : bool :=
  match test s with Ok b _ => b | _ => false end.

Definition faults {A} (m : M A) (s : machine) : bool :=
  match m s with Fault _ => true | _ => false end.

Lemma faults_Fault {A} (m : M A) s : faults m s = true → ∃ s', m s = Fault s'.
Proof. unfold faults. destruct (m s); [done | done | by eexists | done]. Qed.

(** ** tests/test_pmm.cpp *)

Definition pmm_regions : list Pmm.MemoryRegion :=
  [Pmm.mk_region 0 0x1000 Pmm.Reserved; Pmm.mk_region 0x1000 0x1F000 Pmm.Usable;
   Pmm.mk_region 0x20000 0x10000 Pmm.Reserved; Pmm.mk_region 0x30000 0x8000 Pmm.Usable].

Fixpoint alloc_frames (k : nat) : M (list Z) :=
  match k with
  | O => ret []
  | S k' => let! a := Pmm.alloc_frame in let! rest := alloc_frames k' in ret (a :: rest)
  end.

Definition pmm_probe : M bool :=
  Pmm.init pmm_regions hhdm_offset ;;
  let expected := Z.to_nat (0x1F000 / 4096 + 0x8000 / 4096 - 1) in
  let! frames := alloc_frames expected in
  let! none := Pmm.alloc_frame in
  Pmm.free_frame (nth 3 frames 0) ;;
  Pmm.free_frame (nth 10 frames 0) ;;
  Pmm.free_frame (nth 20 frames 0) ;;
  let! again := alloc_frames 3 in
  let! none' := Pmm.alloc_frame in
  ret (forallb (λ f, negb (f =? 0) && (f mod 4096 =? 0)) frames && bool_decide (NoDup frames) &&
       (none =? 0) && forallb (λ f, negb (f =? 0)) again && bool_decide (NoDup again) && (none' =? 0)).

Example pmm_probe_passes : passes pmm_probe (host fake_ram) = true.
Proof. vm_compute. reflexivity. Qed.

(** ** tests/test_vmm.cpp *)

Definition vmm_regions : list Pmm.MemoryRegion := [Pmm.mk_region 0 0x10000 Pmm.Usable].

(** The bitmap goes to physical 0, which is a page before [fake_ram]. *)
Definition with_bitmap : machine := host hhdm_offset.

Example page_entry_encoding :
  let flags := PageFlags.or (PageFlags.or PageFlags.Present PageFlags.Writable) PageFlags.NoExecute in
  let entry := make_page_entry 0x12345000 flags in
  page_entry_address entry = 0x12345000 ∧ page_entry_flags entry = flags.
Proof. done. Qed.

Example decompositions :
  decompose_address 0xffffffff80001000 = mk_va 511 510 0 1 0 ∧
  decompose_address 0xffff800000052000 = mk_va 256 0 0 82 0 ∧
  reassemble_address (decompose_address 0xffffffff80001000) = 0xffffffff80001000 ∧
  reassemble_address (decompose_address 0xffff800000052000) = 0xffff800000052000.
Proof. done. Qed.

Example canonical_addresses :
  forallb is_canonical [0; 0x00007ffffffff000; 0xffff800000000000; 0xffffffff80000000] = true ∧
  existsb is_canonical [0x0000800000000000; 0xffff7ffffffff000] = false.
Proof. done. Qed.

(** A PML4 in a frame of its own, cleared, and then [test] on it. *)
Definition on_pml4 (test : Z → M bool) : M bool :=
  Pmm.init vmm_regions hhdm_offset ;;
  let! phys := Pmm.alloc_frame in
  let! pml4 := Pmm.physical_to_virtual phys in
  for_each 0 kPageTableEntries 1 (λ i, store64 (Vmm.entry_at pml4 i) 0) ;;
  let! ok := test pml4 in
  ret (negb (phys =? UINT64_MAX) && ok).

(** The entry of an address in a table, and the table it leads to. *)
Definition entry_of (table index : Z) : M Z := load64 (Vmm.entry_at table index).
Definition table_of (entry : Z) : M Z := Pmm.physical_to_virtual (page_entry_address entry).

Definition path (pml4 virt : Z) : M (list Z) :=
  let parts := decompose_address virt in
  let! e4 := entry_of pml4 (pml4_index parts) in
  let! pdpt := table_of e4 in
  let! e3 := entry_of pdpt (pdpt_index parts) in
  let! pd := table_of e3 in
  let! e2 := entry_of pd (pd_index parts) in
  let! pt := table_of e2 in
  let! e1 := entry_of pt (pt_index parts) in
  ret [e4; e3; e2; e1].

Definition has (flag entry : Z) : bool := negb (Z.land entry flag =? 0).

Definition map_page_creates_page_table_hierarchy : M bool := on_pml4 (λ pml4,
  let! mapped := Vmm.map_page pml4 0x40000000 0x5000 PageFlags.Writable in
  let! entries := path pml4 0x40000000 in
  ret (mapped && forallb (has PageFlags.Present) entries && forallb (has PageFlags.Writable) entries &&
       (page_entry_address (nth 3 entries 0) =? 0x5000))).

Definition map_page_reuses_existing_page_tables : M bool := on_pml4 (λ pml4,
  let! m1 := Vmm.map_page pml4 0x40000000 0x5000 PageFlags.Writable in
  let! p1 := path pml4 0x40000000 in
  let! m2 := Vmm.map_page pml4 0x40001000 0x6000 PageFlags.Writable in
  let! p2 := path pml4 0x40001000 in
  ret (m1 && m2 && (page_entry_address (nth 2 p1 0) =? page_entry_address (nth 2 p2 0)) &&
       (page_entry_address (nth 3 p1 0) =? 0x5000) && (page_entry_address (nth 3 p2 0) =? 0x6000))).

(** [map_page] on an empty PML4 with arguments it must refuse. *)
Definition refuses (virt phys flags : Z) : M bool := on_pml4 (λ pml4,
  let! ok := Vmm.map_page pml4 virt phys flags in ret (negb ok)).

Definition map_page_rejects_null_pml4 : M bool :=
  let! ok := Vmm.map_page 0 0x40000000 0x5000 PageFlags.Writable in ret (negb ok).

Definition map_page_propagates_user_permission : M bool := on_pml4 (λ pml4,
  let! ok := Vmm.map_page pml4 0x40000000 0x5000 (PageFlags.or PageFlags.Writable PageFlags.User) in
  let! entries := path pml4 0x40000000 in
  ret (ok && forallb (has PageFlags.User) entries)).

Definition map_page_does_not_propagate_nx : M bool := on_pml4 (λ pml4,
  let! ok := Vmm.map_page pml4 0x40000000 0x5000 (PageFlags.or PageFlags.Writable PageFlags.NoExecute) in
  let! entries := path pml4 0x40000000 in
  ret (ok && negb (existsb (has PageFlags.NoExecute) (take 3 entries)) &&
       has PageFlags.NoExecute (nth 3 entries 0))).

Definition map_page_rejects_existing_mapping : M bool := on_pml4 (λ pml4,
  let! m1 := Vmm.map_page pml4 0x40000000 0x5000 PageFlags.Writable in
  let! m2 := Vmm.map_page pml4 0x40000000 0x6000 PageFlags.Writable in
  ret (m1 && negb m2)).

(** A new space, and then [test] in it. *)
Definition in_space (test : Vmm.AddressSpace → M bool) : M bool :=
  Pmm.init vmm_regions hhdm_offset ;;
  let! space := Vmm.create_address_space in
  match space with None => ret false | Some space => test space end.

Definition create_address_space : M bool :=
  in_space (λ space,
    let! r := for_range 0 kPageTableEntries 1 (λ i,
      let! e := load64 (Vmm.entry_at (Vmm.pml4 space) i) in
      ret (if e =? 0 then None else Some tt)) in
    ret (negb (Vmm.pml4 space =? 0) && negb (Vmm.pml4_physical space =? UINT64_MAX) &&
         bool_decide (r = None))).

(** Every pair of a virtual and a physical address translates. *)
Fixpoint translates (space : Vmm.AddressSpace) (pairs : list (Z * Z)) : M bool :=
  match pairs with
  | [] => ret true
  | (virt, phys) :: rest =>
      let! p := Vmm.translate space virt in
      let! ok := translates space rest in
      ret ((p =? phys) && ok)
  end.

Definition pages (virt phys size : Z) : list (Z * Z) :=
  (λ i, (virt + i * size, phys + i * size)) <$> [0; 1; 2; 3].

Definition translate_mapped_page : M bool := in_space (λ space,
  let! ok := Vmm.map_page (Vmm.pml4 space) 0x40000000 0x5000 PageFlags.Writable in
  let! t := translates space [(0x40000000, 0x5000); (0x40000000 + 123, 0x5000 + 123)] in
  ret (ok && t)).

Definition translate_unmapped_page : M bool := in_space (λ space,
  translates space [(0x40000000, 0)]).

Definition map_range_four_pages (virt phys : Z) : M bool := in_space (λ space,
  let! ok := Vmm.map_range space virt phys (4 * kPageSize) PageFlags.Writable in
  let! t := translates space (pages virt phys kPageSize) in
  ret (ok && t)).

Definition map_range_refuses (virt phys size : Z) : M bool := in_space (λ space,
  let! ok := Vmm.map_range space virt phys size PageFlags.Writable in ret (negb ok)).

Definition map_page_large_translates : M bool := in_space (λ space,
  let! ok := Vmm.map_page_large (Vmm.pml4 space) 0x40000000 0x800000 PageFlags.Writable in
  let! t := translates space [(0x40000000, 0x800000); (0x40001000, 0x801000);
    (0x40000000 + 0x1FFFFF, 0x800000 + 0x1FFFFF)] in
  ret (ok && t)).

Definition map_page_large_refuses (virt phys : Z) : M bool := in_space (λ space,
  let! ok := Vmm.map_page_large (Vmm.pml4 space) virt phys PageFlags.Writable in ret (negb ok)).

Definition map_page_rejects_inside_large_page : M bool := in_space (λ space,
  let! m1 := Vmm.map_page_large (Vmm.pml4 space) 0x40000000 0x800000 PageFlags.Writable in
  let! m2 := Vmm.map_page (Vmm.pml4 space) 0x40000000 0x800000 PageFlags.Writable in
  ret (m1 && negb m2)).

Definition map_range_large_maps_multiple_pages : M bool := in_space (λ space,
  let! ok := Vmm.map_range_large space 0x40000000 0x800000 (4 * kLargePageSize) PageFlags.Writable in
  let! t := translates space (pages 0x40000000 0x800000 kLargePageSize) in
  ret (ok && t)).

Example vmm_tests_pass : forallb (λ test, passes test with_bitmap) [
  map_page_creates_page_table_hierarchy;
  map_page_reuses_existing_page_tables;
  map_page_rejects_null_pml4;
  refuses 0x0000800000000000 0x5000 PageFlags.Writable;
  refuses 0x40000001 0x5000 PageFlags.Writable;
  refuses 0x40000000 0x5001 PageFlags.Writable;
  refuses 0x40000000 0x5000 PageFlags.Huge;
  map_page_propagates_user_permission;
  map_page_does_not_propagate_nx;
  map_page_rejects_existing_mapping;
  create_address_space;
  translate_mapped_page;
  translate_unmapped_page;
  map_range_four_pages 0x40000000 0x5000;
  map_range_refuses 0x40000001 0x5000 kPageSize;
  map_range_refuses 0x40000000 0x5001 kPageSize;
  map_range_refuses 0x40000000 0x5000 (kPageSize + 1);
  map_range_refuses 0x40000000 0x5000 0;
  map_range_four_pages (Z.shiftl 510 12) 0x10000;
  map_page_large_translates;
  map_page_large_refuses 0x40001000 0x800000;
  map_page_large_refuses 0x40000000 0x801000;
  map_page_rejects_inside_large_page;
  map_range_large_maps_multiple_pages] = true.
Proof. vm_compute. reflexivity. Qed.

(** In bounds, the tests of the memory manager do not get past [init]: with the
    map they use, the bitmap is at physical 0 and so a page before [fake_ram],
    and the first write to it is outside every object. *)
Theorem vmm_tests_bitmap_outside :
  (∃ s, Pmm.init vmm_regions hhdm_offset (host fake_ram) = Fault s) ∧
  wp (Pmm.init vmm_regions hhdm_offset) (λ _ s, bitmap (pmm s) = fake_ram - 0x1000) with_bitmap.
Proof. split; [apply faults_Fault |]; vm_compute; reflexivity. Qed.

(** ** tests/test_print.cpp *)

(** What arrives at the sink: the text, as no newline is in it. *)
Definition fmt (format : string) (args : list VaArg) : option (list Z) :=
  match Print.kprintf (Some format) args Sample.booted with
  | Ok _ s => Some (Uart.transmitted (device s))
  | _ => None
  end.

Definition prints (format : string) (args : list VaArg) (expected : string) : bool :=
  bool_decide (fmt format args = Some (wire (text expected))).

Example print_tests_pass : forallb id [
  prints "%d" [va_int 0] "0"; prints "%d" [va_int 42] "42"; prints "%d" [va_int (-42)] "-42";
  prints "%d" [va_int (-2147483648)] "-2147483648";
  prints "%ld" [va_int (-9223372036854775808)] "-9223372036854775808";
  prints "%u" [va_int 0] "0"; prints "%u" [va_int 4294967295] "4294967295";
  prints "%lu" [va_int UINT64_MAX] "18446744073709551615";
  prints "%x" [va_int 0] "0"; prints "%x" [va_int 0xdead] "dead";
  prints "%lx" [va_int 0xffffffff80001000] "ffffffff80001000";
  prints "%p" [va_int 0xffffffff80001000] "0xffffffff80001000";
  prints "%p" [va_int 0] "0x0000000000000000";
  prints "%s" [va_str (Some "hello"%string)] "hello"; prints "%s" [va_str None] "(null)";
  prints "%c%c" [va_int 104; va_int 105] "hi";
  prints "no specifiers" [] "no specifiers"; prints "100%%" [] "100%";
  prints "%q" [va_int 1] "%q";
  prints "a %s b %d c" [va_str (Some "X"%string); va_int 7] "a X b 7 c"] = true.
Proof. vm_compute. reflexivity. Qed.

(** ** tests/test_string.cpp *)

(** A buffer of bytes at an address, and what is in one. *)
Definition bytes_at (a : Z) (l : list Z) : gmap Z Z :=
  list_to_map (zip (seqZ a (Z.of_nat (List.length l))) l).
Definition read (a n : Z) (m : gmap Z Z) : option (list Z) := mapM (λ i, m !! i) (seqZ a n).
Definition chars (s : string) : list Z := byte_of <$> text s.

Example memset_fills :
  let b := bytes_at 0x100 (replicate 8 0) in
  ((LibString.memset 0x100 0xAB 8 b) ≫= λ r, read 0x100 8 r.2) = Some (replicate 8 0xAB) ∧
  ((LibString.memset 0x100 0xAB 8 b) ≫= λ r, LibString.memset 0x100 0 0 r.2 ≫= λ r, read 0x100 8 r.2) =
    Some (replicate 8 0xAB).
Proof. done. Qed.

Example memcpy_copies :
  let m := bytes_at 0x100 (chars "abcdef" ++ [0]) ∪ bytes_at 0x200 (replicate 7 0) in
  ((LibString.memcpy 0x200 0x100 7 m) ≫= λ r, read 0x200 7 r.2) = Some (chars "abcdef" ++ [0]).
Proof. done. Qed.

Example memcmp_orders :
  let compare s1 s2 n := LibString.memcmp 0x100 0x200 n (bytes_at 0x100 (chars s1) ∪ bytes_at 0x200 (chars s2)) in
  compare "abc"%string "abc"%string 3 = Some 0 ∧ compare "abc"%string "abd"%string 3 = Some (-1) ∧
  compare "abd"%string "abc"%string 3 = Some 1 ∧ compare "abc"%string "xyz"%string 0 = Some 0.
Proof. done. Qed.

Example memmove_handles_overlap :
  let move dest src n := LibString.memmove dest src n (bytes_at 0x100 (chars "abcdef")) ≫= λ r, read 0x100 6 r.2 in
  move 0x102 0x100 4 = Some (chars "ababcd") ∧ move 0x100 0x102 4 = Some (chars "cdefef") ∧
  move 0x100 0x100 6 = Some (chars "abcdef").
Proof. done. Qed.

End HostTests.
